(* ===== verification/_CoqProject ===== *)
-Q . S2P
Prelude.v
Stream.v
Fifo.v
Packet.v
Files.v
Trust.v
Receive.v
Voting.v
Hash.v
Float32.v
Jhash.v
Text.v
Aspath.v
RouteInfo.v
RouteList.v
RouteCmp.v
RouteOrder.v
RouteSelect.v
RouteSample.v
Prefix.v
Radix.v
Table.v
TableFind.v
TableEdit.v
TableDelete.v
TableSpec.v
BgpTable.v
Checksum.v
Pqueue.v
AspathText.v
AspathOps.v
AspathWire.v
AspathPool.v
Community.v
Session.v
Clear.v
ClearSpec.v
Fsm.v
FsmSpec.v
FsmProps.v
FsmSample.v
Linklist.v
LinklistSpec.v
