(* ===== verification/Prelude.v ===== *)
(** * A verification library for the trust-aware bgpd of Quagga for ns-3

    The repository holds a fork of the Quagga routing suite that runs inside the
    ns-3 simulator (src/quagga-ns3-old) and simulation scripts.  The fork adds
    to bgpd a notion of trust between autonomous systems: neighbours exchange
    TRUST and VOTING messages with every keepalive, keep what they learn in
    small files, and the decision process compares paths by trust before any
    criterion of BGP.  This library models that daemon and the parts of the
    common library it stands on, and proves what makes them correct.

    ** How the program hangs together

    A session (struct peer) is driven by the state machine of bgp_fsm.c: events
    and timers call the event functions, which open and close the connection,
    send messages and clear routes.  Messages are built in a byte stream
    (lib/stream.c), chained in an intrusive queue (struct stream_fifo), checked by
    bgp_read and handed to a handler; for the trust and voting messages the
    handlers update files, and bgp_keepalive_send sends what the files ask for.
    A route is a path (struct bgp_info) on the list of a node (struct bgp_node)
    of a radix tree (bgp_table.c, a copy of lib/table.c); its attributes are
    interned in hash tables (lib/hash.c, lib/jhash.c), among them AS paths
    (bgp_aspath.c) and communities (bgp_community.c).  bgp_process_main selects
    the best path of a node with bgp_best_selection and bgp_info_cmp.  When a
    session ends a work queue visits the nodes and removes its paths, and only
    then may the session start again.

    ** Files

    The shared base:
    - Prelude: outcomes of C code (a value, a failed assertion, or an access to
      memory that is not there), machine integers, arrays, tactics, lemmas.

    Messages and the trust protocol:
    - Stream (lib/stream.c): getters, putters, reads from a descriptor, bounds;
      Fifo (stream_fifo): the queue on a heap of stream objects.
    - Packet (bgp_packet.c): headers and the header checks of bgp_read.
    - Files: the files the trust and voting code keeps its state in, as lists of
      integers, and the fscanf of "%d" into two-octet array elements, executed
      octet by octet.  What lies behind such an array is the compiler's choice:
      it is the parameter [array_slack] of the class [Layout], and [padded]
      (two octets or more) is a hypothesis of what needs these reads to work.
    - Trust: the senders and receivers of the TRUST and VOTING messages and
      bgp_keepalive_send, and the board of requests and votes that specifies them;
      Receive: bgp_read from the socket to the handlers, with its dropped-link
      guard; Voting: the proof that the messages implement the board from sender
      to receiver.

    Attributes:
    - Hash, Jhash (lib/hash.c, lib/jhash.c): tables, hash functions, and the
      interning discipline as a pool of shared values.
    - Text: decimal numbers and string scanning.
    - Aspath, AspathText, AspathOps, AspathWire, AspathPool (bgp_aspath.c):
      segments and their normal form, text, operations, wire form, pool.
    - Community (bgp_community.c): all operations, text form, pool.

    The decision process (bgp_route.c):
    - RouteInfo, RouteList: paths, flags, prefix counts, reference counts, and
      the doubly linked list of a node.
    - Float32: the single precision arithmetic of the trust comparison, exact
      rationals with rounding to 24 bits, infinities and NaN.
    - RouteCmp: bgp_info_cmp, one definition per step; RouteOrder: the
      comparison as a lexicographic order of keys; RouteSelect:
      bgp_best_selection and bgp_process_main; RouteSample: concrete paths.

    Tables:
    - Prefix (lib/prefix.c); Radix: the abstract tree of keys; Table
      (lib/table.c): every function on a heap of nodes; TableFind, TableEdit,
      TableDelete, TableSpec: searching, inserting, deleting, and the
      refinement of a map from prefixes to data; BgpTable (bgp_table.c): the
      same with the counters of bgpd.

    Sessions:
    - Session: struct peer, the macros of bgp_fsm.h, timers, reference count,
      creation; Clear, ClearSpec: bgp_clear_route_all and its work queue; Fsm,
      FsmSpec, FsmProps: bgp_fsm.c, NOTIFICATION sending, peer_delete, the
      reachability relation and its invariant; FsmSample: concrete sessions.  The
      keepalives of the machine are bgp_keepalive_send of Trust, run on the files
      and on toDrop, which the session shares with the rest of the daemon.

    Library data structures:
    - Checksum (lib/checksum.c), Pqueue (lib/pqueue.c), Linklist and
      LinklistSpec (lib/linklist.c and the requeue of lib/workqueue.c).

    ** What the theorems show

    - Trust decides first: the path of the more trusted neighbour wins whatever
      its attributes, votes weigh in as the code computes them; with
      always-compare-med and compare-routerid, without deterministic-med and vote
      results, and for ASes 1 to 10 with readable trust files, the comparison is a
      lexicographic order, the selected path is a maximal one whatever the order
      of the list, and it alone keeps SELECTED.
    - The trust protocol: what bgp_keepalive_send queues, message by message; a
      message built by a sender is accepted by the receiver and does what it
      stands for, unless the receiver drops the link; collected votes reach the
      router that asked.  These need padded frames, files in their form and peers
      with AS numbers 1 to 10.
    - Memory: under any sequence of calls a stream leaves its buffer only in
      stream_put_prefix, and exactly when that is one octet short; queues, lists,
      heaps and trees are well-formed structures that refine queues, sequences,
      multisets and maps, and operations on them do not fault.
    - Wire and text forms: round trips of streams, communities and AS paths (on the
      wire within the limits that splitting and packing respect), and exactly
      which inputs the AS path parser accepts.
    - Sessions: an invariant of every reachable session of a configured peer, the
      transitions that are possible, stopping, deleting, and clearing to the end
      with every lock given back.
    - Where the code does not do what it means to, a theorem states what it does:
      votes of untrusted routers that switch trust off, a session that leaves
      Clearing early or becomes Idle without being stopped, reads and writes past
      a buffer, AS numbers lost when a path is split, packed or reconciled, an
      item requeued into a cycle.

    ** Bounds and fuel

    Integers keep the width of their C type: [u8], [u16], [u32], [u64], [i32].
    Loops over a heap take as fuel the number of its nodes, loops over text its
    length, the walks down a tree its number of nodes, and running out of fuel is
    the outcome [Fault]: the theorems that an operation returns show that the
    fuel is enough.  Deletion up a tree and sifting in a heap take the number of
    nodes and the position as fuel in the same way.

    ** What is not modelled

    UPDATE processing and the RIB commands, the attribute parser, the octets of
    OPEN messages and capabilities, policies (filters, route maps, damping,
    community lists) and advertisement are not modelled yet.  Command line
    handlers, logging, system calls, the memory accounting of lib/memory.c, zebra
    and the other routing daemons are outside the scope: the first are input and
    output, the daemons are unchanged from upstream and not run by the
    simulations.  bgp_read calls the handlers of the messages bgpd had before
    (OPEN, UPDATE and so on); Receive leaves them out, as they do not touch the
    files.  What a modelled function takes from such code (the time, random
    numbers, results of system calls, the hash key of an attribute) is an
    argument of the definition. *)
From stdpp Require Import base option list gmap strings sorting.
From Stdlib Require Import ZArith Lia.

#[global] Open Scope Z_scope.

(** ** Outcomes of C code

    A C function either returns a value, stops the daemon through a failed
    [assert], or touches memory it does not own.  The last case is kept apart
    so that "no fault" is a theorem about the code and not an assumption. *)
Inductive res (A : Type) : Type :=
| Ret (a : A)
| Abort
| Fault.
Arguments Ret {A} a.
Arguments Abort {A}.
Arguments Fault {A}.

#[export] Instance res_ret : MRet res := fun A a => Ret a.
#[export] Instance res_bind : MBind res := fun A B f m =>
  match m with Ret a => f a | Abort => Abort | Fault => Fault end.

#[export] Instance res_eq_dec {A} `{EqDecision A} : EqDecision (res A).
Proof. solve_decision. Defined.

(** C's [assert (b)]. *)
Definition cassert (b : bool) : res unit := if b then Ret tt else Abort.

(** ** Machine integers *)
Definition u8 (z : Z) : Z := z mod 2 ^ 8.
Definition u16 (z : Z) : Z := z mod 2 ^ 16.
Definition u32 (z : Z) : Z := z mod 2 ^ 32.
Definition u64 (z : Z) : Z := z mod 2 ^ 64.

(** [i32] is the value an [int] holds after a wrapping conversion. *)
Definition i32 (z : Z) : Z := (z + 2 ^ 31) mod 2 ^ 32 - 2 ^ 31.

Definition is_u8 (z : Z) : Prop := 0 <= z < 2 ^ 8.
Definition is_u16 (z : Z) : Prop := 0 <= z < 2 ^ 16.
Definition is_u32 (z : Z) : Prop := 0 <= z < 2 ^ 32.

#[export] Instance is_u8_dec z : Decision (is_u8 z).
Proof. unfold is_u8. apply _. Defined.
#[export] Instance is_u16_dec z : Decision (is_u16 z).
Proof. unfold is_u16. apply _. Defined.
#[export] Instance is_u32_dec z : Decision (is_u32 z).
Proof. unfold is_u32. apply _. Defined.

(** Decide a closed decidable proposition by evaluation. *)
Ltac by_eval := apply (bool_decide_unpack _); vm_compute; exact I.

(** ** Arrays

    [zget], [zput], [zload] and [zstore] are C's array accesses: outside the
    allocated block they are a [Fault]. *)
Definition zlen {A} (l : list A) : Z := Z.of_nat (length l).

Definition zget {A} (l : list A) (i : Z) : res A :=
  if i <? 0 then Fault
  else match l !! Z.to_nat i with Some x => Ret x | None => Fault end.

Definition zput {A} (l : list A) (i : Z) (x : A) : res (list A) :=
  if (0 <=? i) && (i <? zlen l) then Ret (<[Z.to_nat i := x]> l) else Fault.

Definition zload {A} (l : list A) (pos n : Z) : res (list A) :=
  if (0 <=? pos) && (0 <=? n) && (pos + n <=? zlen l)
  then Ret (take (Z.to_nat n) (drop (Z.to_nat pos) l)) else Fault.

Definition zstore {A} (l : list A) (pos : Z) (bs : list A) : res (list A) :=
  if (0 <=? pos) && (pos + zlen bs <=? zlen l)
  then Ret (take (Z.to_nat pos) l ++ bs ++ drop (Z.to_nat (pos + zlen bs)) l)
  else Fault.

(** Big-endian value of a byte string: what the network-order getters and
    putters of the code are compared with. *)
Fixpoint be_value (bs : list Z) : Z :=
  match bs with
  | [] => 0
  | b :: r => b * 2 ^ (8 * zlen r) + be_value r
  end.

Fixpoint be_bytes (n : nat) (z : Z) : list Z :=
  match n with
  | O => []
  | S m => u8 (Z.shiftr z (8 * Z.of_nat m)) :: be_bytes m z
  end.

(** ** Automation *)
Create HintDb quagga.

Ltac zify_bool :=
  repeat match goal with
  | H : (_ <? _) = true |- _ => apply Z.ltb_lt in H
  | H : (_ <? _) = false |- _ => apply Z.ltb_ge in H
  | H : (_ <=? _) = true |- _ => apply Z.leb_le in H
  | H : (_ <=? _) = false |- _ => apply Z.leb_gt in H
  | H : (_ =? _) = true |- _ => apply Z.eqb_eq in H
  | H : (_ =? _) = false |- _ => apply Z.eqb_neq in H
  | H : (_ && _)%bool = true |- _ => apply andb_true_iff in H; destruct H
  | H : (_ || _)%bool = false |- _ => apply orb_false_iff in H; destruct H
  end.

Ltac unneg :=
  repeat match goal with
  | H : negb _ = true |- _ => apply negb_true_iff in H
  | H : negb _ = false |- _ => apply negb_false_iff in H
  end.

(** Split the boolean test that blocks the goal, keeping what it says. *)
Ltac case_test :=
  match goal with
  | |- context [ if ?b then _ else _ ] => destruct b eqn:?; zify_bool
  end.

Ltac mod_lia := Z.div_mod_to_equations; lia.
Ltac ndiv_lia := zify; Z.div_mod_to_equations; lia.

(** ** Integer lemmas *)
Lemma u8_range z : is_u8 (u8 z).
Proof. unfold is_u8, u8. apply Z.mod_pos_bound. lia. Qed.

Lemma u16_range z : is_u16 (u16 z).
Proof. unfold is_u16, u16. apply Z.mod_pos_bound. lia. Qed.

Lemma u32_range z : is_u32 (u32 z).
Proof. unfold is_u32, u32. apply Z.mod_pos_bound. lia. Qed.

Lemma u8_id z : is_u8 z -> u8 z = z.
Proof. apply Z.mod_small. Qed.

Lemma u16_id z : is_u16 z -> u16 z = z.
Proof. apply Z.mod_small. Qed.

Lemma u32_id z : is_u32 z -> u32 z = z.
Proof. apply Z.mod_small. Qed.

Lemma u64_id z : 0 <= z < 2 ^ 64 -> u64 z = z.
Proof. apply Z.mod_small. Qed.

#[export] Hint Resolve u8_range u16_range u32_range : quagga.

Lemma is_u8_u16 z : is_u8 z -> is_u16 z.
Proof. unfold is_u8, is_u16. lia. Qed.

Lemma is_u16_u32 z : is_u16 z -> is_u32 z.
Proof. unfold is_u16, is_u32. lia. Qed.

Lemma lor_shiftl_add a b n :
  0 <= n -> 0 <= b < 2 ^ n -> Z.lor (Z.shiftl a n) b = a * 2 ^ n + b.
Proof.
  intros Hn Hb.
  assert (Hland : Z.land (Z.shiftl a n) b = 0).
  { apply Z.bits_inj'. intros i Hi.
    rewrite Z.land_spec, Z.bits_0.
    destruct (Z.lt_ge_cases i n) as [Hlt|Hge].
    - by rewrite Z.shiftl_spec_low.
    - destruct (Z.eq_dec b 0) as [->|]; [by rewrite Z.bits_0, andb_false_r|].
      rewrite (Z.bits_above_log2 b i), andb_false_r; [done|lia|].
      apply Z.log2_lt_pow2; [lia|].
      apply Z.lt_le_trans with (2 ^ n); [lia|].
      apply Z.pow_le_mono_r; lia. }
  pose proof (Z.add_lor_land (Z.shiftl a n) b) as E.
  rewrite Hland, (Z.shiftl_mul_pow2 a n) in * by done. lia.
Qed.

Lemma be_value_range bs :
  Forall is_u8 bs -> 0 <= be_value bs < 2 ^ (8 * zlen bs).
Proof.
  induction 1 as [|b r Hb Hr IH]; simpl; [done|].
  unfold zlen in *; simpl.
  replace (8 * Z.of_nat (S (length r))) with (8 + 8 * Z.of_nat (length r)) by lia.
  rewrite Z.pow_add_r by lia. unfold is_u8 in Hb.
  set (p := 2 ^ (8 * Z.of_nat (length r))) in *. nia.
Qed.

Lemma be_bytes_length n z : length (be_bytes n z) = n.
Proof. induction n; simpl; auto. Qed.

Lemma be_bytes_u8 n z : Forall is_u8 (be_bytes n z).
Proof. induction n; simpl; constructor; auto with quagga. Qed.

#[export] Hint Resolve be_bytes_u8 : quagga.

(** Encoding [n] bytes and decoding them gives the value modulo [2^(8n)]. *)
Lemma be_value_bytes n z : be_value (be_bytes n z) = z mod 2 ^ (8 * Z.of_nat n).
Proof.
  induction n as [|n IH].
  - simpl. by rewrite Z.mod_1_r.
  - cbn [be_bytes be_value]. unfold zlen. rewrite be_bytes_length, IH.
    replace (8 * Z.of_nat (S n)) with (8 * Z.of_nat n + 8) by lia.
    rewrite Z.pow_add_r by lia.
    unfold u8. rewrite Z.shiftr_div_pow2 by lia.
    set (p := 2 ^ (8 * Z.of_nat n)).
    assert (0 < p) by (apply Z.pow_pos_nonneg; lia).
    rewrite (Z.rem_mul_r z p (2 ^ 8)) by lia. lia.
Qed.

(** Decoding bytes and encoding the value gives the bytes back. *)
Lemma be_bytes_add n m z q :
  (m <= n)%nat -> be_bytes m (q * 2 ^ (8 * Z.of_nat n) + z) = be_bytes m z.
Proof.
  induction m as [|m IH]; intros Hm; [done|]. cbn [be_bytes]. rewrite IH by lia. f_equal.
  unfold u8. rewrite !Z.shiftr_div_pow2 by lia.
  replace (8 * Z.of_nat n) with (8 * Z.of_nat (n - S m) + 8 + 8 * Z.of_nat m) by lia.
  rewrite !Z.pow_add_r by lia.
  set (x := 2 ^ (8 * Z.of_nat (n - S m))). set (p := 2 ^ (8 * Z.of_nat m)).
  assert (0 < p) by (apply Z.pow_pos_nonneg; lia).
  replace (q * (x * 2 ^ 8 * p) + z) with (z + (q * x * 2 ^ 8) * p) by ring.
  rewrite Z.div_add by lia. by rewrite Z.add_comm, Z.add_comm, Z_mod_plus_full.
Qed.

Lemma be_bytes_value bs : Forall is_u8 bs -> be_bytes (length bs) (be_value bs) = bs.
Proof.
  induction 1 as [|b r Hb Hr IH]; [done|]. cbn [length be_bytes be_value].
  pose proof (be_value_range r Hr) as Hv. unfold zlen in *.
  rewrite be_bytes_add by done. rewrite IH. f_equal.
  unfold u8. rewrite Z.shiftr_div_pow2 by lia.
  set (p := 2 ^ (8 * Z.of_nat (length r))) in *.
  assert (0 < p) by lia.
  rewrite Z.add_comm, Z.div_add, Z.div_small, Z.add_0_l by lia. by apply u8_id.
Qed.

Lemma be_value_app a b :
  be_value (a ++ b) = be_value a * 2 ^ (8 * zlen b) + be_value b.
Proof.
  induction a as [|x a IH]; simpl; [lia|].
  rewrite IH. unfold zlen. rewrite length_app, Nat2Z.inj_add.
  rewrite Z.mul_add_distr_l, Z.pow_add_r by lia. lia.
Qed.

(** ** Array lemmas *)
Lemma zlen_nonneg {A} (l : list A) : 0 <= zlen l.
Proof. unfold zlen. lia. Qed.

Lemma zlen_app {A} (l k : list A) : zlen (l ++ k) = zlen l + zlen k.
Proof. unfold zlen. rewrite length_app. lia. Qed.

Lemma zlen_cons {A} (x : A) l : zlen (x :: l) = 1 + zlen l.
Proof. unfold zlen. simpl. lia. Qed.

Lemma zlen_nil {A} : zlen (@nil A) = 0.
Proof. done. Qed.

Lemma zlen_replicate {A} n (x : A) : zlen (replicate n x) = Z.of_nat n.
Proof. unfold zlen. by rewrite length_replicate. Qed.

(** Lengths of lists as linear arithmetic. *)
Create Rewrite HintDb zlen.
#[export] Hint Rewrite @zlen_app @zlen_cons @zlen_nil @zlen_replicate : zlen.
Ltac zlen := autorewrite with zlen in *; lia.

Lemma zget_app_r {A} (l k : list A) x i :
  i = zlen l -> zget (l ++ x :: k) i = Ret x.
Proof.
  intros ->. unfold zget, zlen.
  case_test; [lia|]. rewrite Nat2Z.id, list_lookup_middle; done.
Qed.

Lemma zget_lookup {A} (l : list A) (n : nat) x :
  l !! n = Some x -> zget l (Z.of_nat n) = Ret x.
Proof. intros H. unfold zget. case_test; [lia|]. by rewrite Nat2Z.id, H. Qed.

Lemma zget_ok {A} (l : list A) i :
  0 <= i < zlen l -> exists x, zget l i = Ret x /\ l !! Z.to_nat i = Some x.
Proof.
  intros Hi. unfold zget, zlen in *. case_test; [lia|].
  destruct (lookup_lt_is_Some_2 l (Z.to_nat i)) as [x Hx]; [lia|].
  exists x. by rewrite Hx.
Qed.

Lemma zput_ok {A} (l : list A) (n : nat) x :
  (n < length l)%nat -> zput l (Z.of_nat n) x = Ret (<[n := x]> l).
Proof.
  intros Hn. unfold zput, zlen. rewrite Nat2Z.id.
  destruct (_ && _) eqn:E; [done|]. apply andb_false_iff in E as [|]; zify_bool; lia.
Qed.

Lemma zput_app {A} (l k : list A) x y i :
  i = zlen l -> zput (l ++ x :: k) i y = Ret (l ++ y :: k).
Proof.
  intros ->. unfold zput. rewrite zlen_app, zlen_cons.
  pose proof (zlen_nonneg l). pose proof (zlen_nonneg k).
  case_test.
  - f_equal. unfold zlen. rewrite Nat2Z.id.
    by rewrite insert_app_r_alt, Nat.sub_diag by lia.
  - apply andb_false_iff in Heqb as [|]; zify_bool; lia.
Qed.

Lemma zstore_app {A} (l o k bs : list A) i :
  i = zlen l -> zlen o = zlen bs ->
  zstore (l ++ o ++ k) i bs = Ret (l ++ bs ++ k).
Proof.
  intros -> Ho. unfold zstore. rewrite !zlen_app.
  pose proof (zlen_nonneg l). pose proof (zlen_nonneg k).
  pose proof (zlen_nonneg bs).
  case_test.
  - f_equal. unfold zlen in *. rewrite Nat2Z.id.
    rewrite take_app_length.
    replace (Z.to_nat (Z.of_nat (length l) + Z.of_nat (length bs)))
      with (length l + length o)%nat by lia.
    f_equal. f_equal.
    rewrite drop_app_add. apply drop_app_length.
  - apply andb_false_iff in Heqb as [|]; zify_bool; lia.
Qed.

Lemma zload_app {A} (l m k : list A) i n :
  i = zlen l -> n = zlen m -> zload (l ++ m ++ k) i n = Ret m.
Proof.
  intros -> ->. unfold zload. rewrite !zlen_app.
  pose proof (zlen_nonneg l). pose proof (zlen_nonneg k).
  pose proof (zlen_nonneg m).
  case_test.
  - f_equal. unfold zlen. rewrite !Nat2Z.id, drop_app_length.
    apply take_app_length.
  - apply andb_false_iff in Heqb as [Hb|]; zify_bool; [|lia].
    apply andb_false_iff in Hb as [|]; zify_bool; lia.
Qed.

Lemma zload_prefix {A} (m k : list A) n : n = zlen m -> zload (m ++ k) 0 n = Ret m.
Proof. intros ->. by apply (zload_app [] m k). Qed.

Lemma zload_all {A} (m : list A) : zload m 0 (zlen m) = Ret m.
Proof. rewrite <- (app_nil_r m) at 1. by apply zload_prefix. Qed.

Lemma res_bind_Ret {A B} (m : res A) (f : A -> res B) b :
  (m ≫= f) = Ret b -> exists a, m = Ret a /\ f a = Ret b.
Proof. destruct m; simpl; intros; try discriminate; eauto. Qed.

(** Split [x ← m; k = Ret v] hypotheses into their steps. *)
Ltac inv_res :=
  repeat match goal with
  | H : (_ ≫= _) = Ret _ |- _ => apply res_bind_Ret in H; destruct H as (? & ? & H)
  | H : Ret _ = Ret _ |- _ => injection H as H; subst
  | H : Abort = Ret _ |- _ => discriminate H
  | H : Fault = Ret _ |- _ => discriminate H
  end.

(** Filtering by what all elements satisfy. *)
Lemma filter_all {A} (P : A -> Prop) `{!forall x, Decision (P x)} (l : list A) :
  (forall x, x ∈ l -> P x) -> filter P l = l.
Proof.
  induction l as [|x l IH]; intros Hl; [done|].
  rewrite filter_cons_True by (apply Hl; by left). f_equal. apply IH. intros y Hy. apply Hl. by right.
Qed.

Lemma filter_length_lt {A} (P Q : A -> Prop) `{!forall x, Decision (P x), !forall x, Decision (Q x)} (l : list A) y :
  (forall x, P x -> Q x) -> y ∈ l -> Q y -> ~ P y -> (length (filter P l) < length (filter Q l))%nat.
Proof.
  intros HPQ Hy HQ HP.
  assert (Hle : forall k, (length (filter P k) <= length (filter Q k))%nat).
  { induction k as [|x k IH]; [done|]. rewrite !filter_cons. repeat case_decide; simpl; try lia.
    exfalso. eauto. }
  induction Hy as [x k|x z k Hy IH]; rewrite !filter_cons.
  - rewrite decide_False, decide_True by done. simpl. specialize (Hle k). lia.
  - specialize (IH HQ HP). repeat case_decide; simpl; try lia. exfalso. eauto.
Qed.

(** ** Sorted lists *)
Lemma strictly_sorted_NoDup l : StronglySorted Z.lt l -> NoDup l.
Proof.
  induction 1 as [|x l Hl IH Hx]; constructor; [|done].
  intros Hin. apply (proj1 (Forall_forall _ _) Hx) in Hin. lia.
Qed.

(** A set of numbers has one strictly sorted list. *)
Lemma strictly_sorted_unique l k :
  StronglySorted Z.lt l -> StronglySorted Z.lt k -> (forall x, x ∈ l <-> x ∈ k) -> l = k.
Proof.
  intros Hl Hk Hlk.
  assert (AntiSymm (=) Z.lt) by (intros ???; lia).
  apply (StronglySorted_unique Z.lt); [done..|].
  apply NoDup_Permutation; auto using strictly_sorted_NoDup.
Qed.
