(* ===== verification/Stream.v ===== *)
(** * lib/stream.c: the byte streams packets are built in and parsed from

    [struct stream] with its markers [getp <= endp <= size], the checked
    getters and putters in network byte order, the deprecated truncating
    [stream_put]/[stream_write], and the reading side of a socket with the
    system call as a parameter.  A failed bound check runs
    [STREAM_BOUND_WARN], whose [assert (0)] stops the daemon: [Abort]. *)
From stdpp Require Import base option list.
From S2P Require Import Prelude.

(** ** Data *)
Record stream := Stream {
  getp : Z;
  endp : Z;
  size : Z;
  data : list Z;
}.

Definition set_getp (s : stream) (p : Z) : stream :=
  {| getp := p; endp := endp s; size := size s; data := data s |}.
Definition set_endp (s : stream) (p : Z) : stream :=
  {| getp := getp s; endp := p; size := size s; data := data s |}.
Definition set_data (s : stream) (d : list Z) : stream :=
  {| getp := getp s; endp := endp s; size := size s; data := d |}.

(** ** The macros of stream.c and stream.h *)
Definition GETP_VALID (s : stream) (g : Z) : bool := g <=? endp s.
Definition PUT_AT_VALID (s : stream) (g : Z) : bool := GETP_VALID s g.
Definition ENDP_VALID (s : stream) (e : Z) : bool := e <=? size s.

Definition STREAM_VERIFY_SANE (s : stream) : res unit :=
  cassert (GETP_VALID s (getp s) && ENDP_VALID s (endp s)).

Definition STREAM_BOUND_WARN {A} : res A := Abort.

Definition STREAM_WRITEABLE (s : stream) : Z := u64 (size s - endp s).
Definition STREAM_READABLE (s : stream) : Z := u64 (endp s - getp s).

Definition CHECK_SIZE (s : stream) (z : Z) : Z :=
  if size s <? u64 (endp s + z) then u64 (size s - endp s) else z.

(** ** Construction *)

(** [mem] is what malloc returned: [size] bytes of unspecified content. *)
Definition stream_new (mem : list Z) (size : Z) : res stream :=
  _ ← cassert (0 <? size);
  if negb (zlen mem =? size) then Fault
  else Ret {| getp := 0; endp := 0; size := size; data := mem |}.

Definition stream_copy (new src : stream) : res stream :=
  _ ← STREAM_VERIFY_SANE src;
  _ ← cassert (endp src <=? size new);
  bs ← zload (data src) 0 (endp src);
  d ← zstore (data new) 0 bs;
  Ret {| getp := getp src; endp := endp src; size := size new; data := d |}.

Definition stream_dup (mem : list Z) (s : stream) : res stream :=
  _ ← STREAM_VERIFY_SANE s;
  new ← stream_new mem (endp s);
  stream_copy new s.

(** [ext] is the content of the bytes realloc adds when the block grows. *)
Definition stream_resize (ext : list Z) (s : stream) (newsize : Z)
    : res (Z * stream) :=
  _ ← STREAM_VERIFY_SANE s;
  let d := take (Z.to_nat newsize) (data s ++ ext) in
  let e := if newsize <? endp s then newsize else endp s in
  let g := if e <? getp s then e else getp s in
  let s' := {| getp := g; endp := e; size := newsize; data := d |} in
  _ ← STREAM_VERIFY_SANE s';
  Ret (newsize, s').

(** ** Markers *)
Definition stream_get_getp (s : stream) : res Z :=
  _ ← STREAM_VERIFY_SANE s; Ret (getp s).

Definition stream_get_endp (s : stream) : res Z :=
  _ ← STREAM_VERIFY_SANE s; Ret (endp s).

Definition stream_get_size (s : stream) : res Z :=
  _ ← STREAM_VERIFY_SANE s; Ret (size s).

Definition stream_set_getp (s : stream) (pos : Z) : res stream :=
  _ ← STREAM_VERIFY_SANE s;
  if negb (GETP_VALID s pos) then STREAM_BOUND_WARN
  else Ret (set_getp s pos).

Definition stream_forward_getp (s : stream) (n : Z) : res stream :=
  _ ← STREAM_VERIFY_SANE s;
  if negb (GETP_VALID s (u64 (getp s + n))) then STREAM_BOUND_WARN
  else Ret (set_getp s (u64 (getp s + n))).

Definition stream_forward_endp (s : stream) (n : Z) : res stream :=
  _ ← STREAM_VERIFY_SANE s;
  if negb (ENDP_VALID s (u64 (endp s + n))) then STREAM_BOUND_WARN
  else Ret (set_endp s (u64 (endp s + n))).

(** ** Getters *)

(** [s->data[s->getp++]]. *)
Definition get_byte (s : stream) : res (Z * stream) :=
  c ← zget (data s) (getp s); Ret (c, set_getp s (u64 (getp s + 1))).

(** [memcpy (dst, s->data + s->getp, size)]: the result is what [dst] gets. *)
Definition stream_get (s : stream) (n : Z) : res (list Z * stream) :=
  _ ← STREAM_VERIFY_SANE s;
  if STREAM_READABLE s <? n then STREAM_BOUND_WARN
  else bs ← zload (data s) (getp s) n;
       Ret (bs, set_getp s (u64 (getp s + n))).

Definition stream_getc (s : stream) : res (Z * stream) :=
  _ ← STREAM_VERIFY_SANE s;
  if STREAM_READABLE s <? 1 then STREAM_BOUND_WARN
  else get_byte s.

Definition stream_getc_from (s : stream) (from : Z) : res Z :=
  _ ← STREAM_VERIFY_SANE s;
  if negb (GETP_VALID s (u64 (from + 1))) then STREAM_BOUND_WARN
  else zget (data s) from.

Definition stream_getw (s : stream) : res (Z * stream) :=
  _ ← STREAM_VERIFY_SANE s;
  if STREAM_READABLE s <? 2 then STREAM_BOUND_WARN
  else
    '(b0, s) ← get_byte s;
    '(b1, s) ← get_byte s;
    Ret (u16 (Z.lor (Z.shiftl b0 8) b1), s).

Definition stream_getw_from (s : stream) (from : Z) : res Z :=
  _ ← STREAM_VERIFY_SANE s;
  if negb (GETP_VALID s (u64 (from + 2))) then STREAM_BOUND_WARN
  else
    b0 ← zget (data s) from;
    b1 ← zget (data s) (from + 1);
    Ret (u16 (Z.lor (Z.shiftl b0 8) b1)).

Definition stream_getl_from (s : stream) (from : Z) : res Z :=
  _ ← STREAM_VERIFY_SANE s;
  if negb (GETP_VALID s (u64 (from + 4))) then STREAM_BOUND_WARN
  else
    b0 ← zget (data s) from;
    b1 ← zget (data s) (from + 1);
    b2 ← zget (data s) (from + 2);
    b3 ← zget (data s) (from + 3);
    Ret (u32 (Z.lor (Z.lor (Z.lor (Z.shiftl b0 24) (Z.shiftl b1 16))
                           (Z.shiftl b2 8)) b3)).

Definition stream_getl (s : stream) : res (Z * stream) :=
  _ ← STREAM_VERIFY_SANE s;
  if STREAM_READABLE s <? 4 then STREAM_BOUND_WARN
  else
    '(b0, s) ← get_byte s;
    '(b1, s) ← get_byte s;
    '(b2, s) ← get_byte s;
    '(b3, s) ← get_byte s;
    Ret (u32 (Z.lor (Z.lor (Z.lor (Z.shiftl b0 24) (Z.shiftl b1 16))
                           (Z.shiftl b2 8)) b3), s).

(** The eight shifted octets [getq] or-s together. *)
Definition quad (b0 b1 b2 b3 b4 b5 b6 b7 : Z) : Z :=
  u64 (Z.lor (Z.lor (Z.lor (Z.lor (Z.lor (Z.lor (Z.lor
    (Z.shiftl b0 56) (Z.shiftl b1 48)) (Z.shiftl b2 40)) (Z.shiftl b3 32))
    (Z.shiftl b4 24)) (Z.shiftl b5 16)) (Z.shiftl b6 8)) b7).

Definition stream_getq_from (s : stream) (from : Z) : res Z :=
  _ ← STREAM_VERIFY_SANE s;
  if negb (GETP_VALID s (u64 (from + 8))) then STREAM_BOUND_WARN
  else
    b0 ← zget (data s) from;
    b1 ← zget (data s) (from + 1);
    b2 ← zget (data s) (from + 2);
    b3 ← zget (data s) (from + 3);
    b4 ← zget (data s) (from + 4);
    b5 ← zget (data s) (from + 5);
    b6 ← zget (data s) (from + 6);
    b7 ← zget (data s) (from + 7);
    Ret (quad b0 b1 b2 b3 b4 b5 b6 b7).

Definition stream_getq (s : stream) : res (Z * stream) :=
  _ ← STREAM_VERIFY_SANE s;
  if STREAM_READABLE s <? 8 then STREAM_BOUND_WARN
  else
    '(b0, s) ← get_byte s;
    '(b1, s) ← get_byte s;
    '(b2, s) ← get_byte s;
    '(b3, s) ← get_byte s;
    '(b4, s) ← get_byte s;
    '(b5, s) ← get_byte s;
    '(b6, s) ← get_byte s;
    '(b7, s) ← get_byte s;
    Ret (quad b0 b1 b2 b3 b4 b5 b6 b7, s).

(** An [in_addr_t] keeps its network-order octets: four bytes in memory. *)
Definition stream_get_ipv4 (s : stream) : res (list Z * stream) :=
  _ ← STREAM_VERIFY_SANE s;
  if STREAM_READABLE s <? 4 then STREAM_BOUND_WARN
  else
    l ← zload (data s) (getp s) 4;
    Ret (l, set_getp s (u64 (getp s + 4))).

(** ** Putters *)

(** [s->data[s->endp++] = c]. *)
Definition put_byte (s : stream) (c : Z) : res stream :=
  d ← zput (data s) (endp s) c;
  Ret (set_endp (set_data s d) (u64 (endp s + 1))).

(** [memcpy (s->data + s->endp, src, n); s->endp += n]. *)
Definition put_block (s : stream) (src : list Z) : res stream :=
  d ← zstore (data s) (endp s) src;
  Ret (set_endp (set_data s d) (u64 (endp s + zlen src))).

(** [src = None] is the NULL source, which zeroes.  The first [n] bytes of
    [src] are read, so a source shorter than the (truncated) size is an
    overread. *)
Definition stream_put (s : stream) (src : option (list Z)) (n : Z) : res stream :=
  let n := CHECK_SIZE s n in
  _ ← STREAM_VERIFY_SANE s;
  if STREAM_WRITEABLE s <? n then STREAM_BOUND_WARN
  else match src with
       | Some src => bs ← zload src 0 n; put_block s bs
       | None => put_block s (replicate (Z.to_nat n) 0)
       end.

Definition stream_putc (s : stream) (c : Z) : res (Z * stream) :=
  _ ← STREAM_VERIFY_SANE s;
  if STREAM_WRITEABLE s <? 1 then STREAM_BOUND_WARN
  else s ← put_byte s (u8 c); Ret (1, s).

Definition stream_putw (s : stream) (w : Z) : res (Z * stream) :=
  let w := u16 w in
  _ ← STREAM_VERIFY_SANE s;
  if STREAM_WRITEABLE s <? 2 then STREAM_BOUND_WARN
  else
    s ← put_byte s (u8 (Z.shiftr w 8));
    s ← put_byte s (u8 w);
    Ret (2, s).

Definition stream_putl (s : stream) (l : Z) : res (Z * stream) :=
  let l := u32 l in
  _ ← STREAM_VERIFY_SANE s;
  if STREAM_WRITEABLE s <? 4 then STREAM_BOUND_WARN
  else
    s ← put_byte s (u8 (Z.shiftr l 24));
    s ← put_byte s (u8 (Z.shiftr l 16));
    s ← put_byte s (u8 (Z.shiftr l 8));
    s ← put_byte s (u8 l);
    Ret (4, s).

Definition stream_putq (s : stream) (q : Z) : res (Z * stream) :=
  let q := u64 q in
  _ ← STREAM_VERIFY_SANE s;
  if STREAM_WRITEABLE s <? 8 then STREAM_BOUND_WARN
  else
    s ← put_byte s (u8 (Z.shiftr q 56));
    s ← put_byte s (u8 (Z.shiftr q 48));
    s ← put_byte s (u8 (Z.shiftr q 40));
    s ← put_byte s (u8 (Z.shiftr q 32));
    s ← put_byte s (u8 (Z.shiftr q 24));
    s ← put_byte s (u8 (Z.shiftr q 16));
    s ← put_byte s (u8 (Z.shiftr q 8));
    s ← put_byte s (u8 q);
    Ret (8, s).

Definition stream_putc_at (s : stream) (putp c : Z) : res (Z * stream) :=
  _ ← STREAM_VERIFY_SANE s;
  if negb (PUT_AT_VALID s (u64 (putp + 1))) then STREAM_BOUND_WARN
  else d ← zput (data s) putp (u8 c); Ret (1, set_data s d).

Definition stream_putw_at (s : stream) (putp w : Z) : res (Z * stream) :=
  let w := u16 w in
  _ ← STREAM_VERIFY_SANE s;
  if negb (PUT_AT_VALID s (u64 (putp + 2))) then STREAM_BOUND_WARN
  else
    d ← zput (data s) putp (u8 (Z.shiftr w 8));
    d ← zput d (putp + 1) (u8 w);
    Ret (2, set_data s d).

Definition stream_putl_at (s : stream) (putp l : Z) : res (Z * stream) :=
  let l := u32 l in
  _ ← STREAM_VERIFY_SANE s;
  if negb (PUT_AT_VALID s (u64 (putp + 4))) then STREAM_BOUND_WARN
  else
    d ← zput (data s) putp (u8 (Z.shiftr l 24));
    d ← zput d (putp + 1) (u8 (Z.shiftr l 16));
    d ← zput d (putp + 2) (u8 (Z.shiftr l 8));
    d ← zput d (putp + 3) (u8 l);
    Ret (4, set_data s d).

Definition stream_putq_at (s : stream) (putp q : Z) : res (Z * stream) :=
  let q := u64 q in
  _ ← STREAM_VERIFY_SANE s;
  if negb (PUT_AT_VALID s (u64 (putp + 8))) then STREAM_BOUND_WARN
  else
    d ← zput (data s) putp (u8 (Z.shiftr q 56));
    d ← zput d (putp + 1) (u8 (Z.shiftr q 48));
    d ← zput d (putp + 2) (u8 (Z.shiftr q 40));
    d ← zput d (putp + 3) (u8 (Z.shiftr q 32));
    d ← zput d (putp + 4) (u8 (Z.shiftr q 24));
    d ← zput d (putp + 5) (u8 (Z.shiftr q 16));
    d ← zput d (putp + 6) (u8 (Z.shiftr q 8));
    d ← zput d (putp + 7) (u8 q);
    Ret (8, set_data s d).

(** [l] is the four octets of the address as they lie in memory. *)
Definition stream_put_ipv4 (s : stream) (l : list Z) : res (Z * stream) :=
  _ ← STREAM_VERIFY_SANE s;
  if STREAM_WRITEABLE s <? 4 then STREAM_BOUND_WARN
  else s ← put_block s l; Ret (4, s).

Definition stream_put_in_addr (s : stream) (addr : list Z) : res (Z * stream) :=
  _ ← STREAM_VERIFY_SANE s;
  if STREAM_WRITEABLE s <? 4 then STREAM_BOUND_WARN
  else s ← put_block s addr; Ret (4, s).

(** [PSIZE]: octets that hold a prefix of the given bit length. *)
Definition PSIZE (a : Z) : Z := (a + 7) / 8.

(** [prefixlen] and the octets of [u.prefix] of the [struct prefix]. *)
Definition stream_put_prefix (s : stream) (prefixlen : Z) (u : list Z)
    : res (Z * stream) :=
  _ ← STREAM_VERIFY_SANE s;
  let psize := PSIZE prefixlen in
  if STREAM_WRITEABLE s <? psize then STREAM_BOUND_WARN
  else
    '(_, s) ← stream_putc s prefixlen;
    bs ← zload u 0 psize;
    s ← put_block s bs;
    Ret (psize, s).

Definition stream_write (s : stream) (ptr : list Z) (n : Z) : res (Z * stream) :=
  let n := CHECK_SIZE s n in
  _ ← STREAM_VERIFY_SANE s;
  if STREAM_WRITEABLE s <? n then STREAM_BOUND_WARN
  else
    bs ← zload ptr 0 n;
    s ← put_block s bs;
    Ret (n, s).

(** ** Reading from a descriptor

    What [read(2)] returned: bytes, or an error that is transient
    ([ERRNO_IO_RETRY]) or not. *)
Inductive read_result :=
| ReadBytes (bs : list Z)
| ReadError (retry : bool).

Definition stream_read_try (s : stream) (fd_read : Z -> read_result) (n : Z)
    : res (Z * stream) :=
  _ ← STREAM_VERIFY_SANE s;
  if STREAM_WRITEABLE s <? n then STREAM_BOUND_WARN
  else match fd_read n with
       | ReadBytes bs => s ← put_block s bs; Ret (zlen bs, s)
       | ReadError true => Ret (-2, s)
       | ReadError false => Ret (-1, s)
       end.

(** What a call that fills the buffer returned, and the octets it stored before it
    did: [readn] may fail after a partial read. *)
Definition receive := Z -> Z * list Z.

(** The common body of [stream_read], [stream_read_unblock] and [stream_recvmsg]. *)
Definition stream_fill (s : stream) (call : receive) (n : Z) : res (Z * stream) :=
  _ ← STREAM_VERIFY_SANE s;
  if STREAM_WRITEABLE s <? n then STREAM_BOUND_WARN
  else
    let '(nbytes, bs) := call n in
    d ← zstore (data s) (endp s) bs;
    let s := set_data s d in
    Ret (nbytes, if 0 <? nbytes then set_endp s (u64 (endp s + nbytes)) else s).

Definition stream_read (s : stream) (readn : receive) (n : Z) : res (Z * stream) :=
  stream_fill s readn n.
Definition stream_read_unblock (s : stream) (fd_read : receive) (n : Z) : res (Z * stream) :=
  stream_fill s fd_read n.
Definition stream_recvmsg (s : stream) (msg_iovlen : Z) (recvmsg : receive) (n : Z)
    : res (Z * stream) :=
  _ ← STREAM_VERIFY_SANE s;
  _ ← cassert (0 <? msg_iovlen);
  stream_fill s recvmsg n.

Definition stream_recvfrom (s : stream) (recvfrom : Z -> read_result) (n : Z)
    : res (Z * stream) :=
  _ ← STREAM_VERIFY_SANE s;
  if STREAM_WRITEABLE s <? n then STREAM_BOUND_WARN
  else match recvfrom n with
       | ReadBytes bs => s ← put_block s bs; Ret (zlen bs, s)
       | ReadError true => Ret (-2, s)
       | ReadError false => Ret (-1, s)
       end.

(** ** Whole-stream operations *)

(** The bytes [stream_pnt] points at, up to the end of the buffer. *)
Definition stream_pnt (s : stream) : res (list Z) :=
  _ ← STREAM_VERIFY_SANE s; Ret (drop (Z.to_nat (getp s)) (data s)).

Definition stream_empty (s : stream) : res bool :=
  _ ← STREAM_VERIFY_SANE s; Ret (endp s =? 0).

Definition stream_reset (s : stream) : res stream :=
  _ ← STREAM_VERIFY_SANE s;
  Ret {| getp := 0; endp := 0; size := size s; data := data s |}.

(** ** Theory: the abstract view of a stream

    [contents] is what has been written, [unread] what is left to get;
    [append] and [advance] are the effects of the putters and getters on it. *)
Definition stream_wf (s : stream) : Prop :=
  0 <= getp s <= endp s /\ endp s <= size s /\ size s < 2 ^ 63
  /\ zlen (data s) = size s /\ Forall is_u8 (data s).

Definition contents (s : stream) : list Z := take (Z.to_nat (endp s)) (data s).
Definition unread (s : stream) : list Z := drop (Z.to_nat (getp s)) (contents s).

Definition append (s : stream) (bs : list Z) : stream :=
  {| getp := getp s; endp := endp s + zlen bs; size := size s;
     data := contents s ++ bs ++ drop (Z.to_nat (endp s + zlen bs)) (data s) |}.

Definition advance (s : stream) (n : Z) : stream := set_getp s (getp s + n).

Lemma sane_ok s : stream_wf s -> STREAM_VERIFY_SANE s = Ret tt.
Proof.
  intros (? & ? & _). unfold STREAM_VERIFY_SANE, cassert, GETP_VALID, ENDP_VALID.
  case_test; [done|]. apply andb_false_iff in Heqb as []; zify_bool; lia.
Qed.

Lemma writeable_wf s : stream_wf s -> STREAM_WRITEABLE s = size s - endp s.
Proof. intros (? & ? & ? & _). apply u64_id. lia. Qed.

Lemma readable_wf s : stream_wf s -> STREAM_READABLE s = endp s - getp s.
Proof. intros (? & ? & ? & _). apply u64_id. lia. Qed.

Lemma contents_len s : stream_wf s -> zlen (contents s) = endp s.
Proof.
  intros (? & ? & ? & Hd & _). unfold contents, zlen in *.
  rewrite length_take. lia.
Qed.

Lemma unread_len s : stream_wf s -> zlen (unread s) = endp s - getp s.
Proof.
  intros Hs. pose proof (contents_len s Hs) as E. destruct Hs as (? & _).
  unfold unread, zlen in *. rewrite length_drop. lia.
Qed.

Lemma data_split s : stream_wf s ->
  data s = contents s ++ drop (Z.to_nat (endp s)) (data s).
Proof. intros _. unfold contents. by rewrite take_drop. Qed.

Lemma free_len s : stream_wf s ->
  zlen (drop (Z.to_nat (endp s)) (data s)) = size s - endp s.
Proof.
  intros (? & ? & ? & Hd & _). unfold zlen in *. rewrite length_drop. lia.
Qed.

Lemma append_wf s bs :
  stream_wf s -> Forall is_u8 bs -> zlen bs <= size s - endp s ->
  stream_wf (append s bs).
Proof.
  intros Hs Hb Hl. pose proof (contents_len s Hs) as Hc.
  pose proof (zlen_nonneg bs). destruct Hs as (? & ? & ? & Hd & Hu).
  unfold stream_wf, append; simpl. repeat split; try lia.
  - rewrite !zlen_app, Hc. unfold zlen in *. rewrite length_drop. lia.
  - unfold contents. repeat apply Forall_app_2; auto using Forall_take, Forall_drop.
Qed.

Lemma append_contents s bs :
  stream_wf s -> contents (append s bs) = contents s ++ bs.
Proof.
  intros Hs. pose proof (contents_len s Hs) as Hc.
  unfold contents at 1, append; simpl. rewrite app_assoc.
  apply take_app_length'. rewrite length_app.
  unfold zlen in *. lia.
Qed.

Lemma append_unread s bs :
  stream_wf s -> unread (append s bs) = unread s ++ bs.
Proof.
  intros Hs. unfold unread at 1. rewrite append_contents by done. simpl.
  pose proof (contents_len s Hs) as Hc. destruct Hs as (? & _).
  unfold unread. rewrite drop_app_le; [done|]. unfold zlen in Hc. lia.
Qed.

Lemma append_append s a b :
  stream_wf s -> append (append s a) b = append s (a ++ b).
Proof.
  intros Hs. unfold append at 1. rewrite append_contents by done.
  unfold append; simpl. rewrite zlen_app.
  pose proof (contents_len s Hs). pose proof (zlen_nonneg a).
  pose proof (zlen_nonneg b). destruct Hs as (? & _).
  f_equal; [lia|]. rewrite <- !app_assoc. do 3 f_equal.
  rewrite app_assoc, drop_app_ge; unfold zlen in *; rewrite ?length_app; [|lia].
  rewrite drop_drop. f_equal. lia.
Qed.

Lemma append_nil s : stream_wf s -> append s [] = s.
Proof.
  intros Hs. destruct s as [g e z d]. unfold append; simpl.
  unfold zlen; simpl. rewrite Z.add_0_r. f_equal.
  symmetry. by apply (data_split (Stream g e z d)).
Qed.

Lemma advance_wf s n :
  stream_wf s -> 0 <= n <= endp s - getp s -> stream_wf (advance s n).
Proof. intros (? & ? & ? & ? & ?) ?. repeat split; simpl; auto; lia. Qed.

Lemma advance_unread s n :
  stream_wf s -> 0 <= n -> unread (advance s n) = drop (Z.to_nat n) (unread s).
Proof.
  intros (? & _) ?. unfold unread. rewrite drop_drop. f_equal. simpl. lia.
Qed.

Lemma advance_contents s n : contents (advance s n) = contents s.
Proof. done. Qed.

Lemma advance_advance s a b : advance (advance s a) b = advance s (a + b).
Proof. unfold advance, set_getp; simpl. f_equal. lia. Qed.

(** Writing a block at [endp] is [append]; so is writing byte by byte. *)
Lemma put_block_append s bs :
  stream_wf s -> zlen bs <= size s - endp s ->
  put_block s bs = Ret (append s bs).
Proof.
  intros Hs Hl. unfold put_block. rewrite (data_split s Hs) at 1.
  pose proof (contents_len s Hs) as Hc. pose proof (free_len s Hs) as Hf.
  rewrite <- (take_drop (length bs) (drop (Z.to_nat (endp s)) (data s))) at 1.
  pose proof (zlen_nonneg bs).
  rewrite zstore_app; [|done|].
  - cbn [mbind res_bind]. f_equal. unfold append, set_endp, set_data; simpl.
    f_equal.
    + apply u64_id. destruct Hs as (? & ? & ? & _). lia.
    + do 2 f_equal. rewrite drop_drop. f_equal.
      destruct Hs as (? & _). unfold zlen in *. lia.
  - unfold zlen in *. rewrite length_take. lia.
Qed.

Lemma put_byte_append s b :
  stream_wf s -> 1 <= size s - endp s -> put_byte s b = Ret (append s [b]).
Proof.
  intros Hs Hl. rewrite <- put_block_append by (unfold zlen; simpl; lia || done).
  unfold put_byte, put_block. rewrite (data_split s Hs) at 1 2.
  pose proof (contents_len s Hs) as Hc. pose proof (free_len s Hs) as Hf.
  destruct (drop (Z.to_nat (endp s)) (data s)) as [|x k].
  { unfold zlen in Hf; simpl in Hf. lia. }
  rewrite zput_app by done.
  change (x :: k) with ([x] ++ k). rewrite zstore_app by done. done.
Qed.

Lemma get_byte_advance s b r :
  stream_wf s -> unread s = b :: r -> get_byte s = Ret (b, advance s 1).
Proof.
  intros Hs Hu. unfold get_byte.
  assert (Hg : data s !! Z.to_nat (getp s) = Some b).
  { pose proof (f_equal (.!! 0%nat) Hu) as E. unfold unread, contents in E.
    simpl in E. rewrite lookup_drop, Nat.add_0_r in E.
    apply lookup_take_Some in E as [E _]. done. }
  unfold zget. destruct Hs as (? & ? & ? & _).
  case_test; [lia|]. rewrite Hg. cbn [mbind res_bind].
  unfold advance. do 3 f_equal. apply u64_id. lia.
Qed.

Lemma unread_cons s b r :
  stream_wf s -> unread s = b :: r ->
  stream_wf (advance s 1) /\ unread (advance s 1) = r.
Proof.
  intros Hs Hu. pose proof (unread_len s Hs) as Hl. rewrite Hu, zlen_cons in Hl.
  pose proof (zlen_nonneg r). split.
  - apply advance_wf; [done|lia].
  - rewrite advance_unread, Hu by (done || lia). done.
Qed.

#[export] Hint Resolve append_wf advance_wf : quagga.
#[export] Hint Constructors Forall : quagga.

Ltac stream_side :=
  match goal with
  | |- stream_wf (append _ _) => apply append_wf; stream_side
  | |- Forall _ (_ ++ _) => apply Forall_app_2; stream_side
  | |- Forall _ _ => eauto with quagga
  | |- stream_wf _ => eassumption
  | _ => cbn [append endp size]; rewrite ?zlen_app, ?zlen_cons, ?zlen_app; unfold zlen in *;
         cbn [length] in *; rewrite ?be_bytes_length; lia
  end.

Ltac put_bytes :=
  repeat (rewrite put_byte_append by stream_side; cbn [mbind res_bind];
          rewrite ?append_append by stream_side).

Lemma stream_putc_append s c :
  stream_wf s -> 1 <= size s - endp s ->
  stream_putc s c = Ret (1, append s [u8 c]).
Proof.
  intros Hs Hl. unfold stream_putc. rewrite sane_ok, writeable_wf by done.
  cbn [mbind res_bind]. case_test; [lia|]. by put_bytes.
Qed.

Lemma stream_putw_append s w :
  stream_wf s -> 2 <= size s - endp s ->
  stream_putw s w = Ret (2, append s (be_bytes 2 (u16 w))).
Proof.
  intros Hs Hl. unfold stream_putw. rewrite sane_ok, writeable_wf by done.
  cbn [mbind res_bind]. case_test; [lia|]. put_bytes.
  cbn [be_bytes app Z.of_nat Z.mul]. by rewrite Z.shiftr_0_r.
Qed.

Lemma stream_putl_append s l :
  stream_wf s -> 4 <= size s - endp s ->
  stream_putl s l = Ret (4, append s (be_bytes 4 (u32 l))).
Proof.
  intros Hs Hl. unfold stream_putl. rewrite sane_ok, writeable_wf by done.
  cbn [mbind res_bind]. case_test; [lia|]. put_bytes.
  cbn [be_bytes app Z.of_nat Z.mul]. by rewrite Z.shiftr_0_r.
Qed.

Lemma stream_putq_append s q :
  stream_wf s -> 8 <= size s - endp s ->
  stream_putq s q = Ret (8, append s (be_bytes 8 (u64 q))).
Proof.
  intros Hs Hl. unfold stream_putq. rewrite sane_ok, writeable_wf by done.
  cbn [mbind res_bind]. case_test; [lia|]. put_bytes.
  cbn [be_bytes app Z.of_nat Z.mul]. by rewrite Z.shiftr_0_r.
Qed.

(** The shift-and-or decoders are the big-endian value of their octets. *)
Lemma lor_word b0 b1 :
  is_u8 b0 -> is_u8 b1 -> u16 (Z.lor (Z.shiftl b0 8) b1) = be_value [b0; b1].
Proof.
  unfold is_u8. intros. rewrite lor_shiftl_add by lia.
  rewrite u16_id by (unfold is_u16; lia). unfold be_value, zlen; simpl. lia.
Qed.

(** Or-ing the next octet below the octets collected so far. *)
Lemma lor_octet acc b m n :
  m = n + 8 -> 0 <= n -> is_u8 b ->
  Z.lor (Z.shiftl acc m) (Z.shiftl b n) = Z.shiftl (acc * 256 + b) n.
Proof.
  unfold is_u8. intros -> Hn Hb.
  rewrite <- Z.shiftl_shiftl by lia.
  replace (Z.shiftl (Z.shiftl acc n) 8) with (Z.shiftl (Z.shiftl acc 8) n)
    by (rewrite !Z.shiftl_shiftl by lia; f_equal; lia).
  rewrite <- Z.shiftl_lor. f_equal. rewrite lor_shiftl_add by lia. lia.
Qed.

Lemma lor_last acc b :
  is_u8 b -> Z.lor (Z.shiftl acc 8) b = acc * 256 + b.
Proof. unfold is_u8. intros. rewrite lor_shiftl_add by lia. lia. Qed.

Lemma lor_long b0 b1 b2 b3 :
  is_u8 b0 -> is_u8 b1 -> is_u8 b2 -> is_u8 b3 ->
  u32 (Z.lor (Z.lor (Z.lor (Z.shiftl b0 24) (Z.shiftl b1 16))
                    (Z.shiftl b2 8)) b3) = be_value [b0; b1; b2; b3].
Proof.
  intros. rewrite (lor_octet b0 b1 24 16), (lor_octet _ b2 16 8), lor_last by (done || lia).
  unfold is_u8 in *. unfold be_value, zlen; simpl.
  rewrite u32_id by (unfold is_u32; lia). lia.
Qed.

Lemma lor_quad b0 b1 b2 b3 b4 b5 b6 b7 :
  is_u8 b0 -> is_u8 b1 -> is_u8 b2 -> is_u8 b3 ->
  is_u8 b4 -> is_u8 b5 -> is_u8 b6 -> is_u8 b7 ->
  quad b0 b1 b2 b3 b4 b5 b6 b7 = be_value [b0; b1; b2; b3; b4; b5; b6; b7].
Proof.
  intros. unfold quad.
  rewrite (lor_octet b0 b1 56 48), (lor_octet _ b2 48 40), (lor_octet _ b3 40 32),
    (lor_octet _ b4 32 24), (lor_octet _ b5 24 16), (lor_octet _ b6 16 8), lor_last
    by (done || lia).
  unfold is_u8 in *. unfold be_value, zlen; simpl.
  rewrite u64_id by lia. lia.
Qed.

Lemma unread_u8 s : stream_wf s -> Forall is_u8 (unread s).
Proof.
  intros (_ & _ & _ & _ & Hu). unfold unread, contents.
  apply Forall_drop, Forall_take, Hu.
Qed.

Ltac get_bytes :=
  repeat match goal with
  | Hs : stream_wf ?s, Hu : unread ?s = ?b :: ?r |- context [get_byte ?s] =>
      rewrite (get_byte_advance s b r Hs Hu);
      let H1 := fresh "Hs" in let H2 := fresh "Hu" in
      destruct (unread_cons s b r Hs Hu) as [H1 H2];
      cbn [mbind res_bind]; rewrite ?advance_advance in *; simpl Z.add in *
  end.

Lemma unread_enough s bs r :
  stream_wf s -> unread s = bs ++ r ->
  STREAM_READABLE s = zlen bs + zlen r /\ Forall is_u8 bs.
Proof.
  intros Hs Hu. rewrite readable_wf, <- unread_len, Hu, zlen_app by done.
  split; [done|]. pose proof (unread_u8 s Hs) as F. rewrite Hu in F.
  by apply Forall_app in F as [].
Qed.

(** Common start of a checked getter: sane, and enough left to read. *)
Ltac get_start Hs Hu :=
  rewrite (sane_ok _ Hs); cbn [mbind res_bind];
  let HR := fresh "HR" in let HF := fresh "HF" in
  destruct (unread_enough _ _ _ Hs Hu) as [HR HF]; rewrite HR;
  match type of Hu with
  | _ = _ ++ ?r => pose proof (zlen_nonneg r)
  end;
  case_test;
    [ exfalso; unfold zlen in *; cbn [length] in *; lia
    | cbn [app] in Hu; rewrite ?Forall_cons in HF; destruct_and? HF ].

Lemma stream_getc_advance s b r :
  stream_wf s -> unread s = [b] ++ r -> stream_getc s = Ret (b, advance s 1).
Proof.
  intros Hs Hu. unfold stream_getc. get_start Hs Hu. by get_bytes.
Qed.

Lemma stream_getw_advance s b0 b1 r :
  stream_wf s -> unread s = [b0; b1] ++ r ->
  stream_getw s = Ret (be_value [b0; b1], advance s 2).
Proof.
  intros Hs Hu. unfold stream_getw. get_start Hs Hu. get_bytes.
  by rewrite lor_word.
Qed.

Lemma stream_getl_advance s b0 b1 b2 b3 r :
  stream_wf s -> unread s = [b0; b1; b2; b3] ++ r ->
  stream_getl s = Ret (be_value [b0; b1; b2; b3], advance s 4).
Proof.
  intros Hs Hu. unfold stream_getl. get_start Hs Hu. get_bytes.
  by rewrite lor_long.
Qed.

Lemma stream_getq_advance s b0 b1 b2 b3 b4 b5 b6 b7 r :
  stream_wf s -> unread s = [b0; b1; b2; b3; b4; b5; b6; b7] ++ r ->
  stream_getq s = Ret (be_value [b0; b1; b2; b3; b4; b5; b6; b7], advance s 8).
Proof.
  intros Hs Hu. unfold stream_getq. get_start Hs Hu. get_bytes.
  by rewrite lor_quad.
Qed.

(** ** Safety of the whole interface

    One constructor per state-changing or reading entry point of stream.c. *)
Inductive stream_op :=
| OpSetGetp (p : Z) | OpForwardGetp (n : Z) | OpForwardEndp (n : Z)
| OpGet (n : Z) | OpGetc | OpGetw | OpGetl | OpGetq | OpGetIpv4
| OpGetcFrom (p : Z) | OpGetwFrom (p : Z) | OpGetlFrom (p : Z) | OpGetqFrom (p : Z)
| OpPut (src : option (list Z)) (n : Z)
| OpPutc (c : Z) | OpPutw (w : Z) | OpPutl (l : Z) | OpPutq (q : Z)
| OpPutcAt (p c : Z) | OpPutwAt (p w : Z) | OpPutlAt (p l : Z) | OpPutqAt (p q : Z)
| OpPutIpv4 (l : list Z) | OpPutInAddr (a : list Z)
| OpWrite (ptr : list Z) (n : Z)
| OpReadTry (fd_read : Z -> read_result) (n : Z)
| OpReset
| OpPutPrefix (prefixlen : Z) (u : list Z)
| OpResize (ext : list Z) (newsize : Z)
| OpCopy (src : stream) | OpDup (malloc : Z -> list Z)
| OpRead (readn : receive) (n : Z) | OpReadUnblock (fd_read : receive) (n : Z)
| OpRecvmsg (msg_iovlen : Z) (recvmsg : receive) (n : Z)
| OpRecvfrom (recvfrom : Z -> read_result) (n : Z).

(** The stream after the operation; the value it returns is dropped.  Copying
    overwrites the stream with another one, duplicating goes on with the copy. *)
Definition run_op (s : stream) (op : stream_op) : res stream :=
  match op with
  | OpSetGetp p => stream_set_getp s p
  | OpForwardGetp n => stream_forward_getp s n
  | OpForwardEndp n => stream_forward_endp s n
  | OpGet n => '(_, s) ← stream_get s n; Ret s
  | OpGetc => '(_, s) ← stream_getc s; Ret s
  | OpGetw => '(_, s) ← stream_getw s; Ret s
  | OpGetl => '(_, s) ← stream_getl s; Ret s
  | OpGetq => '(_, s) ← stream_getq s; Ret s
  | OpGetIpv4 => '(_, s) ← stream_get_ipv4 s; Ret s
  | OpGetcFrom p => _ ← stream_getc_from s p; Ret s
  | OpGetwFrom p => _ ← stream_getw_from s p; Ret s
  | OpGetlFrom p => _ ← stream_getl_from s p; Ret s
  | OpGetqFrom p => _ ← stream_getq_from s p; Ret s
  | OpPut src n => stream_put s src n
  | OpPutc c => '(_, s) ← stream_putc s c; Ret s
  | OpPutw w => '(_, s) ← stream_putw s w; Ret s
  | OpPutl l => '(_, s) ← stream_putl s l; Ret s
  | OpPutq q => '(_, s) ← stream_putq s q; Ret s
  | OpPutcAt p c => '(_, s) ← stream_putc_at s p c; Ret s
  | OpPutwAt p w => '(_, s) ← stream_putw_at s p w; Ret s
  | OpPutlAt p l => '(_, s) ← stream_putl_at s p l; Ret s
  | OpPutqAt p q => '(_, s) ← stream_putq_at s p q; Ret s
  | OpPutIpv4 l => '(_, s) ← stream_put_ipv4 s l; Ret s
  | OpPutInAddr a => '(_, s) ← stream_put_in_addr s a; Ret s
  | OpWrite ptr n => '(_, s) ← stream_write s ptr n; Ret s
  | OpReadTry rd n => '(_, s) ← stream_read_try s rd n; Ret s
  | OpReset => stream_reset s
  | OpPutPrefix plen u => '(_, s) ← stream_put_prefix s plen u; Ret s
  | OpResize ext newsize => '(_, s) ← stream_resize ext s newsize; Ret s
  | OpCopy src => stream_copy s src
  | OpDup malloc => stream_dup (malloc (endp s)) s
  | OpRead rd n => '(_, s) ← stream_read s rd n; Ret s
  | OpReadUnblock rd n => '(_, s) ← stream_read_unblock s rd n; Ret s
  | OpRecvmsg k rd n => '(_, s) ← stream_recvmsg s k rd n; Ret s
  | OpRecvfrom rd n => '(_, s) ← stream_recvfrom s rd n; Ret s
  end.

Definition offset (z : Z) : Prop := 0 <= z < 2 ^ 63.

(** A call that stored at most [n] octets and returned their number or less. *)
Definition receive_ok (call : receive) (n : Z) : Prop :=
  let '(nbytes, bs) := call n in zlen bs <= n /\ nbytes <= zlen bs /\ Forall is_u8 bs.

Definition read_ok (rd : Z -> read_result) (n : Z) : Prop :=
  match rd n with
  | ReadBytes bs => zlen bs <= n /\ Forall is_u8 bs
  | ReadError _ => True
  end.

(** What a caller owes: offsets a real object can have, sources that hold the
    bytes announced, prefixes of at most 128 bits, sane streams to copy, an
    allocator that hands out blocks of the size asked for, and system calls that
    store at most what was asked. *)
Definition op_ok (op : stream_op) : Prop :=
  match op with
  | OpSetGetp p | OpForwardGetp p | OpForwardEndp p | OpGet p
  | OpGetcFrom p | OpGetwFrom p | OpGetlFrom p | OpGetqFrom p
  | OpPutcAt p _ | OpPutwAt p _ | OpPutlAt p _ | OpPutqAt p _ => offset p
  | OpPut None n => offset n
  | OpPut (Some src) n | OpWrite src n =>
      offset n /\ n <= zlen src /\ Forall is_u8 src
  | OpPutIpv4 a | OpPutInAddr a => zlen a = 4 /\ Forall is_u8 a
  | OpReadTry rd n | OpRecvfrom rd n => offset n /\ read_ok rd n
  | OpRead rd n | OpReadUnblock rd n | OpRecvmsg _ rd n => offset n /\ receive_ok rd n
  | OpPutPrefix plen u => 0 <= plen <= 128 /\ zlen u = 16 /\ Forall is_u8 u
  | OpResize ext newsize => 0 < newsize < 2 ^ 63 /\ newsize <= zlen ext /\ Forall is_u8 ext
  | OpCopy src => stream_wf src
  | OpDup malloc => forall n, 0 < n -> zlen (malloc n) = n /\ Forall is_u8 (malloc n)
  | _ => True
  end.

(** [stream_put_prefix] with exactly the octets of the prefix left: the check
    forgets the octet of the length. *)
Definition overruns (s : stream) (op : stream_op) : bool :=
  match op with
  | OpPutPrefix plen _ => (0 <? plen) && (size s - endp s =? PSIZE plen)
  | _ => false
  end.

(** The operations that stay with the buffer they have. *)
Definition same_buffer (op : stream_op) : bool :=
  match op with OpResize _ _ | OpDup _ => false | _ => true end.

(** Never outside the buffer, and the invariant [getp <= endp <= size] kept. *)
Definition safe_outcome (s : stream) (r : res stream) : Prop :=
  match r with
  | Ret s' => stream_wf s' /\ size s' = size s
  | Abort => True
  | Fault => False
  end.

Lemma safe_keep {A} s (r : res A) :
  stream_wf s -> r <> Fault -> safe_outcome s (_ ← r; Ret s).
Proof. destruct r; simpl; auto. Qed.

Lemma safe_append s bs :
  stream_wf s -> Forall is_u8 bs -> zlen bs <= size s - endp s ->
  safe_outcome s (Ret (append s bs)).
Proof. intros. simpl. split; [by apply append_wf|done]. Qed.

Lemma safe_advance s n :
  stream_wf s -> 0 <= n <= endp s - getp s -> safe_outcome s (Ret (advance s n)).
Proof. intros. simpl. split; [by apply advance_wf|done]. Qed.

Lemma unread_take s k :
  stream_wf s -> Z.of_nat k <= STREAM_READABLE s ->
  exists bs r, unread s = bs ++ r /\ length bs = k.
Proof.
  intros Hs Hk. rewrite readable_wf, <- unread_len in Hk by done.
  exists (take k (unread s)), (drop k (unread s)). rewrite take_drop. split; [done|].
  unfold zlen in Hk. rewrite length_take. lia.
Qed.

Lemma zget_no_fault {A} (l : list A) i : 0 <= i < zlen l -> exists x, zget l i = Ret x.
Proof. intros H. destruct (zget_ok l i H) as (x & E & _). eauto. Qed.

Lemma zput_no_fault {A} (l : list A) i x :
  0 <= i < zlen l -> zput l i x = Ret (<[Z.to_nat i := x]> l).
Proof.
  intros. unfold zput. case_test; [done|].
  apply andb_false_iff in Heqb as []; zify_bool; lia.
Qed.

Lemma zload_no_fault {A} (l : list A) p n :
  0 <= p -> 0 <= n -> p + n <= zlen l ->
  zload l p n = Ret (take (Z.to_nat n) (drop (Z.to_nat p) l)).
Proof.
  intros. unfold zload. case_test; [done|].
  apply andb_false_iff in Heqb as [Hb|]; zify_bool; [|lia].
  apply andb_false_iff in Hb as []; zify_bool; lia.
Qed.

Lemma zlen_insert {A} (l : list A) i x : zlen (<[i := x]> l) = zlen l.
Proof. unfold zlen. by rewrite length_insert. Qed.

Lemma set_data_wf s d :
  stream_wf s -> zlen d = zlen (data s) -> Forall is_u8 d -> stream_wf (set_data s d).
Proof. intros (? & ? & ? & ? & _) ? ?. repeat split; simpl; auto; lia. Qed.

(** Reads at an absolute offset the bound check has accepted. *)
Ltac from_safe :=
  match goal with
  | Hs : stream_wf ?s |- _ =>
      rewrite (sane_ok s Hs); cbn [mbind res_bind]; unfold PUT_AT_VALID, GETP_VALID;
      case_test; [done|];
      match goal with H : negb _ = false |- _ => apply negb_false_iff in H end;
      zify_bool; rewrite u64_id in * by lia;
      let H := fresh in pose proof Hs as H; destruct H as (? & ? & ? & ? & ?)
  end.

Ltac zgets :=
  repeat match goal with
  | |- context [zget ?l ?i] =>
      let x := fresh "x" in let E := fresh "E" in
      destruct (zget_no_fault l i) as [x E]; [lia|rewrite E; cbn [mbind res_bind]]
  end.

Lemma getx_from_no_fault s p :
  stream_wf s -> offset p ->
  stream_getc_from s p <> Fault /\ stream_getw_from s p <> Fault
  /\ stream_getl_from s p <> Fault /\ stream_getq_from s p <> Fault.
Proof.
  unfold offset. intros Hs Hp. repeat split.
  - unfold stream_getc_from. from_safe. by zgets.
  - unfold stream_getw_from. from_safe. by zgets.
  - unfold stream_getl_from. from_safe. by zgets.
  - unfold stream_getq_from. from_safe. by zgets.
Qed.

Ltac zputs :=
  repeat (rewrite zput_no_fault by (rewrite ?zlen_insert; lia); cbn [mbind res_bind]).

Ltac putat_done :=
  simpl; split; [|done]; apply set_data_wf; [done|by rewrite !zlen_insert|];
  repeat apply Forall_insert; auto with quagga.

Lemma putx_at_safe s p v :
  stream_wf s -> offset p ->
  safe_outcome s (run_op s (OpPutcAt p v)) /\ safe_outcome s (run_op s (OpPutwAt p v))
  /\ safe_outcome s (run_op s (OpPutlAt p v)) /\ safe_outcome s (run_op s (OpPutqAt p v)).
Proof.
  unfold offset. intros Hs Hp. cbn [run_op]. split_and!.
  - unfold stream_putc_at. from_safe. zputs. putat_done.
  - unfold stream_putw_at. from_safe. zputs. putat_done.
  - unfold stream_putl_at. from_safe. zputs. putat_done.
  - unfold stream_putq_at. from_safe. zputs. putat_done.
Qed.

(** A getter either stops at its check or advances over the octets read. *)
Lemma getx_safe s :
  stream_wf s ->
  safe_outcome s (run_op s OpGetc) /\ safe_outcome s (run_op s OpGetw)
  /\ safe_outcome s (run_op s OpGetl) /\ safe_outcome s (run_op s OpGetq).
Proof.
  intros Hs. cbn [run_op].
  assert (Hn : forall k, Z.of_nat k <= STREAM_READABLE s ->
    0 <= Z.of_nat k <= endp s - getp s)
    by (intros k; rewrite readable_wf by done; lia).
  split_and!.
  - destruct (STREAM_READABLE s <? 1) eqn:E.
    { unfold stream_getc. by rewrite sane_ok, E by done. }
    zify_bool. destruct (unread_take s 1 Hs) as ([|b0 []] & r & Hu & Hk); try done.
    rewrite (stream_getc_advance s b0 r) by done. apply safe_advance; [done|].
    by apply (Hn 1%nat).
  - destruct (STREAM_READABLE s <? 2) eqn:E.
    { unfold stream_getw. by rewrite sane_ok, E by done. }
    zify_bool. destruct (unread_take s 2 Hs) as ([|b0 [|b1 []]] & r & Hu & Hk); try done.
    rewrite (stream_getw_advance s b0 b1 r) by done. apply safe_advance; [done|].
    by apply (Hn 2%nat).
  - destruct (STREAM_READABLE s <? 4) eqn:E.
    { unfold stream_getl. by rewrite sane_ok, E by done. }
    zify_bool.
    destruct (unread_take s 4 Hs) as ([|b0 [|b1 [|b2 [|b3 []]]]] & r & Hu & Hk); try done.
    rewrite (stream_getl_advance s b0 b1 b2 b3 r) by done. apply safe_advance; [done|].
    by apply (Hn 4%nat).
  - destruct (STREAM_READABLE s <? 8) eqn:E.
    { unfold stream_getq. by rewrite sane_ok, E by done. }
    zify_bool.
    destruct (unread_take s 8 Hs)
      as ([|b0 [|b1 [|b2 [|b3 [|b4 [|b5 [|b6 [|b7 []]]]]]]]] & r & Hu & Hk); try done.
    rewrite (stream_getq_advance s b0 b1 b2 b3 b4 b5 b6 b7 r) by done.
    apply safe_advance; [done|]. by apply (Hn 8%nat).
Qed.

Lemma putx_safe s v :
  stream_wf s ->
  safe_outcome s (run_op s (OpPutc v)) /\ safe_outcome s (run_op s (OpPutw v))
  /\ safe_outcome s (run_op s (OpPutl v)) /\ safe_outcome s (run_op s (OpPutq v)).
Proof.
  intros Hs. cbn [run_op].
  assert (Hw := writeable_wf s Hs). split_and!.
  - destruct (STREAM_WRITEABLE s <? 1) eqn:E.
    { unfold stream_putc. by rewrite sane_ok, E by done. }
    zify_bool. rewrite stream_putc_append by (done || lia).
    apply safe_append; auto with quagga. unfold zlen; simpl; lia.
  - destruct (STREAM_WRITEABLE s <? 2) eqn:E.
    { unfold stream_putw. by rewrite sane_ok, E by done. }
    zify_bool. rewrite stream_putw_append by (done || lia).
    apply safe_append; auto with quagga. unfold zlen; rewrite be_bytes_length; lia.
  - destruct (STREAM_WRITEABLE s <? 4) eqn:E.
    { unfold stream_putl. by rewrite sane_ok, E by done. }
    zify_bool. rewrite stream_putl_append by (done || lia).
    apply safe_append; auto with quagga. unfold zlen; rewrite be_bytes_length; lia.
  - destruct (STREAM_WRITEABLE s <? 8) eqn:E.
    { unfold stream_putq. by rewrite sane_ok, E by done. }
    zify_bool. rewrite stream_putq_append by (done || lia).
    apply safe_append; auto with quagga. unfold zlen; rewrite be_bytes_length; lia.
Qed.

(** [CHECK_SIZE] truncates to what fits. *)
Lemma check_size_fits s n :
  stream_wf s -> offset n ->
  0 <= CHECK_SIZE s n <= size s - endp s /\ CHECK_SIZE s n <= n.
Proof.
  unfold offset, CHECK_SIZE. intros (? & ? & ? & _) ?.
  rewrite !u64_id by lia. case_test; lia.
Qed.

Lemma load_safe s src n :
  stream_wf s -> 0 <= n <= size s - endp s -> n <= zlen src -> Forall is_u8 src ->
  exists bs, zload src 0 n = Ret bs /\ zlen bs = n /\ put_block s bs = Ret (append s bs)
    /\ safe_outcome s (Ret (append s bs)).
Proof.
  intros Hs Hn Hl Hu. rewrite zload_no_fault by lia. eexists. split; [done|].
  assert (Hz : zlen (take (Z.to_nat n) (drop (Z.to_nat 0) src)) = n)
    by (unfold zlen in *; rewrite length_take, length_drop; lia).
  split; [done|]. split; [apply put_block_append; [done|lia]|].
  apply safe_append; [done| |lia]. apply Forall_take, Forall_drop, Hu.
Qed.

Lemma blocks_safe s :
  stream_wf s ->
  (forall src n, op_ok (OpPut src n) -> safe_outcome s (run_op s (OpPut src n)))
  /\ (forall p n, op_ok (OpWrite p n) -> safe_outcome s (run_op s (OpWrite p n)))
  /\ (forall a, op_ok (OpPutIpv4 a) -> safe_outcome s (run_op s (OpPutIpv4 a)))
  /\ (forall a, op_ok (OpPutInAddr a) -> safe_outcome s (run_op s (OpPutInAddr a)))
  /\ (forall rd n, op_ok (OpReadTry rd n) -> safe_outcome s (run_op s (OpReadTry rd n))).
Proof.
  intros Hs. assert (Hw := writeable_wf s Hs). split_and!.
  - intros src n Hok. cbn [run_op]. unfold stream_put.
    rewrite sane_ok by done. cbn [mbind res_bind]. case_test; [done|].
    destruct src as [src|].
    + destruct Hok as (Ho & Hl & Hu).
      destruct (check_size_fits s n Hs Ho) as [Hc Hc'].
      destruct (load_safe s src (CHECK_SIZE s n)) as (bs & -> & _ & E & Hsafe);
        [done..|lia|done|]. cbn [mbind res_bind]. by rewrite E.
    + destruct (check_size_fits s n Hs Hok) as [Hc _].
      assert (zlen (replicate (Z.to_nat (CHECK_SIZE s n)) 0) = CHECK_SIZE s n)
        by (unfold zlen; rewrite length_replicate; lia).
      rewrite put_block_append by (done || lia).
      apply safe_append; [done| |lia]. apply Forall_replicate. done.
  - intros p n (Ho & Hl & Hu). cbn [run_op]. unfold stream_write.
    rewrite sane_ok by done. cbn [mbind res_bind]. case_test; [done|].
    destruct (check_size_fits s n Hs Ho) as [Hc Hc'].
    destruct (load_safe s p (CHECK_SIZE s n)) as (bs & -> & _ & E & Hsafe);
      [done..|lia|done|]. cbn [mbind res_bind]. by rewrite E.
  - intros a (Hl & Hu). cbn [run_op]. unfold stream_put_ipv4.
    rewrite sane_ok by done. cbn [mbind res_bind]. case_test; [done|].
    rewrite put_block_append by (done || lia). apply safe_append; [done..|lia].
  - intros a (Hl & Hu). cbn [run_op]. unfold stream_put_in_addr.
    rewrite sane_ok by done. cbn [mbind res_bind]. case_test; [done|].
    rewrite put_block_append by (done || lia). apply safe_append; [done..|lia].
  - intros rd n (Ho & Hr). cbn [run_op]. unfold stream_read_try, read_ok in *.
    rewrite sane_ok by done. cbn [mbind res_bind]. case_test; [done|].
    destruct (rd n) as [bs|[]]; [|done..]. destruct Hr.
    rewrite put_block_append by (done || lia). apply safe_append; [done..|lia].
Qed.

Lemma markers_safe s :
  stream_wf s ->
  (forall p, offset p -> safe_outcome s (run_op s (OpSetGetp p)))
  /\ (forall n, offset n -> safe_outcome s (run_op s (OpForwardGetp n)))
  /\ (forall n, offset n -> safe_outcome s (run_op s (OpForwardEndp n)))
  /\ (forall n, offset n -> safe_outcome s (run_op s (OpGet n)))
  /\ safe_outcome s (run_op s OpGetIpv4)
  /\ safe_outcome s (run_op s OpReset).
Proof.
  intros Hs. assert (Hw := Hs). destruct Hw as (? & ? & ? & Hl & Hu).
  unfold offset. split_and!; intros; cbn [run_op].
  - unfold stream_set_getp, GETP_VALID. rewrite sane_ok by done. simpl.
    destruct (Z.leb_spec p (endp s)); simpl; [|done]. repeat split; simpl; auto; lia.
  - unfold stream_forward_getp, GETP_VALID. rewrite sane_ok by done. simpl.
    rewrite u64_id by lia.
    destruct (Z.leb_spec (getp s + n) (endp s)); simpl; [|done].
    repeat split; simpl; auto; lia.
  - unfold stream_forward_endp, ENDP_VALID. rewrite sane_ok by done. simpl.
    rewrite u64_id by lia.
    destruct (Z.leb_spec (endp s + n) (size s)); simpl; [|done].
    repeat split; simpl; auto; lia.
  - unfold stream_get. rewrite sane_ok, readable_wf by done. cbn [mbind res_bind].
    case_test; [done|]. rewrite zload_no_fault by lia. cbn [mbind res_bind].
    rewrite u64_id by lia. apply safe_advance; [done|lia].
  - unfold stream_get_ipv4. rewrite sane_ok, readable_wf by done. cbn [mbind res_bind].
    case_test; [done|]. rewrite zload_no_fault by lia. cbn [mbind res_bind].
    rewrite u64_id by lia. apply safe_advance; [done|lia].
  - unfold stream_reset. rewrite sane_ok by done. simpl. repeat split; simpl; auto; lia.
Qed.

(** ** [stream_put_prefix]

    The room check forgets the octet of the prefix length. *)

(** [stream_put_prefix] checks room for the [PSIZE] octets only, then
    writes [1 + PSIZE]: with strictly more than [PSIZE] octets free it writes
    the NLRI encoding and stays inside the buffer; with exactly [PSIZE] free
    (and a non-empty prefix) it passes its check and writes one octet past the
    end; with less it stops at the check. *)
Theorem stream_put_prefix_bounds (s : stream) (plen : Z) (u : list Z) :
  stream_wf s -> 0 < plen <= 128 -> zlen u = 16 -> Forall is_u8 u ->
  stream_put_prefix s plen u =
    if PSIZE plen <? size s - endp s then
      Ret (PSIZE plen, append s (plen :: take (Z.to_nat (PSIZE plen)) u))
    else if size s - endp s =? PSIZE plen then Fault
    else Abort.
Proof.
  intros Hs Hp Hu Hu8. unfold stream_put_prefix.
  rewrite sane_ok, writeable_wf by done. cbn [mbind res_bind].
  assert (HP : 1 <= PSIZE plen <= 16) by (unfold PSIZE; mod_lia).
  destruct (Z.ltb_spec (PSIZE plen) (size s - endp s)) as [Hlt|Hge].
  - case_test; [lia|].
    rewrite stream_putc_append, u8_id by (done || unfold is_u8; lia).
    cbn [mbind res_bind]. rewrite zload_no_fault by lia. cbn [mbind res_bind].
    rewrite drop_0. set (t := take _ u).
    assert (Ht : zlen t = PSIZE plen)
      by (unfold t, zlen in *; rewrite length_take; lia).
    rewrite put_block_append; [|stream_side|cbn [append endp size]; unfold zlen in *; simpl; lia].
    2: unfold is_u8; constructor; [lia|done].
    cbn [mbind res_bind]. by rewrite append_append.
  - destruct (Z.eqb_spec (size s - endp s) (PSIZE plen)) as [He|Hne].
    + case_test; [lia|]. rewrite stream_putc_append by (done || lia).
      cbn [mbind res_bind]. rewrite zload_no_fault by lia. cbn [mbind res_bind].
      unfold put_block, zstore. case_test; [|done]. exfalso.
      assert (Hz : zlen (data (append s [u8 plen])) = size s).
      { apply (append_wf s [u8 plen]); [done|auto with quagga|unfold zlen; simpl; lia]. }
      rewrite Hz in *. cbn [append endp] in *. unfold zlen in *.
      rewrite length_take, length_drop in *. simpl in *. lia.
    + case_test; [done|lia].
Qed.

Lemma put_prefix_safe s plen u : stream_wf s -> op_ok (OpPutPrefix plen u) ->
  match run_op s (OpPutPrefix plen u) with
  | Ret s' => stream_wf s' /\ size s' = size s /\ overruns s (OpPutPrefix plen u) = false
  | Abort => overruns s (OpPutPrefix plen u) = false
  | Fault => overruns s (OpPutPrefix plen u) = true
  end.
Proof.
  intros Hs (Hp & Hu & Hu8). cbn [run_op overruns]. destruct (Z.ltb_spec 0 plen) as [Hp0|Hp0].
  - rewrite stream_put_prefix_bounds by (done || lia). cbn [andb].
    assert (HP : 1 <= PSIZE plen <= 16) by (unfold PSIZE; mod_lia).
    destruct (Z.ltb_spec (PSIZE plen) (size s - endp s)) as [H1|H1].
    + cbn [mbind res_bind]. split; [|split; [done|]].
      * assert (Ht : zlen (take (Z.to_nat (PSIZE plen)) u) = PSIZE plen)
          by (unfold zlen in *; rewrite length_take; lia).
        apply append_wf; [done| |unfold zlen in *; simpl; lia].
        constructor; [unfold is_u8; lia|by apply Forall_take].
      * destruct (Z.eqb_spec (size s - endp s) (PSIZE plen)); [lia|done].
    + by destruct (Z.eqb_spec (size s - endp s) (PSIZE plen)).
  - assert (plen = 0) as -> by lia. unfold stream_put_prefix. change (PSIZE 0) with 0.
    assert (Hw := Hs). destruct Hw as (? & ? & _).
    rewrite sane_ok, writeable_wf by done. cbn [mbind res_bind]. case_test; [done|].
    destruct (decide (1 <= size s - endp s)) as [H1|H1].
    + rewrite stream_putc_append by (done || lia). change (u8 0) with 0. cbn [mbind res_bind].
      rewrite zload_no_fault by lia. cbn [mbind res_bind].
      change (take (Z.to_nat 0) (drop (Z.to_nat 0) u)) with (@nil Z).
      assert (Hs1 : stream_wf (append s [0])) by (apply append_wf; [done|by_eval|unfold zlen; simpl; lia]).
      rewrite put_block_append by (done || (cbn [append endp size]; unfold zlen; simpl; lia)).
      cbn [mbind res_bind]. rewrite append_nil by done. by split_and!.
    + unfold stream_putc. rewrite sane_ok, writeable_wf by done. cbn [mbind res_bind].
      case_test; [done|lia].
Qed.

Lemma store_safe s bs : stream_wf s -> Forall is_u8 bs -> zlen bs <= size s - endp s ->
  exists d, zstore (data s) (endp s) bs = Ret d /\ stream_wf (set_data s d).
Proof.
  intros Hs Hu Hl. assert (H := put_block_append s bs Hs Hl). unfold put_block in H.
  destruct (zstore (data s) (endp s) bs) as [d| |] eqn:E; try done. exists d. split; [done|].
  cbn [mbind res_bind] in H. destruct (append_wf s bs Hs Hu Hl) as (_ & _ & _ & Hd & Hd8).
  assert (Ed : d = data (append s bs)) by exact (f_equal (fun r => match r with Ret x => data x | _ => d end) H).
  change (size (append s bs)) with (size s) in Hd. rewrite Ed. assert (Hs' := Hs). destruct Hs' as (_ & _ & _ & Hz & _).
  apply set_data_wf; [done|congruence|done].
Qed.

Lemma fill_safe s call n : stream_wf s -> offset n -> receive_ok call n ->
  safe_outcome s ('(_, s) ← stream_fill s call n; Ret s).
Proof.
  intros Hs Ho Hc. unfold stream_fill, receive_ok in *. rewrite sane_ok, writeable_wf by done.
  cbn [mbind res_bind]. case_test; [done|]. destruct (call n) as [nbytes bs].
  destruct Hc as (Hl & Hn & Hu). destruct (store_safe s bs) as (d & -> & Hd); [done..|lia|].
  cbn [mbind res_bind]. case_test; [|by split].
  destruct Hs as (? & ? & ? & _), Hd as (? & ? & ? & ? & ?). rewrite u64_id by lia.
  split; [|done]. split_and!; simpl in *; (done || lia).
Qed.

Lemma recv_safe s rd n : stream_wf s -> offset n -> read_ok rd n ->
  safe_outcome s ('(_, s) ← stream_recvfrom s rd n; Ret s).
Proof.
  intros Hs Ho Hr. unfold stream_recvfrom, read_ok in *. rewrite sane_ok, writeable_wf by done.
  cbn [mbind res_bind]. case_test; [done|]. destruct (rd n) as [bs|[]]; [|done..].
  destruct Hr. rewrite put_block_append by (done || lia). apply safe_append; [done..|lia].
Qed.

(** Copying into a buffer that is large enough. *)
Lemma copy_safe new src : stream_wf src -> 0 <= size new < 2 ^ 63 -> zlen (data new) = size new ->
  Forall is_u8 (data new) ->
  match stream_copy new src with
  | Ret s => stream_wf s /\ size s = size new
  | Abort => True
  | Fault => False
  end.
Proof.
  intros Hs Hn Hl Hu. unfold stream_copy. rewrite sane_ok by done. cbn [mbind res_bind].
  destruct (Z.leb_spec (endp src) (size new)) as [He|He]; [|done]. cbn [cassert mbind res_bind].
  assert (Hs' := Hs). destruct Hs' as (? & ? & ? & Hd & Hd8).
  rewrite zload_no_fault by lia. cbn [mbind res_bind].
  set (bs := take (Z.to_nat (endp src)) (drop (Z.to_nat 0) (data src))).
  assert (Hb : zlen bs = endp src) by (unfold bs, zlen in *; rewrite length_take, length_drop; lia).
  set (s0 := Stream 0 0 (size new) (data new)).
  assert (Hs0 : stream_wf s0) by (split_and!; simpl; (done || lia)).
  destruct (store_safe s0 bs Hs0) as (d & E & Hwf).
  { by apply Forall_take, Forall_drop. } { simpl. lia. }
  change (data s0) with (data new) in E. change (endp s0) with 0 in E. rewrite E.
  cbn [mbind res_bind]. destruct Hwf as (_ & _ & _ & ? & ?). split; [|done].
  split_and!; simpl in *; (done || lia).
Qed.

Lemma resize_safe s ext newsize : stream_wf s -> op_ok (OpResize ext newsize) ->
  exists s', run_op s (OpResize ext newsize) = Ret s' /\ stream_wf s'.
Proof.
  intros Hs (Hn & He & Hu). assert (Hs' := Hs). destruct Hs' as (? & ? & ? & Hd & Hd8).
  cbn [run_op]. unfold stream_resize. rewrite (sane_ok s Hs). cbn [mbind res_bind].
  set (e := if newsize <? endp s then newsize else endp s).
  set (g := if e <? getp s then e else getp s).
  assert (Hwf : stream_wf (Stream g e newsize (take (Z.to_nat newsize) (data s ++ ext)))).
  { assert (Hge : 0 <= g <= e /\ e <= newsize) by (subst g e; repeat case_match; zify_bool; lia).
    clearbody g e. split_and!; cbn [getp endp size data]; try lia.
    - unfold zlen in *. rewrite length_take, length_app. lia.
    - by apply Forall_take, Forall_app_2. }
  rewrite sane_ok by done. cbn [mbind res_bind]. eauto.
Qed.

(** Each entry point that stays in its buffer and checks its bounds. *)
Lemma checked_op_safe s op : stream_wf s -> op_ok op -> same_buffer op = true ->
  match op with OpPutPrefix _ _ => False | _ => True end -> safe_outcome s (run_op s op).
Proof.
  intros Hs Hok Hb Hp.
  pose proof (markers_safe s Hs) as (? & ? & ? & ? & ? & ?).
  pose proof (blocks_safe s Hs) as (? & ? & ? & ? & ?).
  pose proof (getx_safe s Hs) as (? & ? & ? & ?).
  destruct op; auto; try done.
  all: try by (cbn [run_op]; apply safe_keep; [done|]; by apply getx_from_no_fault).
  all: try by apply (putx_safe s).
  all: try by apply (putx_at_safe s).
  - cbn [run_op]. assert (Hs' := Hs). destruct Hs' as (? & ? & ? & ? & ?).
    pose proof (copy_safe s src Hok ltac:(lia) ltac:(done) ltac:(done)) as Hc.
    unfold safe_outcome. by destruct (stream_copy s src).
  - apply fill_safe; apply Hok || done.
  - apply fill_safe; apply Hok || done.
  - cbn [run_op]. unfold stream_recvmsg. rewrite sane_ok by done. cbn [mbind res_bind].
    destruct (0 <? msg_iovlen); [|done]. cbn [cassert mbind res_bind]. apply fill_safe; apply Hok || done.
  - apply recv_safe; apply Hok || done.
Qed.

(** Each entry point, on a sane stream and honest arguments. *)
Lemma run_op_safe s op : stream_wf s -> op_ok op ->
  match run_op s op with
  | Ret s' => stream_wf s' /\ (same_buffer op = true -> size s' = size s) /\ overruns s op = false
  | Abort => overruns s op = false
  | Fault => overruns s op = true
  end.
Proof.
  intros Hs Hok.
  assert (Hc : same_buffer op = true -> match op with OpPutPrefix _ _ => False | _ => True end ->
    match run_op s op with
    | Ret s' => stream_wf s' /\ (same_buffer op = true -> size s' = size s) /\ overruns s op = false
    | Abort => overruns s op = false
    | Fault => overruns s op = true
    end).
  { intros Hb Hp. pose proof (checked_op_safe s op Hs Hok Hb Hp) as H. unfold safe_outcome in H.
    assert (Ho : overruns s op = false) by (by destruct op).
    destruct (run_op s op); rewrite ?Ho; try done. destruct H. by split_and!. }
  destruct op; try by apply Hc.
  - pose proof (put_prefix_safe s prefixlen u Hs Hok) as H.
    destruct (run_op s (OpPutPrefix prefixlen u)); try done. destruct H as (? & ? & ?). by split_and!.
  - destruct (resize_safe s ext newsize Hs Hok) as (s' & -> & Hs'). by split_and!.
  - cbn [run_op overruns same_buffer]. unfold stream_dup. rewrite sane_ok by done. cbn [mbind res_bind].
    unfold stream_new. destruct (Z.ltb_spec 0 (endp s)) as [He|He]; [|done].
    destruct (Hok (endp s) He) as [Hl Hu]. cbn [cassert mbind res_bind].
    rewrite Hl, Z.eqb_refl. cbn [negb mbind res_bind]. assert (Hs' := Hs). destruct Hs' as (? & ? & ? & _).
    pose proof (copy_safe (Stream 0 0 (endp s) (malloc (endp s))) s Hs ltac:(simpl; lia) Hl Hu) as H3.
    destruct (stream_copy _ s); [|done..]. by destruct H3; split_and!.
Qed.

(** A run of operations; it stops at the first one that aborts or faults. *)
Fixpoint run_ops (s : stream) (ops : list stream_op) : res stream :=
  match ops with
  | [] => Ret s
  | op :: ops => s ← run_op s op; run_ops s ops
  end.

(** Somewhere in the run a prefix is put with exactly its octets left. *)
Fixpoint run_overruns (s : stream) (ops : list stream_op) : bool :=
  match ops with
  | [] => false
  | op :: ops => overruns s op || match run_op s op with Ret s => run_overruns s ops | _ => false end
  end.

Lemma run_ops_safe s ops :
  stream_wf s -> Forall op_ok ops ->
  match run_ops s ops with
  | Ret s' => stream_wf s' /\ (forallb same_buffer ops = true -> size s' = size s)
              /\ run_overruns s ops = false
  | Abort => run_overruns s ops = false
  | Fault => run_overruns s ops = true
  end.
Proof.
  intros Hs Hops. induction Hops as [|op ops Hop _ IH] in s, Hs |- *; [done|].
  pose proof (run_op_safe s op Hs Hop) as Ho. cbn [run_ops run_overruns forallb].
  destruct (run_op s op) as [s1| |]; cbn [mbind res_bind].
  - destruct Ho as (Hs1 & E & ->). specialize (IH s1 Hs1). cbn [orb].
    destruct (run_ops s1 ops) as [s2| |]; try done. destruct IH as (? & E2 & ?).
    split_and!; try done. intros [Hb1 Hb2]%andb_true_iff. rewrite E2 by done. by apply E.
  - by rewrite Ho.
  - by rewrite Ho.
Qed.

(** C11. Memory safety of the stream interface: from a fresh stream, any
    sequence of getters, putters, in-place writes, block copies, reads from a
    descriptor, marker moves, copies, duplications and resizes with honest
    arguments keeps [getp <= endp <= size] whenever it returns, and touches a
    byte outside the buffer in one case only: [stream_put_prefix] of a non-empty
    prefix with exactly the octets of the prefix left, where it always does. *)
Theorem stream_ops_memory_safe (mem : list Z) (n : Z) (ops : list stream_op) :
  0 < n < 2 ^ 63 -> zlen mem = n -> Forall is_u8 mem -> Forall op_ok ops ->
  exists s0, stream_new mem n = Ret s0 /\
  match run_ops s0 ops with
  | Ret s => stream_wf s /\ (forallb same_buffer ops = true -> size s = n)
             /\ run_overruns s0 ops = false
  | Abort => run_overruns s0 ops = false
  | Fault => run_overruns s0 ops = true
  end.
Proof.
  intros Hn Hm Hu Hops. unfold stream_new.
  destruct (Z.ltb_spec 0 n); [simpl|lia].
  destruct (Z.eqb_spec (zlen mem) n); [simpl|done].
  assert (Hwf : stream_wf (Stream 0 0 n mem)) by (repeat split; simpl; auto; lia).
  eexists. split; [done|]. exact (run_ops_safe _ ops Hwf Hops).
Qed.

Definition demo_ops : list stream_op :=
  [OpPutc 7; OpPutw 513; OpPutwAt 1 772; OpGetc; OpForwardGetp 1; OpGetc;
   OpPutPrefix 24 ([10; 1; 2] ++ replicate 13 0)].

(** The last two octets of a prefix fit, the third does not. *)
Lemma stream_ops_memory_safe_witness :
  (exists s, run_ops (Stream 0 0 16 (replicate 16 0)) demo_ops = Ret s /\ stream_wf s /\ size s = 16)
  /\ run_ops (Stream 0 0 6 (replicate 6 0)) demo_ops = Fault.
Proof.
  assert (Hops : Forall op_ok demo_ops).
  { unfold demo_ops. repeat constructor; unfold offset; simpl; lia. }
  assert (Hmem : forall k, Forall is_u8 (replicate k 0)).
  { intros k. apply Forall_replicate. unfold is_u8. lia. }
  split.
  - destruct (stream_ops_memory_safe (replicate 16 0) 16 demo_ops) as (s0 & E0 & H);
      [lia|reflexivity|apply Hmem|exact Hops|].
    injection E0 as <-. destruct (run_ops _ demo_ops) as [s| |] eqn:E; [|vm_compute in E; discriminate E..].
    exists s. split; [reflexivity|]. destruct H as (Hs & Hz & _). split; [exact Hs|].
    apply Hz. reflexivity.
  - destruct (stream_ops_memory_safe (replicate 6 0) 6 demo_ops) as (s0 & E0 & H);
      [lia|reflexivity|apply Hmem|exact Hops|].
    injection E0 as <-. destruct (run_ops _ demo_ops) as [s| |] eqn:E; [vm_compute in E; discriminate E..|].
    reflexivity.
Defined.

(** ** Round trips *)
Lemma unread_append_nil s bs :
  stream_wf s -> unread s = [] -> unread (append s bs) = bs.
Proof. intros Hs Hu. by rewrite append_unread, Hu by done. Qed.

Lemma be_roundtrip n z :
  0 <= z < 2 ^ (8 * Z.of_nat n) -> be_value (be_bytes n z) = z.
Proof. intros. by rewrite be_value_bytes, Z.mod_small. Qed.

(** After advancing over [bs], what follows is next. *)
Lemma advance_over s bs r n :
  stream_wf s -> unread s = bs ++ r -> n = zlen bs ->
  stream_wf (advance s n) /\ unread (advance s n) = r.
Proof.
  intros Hs Hu ->. pose proof (unread_len s Hs) as Hl. rewrite Hu, zlen_app in Hl.
  pose proof (zlen_nonneg bs). pose proof (zlen_nonneg r). split.
  - apply advance_wf; [done|lia].
  - rewrite advance_unread, Hu by (done || lia). unfold zlen.
    by rewrite Nat2Z.id, drop_app_length.
Qed.

Definition put_all (s : stream) (c w l q : Z) : res stream :=
  '(_, s) ← stream_putc s c;
  '(_, s) ← stream_putw s w;
  '(_, s) ← stream_putl s l;
  '(_, s) ← stream_putq s q;
  Ret s.

Definition get_all (s : stream) : res (Z * Z * Z * Z * stream) :=
  '(c, s) ← stream_getc s;
  '(w, s) ← stream_getw s;
  '(l, s) ← stream_getl s;
  '(q, s) ← stream_getq s;
  Ret (c, w, l, q, s).

Lemma put_all_append s c w l q :
  stream_wf s -> 15 <= size s - endp s ->
  put_all s c w l q = Ret (append s ([u8 c] ++ be_bytes 2 (u16 w)
                                     ++ be_bytes 4 (u32 l) ++ be_bytes 8 (u64 q))).
Proof.
  intros Hs Hl. unfold put_all.
  rewrite stream_putc_append by (done || lia). cbn [mbind res_bind].
  rewrite stream_putw_append by stream_side. cbn [mbind res_bind].
  rewrite append_append by done.
  rewrite stream_putl_append by stream_side. cbn [mbind res_bind].
  rewrite append_append by done.
  rewrite stream_putq_append by stream_side. cbn [mbind res_bind].
  rewrite append_append by done. by rewrite <- !app_assoc.
Qed.

Lemma get_all_advance s c w l q :
  stream_wf s -> is_u8 c -> is_u16 w -> is_u32 l -> 0 <= q < 2 ^ 64 ->
  unread s = [c] ++ be_bytes 2 w ++ be_bytes 4 l ++ be_bytes 8 q ->
  get_all s = Ret (c, w, l, q, advance s 15) /\ unread (advance s 15) = [].
Proof.
  intros Hs Hc Hw Hl Hq Hu. unfold get_all.
  rewrite (stream_getc_advance s c _ Hs Hu). cbn [mbind res_bind].
  destruct (advance_over s [c] _ 1 Hs Hu eq_refl) as [Hs1 Hu1].
  rewrite (stream_getw_advance _ _ _ _ Hs1 Hu1), advance_advance. cbn [mbind res_bind].
  destruct (advance_over _ (be_bytes 2 w) _ 2 Hs1 Hu1 eq_refl) as [Hs2 Hu2].
  rewrite advance_advance in *.
  rewrite (stream_getl_advance _ _ _ _ _ _ Hs2 Hu2), advance_advance. cbn [mbind res_bind].
  destruct (advance_over _ (be_bytes 4 l) _ 4 Hs2 Hu2 eq_refl) as [Hs3 Hu3].
  rewrite advance_advance in *.
  rewrite <- (app_nil_r (be_bytes 8 q)) in Hu3.
  rewrite (stream_getq_advance _ _ _ _ _ _ _ _ _ _ Hs3 Hu3), advance_advance.
  cbn [mbind res_bind].
  destruct (advance_over _ (be_bytes 8 q) _ 8 Hs3 Hu3 eq_refl) as [_ Hu4].
  rewrite advance_advance in Hu4. split; [|exact Hu4].
  change (be_value [u8 (Z.shiftr w _); _]) with (be_value (be_bytes 2 w)).
  change (be_value [u8 (Z.shiftr l _); _; _; _]) with (be_value (be_bytes 4 l)).
  change (be_value [u8 (Z.shiftr q _); _; _; _; _; _; _; _])
    with (be_value (be_bytes 8 q)).
  rewrite (be_roundtrip 2 w), (be_roundtrip 4 l), (be_roundtrip 8 q) by done. done.
Qed.

(** C12. What is put is what is got: a byte, a word, a long and a quad written
    to a drained stream are read back in order with the values they had, at
    every width, and nothing is left over. *)
Theorem stream_put_get_roundtrip (s : stream) (c w l q : Z) :
  stream_wf s -> unread s = [] -> 15 <= size s - endp s ->
  is_u8 c -> is_u16 w -> is_u32 l -> 0 <= q < 2 ^ 64 ->
  exists s1 s2, put_all s c w l q = Ret s1
    /\ get_all s1 = Ret (c, w, l, q, s2)
    /\ unread s2 = [] /\ contents s2 = contents s1.
Proof.
  intros Hs Hu Hz Hc Hw Hl Hq.
  rewrite put_all_append by done. rewrite u8_id, u16_id, u32_id, u64_id by done.
  eexists _, _. split; [done|].
  destruct (get_all_advance (append s ([c] ++ be_bytes 2 w ++ be_bytes 4 l
              ++ be_bytes 8 q)) c w l q) as [-> E]; auto.
  - stream_side.
  - by apply unread_append_nil.
Qed.

Lemma stream_put_get_roundtrip_witness :
  exists s1 s2, put_all (Stream 0 0 16 (replicate 16 0)) 255 65535 305419896 1 = Ret s1
    /\ get_all s1 = Ret (255, 65535, 305419896, 1, s2)
    /\ unread s2 = [] /\ contents s2 = contents s1.
Proof.
  apply stream_put_get_roundtrip; try (unfold is_u8, is_u16, is_u32; simpl; lia).
  - repeat split; simpl; try lia. repeat constructor; lia.
  - reflexivity.
Defined.

(** ** A full stream *)
Definition full_stream : stream := Stream 0 12 15 (replicate 15 0).

(** A /24 with three octets left: one octet beyond the buffer is written. *)
Lemma stream_put_prefix_bounds_witness :
  stream_put_prefix full_stream 24 ([10; 1; 2] ++ replicate 13 0) = Fault.
Proof.
  rewrite (stream_put_prefix_bounds full_stream 24).
  - reflexivity.
  - repeat split; simpl; try lia. repeat constructor; lia.
  - lia.
  - reflexivity.
  - repeat constructor; lia.
Defined.
