(* ===== verification/Fifo.v ===== *)
(** * lib/stream.c: the intrusive queue of streams ([struct stream_fifo])

    The queue is a chain of heap objects linked through [stream->next], so a
    stream can be queued twice and the aliasing is visible.  The heap maps an
    address to the object allocated there; a freed address is absent. *)
From stdpp Require Import base option list gmap fin_maps.
From S2P Require Import Prelude Stream.

Abbreviation ptr := positive.

Record cell := Cell { next : option ptr; body : stream }.
Abbreviation heap := (gmap ptr cell).

Record fifo := Fifo { count : Z; head : option ptr; tail : option ptr }.

(** [XCALLOC] of the stream header: [next] is NULL. *)
Definition stream_alloc (h : heap) (s : stream) : ptr * heap :=
  let p := fresh (dom h) in (p, <[p := Cell None s]> h).

(** [s->next = n]; writing through a dangling pointer is a fault. *)
Definition set_next (h : heap) (p : ptr) (n : option ptr) : res heap :=
  match h !! p with
  | Some c => Ret (<[p := Cell n (body c)]> h)
  | None => Fault
  end.

Definition get_next (h : heap) (p : ptr) : res (option ptr) :=
  match h !! p with Some c => Ret (next c) | None => Fault end.

(** [stream_free]: freeing a block that is not allocated is a fault. *)
Definition stream_free (h : heap) (p : option ptr) : res heap :=
  match p with
  | None => Ret h
  | Some p => match h !! p with Some _ => Ret (delete p h) | None => Fault end
  end.

Definition stream_fifo_new : fifo := Fifo 0 None None.

Definition stream_fifo_push (h : heap) (f : fifo) (s : ptr) : res (heap * fifo) :=
  '(h, hd) ← match tail f with
             | Some t => h ← set_next h t (Some s); Ret (h, head f)
             | None => Ret (h, Some s)
             end;
  Ret (h, Fifo (u64 (count f + 1)) hd (Some s)).

Definition stream_fifo_pop (h : heap) (f : fifo) : res (option ptr * fifo) :=
  match head f with
  | Some s =>
      n ← get_next h s;
      Ret (Some s, Fifo (u64 (count f - 1)) n
                     (match n with None => None | Some _ => tail f end))
  | None => Ret (None, Fifo (u64 (count f - 1)) None (tail f))
  end.

Definition stream_fifo_head (f : fifo) : option ptr := head f.

(** The loop of [stream_fifo_clean]: every round frees one object, so as many
    rounds as the heap has objects are enough ([free_chain_rep]). *)
Fixpoint free_chain (fuel : nat) (h : heap) (s : option ptr) : res heap :=
  match s with
  | None => Ret h
  | Some p =>
      match fuel with
      | O => Fault
      | S fuel =>
          n ← get_next h p;
          h ← stream_free h (Some p);
          free_chain fuel h n
      end
  end.

Definition stream_fifo_clean (h : heap) (f : fifo) : res (heap * fifo) :=
  h ← free_chain (S (base.size h)) h (head f);
  Ret (h, Fifo 0 None None).

(** The streams a writer that follows [next] from the head finds. *)
Fixpoint chain (fuel : nat) (h : heap) (s : option ptr) : res (list stream) :=
  match s, fuel with
  | None, _ => Ret []
  | Some _, O => Fault
  | Some p, S fuel =>
      match h !! p with
      | Some c => r ← chain fuel h (next c); Ret (body c :: r)
      | None => Fault
      end
  end.

Definition fifo_streams (h : heap) (f : fifo) : res (list stream) :=
  chain (S (base.size h)) h (head f).

(** ** What a queue holds

    [linked h l]: the objects of [l] are allocated and each points to the next
    one; what the last one points to is left open. *)
Fixpoint linked (h : heap) (l : list ptr) : Prop :=
  match l with
  | [] => True
  | [x] => is_Some (h !! x)
  | x :: ((y :: _) as r) => (next <$> h !! x) = Some (Some y) /\ linked h r
  end.

Definition fifo_open (h : heap) (f : fifo) (l : list ptr) : Prop :=
  linked h l /\ NoDup l /\ head f = hd_error l /\ tail f = last l.

(** A proper queue: the last object ends the chain. *)
Definition fifo_rep (h : heap) (f : fifo) (l : list ptr) : Prop :=
  fifo_open h f l /\ forall x, last l = Some x -> (next <$> h !! x) = Some None.

(** The streams queued, front first. *)
Definition bodies (h : heap) (l : list ptr) : list stream :=
  omap (fun p => body <$> h !! p) l.

(** [h'] has every object of [h] with the same stream in it. *)
Definition same_bodies (h h' : heap) : Prop :=
  forall p, (body <$> h' !! p) = (body <$> h !! p).

Lemma linked_is_Some h l x : linked h l -> x ∈ l -> is_Some (h !! x).
Proof.
  induction l as [|a [|b r] IH]; intros Hl Hx.
  - by apply elem_of_nil in Hx.
  - apply list_elem_of_singleton in Hx as ->. done.
  - destruct Hl as [Ha Hr]. apply elem_of_cons in Hx as [->|Hx]; [|by apply IH].
    destruct (h !! a); [eauto|done].
Qed.

(** Linking is a local property: other objects may change. *)
Lemma linked_frame h h' l :
  (forall x, x ∈ l -> (next <$> h' !! x) = (next <$> h !! x)) ->
  linked h l -> linked h' l.
Proof.
  induction l as [|a [|b r] IH]; intros Hf Hl; [done| |].
  - simpl in *. specialize (Hf a ltac:(left)).
    destruct Hl as [c Hc]. rewrite Hc in Hf. destruct (h' !! a); [eauto|done].
  - destruct Hl as [Ha Hr]. split.
    + rewrite <- Ha. apply Hf. left.
    + apply IH; [|done]. intros x Hx. apply Hf. by right.
Qed.

(** Pointing the last object at [s] extends the chain. *)
Lemma linked_snoc h h' l t s :
  linked h (l ++ [t]) -> is_Some (h' !! s) ->
  (next <$> h' !! t) = Some (Some s) ->
  (forall x, x ∈ l -> (next <$> h' !! x) = (next <$> h !! x)) ->
  linked h' ((l ++ [t]) ++ [s]).
Proof.
  induction l as [|a l IH]; intros Hl Hs Ht Hf; [done|].
  assert (Hfa := Hf a ltac:(left)).
  assert (Hft : forall x, x ∈ l -> (next <$> h' !! x) = (next <$> h !! x))
    by (intros x Hx; apply Hf; by right).
  destruct l as [|b r]; simpl in *.
  - destruct Hl as [Ha _]. rewrite Hfa. split; [done|]. split; [done|done].
  - destruct Hl as [Ha Hr]. rewrite Hfa. split; [done|]. by apply IH.
Qed.

Lemma set_next_ok h p n c :
  h !! p = Some c -> set_next h p n = Ret (<[p := Cell n (body c)]> h).
Proof. intros H. unfold set_next. by rewrite H. Qed.

Lemma set_next_bodies h p n c :
  h !! p = Some c -> same_bodies h (<[p := Cell n (body c)]> h).
Proof.
  intros H x. rewrite lookup_insert. case_decide as E; [|done].
  subst. by rewrite H.
Qed.

Lemma same_bodies_trans h1 h2 h3 :
  same_bodies h1 h2 -> same_bodies h2 h3 -> same_bodies h1 h3.
Proof. intros A B p. by rewrite B, A. Qed.

Lemma bodies_same h h' l : same_bodies h h' -> bodies h' l = bodies h l.
Proof.
  intros H. unfold bodies. induction l as [|x l IH]; [done|].
  csimpl. by rewrite H, IH.
Qed.

(** Pushing a new object at the end. *)
Lemma push_new h f l s :
  fifo_open h f l -> s ∉ l -> is_Some (h !! s) ->
  exists h' f', stream_fifo_push h f s = Ret (h', f')
    /\ fifo_open h' f' (l ++ [s]) /\ same_bodies h h'
    /\ count f' = u64 (count f + 1)
    /\ (next <$> h' !! s) = (next <$> h !! s)
    /\ dom h' = dom h.
Proof.
  intros (Hl & Hn & Hh & Ht) Hs Hc. unfold stream_fifo_push. rewrite Ht.
  destruct l as [|t l _] using rev_ind.
  - simpl. eexists _, _. split; [done|]. repeat split; simpl; auto.
    apply NoDup_singleton.
  - rewrite last_snoc. destruct (linked_is_Some h _ t Hl) as [c Ec]; [set_solver|].
    rewrite (set_next_ok _ _ _ _ Ec). cbn [mbind res_bind].
    assert (t <> s) by set_solver.
    apply NoDup_app in Hn as (Hn1 & Hn2 & _).
    eexists _, _. split; [done|]. split; [|split; [|split; [|split]]].
    + repeat split; simpl.
      * eapply linked_snoc; [done|..].
        -- rewrite lookup_insert_ne by done. done.
        -- rewrite lookup_insert_eq. done.
        -- intros x Hx. rewrite lookup_insert_ne; [done|].
           intros ->. apply (Hn2 x Hx). set_solver.
      * apply NoDup_app. split; [apply NoDup_app; split; [done|]|].
        -- split; [done|apply NoDup_singleton].
        -- split; [set_solver|apply NoDup_singleton].
      * rewrite Hh. by destruct l.
      * by rewrite last_snoc.
    + by apply set_next_bodies.
    + done.
    + by rewrite lookup_insert_ne.
    + rewrite dom_insert_L. apply elem_of_dom_2 in Ec. set_solver.
Qed.

(** Pushing the object that is already last: it now points at itself. *)
Lemma push_again h f l s :
  fifo_open h f (l ++ [s]) ->
  exists h' f', stream_fifo_push h f s = Ret (h', f')
    /\ fifo_open h' f' (l ++ [s]) /\ same_bodies h h'
    /\ count f' = u64 (count f + 1)
    /\ (next <$> h' !! s) = Some (Some s)
    /\ dom h' = dom h.
Proof.
  intros (Hl & Hn & Hh & Ht). unfold stream_fifo_push. rewrite Ht, last_snoc.
  destruct (linked_is_Some h _ s Hl) as [c Ec]; [set_solver|].
  rewrite (set_next_ok _ _ _ _ Ec). cbn [mbind res_bind].
  eexists _, _. split; [done|]. split; [|split; [|split; [|split]]].
  - repeat split; simpl; try done; [|by rewrite last_snoc].
    assert (Hls : forall x, x ∈ l -> x <> s).
    { intros x Hx ->. apply NoDup_app in Hn as (_ & Hd & _). apply (Hd s Hx). set_solver. }
    clear -Hl Hls Ec. induction l as [|a l IH]; simpl in *.
    + rewrite lookup_insert_eq. eauto.
    + assert (a <> s) by (apply Hls; left).
      assert (forall x, x ∈ l -> x <> s) by (intros; apply Hls; by right).
      destruct (l ++ [s]) as [|b r] eqn:E; [by destruct l|].
      destruct Hl as [Ha Hr]. rewrite lookup_insert_ne by done. split; [done|].
      by apply IH.
  - by apply set_next_bodies.
  - done.
  - rewrite lookup_insert_eq. done.
  - rewrite dom_insert_L. apply elem_of_dom_2 in Ec. set_solver.
Qed.

(** A queue whose last object has a NULL [next] is a proper queue. *)
Lemma open_close h f l s :
  fifo_open h f (l ++ [s]) -> (next <$> h !! s) = Some None -> fifo_rep h f (l ++ [s]).
Proof. intros Ho Hn. split; [done|]. intros x. rewrite last_snoc. by intros [= ->]. Qed.

Lemma pop_rep h f s l :
  fifo_rep h f (s :: l) ->
  exists f', stream_fifo_pop h f = Ret (Some s, f') /\ fifo_rep (delete s h) f' l
    /\ count f' = u64 (count f - 1) /\ is_Some (h !! s).
Proof.
  intros [(Hl & Hn & Hh & Ht) Hz]. unfold stream_fifo_pop, get_next. rewrite Hh. simpl.
  apply NoDup_cons in Hn as [Hs Hn].
  destruct (linked_is_Some h _ s Hl) as [c Ec]; [left|]. rewrite Ec. cbn [mbind res_bind].
  assert (Hf : forall x, x ∈ l -> (next <$> delete s h !! x) = (next <$> h !! x)).
  { intros x Hx. rewrite lookup_delete_ne; [done|]. by intros ->. }
  destruct l as [|y r].
  - specialize (Hz s eq_refl). rewrite Ec in Hz. injection Hz as ->.
    eexists. split; [done|]. repeat split; simpl; eauto using NoDup_nil_2. done.
  - destruct Hl as [Ha Hr]. rewrite Ec in Ha. injection Ha as ->.
    eexists. split; [done|]. split; [|done]. split.
    + split; [by eapply linked_frame|done].
    + intros x Hx. rewrite Hf; [by apply Hz|]. by apply last_Some_elem_of.
Qed.

(** Cleaning a proper queue frees exactly its objects: the fuel is enough. *)
Lemma free_chain_rep fuel h f l :
  fifo_rep h f l -> (length l <= fuel)%nat ->
  exists h', free_chain fuel h (head f) = Ret h' /\ dom h' = dom h ∖ list_to_set l.
Proof.
  revert h f l. induction fuel as [|fuel IH]; intros h f [|s l] Hr Hle; simpl in Hle; try lia.
  1, 2: destruct Hr as [(_ & _ & Hh & _) _]; rewrite Hh; simpl;
    eexists; split; [done|set_solver].
  destruct (pop_rep _ _ _ _ Hr) as (f' & Hp & Hr' & _ & [c Ec]).
  assert (Hh : head f = Some s) by (by destruct Hr as [(_ & _ & Hh & _) _]).
  unfold stream_fifo_pop in Hp. rewrite Hh in *. simpl.
  unfold get_next in *. rewrite Ec in *. cbn [mbind res_bind] in *.
  injection Hp as <-. simpl in Hr'.
  destruct (IH (delete s h) _ l Hr' ltac:(lia)) as (h' & E & Hd). simpl in E.
  exists h'. split; [done|]. rewrite Hd, dom_delete_L. set_solver.
Qed.

(** Following the chain of a proper queue gives its streams. *)
Lemma chain_rep fuel h l :
  linked h l -> (forall x, last l = Some x -> (next <$> h !! x) = Some None) ->
  (length l <= fuel)%nat -> chain fuel h (hd_error l) = Ret (bodies h l).
Proof.
  revert l. induction fuel as [|fuel IH]; intros [|x l] Hl Hz Hle; simpl in Hle; try lia; try done.
  assert (exists c, h !! x = Some c) as [c Ec]
    by (apply (linked_is_Some h (x :: l)); [done|left]).
  cbn [hd_error chain]. unfold bodies. csimpl. rewrite Ec. csimpl.
  assert (next c = hd_error l /\ linked h l) as [-> Hl'].
  { destruct l as [|y l].
    - specialize (Hz x eq_refl). rewrite Ec in Hz. by injection Hz.
    - destruct Hl as [Hn Hl]. rewrite Ec in Hn. by injection Hn. }
  rewrite IH; [done|done| |lia]. intros y Hy. apply Hz. by destruct l.
Qed.

Lemma fifo_streams_rep h f l : fifo_rep h f l -> fifo_streams h f = Ret (bodies h l).
Proof.
  intros [(Hl & Hn & Hh & _) Hz]. unfold fifo_streams. rewrite Hh.
  apply chain_rep; [done|done|]. rewrite <- size_dom, <- (size_list_to_set (C := gset ptr) l) by done.
  apply Nat.le_le_succ_r, subseteq_size. intros x Hx%elem_of_list_to_set.
  apply elem_of_dom. by eapply linked_is_Some.
Qed.

(** ** Refinement: a queue of streams

    [bgp_packet_add] of a new stream and [bgp_packet_delete], as the daemons
    use them, against the list of streams waiting. *)
Inductive qop := QAdd (s : stream) | QDelete.

Definition bgp_packet_add (h : heap) (f : fifo) (s : ptr) : res (heap * fifo) :=
  stream_fifo_push h f s.

Definition bgp_packet_delete (h : heap) (f : fifo) : res (option ptr * heap * fifo) :=
  '(p, f) ← stream_fifo_pop h f;
  h ← stream_free h p;
  Ret (p, h, f).

(** The streams handed out by the deletions, with the final queue. *)
Fixpoint fifo_run (h : heap) (f : fifo) (ops : list qop)
    : res (heap * fifo * list stream) :=
  match ops with
  | [] => Ret (h, f, [])
  | QAdd s :: ops =>
      let '(p, h) := stream_alloc h s in
      '(h, f) ← bgp_packet_add h f p;
      fifo_run h f ops
  | QDelete :: ops =>
      let out := match head f with
                 | Some p => option_list (body <$> h !! p)
                 | None => []
                 end in
      '(_, h, f) ← bgp_packet_delete h f;
      '(h, f, outs) ← fifo_run h f ops;
      Ret (h, f, out ++ outs)
  end.

(** Specification: a plain list; deleting from an empty queue is not allowed. *)
Fixpoint queue_spec (q : list stream) (ops : list qop)
    : option (list stream * list stream) :=
  match ops with
  | [] => Some (q, [])
  | QAdd s :: ops => queue_spec (q ++ [s]) ops
  | QDelete :: ops =>
      match q with
      | [] => None
      | s :: q => '(q, outs) ← queue_spec q ops; Some (q, s :: outs)
      end
  end.

Lemma alloc_fresh h s : let '(p, h') := stream_alloc h s in
  h !! p = None /\ h' = <[p := Cell None s]> h.
Proof.
  simpl. split; [|done]. apply not_elem_of_dom. apply is_fresh.
Qed.

Lemma open_frame h h' f l :
  (forall x, x ∈ l -> h' !! x = h !! x) -> fifo_open h f l -> fifo_open h' f l.
Proof.
  intros Hf (Hl & ?). split; [|done]. eapply linked_frame; [|done].
  intros x Hx. by rewrite Hf.
Qed.

Lemma open_fresh h f l p :
  fifo_open h f l -> h !! p = None -> p ∉ l.
Proof.
  intros (Hl & _) Hp Hin. destruct (linked_is_Some h l p Hl Hin). congruence.
Qed.

Lemma bodies_app h l k : bodies h (l ++ k) = bodies h l ++ bodies h k.
Proof. unfold bodies. by rewrite omap_app. Qed.

Lemma bodies_frame h h' l :
  (forall x, x ∈ l -> h' !! x = h !! x) -> bodies h' l = bodies h l.
Proof.
  unfold bodies. induction l as [|a l IH]; intros Hf; [done|].
  csimpl. rewrite Hf by left. rewrite IH; [done|]. intros. apply Hf. by right.
Qed.

(** Adding a newly allocated stream to a queue that is open at its end closes
    it: the new stream ends the chain. *)
Lemma add_new h f l s :
  fifo_open h f l ->
  let '(p, h1) := stream_alloc h s in
  exists h' f', bgp_packet_add h1 f p = Ret (h', f')
    /\ p ∉ l /\ fifo_rep h' f' (l ++ [p])
    /\ bodies h' (l ++ [p]) = bodies h l ++ [s]
    /\ count f' = u64 (count f + 1)
    /\ dom h' = {[p]} ∪ dom h
    /\ (forall x, x ∈ dom h -> (body <$> h' !! x) = (body <$> h !! x)).
Proof.
  intros Ho. pose proof (alloc_fresh h s) as Hp.
  destruct (stream_alloc h s) as [p h1]. destruct Hp as [Hp ->].
  assert (Hpl := open_fresh _ _ _ _ Ho Hp).
  assert (Hf : forall x, x ∈ l -> <[p := Cell None s]> h !! x = h !! x)
    by (intros x Hx; rewrite lookup_insert_ne; [done|set_solver]).
  destruct (push_new (<[p := Cell None s]> h) f l p) as (h' & f' & E & Ho' & Hb & Hc & Hn & Hd).
  - by eapply open_frame.
  - done.
  - rewrite lookup_insert_eq. eauto.
  - exists h', f'. split; [done|]. split; [done|].
    split; [apply open_close; [done|]; by rewrite Hn, lookup_insert_eq|].
    split; [|split; [done|split]].
    + rewrite (bodies_same _ _ _ Hb), bodies_app, (bodies_frame h _ l) by done.
      f_equal. unfold bodies; csimpl. by rewrite lookup_insert_eq.
    + by rewrite Hd, dom_insert_L.
    + intros x Hx. rewrite Hb, lookup_insert_ne; [done|].
      intros ->. by apply elem_of_dom in Hx as [? ?]; congruence.
Qed.

(** Deleting from a proper queue frees its first stream. *)
Lemma delete_first h f s l :
  fifo_rep h f (s :: l) ->
  exists f', bgp_packet_delete h f = Ret (Some s, delete s h, f')
    /\ fifo_rep (delete s h) f' l /\ count f' = u64 (count f - 1)
    /\ bodies (delete s h) l = bodies h l /\ is_Some (h !! s).
Proof.
  intros Hr. destruct (pop_rep _ _ _ _ Hr) as (f' & Hp & Hr' & Hc & [c Ec]).
  unfold bgp_packet_delete. rewrite Hp. simpl. rewrite Ec. simpl.
  exists f'. split_and!; eauto. apply bodies_frame.
  intros x Hx. rewrite lookup_delete_ne; [done|]. intros ->.
  destruct Hr as [(_ & Hn & _) _]. apply NoDup_cons in Hn as [Hn _]. done.
Qed.

Lemma fifo_run_refines ops : forall h f l q q' outs,
  fifo_rep h f l -> bodies h l = q -> dom h = list_to_set l ->
  count f = zlen q -> zlen q + zlen ops < 2 ^ 64 ->
  queue_spec q ops = Some (q', outs) ->
  exists h' f' l', fifo_run h f ops = Ret (h', f', outs)
    /\ fifo_rep h' f' l' /\ bodies h' l' = q' /\ dom h' = list_to_set l'
    /\ count f' = zlen q'.
Proof.
  induction ops as [|[s|] ops IH]; intros h f l q q' outs Hr Hb Hd Hc Hz Hq; cbn [fifo_run].
  - simpl in Hq. injection Hq as <- <-. eauto 10.
  - pose proof (add_new h f l s (proj1 Hr)) as Ha.
    destruct (stream_alloc h s) as [p h1].
    destruct Ha as (h' & f' & -> & Hp & Hr' & Hb' & Hc' & Hd' & _).
    cbn [mbind res_bind]. rewrite zlen_cons in Hz. pose proof (zlen_nonneg ops).
    eapply (IH h' f' (l ++ [p]) (q ++ [s])); try done.
    + by rewrite Hb', Hb.
    + rewrite Hd', Hd. set_solver.
    + rewrite Hc', Hc, zlen_app. unfold zlen at 3; simpl.
      pose proof (zlen_nonneg q). apply u64_id. lia.
    + rewrite zlen_app. unfold zlen at 2; simpl. lia.
  - destruct q as [|s q]; [done|]. cbn [queue_spec] in Hq.
    destruct l as [|p l]; [done|].
    destruct (delete_first _ _ _ _ Hr) as (f' & E & Hr' & Hc' & Hb' & [c Ec]).
    rewrite E. cbn [mbind res_bind].
    assert (Hh : head f = Some p) by (by destruct Hr as [(_ & _ & Hh & _) _]).
    unfold bodies in Hb. csimpl in Hb. rewrite Ec in Hb. simpl in Hb.
    injection Hb as Hbs Hbq.
    destruct (queue_spec q ops) as [[q1 outs1]|] eqn:Eq; [|done].
    simpl in Hq. injection Hq as <- <-.
    rewrite zlen_cons in Hz, Hc. rewrite zlen_cons in Hz.
    pose proof (zlen_nonneg ops). pose proof (zlen_nonneg q).
    destruct (IH (delete p h) f' l q q1 outs1) as (h2 & f2 & l2 & E2 & ?);
      try done.
    + by rewrite Hb'.
    + rewrite dom_delete_L, Hd. simpl.
      destruct Hr as [(_ & Hn & _) _]. apply NoDup_cons in Hn as [Hn _]. set_solver.
    + rewrite Hc', Hc. rewrite u64_id; lia.
    + lia.
    + exists h2, f2, l2. rewrite E2. cbn [mbind res_bind].
      rewrite Hh, Ec. simpl. by rewrite Hbs.
Qed.

(** C13. The output queue refines a FIFO list: from an empty queue, any
    sequence of additions of new streams and deletions from a non-empty queue
    hands out exactly the streams a list queue would, in order, without a
    use after free; the chain, the count and the set of live objects agree
    with the list left over, and [stream_fifo_clean] then frees all of it. *)
Theorem fifo_refines_queue (ops : list qop) (q outs : list stream) :
  zlen ops < 2 ^ 64 -> queue_spec [] ops = Some (q, outs) ->
  exists h f l, fifo_run ∅ stream_fifo_new ops = Ret (h, f, outs)
    /\ fifo_rep h f l /\ bodies h l = q /\ count f = zlen q
    /\ exists h', stream_fifo_clean h f = Ret (h', stream_fifo_new) /\ dom h' = ∅.
Proof.
  intros Hz Hq.
  assert (H0 : fifo_rep ∅ stream_fifo_new []).
  { split; [|done]. repeat split; simpl; auto. apply NoDup_nil_2. }
  destruct (fifo_run_refines ops ∅ stream_fifo_new [] [] q outs)
    as (h & f & l & E & Hr & Hb & Hd & Hc); try done.
  exists h, f, l. split_and!; try done.
  assert (Hlen : (length l <= S (base.size h))%nat).
  { rewrite <- size_dom, Hd, size_list_to_set; [lia|]. by destruct Hr as [(_ & ? & _) _]. }
  destruct (free_chain_rep _ h f l Hr Hlen) as (h' & E' & Hd').
  exists h'. unfold stream_fifo_clean. rewrite E'. split; [done|].
  rewrite Hd', Hd. set_solver.
Qed.

Definition demo_stream (n : Z) : stream := Stream 0 1 1 [n].

Lemma fifo_refines_queue_witness :
  exists h f l,
    fifo_run ∅ stream_fifo_new
      [QAdd (demo_stream 1); QAdd (demo_stream 2); QDelete; QAdd (demo_stream 3)]
    = Ret (h, f, [demo_stream 1])
    /\ fifo_rep h f l /\ bodies h l = [demo_stream 2; demo_stream 3] /\ count f = 2
    /\ exists h', stream_fifo_clean h f = Ret (h', stream_fifo_new) /\ dom h' = ∅.
Proof.
  apply (fifo_refines_queue
    [QAdd (demo_stream 1); QAdd (demo_stream 2); QDelete; QAdd (demo_stream 3)]
    [demo_stream 2; demo_stream 3] [demo_stream 1]); reflexivity.
Defined.
