(* ===== verification/Packet.v ===== *)
(** * bgpd/bgp_packet.c: message framing

    Marker, length and type of a BGP message as [bgp_packet_set_marker] and
    [bgp_packet_set_size] lay them out, and the checks [bgp_read] makes on a
    received header before it dispatches on the type. *)
From stdpp Require Import base option list.
From S2P Require Import Prelude Stream.

Definition BGP_MARKER_SIZE : Z := 16.
Definition BGP_HEADER_SIZE : Z := 19.
Definition BGP_MAX_PACKET_SIZE : Z := 4096.

Definition BGP_MSG_OPEN : Z := 1.
Definition BGP_MSG_UPDATE : Z := 2.
Definition BGP_MSG_NOTIFY : Z := 3.
Definition BGP_MSG_KEEPALIVE : Z := 4.
Definition BGP_MSG_ROUTE_REFRESH_NEW : Z := 5.
Definition BGP_MSG_CAPABILITY : Z := 6.
Definition BGP_MSG_TRUST : Z := 7.
Definition BGP_MSG_VOTING_PEERS_REQUEST : Z := 8.
Definition BGP_MSG_VOTING_PEERS_RESPONSE : Z := 9.
Definition BGP_MSG_VOTING_VOTE_REQUEST : Z := 10.
Definition BGP_MSG_VOTING_VOTE_RESPONSE : Z := 11.
Definition BGP_MSG_ROUTE_REFRESH_OLD : Z := 128.

Definition BGP_MSG_OPEN_MIN_SIZE : Z := BGP_HEADER_SIZE + 10.
Definition BGP_MSG_UPDATE_MIN_SIZE : Z := BGP_HEADER_SIZE + 4.
Definition BGP_MSG_NOTIFY_MIN_SIZE : Z := BGP_HEADER_SIZE + 2.
Definition BGP_MSG_KEEPALIVE_MIN_SIZE : Z := BGP_HEADER_SIZE + 0.
Definition BGP_MSG_ROUTE_REFRESH_MIN_SIZE : Z := BGP_HEADER_SIZE + 4.
Definition BGP_MSG_CAPABILITY_MIN_SIZE : Z := BGP_HEADER_SIZE + 3.
Definition BGP_MSG_TRUST_MIN_SIZE : Z := BGP_HEADER_SIZE + 0.
Definition BGP_MSG_VOTING_PEERS_REQUEST_MIN_SIZE : Z := BGP_HEADER_SIZE + 0.
Definition BGP_MSG_VOTING_PEERS_RESPONSE_MIN_SIZE : Z := BGP_HEADER_SIZE + 0.
Definition BGP_MSG_VOTING_VOTE_REQUEST_MIN_SIZE : Z := BGP_HEADER_SIZE + 0.
Definition BGP_MSG_VOTING_VOTE_RESPONSE_MIN_SIZE : Z := BGP_HEADER_SIZE + 0.

(** ** Writing a header *)
Fixpoint put_marker (n : nat) (s : stream) : res stream :=
  match n with
  | O => Ret s
  | S n => '(_, s) ← stream_putc s 255; put_marker n s
  end.

Definition bgp_packet_set_marker (s : stream) (type : Z) : res (Z * stream) :=
  s ← put_marker (Z.to_nat BGP_MARKER_SIZE) s;
  '(_, s) ← stream_putw s 0;
  '(_, s) ← stream_putc s type;
  cp ← stream_get_endp s;
  Ret (cp, s).

Definition bgp_packet_set_size (s : stream) : res (Z * stream) :=
  cp ← stream_get_endp s;
  '(_, s) ← stream_putw_at s BGP_MARKER_SIZE cp;
  Ret (cp, s).

(** ** Checks on a received header *)

(** Is [s->data[0..length)] all ones? *)
Definition bgp_marker_all_one (s : stream) (length : Z) : res bool :=
  bs ← zload (data s) 0 length;
  Ret (forallb (fun b => b =? 255) bs).

(** The types [bgp_read] knows. *)
Definition known_type (type : Z) : bool :=
  (type =? BGP_MSG_OPEN) || (type =? BGP_MSG_UPDATE) || (type =? BGP_MSG_NOTIFY)
  || (type =? BGP_MSG_KEEPALIVE) || (type =? BGP_MSG_ROUTE_REFRESH_NEW)
  || (type =? BGP_MSG_ROUTE_REFRESH_OLD) || (type =? BGP_MSG_CAPABILITY)
  || (type =? BGP_MSG_TRUST) || (type =? BGP_MSG_VOTING_PEERS_REQUEST)
  || (type =? BGP_MSG_VOTING_VOTE_REQUEST) || (type =? BGP_MSG_VOTING_VOTE_RESPONSE)
  || (type =? BGP_MSG_VOTING_PEERS_RESPONSE).

(** The "minimum packet length check": true when the length is refused. *)
Definition bad_length (type size : Z) : bool :=
  (size <? BGP_HEADER_SIZE)
  || (BGP_MAX_PACKET_SIZE <? size)
  || ((type =? BGP_MSG_OPEN) && (size <? BGP_MSG_OPEN_MIN_SIZE))
  || ((type =? BGP_MSG_UPDATE) && (size <? BGP_MSG_UPDATE_MIN_SIZE))
  || ((type =? BGP_MSG_NOTIFY) && (size <? BGP_MSG_NOTIFY_MIN_SIZE))
  || ((type =? BGP_MSG_KEEPALIVE) && negb (size =? BGP_MSG_KEEPALIVE_MIN_SIZE))
  || ((type =? BGP_MSG_ROUTE_REFRESH_NEW) && (size <? BGP_MSG_ROUTE_REFRESH_MIN_SIZE))
  || ((type =? BGP_MSG_ROUTE_REFRESH_OLD) && (size <? BGP_MSG_ROUTE_REFRESH_MIN_SIZE))
  || ((type =? BGP_MSG_CAPABILITY) && (size <? BGP_MSG_CAPABILITY_MIN_SIZE))
  || ((type =? BGP_MSG_TRUST) && (size <? BGP_MSG_TRUST_MIN_SIZE))
  || ((type =? BGP_MSG_VOTING_PEERS_REQUEST)
      && (size <? BGP_MSG_VOTING_PEERS_REQUEST_MIN_SIZE))
  || ((type =? BGP_MSG_VOTING_VOTE_REQUEST)
      && (size <? BGP_MSG_VOTING_VOTE_REQUEST_MIN_SIZE))
  || ((type =? BGP_MSG_VOTING_VOTE_RESPONSE)
      && (size <? BGP_MSG_VOTING_VOTE_RESPONSE_MIN_SIZE))
  || ((type =? BGP_MSG_VOTING_PEERS_RESPONSE)
      && (size <? BGP_MSG_VOTING_PEERS_RESPONSE_MIN_SIZE)).

(** What [bgp_read] does with the 19 octets of a header: a NOTIFICATION with
    the given error subcode, or acceptance of [size] octets of [type]. *)
Inductive header_verdict :=
| NotSync | BadType (type : Z) | BadLength | Accept (size type : Z).

Definition check_header (s : stream) : res (header_verdict * stream) :=
  s ← stream_forward_getp s BGP_MARKER_SIZE;
  '(size, s) ← stream_getw s;
  '(type, s) ← stream_getc s;
  ones ← if (type =? BGP_MSG_OPEN) || (type =? BGP_MSG_KEEPALIVE)
         then bgp_marker_all_one s BGP_MARKER_SIZE else Ret true;
  Ret (if negb ones then NotSync
       else if negb (known_type type) then BadType type
       else if bad_length type size then BadLength
       else Accept size type, s).

(** ** A message on the wire *)
Definition wire (type : Z) (payload : list Z) : list Z :=
  replicate 16 255 ++ be_bytes 2 (BGP_HEADER_SIZE + zlen payload) ++ [type] ++ payload.

Lemma wire_len type payload : zlen (wire type payload) = BGP_HEADER_SIZE + zlen payload.
Proof.
  unfold wire. rewrite !zlen_app. change (zlen (replicate 16 255)) with 16.
  change (zlen (be_bytes 2 _)) with 2. change (zlen [type]) with 1.
  unfold BGP_HEADER_SIZE. lia.
Qed.

Lemma put_marker_append n s :
  stream_wf s -> Z.of_nat n <= Stream.size s - endp s ->
  put_marker n s = Ret (append s (replicate n 255)).
Proof.
  revert s. induction n as [|n IH]; intros s Hs Hn; cbn [put_marker].
  - by rewrite append_nil.
  - rewrite stream_putc_append by (done || lia). cbn [mbind res_bind].
    change (u8 255) with 255.
    assert (H8 : is_u8 255) by (unfold is_u8; lia).
    rewrite IH by stream_side. by rewrite append_append.
Qed.

(** In-place rewriting of two octets. *)
Lemma putw_at_contents s a x y b w :
  stream_wf s -> contents s = a ++ [x; y] ++ b ->
  stream_putw_at s (zlen a) w =
    Ret (2, set_data s (a ++ be_bytes 2 (u16 w) ++ b
                        ++ drop (Z.to_nat (endp s)) (data s))).
Proof.
  intros Hs Hc. unfold stream_putw_at. rewrite sane_ok by done. cbn [mbind res_bind].
  pose proof (contents_len s Hs) as Hl. rewrite Hc, !zlen_app in Hl.
  pose proof (zlen_nonneg a). pose proof (zlen_nonneg b).
  assert (Hd := data_split s Hs). assert (Hw := Hs). destruct Hw as (? & ? & ? & _).
  unfold PUT_AT_VALID, GETP_VALID. change (zlen [x; y]) with 2 in Hl.
  rewrite u64_id by lia.
  destruct (Z.leb_spec (zlen a + 2) (endp s)); [|lia]. cbn [negb].
  rewrite Hd at 1. rewrite Hc, <- !app_assoc. cbn [app].
  rewrite zput_app by done. cbn [mbind res_bind].
  rewrite (cons_middle _ a), app_assoc.
  rewrite zput_app by (rewrite zlen_app; unfold zlen at 3; simpl; lia).
  cbn [mbind res_bind]. cbn [be_bytes app]. change (8 * Z.of_nat 0) with 0.
  rewrite Z.shiftr_0_r, <- app_assoc. done.
Qed.

Lemma set_data_contents s c d :
  stream_wf s -> zlen c = endp s -> contents (set_data s (c ++ d)) = c.
Proof.
  intros (? & _) Hc. unfold contents. simpl. apply take_app_length'.
  unfold zlen in Hc. lia.
Qed.

(** Building a message in a new buffer: header, payload written by [puts],
    then the length patched in. *)
Definition build_message (mem : list Z) (type : Z) (puts : stream -> res stream)
    : res stream :=
  s ← stream_new mem BGP_MAX_PACKET_SIZE;
  '(_, s) ← bgp_packet_set_marker s type;
  s ← puts s;
  '(_, s) ← bgp_packet_set_size s;
  Ret s.

Definition packet_mem (mem : list Z) : Prop :=
  zlen mem = BGP_MAX_PACKET_SIZE /\ Forall is_u8 mem.

Lemma set_marker_append s type :
  stream_wf s -> 19 <= Stream.size s - endp s -> is_u8 type ->
  bgp_packet_set_marker s type =
    Ret (endp s + 19, append s (replicate 16 255 ++ [0; 0] ++ [type])).
Proof.
  intros Hs Hl Ht. unfold bgp_packet_set_marker.
  assert (H8 : Forall is_u8 (replicate 16 255))
    by (apply Forall_replicate; unfold is_u8; lia).
  rewrite put_marker_append by (done || (unfold BGP_MARKER_SIZE; lia)).
  cbn [mbind res_bind]. change (Z.to_nat BGP_MARKER_SIZE) with 16%nat.
  assert (zlen (replicate 16 255) = 16) by done.
  rewrite stream_putw_append by (stream_side || (cbn [append endp Stream.size]; lia)).
  cbn [mbind res_bind].
  change (be_bytes 2 (u16 0)) with [0; 0]. rewrite append_append by done.
  assert (H0 : Forall is_u8 (replicate 16 255 ++ [0; 0]))
    by (apply Forall_app_2; [done|repeat constructor; lia]).
  assert (zlen (replicate 16 255 ++ [0; 0]) = 18) by done.
  rewrite stream_putc_append by
    first [apply append_wf; [done|done|lia] | cbn [append endp Stream.size]; lia].
  cbn [mbind res_bind]. rewrite u8_id by done. rewrite append_append by done.
  rewrite <- app_assoc.
  unfold stream_get_endp. rewrite sane_ok.
  - done.
  - apply append_wf; [done| |].
    + apply Forall_app_2; [done|]. repeat constructor; (lia || apply Ht).
    + rewrite !zlen_app. unfold zlen; simpl. lia.
Qed.

(** A message with payload [bs] is its wire format, ready to be read. *)
Lemma build_message_wire mem type puts bs :
  packet_mem mem -> is_u8 type -> Forall is_u8 bs -> zlen bs <= 4077 ->
  (forall s, stream_wf s -> zlen bs <= Stream.size s - endp s -> puts s = Ret (append s bs)) ->
  exists s, build_message mem type puts = Ret s /\ stream_wf s
    /\ getp s = 0 /\ contents s = wire type bs.
Proof.
  intros [Hm Hm8] Ht Hb Hl Hp. unfold build_message, stream_new.
  change (0 <? BGP_MAX_PACKET_SIZE) with true. cbn [cassert mbind res_bind].
  rewrite Hm, Z.eqb_refl. cbn [negb mbind res_bind].
  set (s0 := Stream 0 0 BGP_MAX_PACKET_SIZE mem).
  assert (H0 : stream_wf s0) by (repeat split; simpl; auto; unfold BGP_MAX_PACKET_SIZE; lia).
  assert (Hz : Stream.size s0 - endp s0 = 4096) by done.
  rewrite set_marker_append by (done || lia). cbn [mbind res_bind].
  set (hdr := replicate 16 255 ++ [0; 0] ++ [type]).
  assert (Hh : zlen hdr = 19) by done.
  assert (Hh8 : Forall is_u8 hdr).
  { apply Forall_app_2; [apply Forall_replicate; unfold is_u8; lia|].
    repeat constructor; (lia || apply Ht). }
  assert (H1 : stream_wf (append s0 hdr)) by (apply append_wf; [done..|lia]).
  rewrite Hp by (done || (cbn [append endp Stream.size]; lia)). cbn [mbind res_bind].
  rewrite append_append by done.
  set (s1 := append s0 (hdr ++ bs)).
  assert (Hlen : zlen (hdr ++ bs) = 19 + zlen bs) by (rewrite zlen_app; lia).
  pose proof (zlen_nonneg bs).
  assert (H2 : stream_wf s1).
  { apply append_wf; [done|by apply Forall_app_2|lia]. }
  assert (Hc : contents s1 = replicate 16 255 ++ [0; 0] ++ ([type] ++ bs))
    by (unfold s1; rewrite append_contents by done; done).
  unfold bgp_packet_set_size, stream_get_endp. rewrite sane_ok by done.
  cbn [mbind res_bind].
  assert (He : endp s1 = BGP_HEADER_SIZE + zlen bs)
    by (unfold s1, append, BGP_HEADER_SIZE; cbn [endp]; change (endp s0) with 0; lia).
  change BGP_MARKER_SIZE with (zlen (replicate 16 255)).
  rewrite (putw_at_contents s1 _ 0 0 _ _ H2 Hc). cbn [mbind res_bind].
  rewrite u16_id by (unfold is_u16, BGP_HEADER_SIZE in *; lia).
  rewrite !app_assoc, <- (app_assoc _ [type] bs), <- (app_assoc _ _ ([type] ++ bs)).
  rewrite He. fold (wire type bs).
  eexists. split; [done|]. split; [|split; [done|]].
  - apply set_data_wf; [done| |].
    + rewrite zlen_app, wire_len, <- He. destruct H2 as (? & ? & ? & Hd & _).
      unfold zlen in *. rewrite length_drop. lia.
    + apply Forall_app_2.
      * unfold wire. repeat apply Forall_app_2; auto with quagga.
        apply Forall_replicate. unfold is_u8. lia.
      * apply Forall_drop. apply H2.
  - apply set_data_contents; [done|]. by rewrite wire_len.
Qed.
