(* ===== verification/Files.v ===== *)
(** * The files of the daemon: fopen, fscanf, fprintf

    The trust and voting code of bgpd/bgp_packet.c and bgpd/bgp_route.c keeps
    its state in files of decimal integers; a file is modelled by the integers
    it holds.  Reading a missing or short file dereferences NULL or leaves the
    array uninitialised: both are a [Fault].

    Most of these reads are fscanf of ["%d"] into the elements of a local
    [u_int16_t x[10]].  Every such conversion stores the four octets of an [int]
    at the address of a two-octet element, so the tenth one writes two octets
    past the array.  What those octets belong to is decided by the compiler and
    not by the source: [array_slack] is how many octets after such an array no
    other object uses.  The stores are executed octet by octet on the array and
    this slack, on a little-endian host; with fewer than two octets of slack
    they are a [Fault] ([read_ten_u16_overrun]). *)
From stdpp Require Import base option list gmap strings.
From Stdlib Require Import ZArith Lia.
From S2P Require Import Prelude.

Abbreviation filesystem := (gmap string (list Z)).

Class Layout := { array_slack : Z; }.

(** The frames leave room behind the arrays for what fscanf writes there. *)
Definition padded {L : Layout} : Prop := 2 <= array_slack.

(** [fopen (name, "r")], [fscanf] of one or ten [%d], [fclose]. *)
Definition read_int (fs : filesystem) (name : string) : res Z :=
  match fs !! name with Some (x :: _) => Ret x | _ => Fault end.

Definition read_ten (fs : filesystem) (name : string) : res (list Z) :=
  match fs !! name with
  | Some l => if 10 <=? zlen l then Ret (take 10 l) else Fault
  | None => Fault
  end.

(** [fopen (name, "w")] and [fprintf] of the integers. *)
Definition write_ints (fs : filesystem) (name : string) (l : list Z) : filesystem :=
  <[name := l]> fs.

(** ** Two-octet arrays in memory *)

(** The octets of an [int] and of a [u_int16_t]. *)
Definition int_octets (v : Z) : list Z := reverse (be_bytes 4 v).
Definition half_octets (v : Z) : list Z := reverse (be_bytes 2 v).

(** The conversions from element [i] on: each stores an [int]. *)
Fixpoint store_ints (m : list Z) (i : Z) (vs : list Z) : res (list Z) :=
  match vs with
  | [] => Ret m
  | v :: vs => m ← zstore m (2 * i) (int_octets v); store_ints m (i + 1) vs
  end.

(** The elements from [i] on, read back. *)
Fixpoint load_halves (n : nat) (m : list Z) (i : Z) : res (list Z) :=
  match n with
  | O => Ret []
  | S n =>
      b ← zload m (2 * i) 2;
      r ← load_halves n m (i + 1);
      Ret (be_value (reverse b) :: r)
  end.

Section Arrays.
Context {L : Layout}.

(** Ten integers read into a [u_int16_t x[10]]; what the array held before is
    overwritten. *)
Definition scan_u16 (l : list Z) : res (list Z) :=
  m ← store_ints (replicate (Z.to_nat (20 + array_slack)) 0) 0 l;
  load_halves 10 m 0.

Definition read_ten_u16 (fs : filesystem) (name : string) : res (list Z) :=
  l ← read_ten fs name; scan_u16 l.

(** The format of eleven [%d] with ten addresses: an eleventh integer in the
    file would be stored through an argument that is not there. *)
Definition read_eleven_u16 (fs : filesystem) (name : string) : res (list Z) :=
  match fs !! name with
  | Some l => if 11 <=? zlen l then Fault else read_ten_u16 fs name
  | None => Fault
  end.
End Arrays.

(** ** What the reads give *)

Lemma zlen_reverse {A} (l : list A) : zlen (reverse l) = zlen l.
Proof. unfold zlen. by rewrite length_reverse. Qed.

Lemma zlen_int_octets v : zlen (int_octets v) = 4.
Proof. unfold int_octets, zlen. by rewrite length_reverse, be_bytes_length. Qed.

Lemma zlen_half_octets v : zlen (half_octets v) = 2.
Proof. unfold half_octets, zlen. by rewrite length_reverse, be_bytes_length. Qed.

Lemma zstore_at {A} (a b bs : list A) :
  zlen bs <= zlen b ->
  zstore (a ++ b) (zlen a) bs = Ret (a ++ bs ++ drop (length bs) b).
Proof.
  intros H. unfold zstore. pose proof (zlen_nonneg a). rewrite zlen_app.
  destruct (Z.leb_spec 0 (zlen a)); [|lia].
  destruct (Z.leb_spec (zlen a + zlen bs) (zlen a + zlen b)); [|lia]. cbn [andb].
  unfold zlen. rewrite Nat2Z.id, take_app_length, <- Nat2Z.inj_add, Nat2Z.id.
  by rewrite <- drop_drop, drop_app_length.
Qed.

Lemma int_octets_split v : exists h, zlen h = 2 /\ int_octets v = half_octets v ++ h.
Proof.
  unfold int_octets, half_octets. cbn [be_bytes].
  exists [u8 (Z.shiftr v (8 * Z.of_nat 2)); u8 (Z.shiftr v (8 * Z.of_nat 3))]. done.
Qed.

(** With room behind the last element every element holds its low half. *)
Lemma store_ints_run vs : forall a b i,
  zlen a = 2 * i -> (vs <> [] -> 2 * zlen vs + 2 <= zlen b) ->
  exists c, store_ints (a ++ b) i vs = Ret (a ++ concat (map half_octets vs) ++ c).
Proof.
  induction vs as [|v vs IH]; intros a b i Ha Hb; [by exists b|].
  specialize (Hb ltac:(done)). rewrite zlen_cons in Hb. pose proof (zlen_nonneg vs).
  cbn [store_ints]. rewrite <- Ha, zstore_at by (rewrite zlen_int_octets; lia).
  cbn [mbind res_bind]. destruct (int_octets_split v) as (h & Hh & ->).
  rewrite <- app_assoc, app_assoc.
  destruct (IH (a ++ half_octets v) (h ++ drop (length (half_octets v ++ h)) b) (i + 1)) as (c & E).
  - rewrite zlen_app, zlen_half_octets. lia.
  - intros _. rewrite zlen_app, Hh. pose proof (zlen_half_octets v).
    unfold zlen in *. rewrite length_drop, length_app. lia.
  - exists c. rewrite E. cbn [map concat]. by rewrite <- !app_assoc.
Qed.

Lemma load_halves_run vs : forall a c i,
  zlen a = 2 * i ->
  load_halves (length vs) (a ++ concat (map half_octets vs) ++ c) i = Ret (map u16 vs).
Proof.
  induction vs as [|v vs IH]; intros a c i Ha; [done|]. cbn [length load_halves map concat].
  rewrite <- Ha, <- (app_assoc (half_octets v)).
  assert (Hl : zload (a ++ half_octets v ++ concat (map half_octets vs) ++ c) (zlen a) 2
               = Ret (half_octets v)).
  { unfold zload. pose proof (zlen_nonneg a). pose proof (zlen_half_octets v) as Hv.
    rewrite !zlen_app, Hv. pose proof (zlen_nonneg (concat (map half_octets vs))).
    pose proof (zlen_nonneg c).
    destruct (Z.leb_spec 0 (zlen a)); [|lia]. destruct (Z.leb_spec (zlen a + 2)
      (zlen a + (2 + (zlen (concat (map half_octets vs)) + zlen c)))); [|lia].
    cbn [andb Z.leb Z.compare]. unfold zlen at 1. rewrite Nat2Z.id, drop_app_length.
    change (Z.to_nat 2) with (length (half_octets v)). by rewrite take_app_length. }
  rewrite Hl. cbn [mbind res_bind].
  rewrite (app_assoc a), (IH (a ++ half_octets v) c (i + 1)).
  - cbn [mbind res_bind map]. do 2 f_equal. unfold half_octets. rewrite reverse_involutive.
    by rewrite be_value_bytes.
  - rewrite zlen_app, zlen_half_octets. lia.
Qed.

(** Without room the last conversion is out of bounds. *)
Lemma zstore_len {A} (m bs m' : list A) i : zstore m i bs = Ret m' -> zlen m' = zlen m.
Proof.
  unfold zstore. destruct (Z.leb_spec 0 i); [|done].
  destruct (Z.leb_spec (i + zlen bs) (zlen m)); [|done]. intros [= <-].
  unfold zlen in *. rewrite !length_app, length_take, length_drop. lia.
Qed.

Lemma store_ints_short vs : forall m i,
  vs <> [] -> 0 <= i -> zlen m < 2 * (i + zlen vs) + 2 -> store_ints m i vs = Fault.
Proof.
  induction vs as [|v vs IH]; intros m i Hne Hi Hm; [done|]. cbn [store_ints].
  destruct (zstore m (2 * i) (int_octets v)) as [m'| |] eqn:E.
  - cbn [mbind res_bind]. rewrite zlen_cons in Hm. destruct vs as [|v' vs].
    + unfold zstore in E. rewrite zlen_int_octets in E. rewrite zlen_nil in Hm.
      destruct (Z.leb_spec (2 * i + 4) (zlen m)); [lia|]. by rewrite andb_false_r in E.
    + apply zstore_len in E. apply IH; [done|lia|rewrite E; lia].
  - exfalso. revert E. unfold zstore. by case_test.
  - done.
Qed.

Section Reads.
Context {L : Layout}.

Lemma read_ten_length fs name l : read_ten fs name = Ret l -> length l = 10%nat.
Proof.
  unfold read_ten. destruct (fs !! name) as [k|]; [|done].
  destruct (10 <=? zlen k) eqn:E; [|done]. zify_bool. intros [= <-].
  unfold zlen in E. rewrite length_take. lia.
Qed.

Lemma scan_u16_padded l : padded -> length l = 10%nat -> scan_u16 l = Ret (map u16 l).
Proof.
  unfold padded. intros Hp Hl. unfold scan_u16.
  set (m := replicate _ 0). assert (Hm : zlen m = 20 + array_slack)
    by (unfold m, zlen; rewrite length_replicate; lia).
  destruct (store_ints_run l [] m 0 eq_refl) as (c & E).
  { intros _. unfold zlen in *. rewrite Hl. lia. }
  cbn [app] in E. rewrite E. cbn [mbind res_bind]. rewrite <- Hl.
  apply (load_halves_run l [] c 0). done.
Qed.

Lemma scan_u16_overrun l : ~ padded -> length l = 10%nat -> scan_u16 l = Fault.
Proof.
  unfold padded. intros Hp Hl. unfold scan_u16. rewrite store_ints_short; [done| |lia|].
  - by intros ->.
  - unfold zlen. rewrite length_replicate, Hl. lia.
Qed.

(** [fscanf] of ten integers into a [u_int16_t x[10]]: each element holds the
    low half of its integer if the compiler left two octets behind the array;
    otherwise every such read is out of bounds. *)
Lemma read_ten_u16_padded fs name : padded ->
  read_ten_u16 fs name = (l ← read_ten fs name; Ret (map u16 l)).
Proof.
  intros Hp. unfold read_ten_u16. destruct (read_ten fs name) as [l| |] eqn:E; try done.
  cbn [mbind res_bind]. apply scan_u16_padded; [done|]. by apply (read_ten_length fs name).
Qed.

Lemma read_ten_u16_overrun fs name l : ~ padded ->
  read_ten fs name = Ret l -> read_ten_u16 fs name = Fault.
Proof.
  intros Hp E. unfold read_ten_u16. rewrite E. cbn [mbind res_bind].
  apply scan_u16_overrun; [done|]. by apply (read_ten_length fs name).
Qed.

Lemma read_ten_u16_inv fs name l : read_ten_u16 fs name = Ret l ->
  padded /\ exists k, read_ten fs name = Ret k /\ l = map u16 k.
Proof.
  intros H. destruct (decide (2 <= array_slack)) as [Hp|Hp].
  - split; [done|]. rewrite read_ten_u16_padded in H by done.
    destruct (read_ten fs name) as [k| |]; try done. injection H as <-. by exists k.
  - exfalso. destruct (read_ten fs name) as [k| |] eqn:E.
    + by rewrite (read_ten_u16_overrun _ _ _ Hp E) in H.
    + unfold read_ten_u16 in H. by rewrite E in H.
    + unfold read_ten_u16 in H. by rewrite E in H.
Qed.

Lemma read_ten_rep fs name l :
  fs !! name = Some l -> zlen l = 10 -> read_ten fs name = Ret l.
Proof.
  intros H Hl. unfold read_ten. rewrite H, Hl. simpl. f_equal.
  apply take_ge. unfold zlen in Hl. lia.
Qed.

Lemma read_ten_u16_rep fs name l : padded ->
  fs !! name = Some l -> zlen l = 10 -> Forall is_u16 l -> read_ten_u16 fs name = Ret l.
Proof.
  intros Hp H Hl Hu. rewrite read_ten_u16_padded, (read_ten_rep _ _ _ H Hl) by done.
  cbn [mbind res_bind]. f_equal.
  clear -Hu. induction Hu as [|x l Hx _ IH]; [done|]. simpl. by rewrite u16_id, IH.
Qed.

Lemma read_eleven_u16_rep fs name l : padded ->
  fs !! name = Some l -> zlen l = 10 -> Forall is_u16 l -> read_eleven_u16 fs name = Ret l.
Proof.
  intros Hp H Hl Hu. unfold read_eleven_u16. rewrite H, Hl. by apply read_ten_u16_rep.
Qed.

Lemma read_int_rep fs name x : fs !! name = Some [x] -> read_int fs name = Ret x.
Proof. intros H. unfold read_int. by rewrite H. Qed.
End Reads.
