(* ===== verification/Trust.v ===== *)
(** * bgpd/bgp_packet.c: the trust and voting messages

    The additions this repository makes to bgpd: TRUST messages that feed a
    moving average, vote requests and responses between neighbours, and their
    sending from [bgp_keepalive_send].  The daemon keeps this state in files of
    decimal integers ([Files]). *)
From stdpp Require Import base option list gmap strings fin_maps pretty.
From S2P Require Import Prelude Stream Fifo Packet Files.

(** The peer a handler works on: its AS number, the address of its [host]
    string (compared by pointer with [toDrop]) and whether it is Deleted. *)
Record peer := Peer { as_num : Z; host : Z; is_deleted : bool }.

(** What the handlers change: the files, the heap of streams, the global
    [toDrop], the peer's output queue and its write thread. *)
Record world := World {
  files : filesystem;
  hp : heap;
  toDrop : option Z;
  obuf : fifo;
  t_write : bool;
}.

Definition set_files (w : world) (fs : filesystem) : world :=
  World fs (hp w) (toDrop w) (obuf w) (t_write w).
Definition set_toDrop (w : world) (d : option Z) : world :=
  World (files w) (hp w) d (obuf w) (t_write w).
Definition set_queue (w : world) (h : heap) (f : fifo) : world :=
  World (files w) h (toDrop w) f (t_write w).
Definition set_t_write (w : world) (b : bool) : world :=
  World (files w) (hp w) (toDrop w) (obuf w) b.

(** [array[peer->as - 1]]: the index is an unsigned subtraction. *)
Definition as_index (asn : Z) : Z := u32 (asn - 1).

(** ** Receiving *)
Section Receiving.
Context {L : Layout}.

Definition bgp_trust_receive (w : world) (p : peer) (ibuf : stream)
    : res (world * stream) :=
  '(rcvdTrust, ibuf) ← stream_getw ibuf;
  _ ← read_int (files w) "/myAS.txt";
  obsTrusts ← read_ten_u16 (files w) "/obsTrust.txt";
  old ← zget obsTrusts (as_index (as_num p));
  obsTrusts ← zput obsTrusts (as_index (as_num p)) (u16 ((old * 9 + rcvdTrust) / 10));
  Ret (set_files w (write_ints (files w) "/obsTrust.txt" obsTrusts), ibuf).

Definition bgp_voting_peers_request_receive (w : world) (p : peer) : res world :=
  neighborsN ← read_int (files w) "/neighborsN";
  if 1 <? neighborsN then
    ASs ← read_ten (files w) "/votesRequests";
    ASs ← zput ASs (as_index (as_num p)) 1;
    Ret (set_files w (write_ints (files w) "/votesRequests" ASs))
  else Ret w.

Definition bgp_voting_vote_request_receive (w : world) (p : peer) : res world :=
  ASs ← read_ten (files w) "/votesResponses";
  ASs ← zput ASs (as_index (as_num p)) 1;
  Ret (set_files w (write_ints (files w) "/votesResponses" ASs)).

Definition bgp_voting_vote_response_receive (w : world) (p : peer) (ibuf : stream)
    : res (world * stream) :=
  '(vote, ibuf) ← stream_getw ibuf;
  ASs ← read_ten (files w) "/votes";
  ASs ← zput ASs (as_index (as_num p)) vote;
  Ret (set_files w (write_ints (files w) "/votes" ASs), ibuf).

(** [sprintf (str, "%s-%d", "voteresult", as)]: the AS number is printed as an [int]. *)
Definition voteresult_name (asn : Z) : string := "voteresult-" +:+ pretty (i32 asn).

Fixpoint getw_n (n : nat) (s : stream) : res (list Z * stream) :=
  match n with
  | O => Ret ([], s)
  | S n =>
      '(v, s) ← stream_getw s;
      '(vs, s) ← getw_n n s;
      Ret (v :: vs, s)
  end.

Definition bgp_voting_peers_response_receive (w : world) (p : peer) (ibuf : stream)
    : res (world * stream) :=
  '(votes, ibuf) ← getw_n 10 ibuf;
  Ret (set_files w (write_ints (files w) (voteresult_name (as_num p)) votes), ibuf).

(** The cases of [bgp_read]'s switch for these messages. *)
Definition bgp_read_dispatch (w : world) (p : peer) (type : Z) (ibuf : stream)
    : res (world * stream) :=
  if type =? BGP_MSG_TRUST then bgp_trust_receive w p ibuf
  else if type =? BGP_MSG_VOTING_PEERS_REQUEST then
    w ← bgp_voting_peers_request_receive w p; Ret (w, ibuf)
  else if type =? BGP_MSG_VOTING_VOTE_REQUEST then
    w ← bgp_voting_vote_request_receive w p; Ret (w, ibuf)
  else if type =? BGP_MSG_VOTING_VOTE_RESPONSE then
    bgp_voting_vote_response_receive w p ibuf
  else if type =? BGP_MSG_VOTING_PEERS_RESPONSE then
    bgp_voting_peers_response_receive w p ibuf
  else Ret (w, ibuf).
End Receiving.

(** ** Sending

    Each sender queues its message twice: [bgp_packet_add (peer, s)] appears
    before and after the debug output. *)
Definition queue_twice (w : world) (s : stream) : res world :=
  let '(q, h) := stream_alloc (hp w) s in
  '(h, f) ← bgp_packet_add h (obuf w) q;
  '(h, f) ← bgp_packet_add h f q;
  Ret (set_queue w h f).

Section Sending.
Context {L : Layout}.
(** What malloc returns for a message of each type, [rand ()] and
    [time (NULL)] at the time of the call. *)
Context (mem : Z -> list Z) (rand now : Z).

Definition bgp_trust_send (w : world) (p : peer) : res world :=
  let code := u16 (Z.rem rand 90 + 10) in
  myAS ← read_int (files w) "/myAS.txt";
  s ← build_message (mem BGP_MSG_TRUST) BGP_MSG_TRUST
        (fun s => '(_, s) ← stream_putw s code; Ret s);
  let w :=
    if bool_decide (toDrop w = None) && (1262304072 <? u32 now)
       && negb (as_num p =? u32 myAS) && (u32 myAS =? 1)
    then set_toDrop w (Some (host p)) else w in
  queue_twice w s.

Definition bgp_voting_peers_request_send (w : world) : res world :=
  s ← build_message (mem BGP_MSG_VOTING_PEERS_REQUEST) BGP_MSG_VOTING_PEERS_REQUEST
        (fun s => Ret s);
  queue_twice w s.

Definition bgp_voting_vote_request_send (w : world) : res world :=
  s ← build_message (mem BGP_MSG_VOTING_VOTE_REQUEST) BGP_MSG_VOTING_VOTE_REQUEST
        (fun s => Ret s);
  queue_twice w s.

Definition bgp_voting_vote_response_send (w : world) (p : peer) : res world :=
  obsTrusts ← read_eleven_u16 (files w) "/obsTrust.txt";
  inTrusts ← read_ten_u16 (files w) "/inTrust.txt";
  obs ← zget obsTrusts (as_index (as_num p));
  inn ← zget inTrusts (as_index (as_num p));
  s ← build_message (mem BGP_MSG_VOTING_VOTE_RESPONSE) BGP_MSG_VOTING_VOTE_RESPONSE
        (fun s => '(_, s) ← stream_putw s (u16 (obs + inn)); Ret s);
  queue_twice w s.

Fixpoint putw_all (vs : list Z) (s : stream) : res stream :=
  match vs with
  | [] => Ret s
  | v :: vs => '(_, s) ← stream_putw s v; putw_all vs s
  end.

Definition bgp_voting_peers_response_send (w : world) : res world :=
  votes ← read_ten_u16 (files w) "/votes";
  s ← build_message (mem BGP_MSG_VOTING_PEERS_RESPONSE) BGP_MSG_VOTING_PEERS_RESPONSE
        (putw_all votes);
  queue_twice w s.

(** The part of [bgp_keepalive_send] that answers a request for the collected
    votes, or asks the neighbour for its vote. *)
Definition keepalive_votes (w : world) (p : peer) : res world :=
  neighborsN ← read_int (files w) "/neighborsN";
  votes ← read_ten (files w) "/votes";
  let votesCounter := zlen (filter (fun v => v <> 0) votes) in
  if votesCounter =? neighborsN then
    ASs ← read_ten (files w) "/votesRequests";
    req ← zget ASs (as_index (as_num p));
    if req =? 1 then
      w ← bgp_voting_peers_response_send w;
      ASs ← zput ASs (as_index (as_num p)) 0;
      let w := set_files w (write_ints (files w) "/votesRequests" ASs) in
      if forallb (fun a => a =? 0) ASs
      then Ret (set_files w (write_ints (files w) "/votes" (replicate 10 0)))
      else Ret w
    else Ret w
  else
    ASs ← read_ten (files w) "/votesRequests";
    if existsb (fun a => a =? 1) ASs
    then bgp_voting_vote_request_send w
    else Ret w.

(** The part that answers a vote request from this neighbour. *)
Definition keepalive_responses (w : world) (p : peer) : res world :=
  ASs ← read_ten (files w) "/votesResponses";
  req ← zget ASs (as_index (as_num p));
  if req =? 1 then
    w ← bgp_voting_vote_response_send w p;
    ASs ← zput ASs (as_index (as_num p)) 0;
    Ret (set_files w (write_ints (files w) "/votesResponses" ASs))
  else Ret w.

Definition bgp_keepalive_send (w : world) (p : peer) : res world :=
  if bool_decide (toDrop w = Some (host p)) then Ret w
  else
    w ← bgp_trust_send w p;
    w ← bgp_voting_peers_request_send w;
    w ← keepalive_votes w p;
    w ← keepalive_responses w p;
    s ← build_message (mem BGP_MSG_KEEPALIVE) BGP_MSG_KEEPALIVE (fun s => Ret s);
    let '(q, h) := stream_alloc (hp w) s in
    '(h, f) ← bgp_packet_add h (obuf w) q;
    let w := set_queue w h f in
    Ret (if t_write w || is_deleted p then w else set_t_write w true).
End Sending.

(** ** Messages on the wire *)
Definition words (vs : list Z) : list Z := concat (map (be_bytes 2) vs).

Lemma words_len vs : zlen (words vs) = 2 * zlen vs.
Proof.
  unfold words. induction vs as [|v vs IH]; [done|]. cbn [map concat].
  rewrite zlen_app, zlen_cons, IH. change (zlen (be_bytes 2 v)) with 2. lia.
Qed.

Lemma words_u8 vs : Forall is_u8 (words vs).
Proof.
  unfold words. induction vs as [|v vs IH]; cbn [map concat]; [constructor|].
  apply Forall_app_2; auto with quagga.
Qed.
#[export] Hint Resolve words_u8 : quagga.

(** [s] is a complete message of [type] carrying the 16-bit [vs], unread. *)
Definition message (type : Z) (vs : list Z) (s : stream) : Prop :=
  stream_wf s /\ getp s = 0 /\ contents s = wire type (words vs).

Lemma putw_all_append vs s :
  stream_wf s -> Forall is_u16 vs -> zlen (words vs) <= Stream.size s - endp s ->
  putw_all vs s = Ret (append s (words vs)).
Proof.
  revert s. induction vs as [|v vs IH]; intros s Hs Hv Hl; cbn [putw_all].
  - unfold words; simpl. by rewrite append_nil.
  - apply Forall_cons in Hv as [Hv Hvs]. rewrite words_len, zlen_cons in Hl.
    pose proof (zlen_nonneg vs).
    rewrite stream_putw_append, u16_id by (done || lia). cbn [mbind res_bind].
    rewrite IH; [by rewrite append_append|stream_side|done|].
    rewrite words_len. cbn [append endp Stream.size].
    change (zlen (be_bytes 2 v)) with 2. lia.
Qed.

Lemma build_words mem type vs puts :
  packet_mem mem -> is_u8 type -> Forall is_u16 vs -> zlen vs <= 10 ->
  (forall s, stream_wf s -> zlen (words vs) <= Stream.size s - endp s ->
     puts s = Ret (append s (words vs))) ->
  exists s, build_message mem type puts = Ret s /\ message type vs s.
Proof.
  intros Hm Ht Hv Hl Hp.
  destruct (build_message_wire mem type puts (words vs)) as (s & E & Hs & Hg & Hc);
    auto with quagga.
  { rewrite words_len. lia. }
  exists s. split; [done|]. exact (conj Hs (conj Hg Hc)).
Qed.

(** The header of a message, whatever follows it. *)
Lemma check_header_wire type n s r :
  stream_wf s -> getp s = 0 ->
  contents s = replicate 16 255 ++ be_bytes 2 n ++ [type] ++ r -> is_u16 n ->
  known_type type = true -> bad_length type n = false ->
  check_header s = Ret (Accept n type, advance s 19)
  /\ stream_wf (advance s 19) /\ unread (advance s 19) = r.
Proof.
  intros Hs Hg Hc Hn Hk Hb.
  assert (Hu : unread s = replicate 16 255 ++ be_bytes 2 n ++ [type] ++ r)
    by (unfold unread; by rewrite Hg, Hc).
  destruct (advance_over s _ _ 16 Hs Hu eq_refl) as [Hs1 Hu1].
  destruct (advance_over _ _ _ 2 Hs1 Hu1 eq_refl) as [Hs2 Hu2].
  destruct (advance_over _ _ _ 1 Hs2 Hu2 eq_refl) as [Hs3 Hu3].
  rewrite !advance_advance in *.
  split; [|split; [exact Hs3|exact Hu3]].
  unfold check_header, stream_forward_getp. rewrite sane_ok by done.
  cbn [mbind res_bind]. unfold GETP_VALID. rewrite Hg. change (u64 (0 + BGP_MARKER_SIZE)) with 16.
  assert (He : 16 <= endp s).
  { rewrite <- contents_len, Hc by done. rewrite zlen_app. change (zlen (replicate 16 255)) with 16.
    pose proof (zlen_nonneg (be_bytes 2 n ++ [type] ++ r)). lia. }
  destruct (Z.leb_spec 16 (endp s)); [|lia]. cbn [negb mbind res_bind].
  replace (set_getp s 16) with (advance s 16) by (unfold advance; by rewrite Hg).
  rewrite (stream_getw_advance _ _ _ _ Hs1 Hu1), advance_advance. cbn [mbind res_bind].
  rewrite (stream_getc_advance _ _ _ Hs2 Hu2), advance_advance. cbn [mbind res_bind].
  change (be_value [u8 _; u8 _]) with (be_value (be_bytes 2 n)).
  rewrite be_roundtrip by done.
  assert (Hones : bgp_marker_all_one (advance s (16 + 2 + 1)) BGP_MARKER_SIZE = Ret true).
  { unfold bgp_marker_all_one. cbn [advance set_getp data]. rewrite (data_split s Hs), Hc.
    rewrite <- !app_assoc. by rewrite zload_prefix. }
  destruct ((type =? BGP_MSG_OPEN) || (type =? BGP_MSG_KEEPALIVE));
    [rewrite Hones|]; cbn [mbind res_bind negb]; by rewrite Hk, Hb.
Qed.

(** A received message: the header is consumed and the payload is next. *)
Lemma check_header_message type vs s :
  message type vs s -> is_u8 type -> zlen vs <= 10 ->
  known_type type = true -> bad_length type (BGP_HEADER_SIZE + zlen (words vs)) = false ->
  check_header s = Ret (Accept (BGP_HEADER_SIZE + zlen (words vs)) type, advance s 19)
  /\ stream_wf (advance s 19) /\ unread (advance s 19) = words vs.
Proof.
  intros (Hs & Hg & Hc) Ht Hl Hk Hb. apply check_header_wire; try done.
  pose proof (zlen_nonneg vs). rewrite words_len. unfold is_u16, BGP_HEADER_SIZE. lia.
Qed.

Lemma getw_n_words vs s r :
  stream_wf s -> Forall is_u16 vs -> unread s = words vs ++ r ->
  exists s', getw_n (length vs) s = Ret (vs, s') /\ stream_wf s' /\ unread s' = r
    /\ Stream.size s' = Stream.size s.
Proof.
  revert s. induction vs as [|v vs IH]; intros s Hs Hv Hu; cbn [length getw_n].
  - eauto.
  - apply Forall_cons in Hv as [Hv Hvs].
    unfold words in Hu. cbn [map concat] in Hu. rewrite <- app_assoc in Hu.
    rewrite (stream_getw_advance s _ _ _ Hs Hu). cbn [mbind res_bind].
    change (be_value [u8 _; u8 _]) with (be_value (be_bytes 2 v)).
    rewrite be_roundtrip by done.
    destruct (advance_over _ (be_bytes 2 v) _ 2 Hs Hu eq_refl) as [Hs1 Hu1].
    destruct (IH _ Hs1 Hvs Hu1) as (s' & E & ?). rewrite E. cbn [mbind res_bind]. eauto.
Qed.

(** ** Header-only messages

    The length check asks for the 19 octets of the header and no payload. *)

Section HeaderOnly.
Context {L : Layout}.

(** A TRUST, VOTING_VOTE_RESPONSE or VOTING_PEERS_RESPONSE message with no
    payload passes every header check of [bgp_read], and its handler then stops
    the daemon: the getter finds nothing to read and asserts.  Any neighbour
    can do this with 19 octets. *)
Theorem header_only_message_aborts (w : world) (p : peer) (type : Z) (s : stream) :
  message type [] s ->
  type ∈ [BGP_MSG_TRUST; BGP_MSG_VOTING_VOTE_RESPONSE; BGP_MSG_VOTING_PEERS_RESPONSE] ->
  exists s', check_header s = Ret (Accept 19 type, s')
    /\ match type with
       | 7 => bgp_trust_receive w p s' = Abort
       | 11 => bgp_voting_vote_response_receive w p s' = Abort
       | _ => bgp_voting_peers_response_receive w p s' = Abort
       end.
Proof.
  intros Hm Ht. exists (advance s 19).
  assert (Hw : forall s', stream_wf s' -> unread s' = [] -> stream_getw s' = Abort).
  { intros s' Hs' Hu. unfold stream_getw.
    rewrite sane_ok, readable_wf, <- unread_len, Hu by done. done. }
  assert (Ht' : type = 7 \/ type = 11 \/ type = 9) by set_solver.
  destruct (check_header_message type [] s Hm) as (E & Hs & Hu);
    try (destruct Ht' as [->|[->| ->]]; (done || (unfold is_u8; lia))).
  split; [exact E|].
  unfold bgp_trust_receive, bgp_voting_vote_response_receive,
    bgp_voting_peers_response_receive.
  destruct Ht' as [->|[->| ->]]; cbn [getw_n]; by rewrite Hw.
Qed.

End HeaderOnly.

Definition trust_header : stream := Stream 0 19 19 (wire BGP_MSG_TRUST []).

Lemma trust_header_message : message BGP_MSG_TRUST [] trust_header.
Proof.
  repeat split; try by_eval; reflexivity.
Qed.

(** A frame as gcc lays it out: the next object is 12 octets away. *)
Definition demo_layout : Layout := {| array_slack := 12 |}.

Definition empty_world : world := World ∅ ∅ None stream_fifo_new false.

Section HeaderOnlyWitness.
Existing Instance demo_layout.

Lemma header_only_message_aborts_witness :
  exists s', check_header trust_header = Ret (Accept 19 BGP_MSG_TRUST, s')
    /\ bgp_trust_receive empty_world (Peer 3 1 false) s' = Abort.
Proof.
  apply (header_only_message_aborts empty_world (Peer 3 1 false) BGP_MSG_TRUST trust_header).
  - exact trust_header_message.
  - left.
Defined.
End HeaderOnlyWitness.

(** ** The board: what the files say

    The abstract state of a node and what each message does to it; the handlers
    are proved to implement these operations. *)
Record board := Board {
  b_myAS : Z;
  b_nbr : Z;                 (* number of neighbours *)
  b_in : list Z;             (* inherent trust per AS *)
  b_obs : list Z;            (* observed trust per AS *)
  b_votes : list Z;          (* votes collected, 0 = none yet *)
  b_req : list Z;            (* 1 = this AS asked for the collected votes *)
  b_resp : list Z;           (* 1 = this AS asked for our vote *)
}.

Definition board_ok (b : board) : Prop :=
  zlen (b_in b) = 10 /\ zlen (b_obs b) = 10 /\ zlen (b_votes b) = 10
  /\ zlen (b_req b) = 10 /\ zlen (b_resp b) = 10
  /\ Forall is_u16 (b_in b) /\ Forall is_u16 (b_obs b) /\ Forall is_u16 (b_votes b).

Definition files_rep (fs : filesystem) (b : board) : Prop :=
  fs !! "/myAS.txt" = Some [b_myAS b] /\ fs !! "/neighborsN" = Some [b_nbr b]
  /\ fs !! "/inTrust.txt" = Some (b_in b) /\ fs !! "/obsTrust.txt" = Some (b_obs b)
  /\ fs !! "/votes" = Some (b_votes b) /\ fs !! "/votesRequests" = Some (b_req b)
  /\ fs !! "/votesResponses" = Some (b_resp b).

Definition at_as (l : list Z) (asn : Z) : Z := l !!! Z.to_nat (asn - 1).
Definition put_as (l : list Z) (asn v : Z) : list Z := <[Z.to_nat (asn - 1) := v]> l.

Definition with_obs (b : board) l :=
  Board (b_myAS b) (b_nbr b) (b_in b) l (b_votes b) (b_req b) (b_resp b).
Definition with_votes (b : board) l :=
  Board (b_myAS b) (b_nbr b) (b_in b) (b_obs b) l (b_req b) (b_resp b).
Definition with_req (b : board) l :=
  Board (b_myAS b) (b_nbr b) (b_in b) (b_obs b) (b_votes b) l (b_resp b).
Definition with_resp (b : board) l :=
  Board (b_myAS b) (b_nbr b) (b_in b) (b_obs b) (b_votes b) (b_req b) l.

(** Exponential moving average with weight 9/10 on the past. *)
Definition average (old v : Z) : Z := (9 * old + v) / 10.

Definition spec_trust (b : board) (asn v : Z) : board :=
  with_obs b (put_as (b_obs b) asn (average (at_as (b_obs b) asn) v)).
Definition spec_peers_request (b : board) (asn : Z) : board :=
  if 1 <? b_nbr b then with_req b (put_as (b_req b) asn 1) else b.
Definition spec_vote_request (b : board) (asn : Z) : board :=
  with_resp b (put_as (b_resp b) asn 1).
Definition spec_vote_response (b : board) (asn v : Z) : board :=
  with_votes b (put_as (b_votes b) asn v).

Definition votes_complete (b : board) : bool :=
  zlen (filter (fun v => v <> 0) (b_votes b)) =? b_nbr b.

(** The messages a keepalive carries, as (type, 16-bit payload), and the board
    after it; [code] is the random TRUST value. *)
Definition spec_votes (b : board) (asn : Z) : list (Z * list Z) * board :=
  if votes_complete b then
    if at_as (b_req b) asn =? 1 then
      let req := put_as (b_req b) asn 0 in
      let b' := with_req b req in
      ([(BGP_MSG_VOTING_PEERS_RESPONSE, b_votes b)],
       if forallb (fun a => a =? 0) req then with_votes b' (replicate 10 0) else b')
    else ([], b)
  else if existsb (fun a => a =? 1) (b_req b)
       then ([(BGP_MSG_VOTING_VOTE_REQUEST, [])], b)
       else ([], b).

Definition spec_responses (b : board) (asn : Z) : list (Z * list Z) * board :=
  if at_as (b_resp b) asn =? 1
  then ([(BGP_MSG_VOTING_VOTE_RESPONSE,
          [u16 (at_as (b_obs b) asn + at_as (b_in b) asn)])],
        with_resp b (put_as (b_resp b) asn 0))
  else ([], b).

Definition spec_keepalive (b : board) (asn code : Z) : list (Z * list Z) * board :=
  let '(m1, b) := spec_votes b asn in
  let '(m2, b) := spec_responses b asn in
  ([(BGP_MSG_TRUST, [code]); (BGP_MSG_VOTING_PEERS_REQUEST, [])] ++ m1 ++ m2
   ++ [(BGP_MSG_KEEPALIVE, [])], b).

(** *** Reading the files *)
Lemma zget_total (l : list Z) i :
  0 <= i < zlen l -> zget l i = Ret (l !!! Z.to_nat i).
Proof.
  intros Hi. destruct (zget_ok l i Hi) as (x & -> & Hx).
  by rewrite (list_lookup_total_correct _ _ _ Hx).
Qed.

Section AsTables.
Context (asn : Z) (Hasn : 1 <= asn <= 10).

Lemma as_index_small : as_index asn = asn - 1.
Proof using Hasn. unfold as_index, u32. rewrite Z.mod_small; lia. Qed.

Lemma zget_as l : zlen l = 10 -> zget l (as_index asn) = Ret (at_as l asn).
Proof using Hasn. intros. rewrite as_index_small. apply zget_total. lia. Qed.

Lemma zput_as l v : zlen l = 10 -> zput l (as_index asn) v = Ret (put_as l asn v).
Proof using Hasn. intros. rewrite as_index_small. apply zput_no_fault. lia. Qed.

Lemma put_as_len l v : zlen (put_as l asn v) = zlen l.
Proof using. apply zlen_insert. Qed.

Lemma at_put_as l v : zlen l = 10 -> at_as (put_as l asn v) asn = v.
Proof using Hasn.
  unfold at_as, put_as, zlen. intros.
  apply list_lookup_total_correct. apply list_lookup_insert_eq. lia.
Qed.

Lemma at_as_u16 l : zlen l = 10 -> Forall is_u16 l -> is_u16 (at_as l asn).
Proof using Hasn.
  unfold at_as, zlen. intros Hl Hf.
  destruct (lookup_lt_is_Some_2 l (Z.to_nat (asn - 1))) as [x Hx]; [lia|].
  rewrite (list_lookup_total_correct _ _ _ Hx). by eapply Forall_lookup_1.
Qed.
End AsTables.

Lemma average_between old v :
  is_u16 old -> is_u16 v ->
  Z.min old v <= average old v <= Z.max old v /\ is_u16 (average old v).
Proof. unfold is_u16, average. intros. Z.div_mod_to_equations. lia. Qed.

(** After a file is rewritten, the others still say what the board says. *)
Ltac files_done H :=
  clear -H; destruct H as (? & ? & ? & ? & ? & ? & ?);
  unfold files_rep, write_ints; split_and!; simpl;
  rewrite ?lookup_insert_eq; try reflexivity;
  rewrite ?lookup_insert_ne by discriminate;
  first [assumption | rewrite lookup_insert_eq; reflexivity].

Section TrustReceive.
Context {L : Layout}.

Lemma trust_receive_ok w p b ibuf v r : padded ->
  1 <= as_num p <= 10 -> board_ok b -> files_rep (files w) b ->
  stream_wf ibuf -> is_u16 v -> unread ibuf = words [v] ++ r ->
  let old := at_as (b_obs b) (as_num p) in
  exists w', bgp_trust_receive w p ibuf = Ret (w', advance ibuf 2)
    /\ files_rep (files w') (spec_trust b (as_num p) v)
    /\ board_ok (spec_trust b (as_num p) v)
    /\ hp w' = hp w /\ obuf w' = obuf w /\ unread (advance ibuf 2) = r.
Proof.
  intros Hpad Has Hok Hrep Hs Hv Hu old.
  assert (Hok' := Hok). destruct Hok' as (? & Hobs & ? & ? & ? & ? & Hobs16 & ?).
  assert (Hr := Hrep). destruct Hr as (Hmy & _ & _ & Hfo & _).
  unfold words in Hu. cbn [map concat] in Hu. rewrite app_nil_r in Hu.
  unfold bgp_trust_receive.
  rewrite (stream_getw_advance _ _ _ _ Hs Hu). cbn [mbind res_bind].
  change (be_value [u8 _; u8 _]) with (be_value (be_bytes 2 v)).
  rewrite be_roundtrip by done.
  rewrite (read_int_rep _ _ _ Hmy). cbn [mbind res_bind].
  rewrite (read_ten_u16_rep _ _ _ Hpad Hfo Hobs Hobs16). cbn [mbind res_bind].
  rewrite zget_as by done. cbn [mbind res_bind].
  rewrite zput_as by done. cbn [mbind res_bind]. fold old.
  assert (Hold : is_u16 old) by (by apply at_as_u16).
  destruct (average_between old v Hold Hv) as [Hb Hu16].
  replace (u16 ((old * 9 + v) / 10)) with (average old v)
    by (rewrite <- (u16_id _ Hu16); unfold average; do 2 f_equal; lia).
  destruct (advance_over ibuf (be_bytes 2 v) r 2 Hs Hu eq_refl) as [_ Hr'].
  eexists. split; [done|]. split_and!; try done.
  - unfold spec_trust. fold old. files_done Hrep.
  - unfold board_ok, spec_trust; simpl. rewrite put_as_len. split_and!; try done.
    by apply Forall_insert.
Qed.

(** Receiving TRUST [v] from AS [asn] replaces the observed trust of that
    AS by the moving average [(9 * old + v) / 10], which lies between the old
    value and [v] (so the 16-bit store never wraps), and changes nothing else;
    the two octets are consumed. *)
Theorem trust_receive_average (w : world) (p : peer) (b : board) (ibuf : stream) (v : Z) (r : list Z) :
  padded -> 1 <= as_num p <= 10 -> board_ok b -> files_rep (files w) b ->
  stream_wf ibuf -> is_u16 v -> unread ibuf = words [v] ++ r ->
  let old := at_as (b_obs b) (as_num p) in
  exists w', bgp_trust_receive w p ibuf = Ret (w', advance ibuf 2)
    /\ files_rep (files w') (spec_trust b (as_num p) v)
    /\ board_ok (spec_trust b (as_num p) v)
    /\ Z.min old v <= average old v <= Z.max old v
    /\ hp w' = hp w /\ obuf w' = obuf w /\ unread (advance ibuf 2) = r.
Proof.
  intros Hpad Has Hok Hrep Hs Hv Hu old.
  destruct (trust_receive_ok w p b ibuf v r) as (w' & E & Hr & Hok' & Hh & Hf & Hu'); try done.
  assert (Hold : is_u16 old) by (apply at_as_u16; (done || apply Hok)).
  exists w'. split_and!; try done; by apply average_between.
Qed.

(** The one conversion too far: without padding behind the array the first TRUST
    message from any peer is an out-of-bounds write. *)
Lemma trust_receive_overrun (w : world) (p : peer) (b : board) (ibuf : stream) (v : Z) (r : list Z) :
  ~ padded -> board_ok b -> files_rep (files w) b ->
  stream_wf ibuf -> unread ibuf = words [v] ++ r ->
  bgp_trust_receive w p ibuf = Fault.
Proof.
  intros Hpad Hok Hrep Hs Hu. unfold words in Hu. cbn [map concat] in Hu. rewrite app_nil_r in Hu.
  unfold bgp_trust_receive. rewrite (stream_getw_advance _ _ _ _ Hs Hu). cbn [mbind res_bind].
  rewrite (read_int_rep _ _ (b_myAS b)) by apply Hrep. cbn [mbind res_bind].
  rewrite (read_ten_u16_overrun _ _ (b_obs b)); [done|done|].
  apply read_ten_rep; [apply Hrep|apply Hok].
Qed.
End TrustReceive.

Definition demo_board : board :=
  Board 2 2 [25; 44; 78; 33; 66; 90; 80; 31; 40; 70] (replicate 10 50)
    [60; 0; 75; 0; 0; 0; 0; 0; 0; 0] [1; 0; 1; 0; 0; 0; 0; 0; 0; 0]
    [1; 0; 0; 0; 0; 0; 0; 0; 0; 0].

Definition demo_files : filesystem :=
  <["/myAS.txt" := [2]]> (<["/neighborsN" := [2]]>
  (<["/inTrust.txt" := b_in demo_board]> (<["/obsTrust.txt" := b_obs demo_board]>
  (<["/votes" := b_votes demo_board]> (<["/votesRequests" := b_req demo_board]>
  {["/votesResponses" := b_resp demo_board]}))))).

Definition demo_world : world := World demo_files ∅ None stream_fifo_new false.

Lemma demo_board_ok : board_ok demo_board.
Proof. repeat split; try reflexivity; by_eval. Qed.

Lemma demo_files_rep : files_rep demo_files demo_board.
Proof. repeat split; reflexivity. Qed.

Section TrustReceiveWitness.
Existing Instance demo_layout.

Lemma demo_padded : padded.
Proof. unfold padded. simpl. lia. Qed.

Lemma trust_receive_average_witness :
  exists w', bgp_trust_receive demo_world (Peer 1 7 false) (Stream 0 2 2 [0; 90])
    = Ret (w', Stream 2 2 2 [0; 90])
    /\ files w' !! "/obsTrust.txt" = Some [54; 50; 50; 50; 50; 50; 50; 50; 50; 50].
Proof.
  destruct (trust_receive_average demo_world (Peer 1 7 false) demo_board
              (Stream 0 2 2 [0; 90]) 90 []) as (w' & E & Hrep & _).
  - exact demo_padded.
  - simpl. lia.
  - exact demo_board_ok.
  - exact demo_files_rep.
  - repeat split; try by_eval; reflexivity.
  - by_eval.
  - reflexivity.
  - exists w'. split; [exact E|]. apply Hrep.
Defined.
End TrustReceiveWitness.
