(* ===== verification/Receive.v ===== *)
(** * bgpd/bgp_packet.c: bgp_read, from the socket to the handlers

    [bgp_read] runs when the descriptor of a peer is readable: it gives up at
    once on a link that is being dropped, fills the input buffer with
    [bgp_read_packet], checks the header and calls the handler of the message.
    The handlers of the messages bgpd had before ([bgp_open_receive] and the
    like) act on the session and are not part of [world]: for them
    [bgp_read_dispatch] leaves it as it is.  So is what [bgp_read] does to the
    session besides: the events and reset causes of a failed read, the
    NOTIFICATION for a bad header, and the deletion of a peer that was made for an
    incoming connection, which ends every call; [read_end] says which applies. *)
From stdpp Require Import base option list gmap strings.
From S2P Require Import Prelude Stream Fifo Packet Files Trust.

(** What [bgp_read] uses of the peer: the size of the message being read (0
    between messages), the input buffer and whether the read thread is armed. *)
Record conn := Conn { packet_size : Z; ibuf : stream; t_read : bool }.

Definition set_packet_size (c : conn) (n : Z) : conn := Conn n (ibuf c) (t_read c).
Definition set_ibuf (c : conn) (s : stream) : conn := Conn (packet_size c) s (t_read c).
Definition set_t_read (c : conn) (b : bool) : conn := Conn (packet_size c) (ibuf c) b.

(** [bgp_read_packet]: 0 when the message is complete, otherwise -1 with the
    event TCP_fatal_error or TCP_connection_closed, or none. *)
Inductive packet_read := Complete | Partial | FatalError | ConnectionClosed.

Definition bgp_read_packet (c : conn) (fd_read : Z -> read_result) : res (packet_read * conn) :=
  e ← stream_get_endp (ibuf c);
  let readsize := packet_size c - e in
  if readsize =? 0 then Ret (Complete, c)
  else
    '(nbytes, s) ← stream_read_try (ibuf c) fd_read (u64 readsize);
    let c := set_ibuf c s in
    if nbytes <? 0 then Ret (if nbytes =? -2 then Partial else FatalError, c)
    else if nbytes =? 0 then Ret (ConnectionClosed, c)
    else e ← stream_get_endp s; Ret (if negb (e =? packet_size c) then Partial else Complete, c).

(** How a call of [bgp_read] ends: the link is dropped; [bgp_connect_check] is
    called; the descriptor is negative; [bgp_read_packet] returned -1; a
    NOTIFICATION is sent for the header; a message of [type] was handled. *)
Inductive read_end :=
| LinkDropped
| ConnectCheck
| NoDescriptor
| NotRead (r : packet_read)
| Refused (v : header_verdict)
| Handled (type : Z).

Section Read.
Context {L : Layout}.

(** The rest of the message and its handler. *)
Definition bgp_read_body (w : world) (c : conn) (p : peer) (fd_read : Z -> read_result)
    : res (read_end * world * conn) :=
  '(r, c) ← bgp_read_packet c fd_read;
  match r with
  | Complete =>
      _ ← stream_getw_from (ibuf c) BGP_MARKER_SIZE;
      type ← stream_getc_from (ibuf c) (BGP_MARKER_SIZE + 2);
      '(w, s) ← bgp_read_dispatch w p type (ibuf c);
      s ← stream_reset s;
      Ret (Handled type, w, set_ibuf (set_packet_size c 0) s)
  | r => Ret (NotRead r, w, c)
  end.

(** [connecting]: the peer is in Connect; [read1] and [read2] are the results of
    the read system call for the header and for the rest. *)
Definition bgp_read (w : world) (c : conn) (p : peer) (connecting : bool) (fd : Z)
    (read1 read2 : Z -> read_result) : res (read_end * world * conn) :=
  let c := set_t_read c false in
  if bool_decide (toDrop w = Some (host p)) then Ret (LinkDropped, w, c)
  else if connecting then Ret (ConnectCheck, w, c)
  else if fd <? 0 then Ret (NoDescriptor, w, c)
  else
    let c := set_t_read c true in
    let c := if packet_size c =? 0 then set_packet_size c BGP_HEADER_SIZE else c in
    e ← stream_get_endp (ibuf c);
    if e <? BGP_HEADER_SIZE then
      '(r, c) ← bgp_read_packet c read1;
      match r with
      | Complete =>
          '(v, s) ← check_header (ibuf c);
          let c := set_ibuf c s in
          match v with
          | Accept size _ => bgp_read_body w (set_packet_size c size) p read2
          | v => Ret (Refused v, w, c)
          end
      | r => Ret (NotRead r, w, c)
      end
    else bgp_read_body w c p read2.
End Read.

(** ** A whole message in the socket *)

(** A peer between two messages. *)
Definition between (c : conn) : Prop :=
  packet_size c = 0 /\ stream_wf (ibuf c) /\ endp (ibuf c) = 0
  /\ BGP_MAX_PACKET_SIZE <= Stream.size (ibuf c).

(** The two reads return the octets of [s]: the header, then the rest. *)
Definition arrives (s : stream) (read1 read2 : Z -> read_result) : Prop :=
  read1 BGP_HEADER_SIZE = ReadBytes (take 19 (contents s))
  /\ (BGP_HEADER_SIZE < zlen (contents s) ->
      read2 (zlen (contents s) - BGP_HEADER_SIZE) = ReadBytes (drop 19 (contents s))).

(** One [bgp_read_packet] that gets all it asks for. *)
Lemma read_packet_all c fd_read bs :
  stream_wf (ibuf c) -> Forall is_u8 bs -> bs <> [] ->
  packet_size c = endp (ibuf c) + zlen bs -> zlen bs <= Stream.size (ibuf c) - endp (ibuf c) ->
  fd_read (zlen bs) = ReadBytes bs ->
  bgp_read_packet c fd_read = Ret (Complete, set_ibuf c (append (ibuf c) bs)).
Proof.
  intros Hs Hu Hne Hp Hroom Hr. unfold bgp_read_packet, stream_get_endp.
  rewrite sane_ok by done. cbn [mbind res_bind]. rewrite Hp.
  assert (0 < zlen bs) by (destruct bs; [done|]; rewrite zlen_cons; pose proof (zlen_nonneg bs); lia).
  assert (Hs' := Hs). destruct Hs' as (? & ? & ? & _).
  replace (endp (ibuf c) + zlen bs - endp (ibuf c)) with (zlen bs) by lia.
  destruct (Z.eqb_spec (zlen bs) 0); [lia|]. unfold stream_read_try.
  rewrite sane_ok, writeable_wf, u64_id by (done || lia). cbn [mbind res_bind].
  destruct (Z.ltb_spec (Stream.size (ibuf c) - endp (ibuf c)) (zlen bs)); [lia|].
  rewrite Hr, put_block_append by done. cbn [mbind res_bind].
  destruct (Z.ltb_spec (zlen bs) 0); [lia|]. destruct (Z.eqb_spec (zlen bs) 0); [lia|].
  rewrite sane_ok by (by apply append_wf). cbn [mbind res_bind append endp set_ibuf packet_size].
  by rewrite Hp, Z.eqb_refl.
Qed.

(** The type octet at its place. *)
Lemma type_from s type n r :
  stream_wf s -> contents s = replicate 16 255 ++ be_bytes 2 n ++ [type] ++ r ->
  (exists x, stream_getw_from s BGP_MARKER_SIZE = Ret x)
  /\ stream_getc_from s (BGP_MARKER_SIZE + 2) = Ret type.
Proof.
  intros Hs Hc. unfold stream_getw_from, stream_getc_from. rewrite !sane_ok by done.
  cbn [mbind res_bind].
  assert (He : 19 <= endp s).
  { rewrite <- contents_len, Hc by done. rewrite !zlen_app. change (zlen (replicate 16 255)) with 16.
    change (zlen (be_bytes 2 n)) with 2. change (zlen [type]) with 1. pose proof (zlen_nonneg r). lia. }
  assert (Hv : forall x, 0 <= x <= 19 -> GETP_VALID s (u64 x) = true).
  { intros x Hx. unfold GETP_VALID. apply Z.leb_le. rewrite u64_id; lia. }
  unfold BGP_MARKER_SIZE. rewrite !Hv by lia. cbn [negb].
  rewrite (data_split s Hs), Hc.
  split; [eexists|]; reflexivity.
Qed.

Section Delivery.
Context {L : Layout}.

(** A message in the socket of a link that is not dropped reaches its handler. *)
Lemma bgp_read_message w c p fd read1 read2 type vs s :
  toDrop w <> Some (host p) -> 0 <= fd -> between c ->
  message type vs s -> arrives s read1 read2 ->
  is_u8 type -> zlen vs <= 10 -> known_type type = true ->
  bad_length type (BGP_HEADER_SIZE + zlen (words vs)) = false ->
  exists b, stream_wf b /\ unread b = words vs /\ Stream.size b = Stream.size (ibuf c) /\
    bgp_read w c p false fd read1 read2
    = ('(w, s) ← bgp_read_dispatch w p type b; s ← stream_reset s;
       Ret (Handled type, w, Conn 0 s true)).
Proof.
  intros Hd Hfd (Hp0 & Hs & He & Hsz) (_ & _ & Hmc) [Hr1 Hr2] Ht Hl Hk Hb.
  destruct c as [ps b0 tr]. cbn [packet_size ibuf] in *. subst ps.
  set (n := BGP_HEADER_SIZE + zlen (words vs)) in *.
  set (hd := replicate 16 255 ++ be_bytes 2 n ++ [type]).
  assert (Hw : contents s = hd ++ words vs) by (rewrite Hmc; unfold hd, wire; by rewrite <- !app_assoc).
  assert (Hhd : Forall is_u8 hd).
  { unfold hd. apply Forall_app_2; [apply Forall_replicate; by_eval|].
    apply Forall_app_2; auto with quagga. }
  assert (Hz : zlen hd = 19) by done.
  assert (Hwl : 0 <= zlen (words vs) <= 20) by (rewrite words_len; pose proof (zlen_nonneg vs); lia).
  assert (Hn : n = zlen (contents s)) by (rewrite Hw, zlen_app; done).
  unfold BGP_MAX_PACKET_SIZE in Hsz.
  assert (Hg : getp b0 = 0) by (destruct Hs as (? & _); lia).
  set (b1 := append b0 hd).
  assert (Hb1 : stream_wf b1) by (apply append_wf; [done|done|lia]).
  assert (Hc0 : contents b0 = []).
  { pose proof (contents_len _ Hs) as E. rewrite He in E. destruct (contents b0) as [|x l]; [done|].
    rewrite zlen_cons in E. pose proof (zlen_nonneg l). lia. }
  destruct (check_header_wire type n b1 []) as (E1 & Hb2 & Hu2); try done.
  { unfold b1. by rewrite append_contents, Hc0. }
  { unfold is_u16, n, BGP_HEADER_SIZE. lia. }
  set (b3 := append (advance b1 19) (words vs)).
  assert (Hroom : zlen (words vs) <= Stream.size (advance b1 19) - endp (advance b1 19)).
  { cbn [b1 append advance set_getp Stream.size endp]. lia. }
  assert (Hb3 : stream_wf b3) by (apply append_wf; auto with quagga).
  exists b3. split; [done|]. split; [unfold b3; by rewrite append_unread, Hu2|]. split; [done|].
  assert (Hc3 : contents b3 = replicate 16 255 ++ be_bytes 2 n ++ [type] ++ words vs).
  { unfold b3, b1. rewrite append_contents, advance_contents, append_contents, Hc0 by done.
    unfold hd. by rewrite <- !app_assoc. }
  assert (Hbody : bgp_read_packet (Conn n (advance b1 19) true) read2
                  = Ret (Complete, Conn n b3 true)).
  { destruct (decide (words vs = [])) as [Hnil|Hne].
    - unfold bgp_read_packet, stream_get_endp. cbn [ibuf packet_size]. rewrite sane_ok by done.
      cbn [mbind res_bind]. unfold n, b3. rewrite Hnil, append_nil by done.
      cbn [b1 append advance set_getp endp]. by rewrite He, Hz.
    - apply (read_packet_all (Conn n (advance b1 19) true)); try done; auto with quagga;
        cbn [ibuf packet_size].
      + cbn [b1 append advance set_getp endp]. rewrite He, Hz. done.
      + rewrite Hw, zlen_app, Hz in Hr2. unfold BGP_HEADER_SIZE in Hr2.
        replace (19 + zlen (words vs) - 19) with (zlen (words vs)) in Hr2 by lia.
        apply Hr2. destruct (words vs) as [|x l]; [done|]. rewrite zlen_cons.
        pose proof (zlen_nonneg l). lia. }
  assert (Ehd : bgp_read_packet (Conn BGP_HEADER_SIZE b0 true) read1
                = Ret (Complete, Conn BGP_HEADER_SIZE b1 true)).
  { apply (read_packet_all (Conn BGP_HEADER_SIZE b0 true)); cbn [ibuf packet_size]; try done.
    - rewrite He, Hz. done.
    - lia.
    - rewrite Hz. change 19 with BGP_HEADER_SIZE. by rewrite Hr1, Hw. }
  destruct (type_from b3 type n (words vs) Hb3 Hc3) as [[x Ex] Et].
  unfold bgp_read. rewrite bool_decide_eq_false_2 by done.
  rewrite (proj2 (Z.ltb_ge fd 0) Hfd). unfold set_t_read. cbn [packet_size ibuf t_read].
  cbn [Z.eqb]. unfold set_packet_size. cbn [packet_size ibuf t_read].
  assert (Ege : stream_get_endp b0 = Ret 0) by (unfold stream_get_endp; by rewrite sane_ok, <- He).
  rewrite Ege. cbn [mbind res_bind Z.ltb Z.compare BGP_HEADER_SIZE].
  rewrite Ehd. cbn [mbind res_bind set_ibuf ibuf packet_size t_read]. rewrite E1. cbn [mbind res_bind].
  unfold bgp_read_body. rewrite Hbody. cbn [mbind res_bind ibuf].
  rewrite Ex. cbn [mbind res_bind]. rewrite Et. done.
Qed.
End Delivery.
