(* ===== verification/Voting.v ===== *)
(** * The voting protocol: sending and receiving implement the board

    Theorems over [Trust]: what [bgp_keepalive_send] leaves in the output queue
    and in the files, and the exchange of votes between two nodes. *)
From stdpp Require Import base option list gmap strings fin_maps pretty.
From S2P Require Import Prelude Stream Fifo Packet Files Trust Receive.

(** The streams waiting in the peer's queue.  [queued] leaves open what the last
    one points to, since the senders leave it pointing at itself. *)
Definition queued (w : world) (ss : list stream) : Prop :=
  exists l, fifo_open (hp w) (obuf w) l /\ bodies (hp w) l = ss.

Definition queued_properly (w : world) (ss : list stream) : Prop :=
  exists l, fifo_rep (hp w) (obuf w) l /\ bodies (hp w) l = ss.

(** Everything but the queue is the same. *)
Definition same_rest (w w' : world) : Prop :=
  files w' = files w /\ toDrop w' = toDrop w /\ t_write w' = t_write w.

Lemma queue_twice_queued w s ss :
  queued w ss ->
  exists w', queue_twice w s = Ret w' /\ queued w' (ss ++ [s]) /\ same_rest w w'
    /\ count (obuf w') = u64 (count (obuf w) + 2).
Proof.
  intros (l & Ho & Hb). unfold queue_twice.
  pose proof (add_new (hp w) (obuf w) l s Ho) as Ha.
  destruct (stream_alloc (hp w) s) as [q h].
  destruct Ha as (h1 & f1 & -> & _ & Hr & Hb1 & Hc1 & _). cbn [mbind res_bind].
  destruct (push_again h1 f1 l q (proj1 Hr)) as (h2 & f2 & E & Ho2 & Hs2 & Hc2 & _).
  unfold bgp_packet_add. rewrite E. cbn [mbind res_bind].
  eexists. split; [done|]. split; [|split; [done|]].
  - exists (l ++ [q]). split; [done|]. simpl. rewrite (bodies_same _ _ _ Hs2), Hb1. by rewrite Hb.
  - simpl. rewrite Hc2, Hc1. unfold u64. rewrite Z.add_mod_idemp_l by lia. f_equal. lia.
Qed.

Lemma queue_once w s ss h q :
  queued w ss -> stream_alloc (hp w) s = (q, h) ->
  exists h' f', bgp_packet_add h (obuf w) q = Ret (h', f')
    /\ queued_properly (set_queue w h' f') (ss ++ [s])
    /\ count f' = u64 (count (obuf w) + 1).
Proof.
  intros (l & Ho & Hb) Ea. pose proof (add_new (hp w) (obuf w) l s Ho) as Ha.
  rewrite Ea in Ha. destruct Ha as (h1 & f1 & -> & _ & Hr & Hb1 & Hc1 & _).
  exists h1, f1. split; [done|]. split; [|done].
  exists (l ++ [q]). split; [done|]. simpl. by rewrite Hb1, Hb.
Qed.

Lemma words_one v : words [v] = be_bytes 2 v.
Proof. unfold words. cbn [map concat]. apply app_nil_r. Qed.

(** One queued message per element of [ms]. *)
Definition messages (ms : list (Z * list Z)) (ss : list stream) : Prop :=
  Forall2 (fun m s => message m.1 m.2 s) ms ss.

Section Senders.
Context {L : Layout} (Hpad : padded).
Context (mem : Z -> list Z) (rand now : Z).
Context (Hmem : forall t, packet_mem (mem t)) (Hrand : 0 <= rand).
Context (p : peer) (Hasn : 1 <= as_num p <= 10).

(** The step a sender makes: its messages are queued, the board is then [b']
    and the queue length counter moves by two per message. *)
Definition sends (w : world) (ss : list stream)
    (r : res world) (ms : list (Z * list Z)) (b' : board) : Prop :=
  exists w' new, r = Ret w' /\ files_rep (files w') b' /\ board_ok b'
    /\ queued w' (ss ++ new) /\ messages ms new
    /\ u64 (count (obuf w')) = u64 (count (obuf w) + 2 * zlen ms)
    /\ t_write w' = t_write w.

Lemma sends_one w b ss type vs puts (k : stream -> res world) :
  files_rep (files w) b -> board_ok b -> queued w ss ->
  is_u8 type -> Forall is_u16 vs -> zlen vs <= 10 ->
  (forall s, stream_wf s -> zlen (words vs) <= Stream.size s - endp s ->
     puts s = Ret (append s (words vs))) ->
  (forall s, exists w1, k s = queue_twice w1 s /\ files w1 = files w /\ hp w1 = hp w
     /\ obuf w1 = obuf w /\ t_write w1 = t_write w) ->
  sends w ss (s ← build_message (mem type) type puts; k s) [(type, vs)] b.
Proof using Hmem.
  intros Hrep Hok Hq Ht Hv Hl Hp Hk.
  destruct (build_words (mem type) type vs puts (Hmem type)) as (s & -> & Hm); try done.
  cbn [mbind res_bind]. destruct (Hk s) as (w1 & -> & Hf & Hh & Ho & Htw).
  destruct (queue_twice_queued w1 s ss) as (w' & E & Hq' & (Hf' & _ & Htw') & Hc).
  { unfold queued. by rewrite Hh, Ho. }
  exists w', [s]. split_and!; try done.
  - by rewrite Hf', Hf.
  - by apply Forall2_cons.
  - rewrite Hc, Ho. by unfold u64; rewrite Z.mod_mod.
  - by rewrite Htw'.
Qed.

(** Two steps in a row. *)
Lemma sends_seq w ss r ms b1 (k : world -> res world) ms' b' :
  sends w ss r ms b1 ->
  (forall w1 ss1, files_rep (files w1) b1 -> board_ok b1 -> queued w1 ss1 ->
     sends w1 ss1 (k w1) ms' b') ->
  sends w ss (w1 ← r; k w1) (ms ++ ms') b'.
Proof using Type.
  intros (w1 & n1 & -> & Hr1 & Hok1 & Hq1 & Hm1 & Hc1 & Ht1) Hk.
  destruct (Hk w1 _ Hr1 Hok1 Hq1) as (w2 & n2 & E & Hr2 & Hok2 & Hq2 & Hm2 & Hc2 & Ht2).
  exists w2, (n1 ++ n2). cbn [mbind res_bind]. split_and!; try done.
  - by rewrite app_assoc.
  - by apply Forall2_app.
  - rewrite Hc2, zlen_app. unfold u64 in *. rewrite <- Z.add_mod_idemp_l, Hc1,
      Z.add_mod_idemp_l by lia. f_equal. lia.
  - by rewrite Ht2.
Qed.

Lemma sends_nothing w b ss :
  files_rep (files w) b -> board_ok b -> queued w ss -> sends w ss (Ret w) [] b.
Proof using Type.
  intros Hr Hok (l & Ho & Hb). exists w, []. rewrite app_nil_r. split_and!; try done.
  - by exists l.
  - constructor.
  - f_equal. unfold zlen; simpl. lia.
Qed.

(** A step followed by a rewrite of the files. *)
Lemma sends_then w ss r ms b1 (k : world -> res world) b' :
  sends w ss r ms b1 -> board_ok b' ->
  (forall w1, files_rep (files w1) b1 ->
     exists fs, k w1 = Ret (set_files w1 fs) /\ files_rep fs b') ->
  sends w ss (w1 ← r; k w1) ms b'.
Proof using Type.
  intros (w1 & n1 & -> & Hr1 & Hok1 & Hq1 & Hm1 & Hc1 & Ht1) Hok' Hk.
  destruct (Hk w1 Hr1) as (fs & E & Hf). cbn [mbind res_bind].
  exists (set_files w1 fs), n1. rewrite E. by split_and!.
Qed.

Ltac board_facts Hok Hrep :=
  destruct Hok as (? & ? & ? & ? & ? & ? & ? & ?);
  destruct Hrep as (? & ? & ? & ? & ? & ? & ?).

Lemma trust_send_ok w b ss :
  files_rep (files w) b -> board_ok b -> queued w ss ->
  sends w ss (bgp_trust_send mem rand now w p)
    [(BGP_MSG_TRUST, [u16 (Z.rem rand 90 + 10)])] b.
Proof using Hmem.
  intros Hrep Hok Hq. unfold bgp_trust_send.
  rewrite (read_int_rep _ _ (b_myAS b)) by apply Hrep. cbn [mbind res_bind].
  apply sends_one; auto; try (unfold is_u8, BGP_MSG_TRUST, zlen; simpl; lia).
  - constructor; auto with quagga.
  - intros s Hs Hl. rewrite words_len in Hl. change (zlen [_]) with 1 in Hl.
    rewrite stream_putw_append, u16_id by (auto with quagga || lia).
    by rewrite words_one.
  - intros s. eexists. split; [done|]. by case_match.
Qed.

Lemma empty_send_ok w b ss type :
  files_rep (files w) b -> board_ok b -> queued w ss -> is_u8 type ->
  sends w ss (s ← build_message (mem type) type (fun s => Ret s); queue_twice w s)
    [(type, [])] b.
Proof using Hmem.
  intros Hrep Hok Hq Ht. apply sends_one; auto; try (unfold zlen; simpl; lia).
  - intros s Hs _. unfold words; simpl. by rewrite append_nil.
  - intros s. by exists w.
Qed.

Lemma peers_response_send_ok w b ss :
  files_rep (files w) b -> board_ok b -> queued w ss ->
  sends w ss (bgp_voting_peers_response_send mem w)
    [(BGP_MSG_VOTING_PEERS_RESPONSE, b_votes b)] b.
Proof using Hmem Hpad.
  intros Hrep Hok Hq. unfold bgp_voting_peers_response_send.
  rewrite (read_ten_u16_rep _ _ (b_votes b)) by (exact Hpad || apply Hrep || apply Hok).
  cbn [mbind res_bind].
  apply sends_one; auto; try (unfold is_u8, BGP_MSG_VOTING_PEERS_RESPONSE; lia).
  - apply Hok.
  - destruct Hok as (_ & _ & -> & _). lia.
  - intros s Hs Hl. apply putw_all_append; [done|apply Hok|done].
  - intros s. by exists w.
Qed.

Lemma vote_response_send_ok w b ss :
  files_rep (files w) b -> board_ok b -> queued w ss ->
  sends w ss (bgp_voting_vote_response_send mem w p)
    [(BGP_MSG_VOTING_VOTE_RESPONSE,
      [u16 (at_as (b_obs b) (as_num p) + at_as (b_in b) (as_num p))])] b.
Proof using Hmem Hasn Hpad.
  intros Hrep Hok Hq. unfold bgp_voting_vote_response_send.
  rewrite (read_eleven_u16_rep _ "/obsTrust.txt" (b_obs b))
    by (exact Hpad || apply Hrep || apply Hok).
  cbn [mbind res_bind].
  rewrite (read_ten_u16_rep _ "/inTrust.txt" (b_in b)) by (exact Hpad || apply Hrep || apply Hok).
  cbn [mbind res_bind].
  rewrite !zget_as by (done || apply Hok). cbn [mbind res_bind].
  apply sends_one; auto;
    try (unfold is_u8, BGP_MSG_VOTING_VOTE_RESPONSE, zlen; simpl; lia).
  - constructor; auto with quagga.
  - intros s Hs Hl. rewrite words_len in Hl. change (zlen [_]) with 1 in Hl.
    rewrite stream_putw_append, (u16_id (u16 _)) by (auto with quagga || lia).
    by rewrite words_one.
  - intros s. by exists w.
Qed.

Lemma keepalive_votes_ok w b ss :
  files_rep (files w) b -> board_ok b -> queued w ss ->
  sends w ss (keepalive_votes mem w p) (spec_votes b (as_num p)).1
    (spec_votes b (as_num p)).2.
Proof using Hmem Hasn Hpad.
  intros Hrep Hok Hq. assert (Hrep' := Hrep). assert (Hok' := Hok).
  board_facts Hok' Hrep'. unfold keepalive_votes, spec_votes, votes_complete.
  rewrite (read_int_rep _ _ (b_nbr b)) by done. cbn [mbind res_bind].
  rewrite (read_ten_rep _ "/votes" (b_votes b)) by done. cbn [mbind res_bind].
  rewrite (read_ten_rep _ "/votesRequests" (b_req b)) by done. cbn [mbind res_bind].
  rewrite zget_as by done. cbn [mbind res_bind].
  case_test; [case_test|case_test].
  - simpl. eapply sends_then; [by apply peers_response_send_ok|..].
    + case_match; unfold board_ok; simpl; rewrite put_as_len; split_and!; try done.
      by_eval.
    + intros w1 Hr1. rewrite zput_as by done. cbn [mbind res_bind].
      case_match; eexists; (split; [reflexivity|]); files_done Hr1.
  - by apply sends_nothing.
  - by apply empty_send_ok.
  - by apply sends_nothing.
Qed.

Lemma keepalive_responses_ok w b ss :
  files_rep (files w) b -> board_ok b -> queued w ss ->
  sends w ss (keepalive_responses mem w p) (spec_responses b (as_num p)).1
    (spec_responses b (as_num p)).2.
Proof using Hmem Hasn Hpad.
  intros Hrep Hok Hq. assert (Hrep' := Hrep). assert (Hok' := Hok).
  board_facts Hok' Hrep'. unfold keepalive_responses, spec_responses.
  rewrite (read_ten_rep _ "/votesResponses" (b_resp b)) by done. cbn [mbind res_bind].
  rewrite zget_as by done. cbn [mbind res_bind].
  case_test; [|by apply sends_nothing].
  simpl. eapply sends_then; [by apply vote_response_send_ok|..].
  - unfold board_ok; simpl; rewrite put_as_len; by split_and!.
  - intros w1 Hr1. rewrite zput_as by done. cbn [mbind res_bind].
    eexists; (split; [reflexivity|]); files_done Hr1.
Qed.
End Senders.

Section Keepalive.
Context {L : Layout}.

(** Everything a keepalive sends before the KEEPALIVE itself. *)
Lemma keepalive_sends mem rand now w p b ss : padded ->
  (forall t, packet_mem (mem t)) -> 1 <= as_num p <= 10 ->
  board_ok b -> files_rep (files w) b -> queued w ss ->
  let code := u16 (Z.rem rand 90 + 10) in
  let '(m1, b1) := spec_votes b (as_num p) in
  let '(m2, b2) := spec_responses b1 (as_num p) in
  sends w ss
    (w ← bgp_trust_send mem rand now w p;
     w ← bgp_voting_peers_request_send mem w;
     w ← keepalive_votes mem w p; keepalive_responses mem w p)
    ([(BGP_MSG_TRUST, [code])] ++ [(BGP_MSG_VOTING_PEERS_REQUEST, [])] ++ m1 ++ m2) b2.
Proof.
  intros Hpad Hmem Has Hok Hrep Hq code.
  destruct (spec_votes b (as_num p)) as [m1 b1] eqn:E1.
  destruct (spec_responses b1 (as_num p)) as [m2 b2] eqn:E2.
  eapply sends_seq; [by apply trust_send_ok|]. intros w1 s1 Hr1 Ho1 Hq1.
  eapply sends_seq; [by apply empty_send_ok|]. intros w2 s2 Hr2 Ho2 Hq2.
  replace m1 with (spec_votes b (as_num p)).1 by (by rewrite E1).
  eapply sends_seq; [by apply keepalive_votes_ok|]. rewrite E1. cbn [snd].
  intros w3 s3 Hr3 Ho3 Hq3.
  replace m2 with (spec_responses b1 (as_num p)).1 by (by rewrite E2).
  replace b2 with (spec_responses b1 (as_num p)).2 by (by rewrite E2).
  by apply keepalive_responses_ok.
Qed.

(** ** A keepalive *)

Lemma keepalive_send_ok (mem : Z -> list Z) (rand now : Z) (w : world)
    (p : peer) (b : board) (ss : list stream) :
  padded -> (forall t, packet_mem (mem t)) -> 1 <= as_num p <= 10 ->
  board_ok b -> files_rep (files w) b -> queued w ss -> toDrop w <> Some (host p) ->
  let code := u16 (Z.rem rand 90 + 10) in
  let '(ms, b') := spec_keepalive b (as_num p) code in
  exists w' new, bgp_keepalive_send mem rand now w p = Ret w'
    /\ files_rep (files w') b' /\ board_ok b'
    /\ queued_properly w' (ss ++ new) /\ messages ms new
    /\ u64 (count (obuf w')) = u64 (count (obuf w) + 2 * zlen ms - 1)
    /\ t_write w' = t_write w || negb (is_deleted p).
Proof.
  intros Hpad Hmem Has Hok Hrep Hq Hd code. unfold spec_keepalive.
  destruct (spec_votes b (as_num p)) as [m1 b1] eqn:E1.
  destruct (spec_responses b1 (as_num p)) as [m2 b2] eqn:E2.
  unfold bgp_keepalive_send. rewrite bool_decide_eq_false_2 by done.
  pose proof (keepalive_sends mem rand now w p b ss Hpad Hmem Has Hok Hrep Hq) as Hall.
  cbn zeta in Hall. rewrite E1, E2 in Hall. fold code in Hall.
  destruct Hall as (w1 & new & E & Hr & Hok1 & Hq1 & Hm & Hc & Ht).
  destruct (bgp_trust_send mem rand now w p) as [wa| |]; [cbn [mbind res_bind] in *|done..].
  destruct (bgp_voting_peers_request_send mem wa) as [wb| |];
    [cbn [mbind res_bind] in *|done..].
  destruct (keepalive_votes mem wb p) as [wc| |]; [cbn [mbind res_bind] in *|done..].
  rewrite E. cbn [mbind res_bind].
  destruct (build_words (mem BGP_MSG_KEEPALIVE) BGP_MSG_KEEPALIVE [] (fun s => Ret s))
    as (s & -> & Hs); auto; try (unfold zlen; simpl; lia); try by_eval.
  { intros s Hs _. unfold words; simpl. by rewrite append_nil. }
  cbn [mbind res_bind]. destruct (stream_alloc (hp w1) s) as [q h] eqn:Ea.
  destruct (queue_once w1 s _ h q Hq1 Ea) as (h' & f' & -> & Hq' & Hc').
  cbn [mbind res_bind]. eexists _, (new ++ [s]). split; [done|].
  assert (Hcnt : u64 (count f') = u64 (count (obuf w) + 2 * (zlen ([(BGP_MSG_TRUST, [code]);
     (BGP_MSG_VOTING_PEERS_REQUEST, [])] ++ m1 ++ m2 ++ [(BGP_MSG_KEEPALIVE, [])])) - 1)).
  { rewrite Hc'. unfold u64 in *. rewrite Z.mod_mod by lia.
    rewrite <- Z.add_mod_idemp_l, Hc, Z.add_mod_idemp_l by lia. f_equal.
    rewrite !zlen_app. unfold zlen; simpl. lia. }
  assert (Hms : messages (([(BGP_MSG_TRUST, [code]); (BGP_MSG_VOTING_PEERS_REQUEST, [])]
     ++ m1 ++ m2) ++ [(BGP_MSG_KEEPALIVE, [])]) (new ++ [s])).
  { apply Forall2_app; [exact Hm|]. constructor; [exact Hs|constructor]. }
  rewrite <- !app_assoc in Hms. rewrite app_assoc. rewrite <- Ht.
  destruct (t_write w1) eqn:Etw, (is_deleted p); simpl; rewrite ?Etw; by split_and!.
Qed.

(** C4. [bgp_keepalive_send] implements the board: for a peer with an AS number
    between 1 and 10, with the files in their form and padded frames, on a link that
    is not being dropped it queues, each exactly once and in this order, a TRUST, a request
    for the peer's collected votes, then (if all neighbours' votes are in and
    this peer asked) the collected votes or (if they are not in and somebody
    asked) a vote request, then our vote if the peer asked for it, then the
    KEEPALIVE; it updates the request tables accordingly; and although every
    sender but the last pushes its stream twice, the chain handed to the writer
    is a proper queue, only its counter is too high by one per such message. *)
Theorem keepalive_send_implements (mem : Z -> list Z) (rand now : Z) (w : world)
    (p : peer) (b : board) (ss : list stream) :
  padded -> (forall t, packet_mem (mem t)) -> 1 <= as_num p <= 10 ->
  board_ok b -> files_rep (files w) b -> queued w ss -> toDrop w <> Some (host p) ->
  let code := u16 (Z.rem rand 90 + 10) in
  let '(ms, b') := spec_keepalive b (as_num p) code in
  exists w' new, bgp_keepalive_send mem rand now w p = Ret w'
    /\ files_rep (files w') b' /\ board_ok b'
    /\ queued_properly w' (ss ++ new) /\ messages ms new
    /\ u64 (count (obuf w')) = u64 (count (obuf w) + 2 * zlen ms - 1)
    /\ t_write w' = t_write w || negb (is_deleted p).
Proof. intros. by apply keepalive_send_ok. Qed.
End Keepalive.

Definition demo_mem (_ : Z) : list Z := replicate 4096 0.

Lemma demo_mem_ok t : packet_mem (demo_mem t).
Proof. split; [reflexivity|]. apply Forall_replicate. by_eval. Qed.

Lemma queued_empty fs : queued (World fs ∅ None stream_fifo_new false) [].
Proof. exists []. split; [|done]. repeat split. apply NoDup_nil_2. Qed.

Section KeepaliveWitness.
Existing Instance demo_layout.

Lemma keepalive_send_implements_witness :
  exists w' new, bgp_keepalive_send demo_mem 12345 0 demo_world (Peer 1 7 false) = Ret w'
    /\ queued_properly w' new
    /\ messages [(BGP_MSG_TRUST, [25]); (BGP_MSG_VOTING_PEERS_REQUEST, []);
                 (BGP_MSG_VOTING_PEERS_RESPONSE, [60; 0; 75; 0; 0; 0; 0; 0; 0; 0]);
                 (BGP_MSG_VOTING_VOTE_RESPONSE, [75]); (BGP_MSG_KEEPALIVE, [])] new
    /\ u64 (count (obuf w')) = 9.
Proof.
  destruct (keepalive_send_implements demo_mem 12345 0 demo_world (Peer 1 7 false)
              demo_board []) as (w' & new & E & _ & _ & Hq & Hm & Hc & _).
  - exact demo_padded.
  - exact demo_mem_ok.
  - simpl. lia.
  - exact demo_board_ok.
  - exact demo_files_rep.
  - apply queued_empty.
  - discriminate.
  - exists w', new. split; [exact E|]. split; [exact Hq|]. split; [exact Hm|exact Hc].
Defined.
End KeepaliveWitness.

(** ** Delivery

    What a received message does to the receiver's board. *)
Definition spec_deliver (b : board) (asn type : Z) (vs : list Z) : board :=
  match type, vs with
  | 7, [v] => spec_trust b asn v
  | 8, _ => spec_peers_request b asn
  | 10, _ => spec_vote_request b asn
  | 11, [v] => spec_vote_response b asn v
  | _, _ => b
  end.

(** The payload each of the five types carries. *)
Definition payload_ok (type : Z) (vs : list Z) : Prop :=
  Forall is_u16 vs
  /\ zlen vs = (if (type =? 7) || (type =? 11) then 1 else if type =? 9 then 10 else 0).

Definition trust_types : list Z :=
  [BGP_MSG_TRUST; BGP_MSG_VOTING_PEERS_REQUEST; BGP_MSG_VOTING_PEERS_RESPONSE;
   BGP_MSG_VOTING_VOTE_REQUEST; BGP_MSG_VOTING_VOTE_RESPONSE].

Lemma voteresult_keeps fs b asn vs :
  files_rep fs b -> files_rep (write_ints fs (voteresult_name asn) vs) b.
Proof.
  unfold files_rep, write_ints, voteresult_name. intros (? & ? & ? & ? & ? & ? & ?).
  split_and!; rewrite lookup_insert_ne by discriminate; assumption.
Qed.

Section Handlers.
Context {L : Layout} (Hpad : padded).

Lemma vote_response_receive_ok w p b ibuf v :
  1 <= as_num p <= 10 -> board_ok b -> files_rep (files w) b ->
  stream_wf ibuf -> is_u16 v -> unread ibuf = words [v] ->
  exists w', bgp_voting_vote_response_receive w p ibuf = Ret (w', advance ibuf 2)
    /\ files_rep (files w') (spec_vote_response b (as_num p) v)
    /\ board_ok (spec_vote_response b (as_num p) v)
    /\ stream_wf (advance ibuf 2).
Proof.
  intros Has Hok Hrep Hs Hv Hu. rewrite words_one in Hu.
  rewrite <- (app_nil_r (be_bytes 2 v)) in Hu.
  unfold bgp_voting_vote_response_receive.
  rewrite (stream_getw_advance _ _ _ _ Hs Hu). cbn [mbind res_bind].
  change (be_value [u8 _; u8 _]) with (be_value (be_bytes 2 v)).
  rewrite be_roundtrip by done.
  rewrite (read_ten_rep _ _ (b_votes b)) by (apply Hrep || apply Hok). cbn [mbind res_bind].
  rewrite zput_as by (done || apply Hok). cbn [mbind res_bind].
  destruct (advance_over ibuf _ [] 2 Hs Hu eq_refl) as [Hs' _].
  eexists. split; [reflexivity|]. split; [files_done Hrep|]. split; [|done].
  unfold board_ok in *. simpl. rewrite put_as_len. destruct_and!. split_and!; try done.
  by apply Forall_insert.
Qed.

Lemma requests_receive_ok w p b :
  1 <= as_num p <= 10 -> board_ok b -> files_rep (files w) b ->
  (exists w', bgp_voting_peers_request_receive w p = Ret w'
    /\ files_rep (files w') (spec_peers_request b (as_num p))
    /\ board_ok (spec_peers_request b (as_num p)))
  /\ (exists w', bgp_voting_vote_request_receive w p = Ret w'
    /\ files_rep (files w') (spec_vote_request b (as_num p))
    /\ board_ok (spec_vote_request b (as_num p))).
Proof.
  intros Has Hok Hrep. split.
  - unfold bgp_voting_peers_request_receive, spec_peers_request.
    rewrite (read_int_rep _ _ (b_nbr b)) by apply Hrep. cbn [mbind res_bind].
    case_test; [|by exists w].
    rewrite (read_ten_rep _ _ (b_req b)) by (apply Hrep || apply Hok). cbn [mbind res_bind].
    rewrite zput_as by (done || apply Hok). cbn [mbind res_bind].
    eexists. split; [reflexivity|]. split; [files_done Hrep|].
    unfold board_ok in *. simpl. rewrite put_as_len. by destruct_and!.
  - unfold bgp_voting_vote_request_receive.
    rewrite (read_ten_rep _ _ (b_resp b)) by (apply Hrep || apply Hok). cbn [mbind res_bind].
    rewrite zput_as by (done || apply Hok). cbn [mbind res_bind].
    eexists. split; [reflexivity|]. split; [files_done Hrep|].
    unfold board_ok in *. simpl. rewrite put_as_len. by destruct_and!.
Qed.

Lemma peers_response_receive_ok w p b ibuf vs :
  files_rep (files w) b -> stream_wf ibuf -> Forall is_u16 vs -> zlen vs = 10 ->
  unread ibuf = words vs ->
  exists w' s', bgp_voting_peers_response_receive w p ibuf = Ret (w', s')
    /\ files_rep (files w') b
    /\ files w' !! voteresult_name (as_num p) = Some vs /\ stream_wf s'
    /\ Stream.size s' = Stream.size ibuf.
Proof.
  intros Hrep Hs Hv Hl Hu. rewrite <- (app_nil_r (words vs)) in Hu.
  destruct (getw_n_words vs ibuf [] Hs Hv Hu) as (s' & E & Hs' & _ & Hz).
  replace (length vs) with 10%nat in E by (unfold zlen in Hl; lia).
  unfold bgp_voting_peers_response_receive. rewrite E. cbn [mbind res_bind].
  eexists _, s'. split; [reflexivity|]. split; [by apply voteresult_keeps|].
  split; [simpl; apply lookup_insert_eq|done].
Qed.

(** Any of the five messages, once its header is accepted. *)
Lemma dispatch_ok w p b type vs ibuf :
  1 <= as_num p <= 10 -> board_ok b -> files_rep (files w) b ->
  type ∈ trust_types -> payload_ok type vs ->
  stream_wf ibuf -> unread ibuf = words vs ->
  exists w' s', bgp_read_dispatch w p type ibuf = Ret (w', s')
    /\ files_rep (files w') (spec_deliver b (as_num p) type vs)
    /\ board_ok (spec_deliver b (as_num p) type vs)
    /\ (type = BGP_MSG_VOTING_PEERS_RESPONSE ->
        files w' !! voteresult_name (as_num p) = Some vs) /\ stream_wf s'
    /\ Stream.size s' = Stream.size ibuf.
Proof using Hpad.
  intros Has Hok Hrep Ht [Hv Hl] Hs Hu.
  destruct (requests_receive_ok w p b Has Hok Hrep)
    as [(w8 & E8 & R8 & K8) (w10 & E10 & R10 & K10)].
  unfold trust_types in Ht. rewrite !elem_of_cons, elem_of_nil in Ht.
  destruct Ht as [->|[->|[->|[->|[->|[]]]]]]; unfold bgp_read_dispatch; simpl in *.
  - destruct vs as [|v [|]]; try (unfold zlen in Hl; simpl in Hl; lia).
    apply Forall_cons in Hv as [Hv _]. rewrite <- (app_nil_r (words [v])) in Hu.
    destruct (trust_receive_ok w p b ibuf v [] Hpad Has Hok Hrep Hs Hv Hu)
      as (w' & -> & R & K & _). rewrite words_one in Hu.
    destruct (advance_over ibuf _ [] 2 Hs Hu eq_refl) as [Hs' _]. by eexists _, _.
  - rewrite E8. by eexists _, _.
  - destruct (peers_response_receive_ok w p b ibuf vs Hrep Hs Hv Hl Hu)
      as (w' & s' & -> & R & K & Hs' & Hz). by eexists _, _.
  - rewrite E10. by eexists _, _.
  - destruct vs as [|v [|]]; try (unfold zlen in Hl; simpl in Hl; lia).
    apply Forall_cons in Hv as [Hv _].
    destruct (vote_response_receive_ok w p b ibuf v Has Hok Hrep Hs Hv Hu)
      as (w' & -> & R & K & Hs'). by eexists _, _.
Qed.

End Handlers.

(** The limits [bgp_read] checks hold of the five messages. *)
Lemma trust_header_ok type vs :
  type ∈ trust_types -> payload_ok type vs ->
  is_u8 type /\ zlen vs <= 10 /\ known_type type = true
  /\ bad_length type (BGP_HEADER_SIZE + zlen (words vs)) = false.
Proof.
  intros Ht [_ Hl]. unfold trust_types in Ht.
  rewrite !elem_of_cons, elem_of_nil in Ht. rewrite words_len, Hl.
  destruct Ht as [->|[->|[->|[->|[->|[]]]]]]; simpl; (split; [by_eval|split; [lia|done]]).
Qed.

Section Delivery.
Context {L : Layout} (Hpad : padded).

(** [bgp_read] on one of them, with the whole message in the socket. *)
Lemma delivered w p b type vs s c fd read1 read2 :
  1 <= as_num p <= 10 -> board_ok b -> files_rep (files w) b ->
  type ∈ trust_types -> payload_ok type vs -> message type vs s ->
  between c -> 0 <= fd -> arrives s read1 read2 -> toDrop w <> Some (host p) ->
  exists w' c', bgp_read w c p false fd read1 read2 = Ret (Handled type, w', c')
    /\ between c' /\ t_read c' = true
    /\ files_rep (files w') (spec_deliver b (as_num p) type vs)
    /\ board_ok (spec_deliver b (as_num p) type vs)
    /\ (type = BGP_MSG_VOTING_PEERS_RESPONSE ->
        files w' !! voteresult_name (as_num p) = Some vs).
Proof using Hpad.
  intros Has Hok Hrep Ht Hp Hm Hc Hfd Ha Hd.
  destruct (trust_header_ok type vs Ht Hp) as (Hu8 & Hl & Hk & Hb).
  destruct (bgp_read_message w c p fd read1 read2 type vs s Hd Hfd Hc Hm Ha Hu8 Hl Hk Hb)
    as (s1 & Hs1 & Hu1 & Hsz & ->).
  destruct (dispatch_ok Hpad w p b type vs s1) as (w' & s2 & -> & R & K & V & Hs2 & Hz2); try done.
  cbn [mbind res_bind]. unfold stream_reset. rewrite sane_ok by done. cbn [mbind res_bind].
  eexists w', _. split; [reflexivity|]. split; [|done]. split; [done|].
  cbn [ibuf]. destruct Hs2 as (? & ? & ? & ? & ?). unfold between, stream_wf.
  cbn [getp endp Stream.size data]. split; [split_and!; (done || lia)|]. split; [done|].
  destruct Hc as (_ & _ & _ & ?). lia.
Qed.

(** C5. Every trust or voting message a node builds is understood by its
    neighbour.  When the octets of the message arrive at a peer that is between
    two messages, [bgp_read] accepts the header and the handler performs on the
    receiver's board the operation the message stands for, with the payload the
    sender wrote (a VOTING_PEERS_RESPONSE is stored under the sender's AS), and
    the peer is ready for the next message; but on a link the receiver is
    dropping, [bgp_read] returns at once: nothing is read, the board stays as it
    is and the read thread is not armed again. *)
Theorem message_delivery (w : world) (p : peer) (b : board) (type : Z) (vs : list Z) (s : stream)
    (c : conn) (fd : Z) (read1 read2 : Z -> read_result) :
  1 <= as_num p <= 10 -> board_ok b -> files_rep (files w) b ->
  type ∈ trust_types -> payload_ok type vs -> message type vs s ->
  between c -> 0 <= fd -> arrives s read1 read2 ->
  (toDrop w = Some (host p) ->
     bgp_read w c p false fd read1 read2 = Ret (LinkDropped, w, set_t_read c false))
  /\ (toDrop w <> Some (host p) ->
     exists w' c', bgp_read w c p false fd read1 read2 = Ret (Handled type, w', c')
       /\ between c' /\ t_read c' = true
       /\ files_rep (files w') (spec_deliver b (as_num p) type vs)
       /\ board_ok (spec_deliver b (as_num p) type vs)
       /\ (type = BGP_MSG_VOTING_PEERS_RESPONSE ->
           files w' !! voteresult_name (as_num p) = Some vs)).
Proof using Hpad.
  intros Has Hok Hrep Ht Hp Hm Hc Hfd Ha. split; intros Hd.
  - unfold bgp_read. by rewrite bool_decide_eq_true_2.
  - by apply (delivered w p b type vs s).
Qed.
End Delivery.

Definition vote_message : stream :=
  Stream 0 21 21 (wire BGP_MSG_VOTING_VOTE_RESPONSE (words [75])).

(** A socket that delivers the octets of [s]. *)
Definition socket1 (s : stream) (_ : Z) : read_result := ReadBytes (take 19 (contents s)).
Definition socket2 (s : stream) (_ : Z) : read_result := ReadBytes (drop 19 (contents s)).
Definition demo_conn : conn := Conn 0 (Stream 0 0 4096 (replicate 4096 0)) true.

Lemma demo_conn_between : between demo_conn.
Proof.
  split; [done|]. split; [|by vm_compute]. unfold stream_wf. split_and!; try by vm_compute.
  apply Forall_replicate. by_eval.
Qed.

Section DeliveryWitness.
Existing Instance demo_layout.

Lemma message_delivery_witness :
  exists w' c',
    bgp_read demo_world demo_conn (Peer 2 7 false) false 9
      (socket1 vote_message) (socket2 vote_message)
    = Ret (Handled BGP_MSG_VOTING_VOTE_RESPONSE, w', c')
    /\ files w' !! "/votes" = Some [60; 75; 75; 0; 0; 0; 0; 0; 0; 0].
Proof.
  destruct (message_delivery demo_padded demo_world (Peer 2 7 false) demo_board
              BGP_MSG_VOTING_VOTE_RESPONSE [75] vote_message demo_conn 9
              (socket1 vote_message) (socket2 vote_message))
    as [_ H].
  - simpl. lia.
  - exact demo_board_ok.
  - exact demo_files_rep.
  - by_eval.
  - split; [by_eval|reflexivity].
  - repeat split; try by_eval; reflexivity.
  - exact demo_conn_between.
  - lia.
  - by split.
  - destruct H as (w' & c' & E & _ & _ & R & _); [discriminate|].
    exists w', c'. split; [exact E|]. apply R.
Defined.
End DeliveryWitness.

(** ** A voting round *)

Section Round.
Context {L : Layout}.

(** C6. Votes reach the node that asked for them: when node B holds a request
    of A and the votes of all its neighbours, its next keepalive to A queues a
    VOTING_PEERS_RESPONSE, and B then no longer has a request of A.  When the
    octets of that message arrive at A, which is not dropping its link to B,
    [bgp_read] handles it and A has B's collected votes on file under B's AS
    number. *)
Theorem collected_votes_reach_requester (mem : Z -> list Z) (rand now : Z)
    (wB wA : world) (pA pB : peer) (bB bA : board) (ss : list stream) (c : conn) (fd : Z) :
  padded -> (forall t, packet_mem (mem t)) ->
  1 <= as_num pA <= 10 -> 1 <= as_num pB <= 10 ->
  board_ok bB -> files_rep (files wB) bB -> queued wB ss -> toDrop wB <> Some (host pA) ->
  board_ok bA -> files_rep (files wA) bA -> toDrop wA <> Some (host pB) ->
  between c -> 0 <= fd ->
  votes_complete bB = true -> at_as (b_req bB) (as_num pA) = 1 ->
  exists wB' new s, bgp_keepalive_send mem rand now wB pA = Ret wB'
    /\ queued_properly wB' (ss ++ new) /\ s ∈ new
    /\ (exists req, files wB' !! "/votesRequests" = Some req /\ at_as req (as_num pA) = 0)
    /\ forall read1 read2, arrives s read1 read2 ->
       exists wA' c', bgp_read wA c pB false fd read1 read2
           = Ret (Handled BGP_MSG_VOTING_PEERS_RESPONSE, wA', c')
         /\ files wA' !! voteresult_name (as_num pB) = Some (b_votes bB).
Proof.
  intros Hpad Hmem HA HB HokB HrepB Hq Hd HokA HrepA HdA Hc Hfd Hvc Hreq.
  pose proof (keepalive_send_ok mem rand now wB pA bB ss Hpad Hmem HA HokB HrepB Hq Hd) as H.
  unfold spec_keepalive, spec_votes in H. rewrite Hvc, Hreq in H. simpl (1 =? 1) in H.
  cbv iota in H. set (b1 := if forallb _ _ then _ else _) in H.
  destruct (spec_responses b1 (as_num pA)) as [m2 b2] eqn:E2.
  destruct H as (wB' & new & E & R & _ & Hq' & Hm & _).
  inversion Hm as [|? s7 ? ? _ Hm1]; subst. inversion Hm1 as [|? s8 ? ? _ Hm2]; subst.
  inversion Hm2 as [|? s9 ? new' H9 _]; subst. simpl in H9.
  exists wB', (s7 :: s8 :: s9 :: new'), s9. split_and!; try done; [set_solver| |].
  - exists (b_req b2). split; [apply R|].
    assert (Hb2 : b_req b2 = put_as (b_req bB) (as_num pA) 0).
    { unfold spec_responses in E2. unfold b1 in E2.
      repeat case_match; injection E2 as <- <-; done. }
    rewrite Hb2. apply at_put_as; [done|apply HokB].
  - intros read1 read2 Ha.
    destruct (delivered Hpad wA pB bA BGP_MSG_VOTING_PEERS_RESPONSE (b_votes bB) s9 c fd read1 read2)
      as (wA' & c' & E3 & _ & _ & _ & _ & V); try done; [by_eval|split; apply HokB|].
    exists wA', c'. split; [done|]. by apply V.
Qed.
End Round.

Section RoundWitness.
Existing Instance demo_layout.

Lemma collected_votes_reach_requester_witness :
  exists wB' new s, bgp_keepalive_send demo_mem 12345 0 demo_world (Peer 1 7 false) = Ret wB'
    /\ queued_properly wB' ([] ++ new) /\ s ∈ new
    /\ (exists req, files wB' !! "/votesRequests" = Some req /\ at_as req 1 = 0)
    /\ exists wA' c', bgp_read demo_world demo_conn (Peer 2 7 false) false 9 (socket1 s) (socket2 s)
         = Ret (Handled BGP_MSG_VOTING_PEERS_RESPONSE, wA', c')
       /\ files wA' !! voteresult_name 2 = Some [60; 0; 75; 0; 0; 0; 0; 0; 0; 0].
Proof.
  destruct (collected_votes_reach_requester demo_mem 12345 0 demo_world demo_world
           (Peer 1 7 false) (Peer 2 7 false) demo_board demo_board [] demo_conn 9)
    as (wB' & new & s & E & Q & Hs & Hr & H).
  - exact demo_padded.
  - exact demo_mem_ok.
  - simpl. lia.
  - simpl. lia.
  - exact demo_board_ok.
  - exact demo_files_rep.
  - apply queued_empty.
  - discriminate.
  - exact demo_board_ok.
  - exact demo_files_rep.
  - discriminate.
  - exact demo_conn_between.
  - lia.
  - reflexivity.
  - reflexivity.
  - exists wB', new, s. split; [exact E|]. split; [exact Q|]. split; [exact Hs|].
    split; [exact Hr|]. apply H. by split.
Defined.
End RoundWitness.
