(* ===== verification/Hash.v ===== *)
(** * lib/hash.c: chained hash tables, and the interning pools built on them

    Objects live on a heap; a table holds their addresses in chains.  The
    first section models [hash_get], [hash_release] and the other operations
    for any key and comparison function and shows that a table is a set of
    representatives for the comparison.  The second models interning with
    reference counts ([aspath_intern], [community_intern] and their
    [_unintern] counterparts have the same body) against the class of objects
    that can be interned. *)
From stdpp Require Import base option list gmap.
From Stdlib Require Import ZArith Lia.
From S2P Require Import Prelude.

Definition addr := positive.

(** Key and comparison functions, with what a table relies on: the comparison
    is an equivalence, and equal objects have equal keys, at least among the
    objects that are put into tables ([hash_valid]). *)
Class Hashable (A : Type) := {
  hash_key : A -> Z;
  hash_cmp : A -> A -> bool;
  hash_valid : A -> Prop;
  hash_key_cmp : forall a b, hash_valid a -> hash_valid b ->
    hash_cmp a b = true -> hash_key a = hash_key b;
  hash_cmp_refl : forall a, hash_cmp a a = true;
  hash_cmp_sym : forall a b, hash_cmp a b = true -> hash_cmp b a = true;
  hash_cmp_trans : forall a b c,
    hash_cmp a b = true -> hash_cmp b c = true -> hash_cmp a c = true
}.

(** ** Tables *)
Record backet := Backet { b_key : Z; b_data : addr }.
Record hash := Hash { h_index : list (list backet); h_size : Z; h_count : Z }.

Definition HASHTABSIZE : Z := 1024.

Section table.
Context {A : Type} `{Hashable A}.

Definition hash_create_size (size : Z) : hash :=
  Hash (replicate (Z.to_nat size) []) size 0.
Definition hash_create : hash := hash_create_size HASHTABSIZE.

(** A pointer that is followed must be live. *)
Definition deref (m : gmap addr A) (p : addr) : res A :=
  match m !! p with Some a => Ret a | None => Fault end.

(** The search loop over one chain. *)
Fixpoint find_backet (m : gmap addr A) (key : Z) (data : A) (chain : list backet)
  : res (option addr) :=
  match chain with
  | [] => Ret None
  | b :: next =>
      if b_key b =? key
      then a ← deref m (b_data b);
           if hash_cmp a data then Ret (Some (b_data b)) else find_backet m key data next
      else find_backet m key data next
  end.

(** [index = key % hash->size]; a table of size 0 would divide by zero. *)
Definition slot (h : hash) (key : Z) : res Z :=
  if h_size h =? 0 then Fault else Ret (key mod h_size h).

(** [alloc_func] runs only when nothing is found: it may allocate, and gives
    NULL on malformed data. *)
Definition hash_get (m : gmap addr A) (h : hash) (data : A)
  (alloc_func : option (gmap addr A -> res (gmap addr A * option addr)))
  : res (gmap addr A * hash * option addr) :=
  let key := hash_key data in
  index ← slot h key;
  chain ← zget (h_index h) index;
  found ← find_backet m key data chain;
  match found, alloc_func with
  | Some p, _ => Ret (m, h, Some p)
  | None, None => Ret (m, h, None)
  | None, Some alloc =>
      '(m, newdata) ← alloc m;
      match newdata with
      | None => Ret (m, h, None)
      | Some p =>
          idx ← zput (h_index h) index (Backet key p :: chain);
          Ret (m, Hash idx (h_size h) (u64 (h_count h + 1)), Some p)
      end
  end.

Definition hash_lookup (m : gmap addr A) (h : hash) (data : A) :=
  hash_get m h data None.

(** [hash_alloc_intern]: the argument itself. *)
Definition hash_alloc_intern (p : addr) (m : gmap addr A) : res (gmap addr A * option addr) :=
  Ret (m, Some p).

(** The search of [hash_release]: the chain without the backet, and its data. *)
Fixpoint unlink_backet (m : gmap addr A) (key : Z) (data : A) (chain : list backet)
  : res (list backet * option addr) :=
  match chain with
  | [] => Ret ([], None)
  | b :: next =>
      hit ← (if b_key b =? key then a ← deref m (b_data b); Ret (hash_cmp a data) else Ret false);
      if (hit : bool) then Ret (next, Some (b_data b))
      else '(next, p) ← unlink_backet m key data next; Ret (b :: next, p)
  end.

Definition hash_release (m : gmap addr A) (h : hash) (data : A) : res (hash * option addr) :=
  let key := hash_key data in
  index ← slot h key;
  chain ← zget (h_index h) index;
  '(chain, found) ← unlink_backet m key data chain;
  match found with
  | None => Ret (h, None)
  | Some p =>
      idx ← zput (h_index h) index chain;
      Ret (Hash idx (h_size h) (u64 (h_count h - 1)), Some p)
  end.

(** *** What a table holds *)
Definition chain_addrs (c : list backet) : list addr := map b_data c.
Definition addrs (h : hash) : list addr := concat (map chain_addrs (h_index h)).

Definition backet_ok (m : gmap addr A) (size : Z) (i : nat) (b : backet) : Prop :=
  exists a, m !! b_data b = Some a /\ hash_valid a /\ b_key b = hash_key a /\
    hash_key a mod size = Z.of_nat i.

(** The invariant: backets in the chain of their key, holding live objects, no
    object twice and no two equal objects, and their number counted. *)
Record hash_ok (m : gmap addr A) (h : hash) : Prop := {
  ok_size : 0 < h_size h;
  ok_length : zlen (h_index h) = h_size h;
  ok_backets : forall i c, h_index h !! i = Some c -> Forall (backet_ok m (h_size h) i) c;
  ok_nodup : NoDup (addrs h);
  ok_distinct : forall p q a b, p ∈ addrs h -> q ∈ addrs h ->
    m !! p = Some a -> m !! q = Some b -> hash_cmp a b = true -> p = q;
  ok_count : h_count h = u64 (zlen (addrs h))
}.

Lemma elem_of_addrs h p :
  p ∈ addrs h <-> exists i c b, h_index h !! i = Some c /\ b ∈ c /\ b_data b = p.
Proof.
  unfold addrs, chain_addrs. rewrite list_elem_of_In, in_concat. split.
  - intros (l & Hl & Hp). apply in_map_iff in Hl as (c & <- & Hc).
    apply in_map_iff in Hp as (b & <- & Hb).
    apply list_elem_of_In, list_elem_of_lookup in Hc as [i Hi].
    exists i, c, b. by rewrite list_elem_of_In.
  - intros (i & c & b & Hi & Hb & <-). exists (map b_data c).
    split; apply in_map; [|by apply list_elem_of_In].
    by apply list_elem_of_In, (list_elem_of_lookup_2 _ i).
Qed.

Lemma create_ok m size : 0 < size -> hash_ok m (hash_create_size size).
Proof.
  intros Hs. assert (addrs (hash_create_size size) = []) as E.
  { unfold addrs, hash_create_size. simpl. by induction (Z.to_nat size). }
  split; rewrite ?E; simpl.
  - done.
  - rewrite zlen_replicate. lia.
  - intros i c [-> _]%lookup_replicate. constructor.
  - constructor.
  - intros ???? []%elem_of_nil.
  - done.
Qed.

(** Live objects of the table. *)
Lemma addrs_live m h p :
  hash_ok m h -> p ∈ addrs h -> exists a, m !! p = Some a /\ hash_valid a.
Proof.
  intros Hok (i & c & b & Hi & Hb & <-)%elem_of_addrs.
  pose proof (ok_backets _ _ Hok i c Hi) as Hc.
  apply (proj1 (Forall_forall _ _) Hc) in Hb as (a & Ha & Hv & _). eauto.
Qed.

(** The chain that is searched holds every object equal to the argument. *)
Lemma find_backet_spec m size i data c :
  hash_valid data -> Forall (backet_ok m size i) c ->
  exists r, find_backet m (hash_key data) data c = Ret r /\
    match r with
    | Some p => p ∈ chain_addrs c /\ exists a, m !! p = Some a /\ hash_cmp a data = true
    | None => forall p a, p ∈ chain_addrs c -> m !! p = Some a -> hash_cmp a data = false
    end.
Proof.
  intros Hd. induction 1 as [|b c (a & Ha & Hv & Hk & Hi) Hc (r & Hr & Hm)]; simpl.
  { exists None. split; [done|]. by intros p a ?%elem_of_nil. }
  rewrite Hk. unfold deref. rewrite Ha. cbn [mbind res_bind].
  destruct (hash_cmp a data) eqn:E.
  - rewrite (hash_key_cmp _ _ Hv Hd E), Z.eqb_refl. exists (Some (b_data b)). split; [done|].
    split; [by left|eauto].
  - exists r. split; [by case_test|]. destruct r as [p|].
    + destruct Hm as [Hp Hm]. split; [by right|done].
    + intros p a' [->|Hp]%elem_of_cons Hpa; [congruence|eauto].
Qed.

Lemma slot_chain m h data :
  hash_ok m h ->
  exists i c, slot h (hash_key data) = Ret (Z.of_nat i) /\ zget (h_index h) (Z.of_nat i) = Ret c /\
    h_index h !! i = Some c /\ hash_key data mod h_size h = Z.of_nat i.
Proof.
  intros Hok. pose proof (ok_size _ _ Hok) as Hs. pose proof (ok_length _ _ Hok) as Hl.
  pose proof (Z.mod_pos_bound (hash_key data) (h_size h) Hs) as Hb.
  unfold slot. case_test; [lia|].
  destruct (zget_ok (h_index h) (hash_key data mod h_size h)) as (c & Hc & Hi); [lia|].
  exists (Z.to_nat (hash_key data mod h_size h)), c. rewrite Z2Nat.id by lia. done.
Qed.

(** Equal objects are only ever found in the chain of their key. *)
Lemma equal_in_chain m h data i c p a :
  hash_valid data -> hash_ok m h -> h_index h !! i = Some c -> hash_key data mod h_size h = Z.of_nat i ->
  p ∈ addrs h -> m !! p = Some a -> hash_cmp a data = true -> p ∈ chain_addrs c.
Proof.
  intros Hd Hok Hi Hmod (j & c' & b & Hj & Hb & <-)%elem_of_addrs Ha Hcmp.
  pose proof (proj1 (Forall_forall _ _) (ok_backets _ _ Hok j c' Hj) b Hb) as (a' & Ha' & Hv & Hk & Hm).
  rewrite Ha in Ha'. injection Ha' as <-. rewrite (hash_key_cmp _ _ Hv Hd Hcmp) in Hm.
  assert (j = i) as -> by lia. rewrite Hi in Hj. injection Hj as <-.
  apply list_elem_of_In, in_map. by apply list_elem_of_In.
Qed.

(** [hash_lookup] finds the representative of [data], and only that. *)
Lemma hash_get_found m h data :
  hash_valid data -> hash_ok m h ->
  exists r, hash_get m h data None = Ret (m, h, r) /\
    (forall alloc p, r = Some p -> hash_get m h data alloc = Ret (m, h, Some p)) /\
    match r with
    | Some p => p ∈ addrs h /\ exists a, m !! p = Some a /\ hash_cmp a data = true
    | None => forall p a, p ∈ addrs h -> m !! p = Some a -> hash_cmp a data = false
    end.
Proof.
  intros Hd Hok. destruct (slot_chain m h data Hok) as (i & c & E1 & E2 & Hi & Hmod).
  unfold hash_get. rewrite E1. cbn [mbind res_bind]. rewrite E2. cbn [mbind res_bind].
  destruct (find_backet_spec m (h_size h) i data c Hd (ok_backets _ _ Hok i c Hi)) as (r & -> & Hr).
  cbn [mbind res_bind]. exists r.
  destruct r as [p|]; (split; [done|]; split; [by intros ? ? [= <-]|]).
  - destruct Hr as [Hp Hr]. split; [|done]. apply list_elem_of_In, in_map_iff in Hp as (b & <- & Hb).
    apply elem_of_addrs. exists i, c, b. by rewrite list_elem_of_In.
  - intros p a Hp Ha. destruct (hash_cmp a data) eqn:E; [|done].
    rewrite <- E. apply (Hr p); [|done]. eapply equal_in_chain; eauto.
Qed.

(** *** Changing one chain *)
Lemma index_split (h : hash) i c :
  h_index h !! i = Some c ->
  exists l1 l2, h_index h = l1 ++ c :: l2 /\ length l1 = i.
Proof.
  intros Hi. exists (take i (h_index h)), (drop (S i) (h_index h)).
  rewrite take_drop_middle by done. split; [done|].
  apply lookup_lt_Some in Hi. rewrite length_take. lia.
Qed.

Lemma addrs_app l1 c l2 n k :
  addrs (Hash (l1 ++ c :: l2) n k)
  = concat (map chain_addrs l1) ++ chain_addrs c ++ concat (map chain_addrs l2).
Proof. unfold addrs. simpl. by rewrite map_app, concat_app. Qed.

Lemma backet_ok_keep (m m' : gmap addr A) size i b :
  m' !! b_data b = m !! b_data b -> backet_ok m size i b -> backet_ok m' size i b.
Proof. intros E (a & Ha & Hv & Hk). exists a. by rewrite E. Qed.

Lemma hash_ok_chain m m' h l1 c c' l2 n :
  hash_ok m h -> h_index h = l1 ++ c :: l2 ->
  let h' := Hash (l1 ++ c' :: l2) (h_size h) n in
  (forall p, p ∈ addrs h -> p ∈ addrs h' -> m' !! p = m !! p) ->
  Forall (backet_ok m' (h_size h) (length l1)) c' ->
  NoDup (addrs h') ->
  (forall p q a b, p ∈ addrs h' -> q ∈ addrs h' ->
     m' !! p = Some a -> m' !! q = Some b -> hash_cmp a b = true -> p = q) ->
  n = u64 (zlen (addrs h')) -> hash_ok m' h'.
Proof.
  intros Hok Hidx h' Hm Hc' Hnd Hdist Hn. split; simpl; auto.
  - apply (ok_size _ _ Hok).
  - rewrite <- (ok_length _ _ Hok), Hidx. zlen.
  - intros i d Hi. destruct (decide (i = length l1)) as [->|Hne].
    { rewrite list_lookup_middle in Hi by done. by injection Hi as <-. }
    assert (Hi' : h_index h !! i = Some d).
    { rewrite Hidx. destruct (decide (i < length l1)%nat).
      - rewrite lookup_app_l in Hi |- * by lia. done.
      - rewrite lookup_app_r in Hi |- * by lia. by destruct (i - length l1)%nat eqn:?; [lia|]. }
    apply Forall_forall. intros b Hb. apply (backet_ok_keep m).
    + apply Hm; apply elem_of_addrs; [by exists i, d, b|]. exists i, d, b. done.
    + by apply (proj1 (Forall_forall _ _) (ok_backets _ _ Hok i d Hi')).
Qed.

(** [hash_get] with an allocator, when nothing equal is there yet. *)
Lemma hash_get_new m h data alloc m' p a :
  hash_valid data -> hash_valid a -> hash_ok m h -> (forall q b, q ∈ addrs h -> m !! q = Some b -> hash_cmp b data = false) ->
  alloc m = Ret (m', Some p) -> (forall q, q ∈ addrs h -> m' !! q = m !! q) ->
  p ∉ addrs h -> m' !! p = Some a -> hash_cmp a data = true ->
  exists h', hash_get m h data (Some alloc) = Ret (m', h', Some p) /\
    hash_ok m' h' /\ Permutation (addrs h') (p :: addrs h).
Proof.
  intros Hd Hva Hok Hnone Halloc Hkeep Hp Ha Hcmp.
  destruct (slot_chain m h data Hok) as (i & c & E1 & E2 & Hi & Hmod).
  unfold hash_get. rewrite E1. cbn [mbind res_bind]. rewrite E2. cbn [mbind res_bind].
  destruct (find_backet_spec m (h_size h) i data c Hd (ok_backets _ _ Hok i c Hi)) as (r & -> & Hr).
  cbn [mbind res_bind]. destruct r as [q|].
  { destruct Hr as (Hq & b & Hb & E). apply list_elem_of_In, in_map_iff in Hq as (bk & <- & Hbk).
    assert (b_data bk ∈ addrs h) by (apply elem_of_addrs; exists i, c, bk; by rewrite list_elem_of_In).
    by rewrite (Hnone (b_data bk) b) in E. }
  rewrite Halloc. cbn [mbind res_bind].
  destruct (index_split h i c Hi) as (l1 & l2 & Hidx & <-). rewrite Hidx.
  rewrite zput_app by done. cbn [mbind res_bind].
  set (h' := Hash (l1 ++ (Backet (hash_key data) p :: c) :: l2) _ _).
  assert (Hperm : Permutation (addrs h') (p :: addrs h)).
  { unfold h'. rewrite addrs_app. destruct h as [idx n k]. simpl in Hidx. subst idx.
    rewrite addrs_app. simpl. symmetry. apply Permutation_middle. }
  eexists. split; [done|]. split; [|done]. fold h'.
  apply (hash_ok_chain m m' h l1 c _ l2); auto; fold h'.
  - constructor.
    + exists a. simpl. rewrite (hash_key_cmp _ _ Hva Hd Hcmp). done.
    + apply Forall_forall. intros b Hb. apply (backet_ok_keep m).
      * apply Hkeep, elem_of_addrs. by exists (length l1), c, b.
      * by apply (proj1 (Forall_forall _ _) (ok_backets _ _ Hok _ c Hi)).
  - rewrite Hperm. constructor; [done|apply (ok_nodup _ _ Hok)].
  - assert (Hno : forall y ay, y ∈ addrs h -> m' !! y = Some ay -> hash_cmp a ay = true -> False).
    { intros y ay Hy Hay E. rewrite (Hkeep y Hy) in Hay. pose proof (Hnone y ay Hy Hay) as F.
      by rewrite (hash_cmp_trans ay a data (hash_cmp_sym _ _ E) Hcmp) in F. }
    intros x y ax ay Hx Hy Hax Hay Hxy. rewrite Hperm in Hx, Hy.
    apply elem_of_cons in Hx as [->|Hx], Hy as [->|Hy]; simplify_eq; auto.
    + by destruct (Hno y ay).
    + destruct (Hno x ax); auto using hash_cmp_sym.
    + rewrite Hkeep in Hax, Hay by done. by apply (ok_distinct _ _ Hok x y ax ay).
  - rewrite (ok_count _ _ Hok). unfold zlen at 2. rewrite (Permutation_length Hperm). simpl.
    unfold u64, zlen. rewrite Zplus_mod_idemp_l. f_equal. lia.
Qed.

(** [hash_release] takes out the representative of [data]. *)
Lemma unlink_backet_spec m size i data c p :
  hash_valid data -> Forall (backet_ok m size i) c -> NoDup (chain_addrs c) ->
  (forall q a, q ∈ chain_addrs c -> m !! q = Some a -> hash_cmp a data = true -> q = p) ->
  p ∈ chain_addrs c -> (exists a, m !! p = Some a /\ hash_cmp a data = true) ->
  exists c1 b c2, c = c1 ++ b :: c2 /\ b_data b = p /\
    unlink_backet m (hash_key data) data c = Ret (c1 ++ c2, Some p).
Proof.
  intros Hd Hc Hnd Huniq Hin (ap & Hap & Hcmp).
  induction Hc as [|b c (a & Ha & Hv & Hk & Hi) Hc IH]; [by apply elem_of_nil in Hin|].
  simpl. rewrite Hk. unfold deref. rewrite Ha. cbn [mbind res_bind].
  destruct (hash_cmp a data) eqn:E.
  - rewrite (hash_key_cmp _ _ Hv Hd E), Z.eqb_refl. cbn [mbind res_bind]. exists [], b, c.
    rewrite (Huniq (b_data b) a); [done|by left|done|done].
  - apply NoDup_cons in Hnd as [_ Hnd]. apply elem_of_cons in Hin as [->|Hin]; [congruence|].
    destruct IH as (c1 & b' & c2 & -> & Hb & IH); auto.
    { intros q aq Hq. apply Huniq. by right. }
    exists (b :: c1), b', c2. split; [done|]. split; [done|]. rewrite IH.
    by case_test.
Qed.

Lemma hash_release_spec m h data p :
  hash_valid data -> hash_ok m h -> p ∈ addrs h -> (exists a, m !! p = Some a /\ hash_cmp a data = true) ->
  exists h', hash_release m h data = Ret (h', Some p) /\
    Permutation (addrs h) (p :: addrs h') /\
    forall m', (forall q, q ∈ addrs h' -> m' !! q = m !! q) -> hash_ok m' h'.
Proof.
  intros Hd Hok Hp Hcmp. destruct (slot_chain m h data Hok) as (i & c & E1 & E2 & Hi & Hmod).
  unfold hash_release. rewrite E1. cbn [mbind res_bind]. rewrite E2. cbn [mbind res_bind].
  destruct (index_split h i c Hi) as (l1 & l2 & Hidx & Hl).
  assert (Haddrs : addrs h = concat (map chain_addrs l1) ++ chain_addrs c ++ concat (map chain_addrs l2)).
  { destruct h as [idx n k]. simpl in Hidx. subst idx. apply addrs_app. }
  assert (Hsub : forall q, q ∈ chain_addrs c -> q ∈ addrs h)
    by (intros q Hq; rewrite Haddrs, !elem_of_app; auto).
  destruct Hcmp as (ap & Hap & Hcmp).
  destruct (unlink_backet_spec m (h_size h) i data c p) as (c1 & b & c2 & -> & <- & E);
    [done|apply (ok_backets _ _ Hok i c Hi)| | | |eauto|].
  { pose proof (ok_nodup _ _ Hok) as Hnd. rewrite Haddrs in Hnd.
    by apply NoDup_app in Hnd as (_ & _ & (? & _ & _)%NoDup_app). }
  { intros q a Hq Ha Hqa. apply (ok_distinct _ _ Hok q p a ap); auto.
    apply (hash_cmp_trans a data ap); auto using hash_cmp_sym. }
  { eapply equal_in_chain; eauto. }
  rewrite E. cbn [mbind res_bind]. rewrite Hidx, zput_app by (by rewrite <- Hl).
  cbn [mbind res_bind]. set (h' := Hash (l1 ++ (c1 ++ c2) :: l2) _ _).
  assert (Hperm : Permutation (addrs h) (b_data b :: addrs h')).
  { unfold h'. rewrite Haddrs, addrs_app. unfold chain_addrs. rewrite !map_app. simpl.
    rewrite <- !app_assoc. simpl. rewrite (app_assoc _ (map b_data c1)).
    symmetry. rewrite app_assoc. apply Permutation_middle. }
  eexists. split; [done|]. split; [done|]. intros m' Hm'. fold h'.
  pose proof (ok_nodup _ _ Hok) as Hnd. rewrite Hperm in Hnd. apply NoDup_cons in Hnd as [_ Hnd].
  assert (Hin : forall q, q ∈ addrs h' -> q ∈ addrs h) by (intros q Hq; rewrite Hperm; by right).
  apply (hash_ok_chain m m' h l1 (c1 ++ b :: c2) _ l2); auto; fold h'; auto.
  - apply Forall_forall. intros x Hx. rewrite Hl. apply (backet_ok_keep m).
    + apply Hm'. unfold h'. rewrite addrs_app. rewrite !elem_of_app. right; left.
      apply list_elem_of_In, in_map. by apply list_elem_of_In.
    + apply (proj1 (Forall_forall _ _) (ok_backets _ _ Hok i _ Hi)).
      rewrite elem_of_app in Hx |- *. rewrite elem_of_cons. naive_solver.
  - intros x y ax ay Hx Hy Hax Hay. rewrite Hm' in Hax, Hay by done.
    apply (ok_distinct _ _ Hok); auto.
  - rewrite (ok_count _ _ Hok). unfold zlen at 1. rewrite (Permutation_length Hperm). simpl.
    unfold u64, zlen. rewrite Zminus_mod_idemp_l. f_equal. lia.
Qed.

(** Replacing an object by an equal one changes nothing for the table. *)
Lemma hash_ok_update m h q a a' :
  hash_ok m h -> m !! q = Some a -> hash_valid a -> hash_valid a' -> hash_cmp a' a = true ->
  hash_ok (<[q := a']> m) h.
Proof.
  intros Hok Hq Hva Hva' Hcmp.
  assert (Hback : forall p b, <[q := a']> m !! p = Some b ->
            exists b0, m !! p = Some b0 /\ hash_cmp b b0 = true).
  { intros p b Hp. destruct (decide (p = q)) as [->|Hne].
    - rewrite lookup_insert_eq in Hp. injection Hp as <-. eauto.
    - rewrite lookup_insert_ne in Hp by done. eauto using hash_cmp_refl. }
  split; try apply Hok.
  - intros i c Hi. apply Forall_forall. intros b Hb.
    pose proof (proj1 (Forall_forall _ _) (ok_backets _ _ Hok i c Hi) b Hb) as (x & Hx & Hv & Hk & Hm).
    destruct (decide (b_data b = q)) as [E|Hne].
    + rewrite E in *. simplify_eq. exists a'. rewrite lookup_insert_eq.
      by rewrite (hash_key_cmp _ _ Hva' Hva Hcmp).
    + exists x. by rewrite lookup_insert_ne.
  - intros p r x y Hp Hr Hx Hy Hxy.
    apply Hback in Hx as (x0 & Hx & Ex), Hy as (y0 & Hy & Ey).
    apply (ok_distinct _ _ Hok p r x0 y0); auto.
    eapply hash_cmp_trans; [apply hash_cmp_sym, Ex|]. by eapply hash_cmp_trans.
Qed.

(** Objects outside the table may come and go. *)
Lemma hash_ok_agree m m' h :
  hash_ok m h -> (forall q, q ∈ addrs h -> m' !! q = m !! q) -> hash_ok m' h.
Proof.
  intros Hok Hm. split; try apply Hok.
  - intros i c Hi. apply Forall_forall. intros b Hb. apply (backet_ok_keep m).
    + apply Hm, elem_of_addrs. by exists i, c, b.
    + by apply (proj1 (Forall_forall _ _) (ok_backets _ _ Hok i c Hi)).
  - intros p q a b Hp Hq. rewrite !Hm by done. by apply (ok_distinct _ _ Hok).
Qed.
End table.

(** ** Interning *)

(** What can be interned: a reference count that the comparison ignores, and
    a cached string that is made when it is missing. *)
Class Internable (A : Type) := {
  intern_hashable :: Hashable A;
  refcnt_of : A -> Z;
  set_refcnt : A -> Z -> A;
  fill_str : A -> res A;
  refcnt_set : forall a n, refcnt_of (set_refcnt a n) = n;
  set_refcnt_cmp : forall a n, hash_cmp (set_refcnt a n) a = true;
  set_refcnt_valid : forall a n, hash_valid a -> hash_valid (set_refcnt a n);
  fill_str_ok : forall a, hash_valid a -> exists a', fill_str a = Ret a' /\
    hash_cmp a' a = true /\ hash_valid a' /\ refcnt_of a' = refcnt_of a
}.

Section intern.
Context {A : Type} `{Internable A}.

(** The body of [aspath_intern] and [community_intern]. *)
Definition intern (m : gmap addr A) (h : hash) (p : addr) : res (gmap addr A * hash * addr) :=
  a ← deref m p;
  _ ← cassert (refcnt_of a =? 0);
  '(m, h, find) ← hash_get m h a (Some (hash_alloc_intern p));
  match find with
  | None => Fault
  | Some q =>
      let m := if decide (q = p) then m else delete p m in
      b ← deref m q;
      b ← fill_str (set_refcnt b (u64 (refcnt_of b + 1)));
      Ret (<[q := b]> m, h, q)
  end.

(** The body of [aspath_unintern] and [community_unintern]; [None] when the
    caller's pointer is cleared. *)
Definition unintern (m : gmap addr A) (h : hash) (q : addr)
  : res (gmap addr A * hash * option addr) :=
  a ← deref m q;
  let n := if refcnt_of a =? 0 then 0 else refcnt_of a - 1 in
  let a := set_refcnt a n in
  let m := <[q := a]> m in
  if n =? 0
  then
    '(h, ret) ← hash_release m h a;
    _ ← cassert (bool_decide (ret <> None));
    Ret (delete q m, h, None)
  else Ret (m, h, Some q).

(** *** The pool as the references handed out

    [held] is the bag of pointers clients hold.  The heap has exactly the
    objects somebody holds, each counted as often as it is held. *)
Record pool_rep (m : gmap addr A) (h : hash) (held : list addr) : Prop := {
  pool_hash : hash_ok m h;
  pool_held : forall q, q ∈ addrs h <-> q ∈ held;
  pool_live : forall q, is_Some (m !! q) <-> q ∈ held;
  pool_count : forall q a, m !! q = Some a ->
    refcnt_of a = zlen (filter (fun x => x = q) held)
}.

Lemma pool_rep_empty size : 0 < size -> pool_rep ∅ (hash_create_size size) [].
Proof.
  intros Hs. pose proof (create_ok (A:=A) ∅ size Hs) as Hok.
  assert (addrs (hash_create_size size) = []) as E.
  { unfold addrs, hash_create_size. simpl. by induction (Z.to_nat size). }
  split; [done|..].
  - intros q. by rewrite E.
  - intros q. rewrite lookup_empty, elem_of_nil. split; [by intros []|done].
  - intros q a. by rewrite lookup_empty.
Qed.

Lemma count_bound q (held : list addr) :
  0 <= zlen (filter (fun x => x = q) held) <= zlen held.
Proof. unfold zlen. pose proof (length_filter (fun x => x = q) held). lia. Qed.

Lemma count_cons q x (held : list addr) :
  zlen (filter (fun y => y = q) (x :: held))
  = (if decide (x = q) then 1 else 0) + zlen (filter (fun y => y = q) held).
Proof. rewrite filter_cons. destruct (decide (x = q)); [zlen|lia]. Qed.

Lemma count_absent q (held : list addr) :
  q ∉ held -> zlen (filter (fun x => x = q) held) = 0.
Proof.
  induction held as [|x held IH]; intros Hq; [done|]. rewrite count_cons.
  apply not_elem_of_cons in Hq as [Hx Hq]. rewrite IH by done.
  destruct (decide (x = q)); [congruence|done].
Qed.

Lemma count_present q (held : list addr) :
  q ∈ held -> 1 <= zlen (filter (fun x => x = q) held).
Proof.
  intros Hq. assert (Hin : q ∈ filter (fun x => x = q) held) by (by apply list_elem_of_filter).
  destruct (filter _ held) as [|x l]; [by apply elem_of_nil in Hin|].
  pose proof (zlen_nonneg l). zlen.
Qed.

Lemma deref_Some (m : gmap addr A) p a : m !! p = Some a -> deref m p = Ret a.
Proof. intros E. unfold deref. by rewrite E. Qed.

(** One more reference to [q], whose object is now [b]. *)
Lemma pool_rep_grow m held h' q b :
  hash_ok (<[q := b]> m) h' -> (forall r, r ∈ addrs h' <-> r ∈ q :: held) ->
  (forall r, r <> q -> is_Some (m !! r) <-> r ∈ held) ->
  (forall r a, r <> q -> m !! r = Some a -> refcnt_of a = zlen (filter (fun x => x = r) held)) ->
  refcnt_of b = 1 + zlen (filter (fun x => x = q) held) ->
  pool_rep (<[q := b]> m) h' (q :: held).
Proof.
  intros Hok Haddrs Hlive Hcount Hb. split; auto.
  - intros r. rewrite elem_of_cons. destruct (decide (r = q)) as [->|Hne].
    + rewrite lookup_insert_eq. naive_solver.
    + rewrite lookup_insert_ne, Hlive by done. naive_solver.
  - intros r a. rewrite count_cons. destruct (decide (q = r)) as [->|Hne].
    + rewrite lookup_insert_eq. by intros [= <-].
    + rewrite lookup_insert_ne by done. intros Ha. rewrite (Hcount r a); [lia|done..].
Qed.

Lemma intern_spec m h held p a :
  pool_rep m h held -> m !! p = None -> hash_valid a -> refcnt_of a = 0 ->
  zlen held < 2 ^ 64 - 1 ->
  exists m' h' q b, intern (<[p := a]> m) h p = Ret (m', h', q) /\
    pool_rep m' h' (q :: held) /\ m' !! q = Some b /\ hash_cmp b a = true /\
    (forall r x, r ∈ held -> m !! r = Some x -> exists y, m' !! r = Some y /\ hash_cmp y x = true) /\
    (forall r x, r ∈ held -> m !! r = Some x -> hash_cmp x a = true -> q = r).
Proof.
  intros Hrep Hp Hva Hcnt Hbound. pose proof (pool_hash _ _ _ Hrep) as Hok.
  assert (Hnp : p ∉ held).
  { intros [x Hx]%(pool_live _ _ _ Hrep). congruence. }
  assert (Hok1 : hash_ok (<[p := a]> m) h).
  { apply (hash_ok_agree m); [done|]. intros q Hq%(pool_held _ _ _ Hrep).
    rewrite lookup_insert_ne; [done|congruence]. }
  unfold intern. rewrite (deref_Some _ p a) by apply lookup_insert_eq. cbn [mbind res_bind].
  rewrite Hcnt. cbn [Z.eqb cassert mbind res_bind].
  destruct (hash_get_found (<[p := a]> m) h a Hva Hok1) as (r & _ & Hr & Hm).
  destruct r as [q|].
  - rewrite (Hr _ q eq_refl). cbn [mbind res_bind]. destruct Hm as (Hq & b0 & Hb0 & Hcmp).
    assert (Hqh : q ∈ held) by (by apply (pool_held _ _ _ Hrep)).
    assert (q <> p) by congruence. rewrite lookup_insert_ne in Hb0 by done.
    destruct (decide (q = p)); [done|]. rewrite delete_insert_id by done.
    rewrite (deref_Some _ _ _ Hb0). cbn [mbind res_bind].
    destruct (addrs_live _ _ q Hok Hq) as (b0' & E & Hvb). rewrite Hb0 in E. injection E as <-.
    pose proof (pool_count _ _ _ Hrep q b0 Hb0) as Hc. pose proof (count_bound q held).
    rewrite u64_id by lia.
    destruct (fill_str_ok (set_refcnt b0 (refcnt_of b0 + 1)) (set_refcnt_valid _ _ Hvb))
      as (b & -> & Hb1 & Hb2 & Hb3). cbn [mbind res_bind].
    assert (Hbb : hash_cmp b b0 = true)
      by (eapply hash_cmp_trans; [exact Hb1|apply set_refcnt_cmp]).
    eexists _, h, q, b. split; [done|]. split_and!.
    + apply pool_rep_grow.
      * by apply (hash_ok_update m h q b0).
      * intros x. rewrite (pool_held _ _ _ Hrep), elem_of_cons. naive_solver.
      * intros x _. apply (pool_live _ _ _ Hrep).
      * intros x y _. apply (pool_count _ _ _ Hrep).
      * rewrite Hb3, refcnt_set, Hc. lia.
    + by rewrite lookup_insert_eq.
    + by eapply hash_cmp_trans.
    + intros x y _ Hy. destruct (decide (x = q)) as [->|].
      * exists b. rewrite lookup_insert_eq. split; [done|]. congruence.
      * exists y. rewrite lookup_insert_ne by done. auto using hash_cmp_refl.
    + intros x y Hx Hy Hxy. apply (ok_distinct _ _ Hok q x b0 y); auto.
      { by apply (pool_held _ _ _ Hrep). }
      eapply hash_cmp_trans; [exact Hcmp|by apply hash_cmp_sym].
  - destruct (hash_get_new (<[p := a]> m) h a (hash_alloc_intern p) (<[p := a]> m) p a)
      as (h' & -> & Hok' & Hperm); auto using hash_cmp_refl.
    { intros Hin. apply Hnp. by apply (pool_held _ _ _ Hrep). }
    { by rewrite lookup_insert_eq. }
    cbn [mbind res_bind]. destruct (decide (p = p)); [|done].
    rewrite (deref_Some _ p a) by apply lookup_insert_eq. cbn [mbind res_bind]. rewrite Hcnt.
    destruct (fill_str_ok (set_refcnt a (u64 (0 + 1))) (set_refcnt_valid _ _ Hva))
      as (b & -> & Hb1 & Hb2 & Hb3). cbn [mbind res_bind].
    assert (Hba : hash_cmp b a = true)
      by (eapply hash_cmp_trans; [exact Hb1|apply set_refcnt_cmp]).
    eexists _, h', p, b. split; [done|]. split_and!.
    + apply pool_rep_grow.
      * by apply (hash_ok_update (<[p := a]> m) h' p a); rewrite ?lookup_insert_eq.
      * intros x. rewrite Hperm, !elem_of_cons, (pool_held _ _ _ Hrep). done.
      * intros x Hx. rewrite lookup_insert_ne by done. apply (pool_live _ _ _ Hrep).
      * intros x y Hx. rewrite lookup_insert_ne by done. apply (pool_count _ _ _ Hrep).
      * rewrite Hb3, refcnt_set. change (u64 (0 + 1)) with 1.
        by rewrite count_absent.
    + by rewrite lookup_insert_eq.
    + done.
    + intros x y Hx Hy. exists y. rewrite !lookup_insert_ne by congruence.
      auto using hash_cmp_refl.
    + intros x y Hx Hy Hxy. rewrite <- (pool_held _ _ _ Hrep) in Hx.
      rewrite (Hm x y Hx) in Hxy; [done|]. rewrite lookup_insert_ne; [done|].
      intros <-. congruence.
Qed.

(** Looking up [a], allocating an equal object [new] at [p] when there is
    none, and counting one more reference. *)
Lemma acquire_spec m h held p a new alloc :
  pool_rep m h held -> m !! p = None -> hash_valid a -> hash_valid new ->
  hash_cmp new a = true -> refcnt_of new = 0 -> alloc m = Ret (<[p := new]> m, Some p) ->
  exists m1 h1 q f, hash_get m h a (Some alloc) = Ret (m1, h1, Some q) /\
    m1 !! q = Some f /\ hash_cmp f a = true /\ hash_valid f /\ 0 <= refcnt_of f <= zlen held /\
    (forall f', hash_cmp f' f = true -> hash_valid f' -> refcnt_of f' = refcnt_of f + 1 ->
       pool_rep (<[q := f']> m1) h1 (q :: held)) /\
    (forall r x, r ∈ held -> m !! r = Some x -> hash_cmp x a = true -> q = r).
Proof.
  intros Hrep Hp Hva Hvn Hcmp Hcnt Halloc. pose proof (pool_hash _ _ _ Hrep) as Hok.
  assert (Hnp : p ∉ held) by (intros [x Hx]%(pool_live _ _ _ Hrep); congruence).
  destruct (hash_get_found m h a Hva Hok) as (r & _ & Hr & Hm). destruct r as [q|].
  - rewrite (Hr _ q eq_refl). destruct Hm as (Hq & f & Hf & Hfa).
    destruct (addrs_live _ _ q Hok Hq) as (f0 & E & Hvf). rewrite Hf in E. injection E as <-.
    pose proof (pool_count _ _ _ Hrep q f Hf) as Hc. pose proof (count_bound q held).
    exists m, h, q, f. split_and!; auto; try lia.
    + intros f' Hf' Hv' Hn. apply pool_rep_grow.
      * by apply (hash_ok_update m h q f).
      * intros x. rewrite (pool_held _ _ _ Hrep), elem_of_cons.
        assert (q ∈ held) by (by apply (pool_held _ _ _ Hrep)). naive_solver.
      * intros x _. apply (pool_live _ _ _ Hrep).
      * intros x y _. apply (pool_count _ _ _ Hrep).
      * lia.
    + intros x y Hx Hy Hxy. apply (ok_distinct _ _ Hok q x f y); auto.
      { by apply (pool_held _ _ _ Hrep). }
      eapply hash_cmp_trans; [exact Hfa|by apply hash_cmp_sym].
  - assert (Hkeep : forall q, q ∈ addrs h -> <[p := new]> m !! q = m !! q).
    { intros q Hq%(pool_held _ _ _ Hrep). apply lookup_insert_ne. congruence. }
    destruct (hash_get_new m h a alloc (<[p := new]> m) p new) as (h' & -> & Hok' & Hperm); auto.
    { intros Hin. apply Hnp. by apply (pool_held _ _ _ Hrep). }
    { apply lookup_insert_eq. }
    exists (<[p := new]> m), h', p, new. rewrite Hcnt. pose proof (zlen_nonneg held).
    split_and!; auto; try lia; [apply lookup_insert_eq| |].
    + intros f' Hf' Hv' Hn. apply pool_rep_grow.
      * apply (hash_ok_update _ h' p new); auto. apply lookup_insert_eq.
      * intros x. rewrite Hperm, !elem_of_cons, (pool_held _ _ _ Hrep). done.
      * intros x Hx. rewrite lookup_insert_ne by done. apply (pool_live _ _ _ Hrep).
      * intros x y Hx. rewrite lookup_insert_ne by done. apply (pool_count _ _ _ Hrep).
      * rewrite count_absent by done. lia.
    + intros x y Hx Hy Hxy. rewrite <- (pool_held _ _ _ Hrep) in Hx.
      by rewrite (Hm x y Hx Hy) in Hxy.
Qed.

(** Giving back a reference that is held. *)
Lemma unintern_spec m h held1 q held2 :
  pool_rep m h (held1 ++ q :: held2) -> zlen (held1 ++ q :: held2) < 2 ^ 64 ->
  exists m' h' r, unintern m h q = Ret (m', h', r) /\ pool_rep m' h' (held1 ++ held2) /\
    (r = None <-> q ∉ held1 ++ held2) /\
    forall x b, x ∈ held1 ++ held2 -> m !! x = Some b ->
      exists y, m' !! x = Some y /\ hash_cmp y b = true.
Proof.
  intros Hrep Hbound. pose proof (pool_hash _ _ _ Hrep) as Hok.
  set (held := held1 ++ held2). assert (Hperm : Permutation (held1 ++ q :: held2) (q :: held))
    by (symmetry; apply Permutation_middle).
  assert (Hcnt : forall x, zlen (filter (fun y => y = x) (held1 ++ q :: held2))
                 = (if decide (q = x) then 1 else 0) + zlen (filter (fun y => y = x) held)).
  { intros x. rewrite <- count_cons. unfold zlen.
    by rewrite (Permutation_length (filter_Permutation _ _ _ Hperm)). }
  destruct (proj2 (pool_live _ _ _ Hrep q)) as [a Ha]; [rewrite Hperm; by left|].
  pose proof (pool_count _ _ _ Hrep q a Ha) as Hc. rewrite Hcnt, decide_True in Hc by done.
  pose proof (count_bound q held) as Hcb.
  assert (Hq : q ∈ addrs h) by (apply (pool_held _ _ _ Hrep); rewrite Hperm; by left).
  destruct (addrs_live _ _ q Hok Hq) as (a' & E & Hva). rewrite Ha in E. injection E as <-.
  unfold unintern. rewrite (deref_Some _ _ _ Ha). cbn [mbind res_bind].
  rewrite (proj2 (Z.eqb_neq (refcnt_of a) 0)) by lia.
  set (a1 := set_refcnt a (refcnt_of a - 1)). set (m1 := <[q := a1]> m).
  assert (Hva1 : hash_valid a1) by (by apply set_refcnt_valid).
  assert (Hok1 : hash_ok m1 h) by (apply (hash_ok_update m h q a); auto; apply set_refcnt_cmp).
  assert (Hlive : forall x, x <> q -> is_Some (m !! x) <-> x ∈ held).
  { intros x Hx. rewrite (pool_live _ _ _ Hrep), Hperm, elem_of_cons. naive_solver. }
  assert (Hcount : forall x b, x <> q -> m !! x = Some b ->
            refcnt_of b = zlen (filter (fun y => y = x) held)).
  { intros x b Hx Hb. rewrite (pool_count _ _ _ Hrep x b Hb), Hcnt, decide_False by congruence. lia. }
  case_test.
  - assert (Hnq : q ∉ held) by (intros Hin%count_present; lia).
    destruct (hash_release_spec m1 h a1 q) as (h' & -> & Hp & Hok'); auto.
    { exists a1. unfold m1. rewrite lookup_insert_eq. auto using hash_cmp_refl. }
    cbn. eexists _, _, _. split; [done|].
    assert (Hnd : q ∉ addrs h').
    { pose proof (ok_nodup _ _ Hok) as Hnd. rewrite Hp in Hnd. by apply NoDup_cons in Hnd as [? _]. }
    split_and!; [split| |].
    + apply Hok'. intros x Hx. apply lookup_delete_ne. congruence.
    + intros x. pose proof (pool_held _ _ _ Hrep x) as Hx. rewrite Hp, Hperm, !elem_of_cons in Hx.
      destruct (decide (x = q)) as [->|]; [done|naive_solver].
    + intros x. destruct (decide (x = q)) as [->|Hx].
      * rewrite lookup_delete_eq. split; [by intros []|done].
      * unfold m1. rewrite lookup_delete_ne, lookup_insert_ne by done. auto.
    + intros x b. destruct (decide (x = q)) as [->|Hx]; [by rewrite lookup_delete_eq|].
      unfold m1. rewrite lookup_delete_ne, lookup_insert_ne by done. auto.
    + done.
    + intros x b Hin Hx. assert (x <> q) by congruence. exists b. unfold m1.
      rewrite lookup_delete_ne, lookup_insert_ne by done. auto using hash_cmp_refl.
  - assert (Hnq : q ∈ held).
    { destruct (decide (q ∈ held)) as [|Hn]; [done|]. rewrite count_absent in Hc by done. lia. }
    eexists _, _, _. split; [done|]. split_and!; [split| |].
    + done.
    + intros x. rewrite (pool_held _ _ _ Hrep), Hperm, elem_of_cons. naive_solver.
    + intros x. destruct (decide (x = q)) as [->|Hx].
      * unfold m1. rewrite lookup_insert_eq. split; [done|eauto].
      * unfold m1. rewrite lookup_insert_ne by done. auto.
    + intros x b. destruct (decide (x = q)) as [->|Hx]; unfold m1.
      * rewrite lookup_insert_eq. intros [= <-]. unfold a1. rewrite refcnt_set. fold held. lia.
      * rewrite lookup_insert_ne by done. auto.
    + split; [done|]. by intros [].
    + intros x b _ Hb. destruct (decide (x = q)) as [->|]; unfold m1.
      * exists a1. rewrite lookup_insert_eq. split; [done|].
        rewrite Ha in Hb. injection Hb as <-. apply set_refcnt_cmp.
      * exists b. rewrite lookup_insert_ne by done. auto using hash_cmp_refl.
Qed.

(** *** Any sequence of clients' calls *)
Inductive pool_op := OpIntern (a : A) | OpUnintern (i : nat).

(** The concrete pool with the pointers handed out so far, newest first; a new
    object is allocated for every call of [intern]. *)
Definition pool_step (st : gmap addr A * hash * list addr) (op : pool_op)
  : res (gmap addr A * hash * list addr) :=
  let '(m, h, held) := st in
  match op with
  | OpIntern a =>
      let p := fresh (dom m) in
      '(m, h, q) ← intern (<[p := a]> m) h p; Ret (m, h, q :: held)
  | OpUnintern i =>
      match held !! i with
      | None => Ret st
      | Some q => '(m, h, _) ← unintern m h q; Ret (m, h, delete i held)
      end
  end.

Fixpoint pool_run (st : gmap addr A * hash * list addr) (ops : list pool_op)
  : res (gmap addr A * hash * list addr) :=
  match ops with
  | [] => Ret st
  | op :: ops => st ← pool_step st op; pool_run st ops
  end.

(** The specification: a list of values. *)
Fixpoint spec_run (vs : list A) (ops : list pool_op) : list A :=
  match ops with
  | [] => vs
  | OpIntern a :: ops => spec_run (a :: vs) ops
  | OpUnintern i :: ops => spec_run (delete i vs) ops
  end.

Definition pool_op_ok (op : pool_op) : Prop :=
  match op with OpIntern a => hash_valid a /\ refcnt_of a = 0 | OpUnintern _ => True end.

Definition points_to (m : gmap addr A) (q : addr) (v : A) : Prop :=
  exists b, m !! q = Some b /\ hash_cmp b v = true.

Lemma points_to_mono m m' held vs :
  (forall x b, x ∈ held -> m !! x = Some b -> exists y, m' !! x = Some y /\ hash_cmp y b = true) ->
  Forall2 (points_to m) held vs -> Forall2 (points_to m') held vs.
Proof.
  intros Hm HF. induction HF as [|x v held vs (b & Hb & Hv) HF IH]; constructor.
  - destruct (Hm x b) as (y & Hy & E); [by left|done|]. exists y. split; [done|].
    by eapply hash_cmp_trans.
  - apply IH. intros z c Hz. apply Hm. by right.
Qed.

Lemma pool_run_spec ops m h held vs :
  pool_rep m h held -> Forall2 (points_to m) held vs -> Forall pool_op_ok ops ->
  zlen held + zlen ops < 2 ^ 64 ->
  exists m' h' held', pool_run (m, h, held) ops = Ret (m', h', held') /\
    pool_rep m' h' held' /\ Forall2 (points_to m') held' (spec_run vs ops).
Proof.
  revert m h held vs. induction ops as [|op ops IH]; intros m h held vs Hrep HF Hops Hlen.
  { by exists m, h, held. }
  apply Forall_cons in Hops as [Hop Hops]. rewrite zlen_cons in Hlen.
  pose proof (zlen_nonneg ops). destruct op as [a|i]; cbn [pool_run pool_step spec_run].
  - destruct Hop as [Hva Hcnt].
    destruct (intern_spec m h held (fresh (dom m)) a) as (m1 & h1 & q & b & -> & Hrep1 & Hq & Hcmp & Hold & _);
      [done|apply not_elem_of_dom, is_fresh|done..|lia|].
    cbn [mbind res_bind]. apply IH; auto; [|zlen].
    constructor; [by exists b|]. by eapply points_to_mono.
  - destruct (held !! i) as [q|] eqn:Hi.
    + pose proof (take_drop_middle _ _ _ Hi) as Hsplit.
      rewrite <- Hsplit in Hrep, Hlen.
      destruct (unintern_spec m h (take i held) q (drop (S i) held)) as (m1 & h1 & r & -> & Hrep1 & _ & Hold);
        [done|pose proof (zlen_nonneg ops); lia|].
      cbn [mbind res_bind]. rewrite delete_take_drop. apply IH; auto.
      * apply (points_to_mono m); [done|]. rewrite delete_take_drop.
        apply Forall2_app; [by apply Forall2_take|by apply Forall2_drop].
      * zlen.
    + cbn [mbind res_bind].
      assert (delete i vs = vs) as ->.
      { apply lookup_ge_None in Hi. rewrite (Forall2_length _ _ _ HF) in Hi.
        rewrite delete_take_drop, take_ge, drop_ge by lia. apply app_nil_r. }
      apply IH; auto. lia.
Qed.

(** C20. Interning implements a list of values: for any sequence of
    [intern]/[unintern] calls by clients that give back what they hold, no
    assertion fails and no freed object is touched; the pointers handed out
    point to objects equal to the values interned; two of them are the same
    pointer exactly when their values compare equal; and the heap holds exactly
    the objects some client still holds. *)
Theorem intern_pool_refines (size : Z) (ops : list pool_op) :
  0 < size -> Forall pool_op_ok ops -> zlen ops < 2 ^ 64 ->
  exists m h held, pool_run (∅, hash_create_size size, []) ops = Ret (m, h, held) /\
    Forall2 (points_to m) held (spec_run [] ops) /\
    (forall i j p q v w, held !! i = Some p -> held !! j = Some q ->
       spec_run [] ops !! i = Some v -> spec_run [] ops !! j = Some w ->
       p = q <-> hash_cmp v w = true) /\
    (forall p, is_Some (m !! p) <-> p ∈ held).
Proof.
  intros Hsize Hops Hlen.
  destruct (pool_run_spec ops ∅ (hash_create_size size) [] [])
    as (m & h & held & E & Hrep & HF); [by apply pool_rep_empty|constructor|done|zlen|].
  exists m, h, held. split_and!; auto; [|apply (pool_live _ _ _ Hrep)].
  intros i j p q v w Hp Hq Hv Hw.
  destruct (Forall2_lookup_lr _ _ _ i p v HF Hp Hv) as (b & Hb & Ebv).
  destruct (Forall2_lookup_lr _ _ _ j q w HF Hq Hw) as (c & Hc & Ecw). split.
  - intros <-. rewrite Hb in Hc. injection Hc as <-.
    eapply hash_cmp_trans; [apply hash_cmp_sym; exact Ebv|done].
  - intros Hvw. apply (ok_distinct _ _ (pool_hash _ _ _ Hrep) p q b c); auto.
    1,2: apply (pool_held _ _ _ Hrep); by eapply list_elem_of_lookup_2.
    eapply hash_cmp_trans; [exact Ebv|]. eapply hash_cmp_trans; [exact Hvw|].
    by apply hash_cmp_sym.
Qed.
End intern.
