(* ===== verification/Float32.v ===== *)
(** * C's [float]

    The decision process of bgpd adds votes and trust values as [float]s.
    Arithmetic is IEEE 754 single precision, round to nearest even, taken from
    [SpecFloat] with a 24 bit mantissa and exponents up to 128 (an evaluation
    in single precision, as the SSE code generated for x86-64 does).  The
    lemmas show that integers below 2^24 are exact: they convert, add, multiply,
    divide exactly and compare as integers do. *)
From Stdlib Require Import ZArith Lia SpecFloat.
From stdpp Require Import base option.
From S2P Require Import Prelude.

Definition prec32 : Z := 24.
Definition emax32 : Z := 128.

(** [(float) n], [x + y], [x * y], [x / y], [x > y], [x <= y], [x < y]. *)
Definition i2f (n : Z) : spec_float := binary_normalize prec32 emax32 n 0 false.
Definition fadd : spec_float -> spec_float -> spec_float := SFadd prec32 emax32.
Definition fmul : spec_float -> spec_float -> spec_float := SFmul prec32 emax32.
Definition fdiv : spec_float -> spec_float -> spec_float := SFdiv prec32 emax32.
Definition fgt (x y : spec_float) : bool := SFltb y x.
Definition fle (x y : spec_float) : bool := SFleb x y.
Definition flt (x y : spec_float) : bool := SFltb x y.

#[global] Arguments i2f : simpl never.
#[global] Arguments fadd : simpl never.
#[global] Arguments fmul : simpl never.
#[global] Arguments fdiv : simpl never.

(** ** Exact integers *)

Definition bits (n : Z) : Z := Z.log2 n + 1.

(** The representation of a positive integer below 2^24. *)
Definition fin (n : Z) : spec_float :=
  S754_finite false (Z.to_pos (n * 2 ^ (24 - bits n))) (bits n - 24).

Lemma digits2_log2 p : Z.pos (digits2_pos p) = bits (Z.pos p).
Proof.
  unfold bits. induction p as [p IH|p IH|]; [| |done]; simpl digits2_pos;
    rewrite Pos2Z.inj_succ, IH.
  - rewrite (Pos2Z.inj_xI p), Z.log2_succ_double by lia. lia.
  - rewrite (Pos2Z.inj_xO p), Z.log2_double by lia. lia.
Qed.

Lemma bits_shift n k : 0 < n -> 0 <= k -> bits (n * 2 ^ k) = bits n + k.
Proof. intros. unfold bits. rewrite Z.log2_mul_pow2 by lia. lia. Qed.

Lemma bits_bounds n : 0 < n < 2 ^ 24 -> 1 <= bits n <= 24.
Proof.
  intros [H1 H2]. unfold bits. pose proof (Z.log2_nonneg n).
  assert (Z.log2 n < 24) by (apply Z.log2_lt_pow2; lia). lia.
Qed.

Lemma bits_pow n : 0 < n -> 2 ^ (bits n - 1) <= n < 2 ^ bits n.
Proof.
  intros H. unfold bits. pose proof (Z.log2_spec n H).
  replace (Z.log2 n + 1 - 1) with (Z.log2 n) by lia. split; [lia|].
  rewrite <- Z.add_1_r in *. lia.
Qed.

(** Shifting out zero bits is exact. *)
Lemma shr_1_double m : shr_1 (Build_shr_record (2 * m) false false)
                       = Build_shr_record m false false.
Proof. by destruct m. Qed.

Lemma iter_shr p : forall m,
  iter_pos shr_1 p (Build_shr_record (m * 2 ^ Z.pos p) false false)
  = Build_shr_record m false false.
Proof.
  induction p as [p IH|p IH|]; intros m; cbn [iter_pos].
  - replace (m * 2 ^ Z.pos p~1) with (2 * (m * 2 ^ Z.pos p * 2 ^ Z.pos p))
      by (rewrite (Pos2Z.inj_xI p), Z.pow_add_r, Z.pow_1_r, (Z.mul_comm 2 (Z.pos p)), Z.pow_mul_r,
            Z.pow_2_r by lia; ring).
    by rewrite shr_1_double, !IH.
  - replace (m * 2 ^ Z.pos p~0) with (m * 2 ^ Z.pos p * 2 ^ Z.pos p)
      by (rewrite (Pos2Z.inj_xO p), (Z.mul_comm 2 (Z.pos p)), Z.pow_mul_r, Z.pow_2_r by lia; ring).
    by rewrite !IH.
  - replace (m * 2 ^ 1) with (2 * m) by lia. apply shr_1_double.
Qed.

Lemma shr_exact m e n : 0 <= n ->
  shr (Build_shr_record (m * 2 ^ n) false false) e n
  = (Build_shr_record m false false, e + n).
Proof.
  intros Hn. destruct n as [|p|p]; [|simpl; by rewrite iter_shr|lia].
  simpl. by rewrite Z.mul_1_r, Z.add_0_r.
Qed.

Lemma fexp_small e : -125 <= e -> fexp prec32 emax32 e = e - 24.
Proof. unfold fexp, emin, prec32, emax32. lia. Qed.

Lemma Zdigits2_bits m : 0 < m -> Zdigits2 m = bits m.
Proof. destruct m as [|p|p]; [lia| |lia]. intros _. apply digits2_log2. Qed.

(** Rounding a mantissa with enough zero bits at its end is exact. *)
Lemma round_exact n k : 0 < n < 2 ^ 24 -> 24 - bits n <= k <= 100 ->
  binary_round_aux prec32 emax32 false (n * 2 ^ k) (- k) loc_Exact = fin n.
Proof.
  intros Hn Hk. pose proof (bits_bounds n Hn) as Hb.
  set (M := n * 2 ^ (24 - bits n)).
  assert (HM : 0 < M) by (unfold M; apply Z.mul_pos_pos; [lia|apply Z.pow_pos_nonneg; lia]).
  assert (Hm : n * 2 ^ k = M * 2 ^ (k - (24 - bits n))).
  { unfold M. rewrite <- Z.mul_assoc, <- Z.pow_add_r by lia. do 2 f_equal. lia. }
  assert (Hbm : bits M = 24) by (unfold M; rewrite bits_shift by lia; lia).
  unfold binary_round_aux, shr_fexp, shr_record_of_loc.
  rewrite Zdigits2_bits by (apply Z.mul_pos_pos; [lia|apply Z.pow_pos_nonneg; lia]).
  rewrite bits_shift, fexp_small by lia. rewrite Hm.
  replace (bits n + k + - k - 24 - - k) with (k - (24 - bits n)) by lia.
  rewrite shr_exact by lia. cbn [shr_m loc_of_shr_record round_nearest_even].
  rewrite Zdigits2_bits, Hbm, fexp_small by lia.
  replace (24 + (- k + (k - (24 - bits n))) - 24 - (- k + (k - (24 - bits n)))) with 0 by lia.
  cbn [shr shr_m]. unfold fin. fold M. destruct M as [|p|p] eqn:E; [lia| |lia].
  rewrite (proj2 (Z.leb_le _ _)) by (unfold emax32, prec32; lia).
  cbn [Z.to_pos]. f_equal. lia.
Qed.

Lemma iter_xO m d : Z.pos (Pos.iter xO m d) = Z.pos m * 2 ^ Z.pos d.
Proof.
  revert m. induction d as [|d IH] using Pos.peano_ind; intros m; [simpl; lia|].
  rewrite Pos.iter_succ, (Pos2Z.inj_xO (Pos.iter xO m d)), IH, Pos2Z.inj_succ, Z.pow_succ_r by lia. ring.
Qed.

Lemma shl_align_exact m e e' : e' <= e ->
  Z.pos (shl_align m e e').1 = Z.pos m * 2 ^ (e - e') /\ (shl_align m e e').2 = e'.
Proof.
  intros H. unfold shl_align. destruct (e' - e) as [|p|p] eqn:E; [| lia |]; simpl.
  - replace (e - e') with 0 by lia. lia.
  - replace (e - e') with (Z.pos p) by lia. by rewrite iter_xO.
Qed.

(** A scaled integer with any number of zero bits is rounded to itself. *)
Lemma binary_round_exact n k p : 0 < n < 2 ^ 24 -> 0 <= k <= 100 ->
  Z.pos p = n * 2 ^ k -> binary_round prec32 emax32 false p (- k) = fin n.
Proof.
  intros Hn Hk Hp. pose proof (bits_bounds n Hn) as Hb. unfold binary_round.
  rewrite digits2_log2, Hp, bits_shift by lia.
  rewrite fexp_small by lia. replace (bits n + k + - k - 24) with (bits n - 24) by lia.
  destruct (decide (bits n - 24 <= - k)) as [H|H].
  - destruct (shl_align_exact p (- k) (bits n - 24) H) as [H1 H2].
    destruct (shl_align p (- k) (bits n - 24)) as [mz ez]; simpl in *. subst ez.
    rewrite H1, Hp, <- Z.mul_assoc, <- Z.pow_add_r by lia.
    replace (k + (- k - (bits n - 24))) with (24 - bits n) by lia.
    replace (bits n - 24) with (- (24 - bits n)) by lia. apply round_exact; lia.
  - assert (shl_align p (- k) (bits n - 24) = (p, - k)) as ->.
    { unfold shl_align. destruct (bits n - 24 - - k) eqn:E; [lia|done|lia]. }
    rewrite Hp. apply round_exact; lia.
Qed.

Lemma i2f_0 : i2f 0 = S754_zero false.
Proof. done. Qed.

Lemma i2f_fin n : 0 < n < 2 ^ 24 -> i2f n = fin n.
Proof.
  intros Hn. unfold i2f, binary_normalize. destruct n as [|p|p]; [lia| |lia].
  apply (binary_round_exact (Z.pos p) 0 p); [lia|lia|]. lia.
Qed.

Definition mant (n : Z) : Z := n * 2 ^ (24 - bits n).

Lemma fin_eq n : fin n = S754_finite false (Z.to_pos (mant n)) (bits n - 24).
Proof. done. Qed.

Lemma fin_mant n : 0 < n < 2 ^ 24 -> Z.pos (Z.to_pos (mant n)) = mant n.
Proof.
  intros H. pose proof (bits_bounds n H). apply Z2Pos.id. unfold mant.
  apply Z.mul_pos_pos; [lia|apply Z.pow_pos_nonneg; lia].
Qed.

Lemma bits_mant n : 0 < n < 2 ^ 24 -> bits (mant n) = 24.
Proof. intros H. pose proof (bits_bounds n H). unfold mant. rewrite bits_shift by lia. lia. Qed.

Lemma bits_mul a b : 0 < a -> 0 < b -> bits a + bits b - 1 <= bits (a * b) <= bits a + bits b.
Proof.
  intros Ha Hb. unfold bits. pose proof (Z.log2_mul_below a b Ha Hb).
  pose proof (Z.log2_mul_above a b ltac:(lia) ltac:(lia)). lia.
Qed.

Lemma fmul_fin a b : 0 < a -> 0 < b -> a * b < 2 ^ 24 -> fmul (fin a) (fin b) = fin (a * b).
Proof.
  intros Ha Hb Hab. assert (a < 2 ^ 24) by nia. assert (b < 2 ^ 24) by nia.
  pose proof (bits_bounds a ltac:(lia)). pose proof (bits_bounds b ltac:(lia)).
  pose proof (bits_mul a b Ha Hb). pose proof (bits_bounds (a * b) ltac:(nia)).
  unfold fmul, SFmul. rewrite (fin_eq a), (fin_eq b).
  rewrite Pos2Z.inj_mul, !fin_mant by lia. unfold mant.
  replace (a * 2 ^ (24 - bits a) * (b * 2 ^ (24 - bits b)))
    with (a * b * 2 ^ (48 - bits a - bits b))
    by (replace (48 - bits a - bits b) with ((24 - bits a) + (24 - bits b)) by lia;
        rewrite Z.pow_add_r by lia; ring).
  replace (bits a - 24 + (bits b - 24)) with (- (48 - bits a - bits b)) by lia.
  cbn [xorb]. apply round_exact; lia.
Qed.

Lemma fadd_fin a b : 0 < a -> 0 < b -> a + b < 2 ^ 24 -> fadd (fin a) (fin b) = fin (a + b).
Proof.
  intros Ha Hb Hab.
  pose proof (bits_bounds a ltac:(lia)). pose proof (bits_bounds b ltac:(lia)).
  unfold fadd, SFadd. rewrite (fin_eq a), (fin_eq b).
  set (ez := Z.min _ _).
  destruct (shl_align_exact (Z.to_pos (mant a)) (bits a - 24) ez ltac:(lia)) as [Ea _].
  destruct (shl_align_exact (Z.to_pos (mant b)) (bits b - 24) ez ltac:(lia)) as [Eb _].
  unfold cond_Zopp. rewrite Ea, Eb, !fin_mant by lia. unfold mant.
  replace (a * 2 ^ (24 - bits a) * 2 ^ (bits a - 24 - ez)) with (a * 2 ^ (- ez))
    by (rewrite <- Z.mul_assoc, <- Z.pow_add_r by lia; do 2 f_equal; lia).
  replace (b * 2 ^ (24 - bits b) * 2 ^ (bits b - 24 - ez)) with (b * 2 ^ (- ez))
    by (rewrite <- Z.mul_assoc, <- Z.pow_add_r by lia; do 2 f_equal; lia).
  rewrite <- Z.mul_add_distr_r. unfold binary_normalize.
  pose proof (Z.pow_pos_nonneg 2 (- ez) ltac:(lia) ltac:(lia)).
  destruct ((a + b) * 2 ^ (- ez)) as [|p|p] eqn:E; [nia| |nia].
  replace ez with (- (- ez)) by lia. apply binary_round_exact; [lia|lia|]. lia.
Qed.

Lemma new_location_0 n : new_location n 0 = loc_Exact.
Proof. unfold new_location. by destruct (IntDef.Z.even n). Qed.

Lemma fdiv_fin a b : 0 < a -> 0 < b -> a * b < 2 ^ 24 -> fdiv (fin (a * b)) (fin b) = fin a.
Proof.
  intros Ha Hb Hab. assert (a < 2 ^ 24) by nia. assert (b < 2 ^ 24) by nia.
  pose proof (bits_bounds a ltac:(lia)). pose proof (bits_bounds b ltac:(lia)).
  pose proof (bits_mul a b Ha Hb). pose proof (bits_bounds (a * b) ltac:(nia)).
  assert (0 < a * b < 2 ^ 24) by nia.
  unfold fdiv, SFdiv. rewrite (fin_eq (a * b)), (fin_eq b).
  unfold SFdiv_core_binary. rewrite !fin_mant by lia.
  rewrite !Zdigits2_bits by (rewrite <- fin_mant by lia; lia). rewrite !bits_mant by lia.
  replace (24 + (bits (a * b) - 24) - (24 + (bits b - 24))) with (bits (a * b) - bits b) by lia.
  rewrite fexp_small by lia. rewrite Z.min_l by lia.
  replace (bits (a * b) - 24 - (bits b - 24) - (bits (a * b) - bits b - 24)) with 24 by lia.
  change (match 24 with Z0 => mant (a * b) | Z.pos _ => Z.shiftl (mant (a * b)) 24
          | Z.neg _ => 0 end) with (Z.shiftl (mant (a * b)) 24).
  rewrite Z.shiftl_mul_pow2 by lia.
  set (k := 24 + bits b - bits (a * b)).
  assert (Hq : mant (a * b) * 2 ^ 24 = a * 2 ^ k * mant b).
  { unfold mant. replace (a * 2 ^ k * (b * 2 ^ (24 - bits b)))
      with (a * b * (2 ^ k * 2 ^ (24 - bits b))) by ring.
    rewrite <- Z.mul_assoc, <- !Z.pow_add_r by lia. do 2 f_equal. lia. }
  assert (Hm : 0 < mant b) by (rewrite <- fin_mant by lia; lia).
  pose proof (Z.div_mul (a * 2 ^ k) (mant b) ltac:(lia)) as Hd.
  pose proof (Z.mod_mul (a * 2 ^ k) (mant b) ltac:(lia)) as Hr.
  unfold Z.div in Hd. unfold Z.modulo in Hr. rewrite Hq.
  change IntDef.Z.div_eucl with Z.div_eucl.
  destruct (Z.div_eucl (a * 2 ^ k * mant b) (mant b)) as [q r]. simpl in Hd, Hr. subst q r.
  rewrite new_location_0.
  replace (bits (a * b) - bits b - 24) with (- k) by lia. cbn [xorb]. apply round_exact; lia.
Qed.

(** ** Comparing *)
Lemma fin_compare a b : 0 < a < 2 ^ 24 -> 0 < b < 2 ^ 24 ->
  SFcompare (fin a) (fin b) = Some (a ?= b).
Proof.
  intros Ha Hb. pose proof (bits_pow a ltac:(lia)). pose proof (bits_pow b ltac:(lia)).
  pose proof (bits_bounds a Ha). pose proof (bits_bounds b Hb).
  rewrite (fin_eq a), (fin_eq b). cbn [SFcompare]. f_equal.
  change IntDef.Z.compare with Z.compare.
  destruct (Z.compare_spec (bits a - 24) (bits b - 24)) as [E|E|E].
  - change (Pos.compare_cont Eq ?x ?y) with (Z.pos x ?= Z.pos y).
    rewrite !fin_mant by lia. unfold mant. replace (bits b) with (bits a) by lia.
    pose proof (Z.pow_pos_nonneg 2 (24 - bits a) ltac:(lia) ltac:(lia)).
    destruct (Z.compare_spec a b) as [->|?|?];
      [apply Z.compare_refl|apply Z.compare_lt_iff; nia|apply Z.compare_gt_iff; nia].
  - symmetry. apply Z.compare_lt_iff.
    pose proof (Z.pow_le_mono_r 2 (bits a) (bits b - 1)). lia.
  - symmetry. apply Z.compare_gt_iff.
    pose proof (Z.pow_le_mono_r 2 (bits b) (bits a - 1)). lia.
Qed.

(** Integers below 2^24 are exact: arithmetic. *)
Lemma i2f_add a b : 0 <= a -> 0 <= b -> a + b < 2 ^ 24 -> fadd (i2f a) (i2f b) = i2f (a + b).
Proof.
  intros Ha Hb H. destruct (decide (a = 0)) as [->|Ha'], (decide (b = 0)) as [->|Hb']; [done| | |].
  - rewrite (i2f_fin (0 + b)), (i2f_fin b), i2f_0 by lia. by rewrite Z.add_0_l.
  - rewrite (i2f_fin (a + 0)), (i2f_fin a), i2f_0 by lia. by rewrite Z.add_0_r.
  - rewrite !i2f_fin by lia. apply fadd_fin; lia.
Qed.

Lemma i2f_mul_1 a : 0 <= a < 2 ^ 24 -> fmul (i2f a) (i2f 1) = i2f a.
Proof.
  intros H. destruct (decide (a = 0)) as [->|Ha]; [done|].
  rewrite !i2f_fin by lia. rewrite fmul_fin by lia. by rewrite Z.mul_1_r.
Qed.

Lemma i2f_div_self a : 0 < a < 2 ^ 24 -> fdiv (i2f a) (i2f a) = i2f 1.
Proof.
  intros H. rewrite !i2f_fin by lia. rewrite <- (Z.mul_1_l a) at 1. apply fdiv_fin; lia.
Qed.

(** Integers below 2^24 are exact: comparisons. *)
Lemma i2f_compare a b : 0 <= a < 2 ^ 24 -> 0 <= b < 2 ^ 24 ->
  SFcompare (i2f a) (i2f b) = Some (a ?= b).
Proof.
  intros Ha Hb. destruct (decide (a = 0)) as [->|Ha'], (decide (b = 0)) as [->|Hb']; [done| | |].
  - rewrite i2f_0, i2f_fin by lia. cbn [SFcompare fin]. f_equal. symmetry. apply Z.compare_lt_iff. lia.
  - rewrite i2f_0, i2f_fin by lia. cbn [SFcompare fin]. f_equal. symmetry. apply Z.compare_gt_iff. lia.
  - rewrite !i2f_fin by lia. apply fin_compare; lia.
Qed.

Lemma fgt_i2f a b : 0 <= a < 2 ^ 24 -> 0 <= b < 2 ^ 24 -> fgt (i2f a) (i2f b) = (b <? a).
Proof.
  intros. unfold fgt, SFltb. rewrite i2f_compare by done. unfold Z.ltb. by destruct (b ?= a).
Qed.

Lemma flt_i2f a b : 0 <= a < 2 ^ 24 -> 0 <= b < 2 ^ 24 -> flt (i2f a) (i2f b) = (a <? b).
Proof.
  intros. unfold flt, SFltb. rewrite i2f_compare by done. unfold Z.ltb. by destruct (a ?= b).
Qed.

Lemma fle_i2f a b : 0 <= a < 2 ^ 24 -> 0 <= b < 2 ^ 24 -> fle (i2f a) (i2f b) = (a <=? b).
Proof.
  intros. unfold fle, SFleb. rewrite i2f_compare by done. unfold Z.leb. by destruct (a ?= b).
Qed.

(** ** Not a number *)
Lemma fadd_nan_l x : fadd S754_nan x = S754_nan.
Proof. by destruct x. Qed.
Lemma fadd_nan_r x : fadd x S754_nan = S754_nan.
Proof. by destruct x. Qed.
Lemma fmul_nan_r x : fmul x S754_nan = S754_nan.
Proof. by destruct x. Qed.
Lemma fdiv_0_0 : fdiv (i2f 0) (i2f 0) = S754_nan.
Proof. done. Qed.

(** A comparison with NaN is false. *)
Lemma cmp_nan_l x : fgt S754_nan x = false /\ fle S754_nan x = false.
Proof. unfold fgt, fle, SFltb, SFleb. by destruct x. Qed.
Lemma cmp_nan_r x : fgt x S754_nan = false /\ fle x S754_nan = false.
Proof. unfold fgt, fle, SFltb, SFleb. by destruct x. Qed.

