(* ===== verification/Jhash.v ===== *)
(** * lib/jhash.c: Bob Jenkins' hash

    The byte-wise [jhash], the word-wise [jhash2] and the fixed-size
    variants, on 32-bit wrapping arithmetic. *)
From stdpp Require Import base option list.
From Stdlib Require Import ZArith Lia.
From S2P Require Import Prelude.

Definition JHASH_GOLDEN_RATIO : Z := 2654435769.

Definition sub32 (a b : Z) : Z := u32 (a - b).
Definition add32 (a b : Z) : Z := u32 (a + b).
Definition shl32 (a n : Z) : Z := u32 (Z.shiftl a n).

(** The nine steps of [__jhash_mix]. *)
Definition jhash_mix (abc : Z * Z * Z) : Z * Z * Z :=
  let '(a, b, c) := abc in
  let a := Z.lxor (sub32 (sub32 a b) c) (Z.shiftr c 13) in
  let b := Z.lxor (sub32 (sub32 b c) a) (shl32 a 8) in
  let c := Z.lxor (sub32 (sub32 c a) b) (Z.shiftr b 13) in
  let a := Z.lxor (sub32 (sub32 a b) c) (Z.shiftr c 12) in
  let b := Z.lxor (sub32 (sub32 b c) a) (shl32 a 16) in
  let c := Z.lxor (sub32 (sub32 c a) b) (Z.shiftr b 5) in
  let a := Z.lxor (sub32 (sub32 a b) c) (Z.shiftr c 3) in
  let b := Z.lxor (sub32 (sub32 b c) a) (shl32 a 10) in
  let c := Z.lxor (sub32 (sub32 c a) b) (Z.shiftr b 15) in
  (a, b, c).

(** [k[0] + (k[1] << 8) + (k[2] << 16) + (k[3] << 24)]. *)
Definition word_at (k0 k1 k2 k3 : Z) : Z :=
  add32 (add32 (add32 k0 (shl32 k1 8)) (shl32 k2 16)) (shl32 k3 24).

(** [k[i]] in the [switch]; the cases above [len] do not read. *)
Definition tail_byte (k : list Z) (i : nat) : Z := default 0 (k !! i).

(** The falling-through [switch (len)], [len = length k < 12]. *)
Definition jhash_tail (k : list Z) (abc : Z * Z * Z) : Z * Z * Z :=
  let '(a, b, c) := abc in
  let len := zlen k in
  let c := if 11 <=? len then add32 c (shl32 (tail_byte k 10) 24) else c in
  let c := if 10 <=? len then add32 c (shl32 (tail_byte k 9) 16) else c in
  let c := if 9 <=? len then add32 c (shl32 (tail_byte k 8) 8) else c in
  let b := if 8 <=? len then add32 b (shl32 (tail_byte k 7) 24) else b in
  let b := if 7 <=? len then add32 b (shl32 (tail_byte k 6) 16) else b in
  let b := if 6 <=? len then add32 b (shl32 (tail_byte k 5) 8) else b in
  let b := if 5 <=? len then add32 b (tail_byte k 4) else b in
  let a := if 4 <=? len then add32 a (shl32 (tail_byte k 3) 24) else a in
  let a := if 3 <=? len then add32 a (shl32 (tail_byte k 2) 16) else a in
  let a := if 2 <=? len then add32 a (shl32 (tail_byte k 1) 8) else a in
  let a := if 1 <=? len then add32 a (tail_byte k 0) else a in
  (a, b, c).

(** The loops, with the mixing step as a variable: what relates them does not
    depend on it. *)
Section loops.
Variable mix : Z * Z * Z -> Z * Z * Z.

(** The loop over blocks of twelve octets, then the tail. *)
Fixpoint jhash_loop (k : list Z) (length : Z) (abc : Z * Z * Z) : Z * Z * Z :=
  match k with
  | k0 :: k1 :: k2 :: k3 :: k4 :: k5 :: k6 :: k7 :: k8 :: k9 :: k10 :: k11 :: r =>
      let '(a, b, c) := abc in
      jhash_loop r length (mix (add32 a (word_at k0 k1 k2 k3),
                                      add32 b (word_at k4 k5 k6 k7),
                                      add32 c (word_at k8 k9 k10 k11)))
  | _ =>
      let '(a, b, c) := abc in
      mix (jhash_tail k (a, b, add32 c length))
  end.

Fixpoint jhash2_loop (k : list Z) (length : Z) (abc : Z * Z * Z) : Z * Z * Z :=
  match k with
  | k0 :: k1 :: k2 :: r =>
      let '(a, b, c) := abc in
      jhash2_loop r length (mix (add32 a k0, add32 b k1, add32 c k2))
  | _ =>
      let '(a, b, c) := abc in
      let c := add32 c (u32 (length * 4)) in
      mix match k with
                | [k0; k1] => (add32 a k0, add32 b k1, c)
                | [k0] => (add32 a k0, b, c)
                | _ => (a, b, c)
                end
  end.

End loops.

Definition jhash (key : list Z) (initval : Z) : Z :=
  (jhash_loop jhash_mix key (u32 (zlen key)) (JHASH_GOLDEN_RATIO, JHASH_GOLDEN_RATIO, initval)).2.

Definition jhash2 (k : list Z) (initval : Z) : Z :=
  (jhash2_loop jhash_mix k (u32 (zlen k)) (JHASH_GOLDEN_RATIO, JHASH_GOLDEN_RATIO, initval)).2.

Definition jhash_3words (a b c initval : Z) : Z :=
  (jhash_mix (add32 a JHASH_GOLDEN_RATIO, add32 b JHASH_GOLDEN_RATIO, add32 c initval)).2.
Definition jhash_2words (a b initval : Z) : Z := jhash_3words a b 0 initval.
Definition jhash_1word (a initval : Z) : Z := jhash_3words a 0 0 initval.

(** ** Words as little-endian octets *)
Definition le_word (w : Z) : list Z :=
  [u8 w; u8 (Z.shiftr w 8); u8 (Z.shiftr w 16); u8 (Z.shiftr w 24)].
Definition le_words (k : list Z) : list Z := concat (map le_word k).

Lemma le_word_sum w :
  is_u32 w ->
  u8 w + 2 ^ 8 * u8 (Z.shiftr w 8) + 2 ^ 16 * u8 (Z.shiftr w 16) + 2 ^ 24 * u8 (Z.shiftr w 24) = w.
Proof.
  unfold is_u32, u8. intros Hw. rewrite !Z.shiftr_div_pow2 by lia.
  change (2 ^ 16) with (2 ^ 8 * 2 ^ 8). change (2 ^ 24) with (2 ^ 8 * 2 ^ 8 * 2 ^ 8).
  rewrite <- !Z.div_div by lia.
  pose proof (Z.div_mod w (2 ^ 8)). pose proof (Z.div_mod (w / 2 ^ 8) (2 ^ 8)).
  pose proof (Z.div_mod (w / 2 ^ 8 / 2 ^ 8) (2 ^ 8)).
  assert (w / 2 ^ 8 / 2 ^ 8 / 2 ^ 8 < 2 ^ 8) by (rewrite !Z.div_div by lia; apply Z.div_lt_upper_bound; lia).
  assert (0 <= w / 2 ^ 8 / 2 ^ 8 / 2 ^ 8) by (rewrite !Z.div_div by lia; apply Z.div_pos; lia).
  rewrite (Z.mod_small (w / 2 ^ 8 / 2 ^ 8 / 2 ^ 8)) by lia. lia.
Qed.

(** Adding a word, whole or octet by octet from the top. *)
Lemma add_word_at a w :
  is_u32 w ->
  add32 a (word_at (u8 w) (u8 (Z.shiftr w 8)) (u8 (Z.shiftr w 16)) (u8 (Z.shiftr w 24)))
  = add32 a w.
Proof.
  intros Hw. f_equal. pose proof (le_word_sum w Hw) as Hsum.
  pose proof (u8_range w). pose proof (u8_range (Z.shiftr w 8)).
  pose proof (u8_range (Z.shiftr w 16)). pose proof (u8_range (Z.shiftr w 24)).
  unfold is_u8, is_u32 in *. unfold word_at, add32, shl32. rewrite !Z.shiftl_mul_pow2 by lia.
  set (b0 := u8 w) in *. set (b1 := u8 (Z.shiftr w 8)) in *.
  set (b2 := u8 (Z.shiftr w 16)) in *. set (b3 := u8 (Z.shiftr w 24)) in *.
  rewrite (u32_id (b1 * 2 ^ 8)), (u32_id (b2 * 2 ^ 16)), (u32_id (b3 * 2 ^ 24)),
    (u32_id (b0 + b1 * 2 ^ 8)), (u32_id (b0 + b1 * 2 ^ 8 + b2 * 2 ^ 16)), u32_id
    by (unfold is_u32; lia).
  lia.
Qed.

Lemma add_word_octets a w :
  is_u32 w ->
  add32 (add32 (add32 (add32 a (shl32 (u8 (Z.shiftr w 24)) 24)) (shl32 (u8 (Z.shiftr w 16)) 16))
           (shl32 (u8 (Z.shiftr w 8)) 8)) (u8 w) = add32 a w.
Proof.
  intros Hw. pose proof (le_word_sum w Hw) as Hsum.
  pose proof (u8_range (Z.shiftr w 8)). pose proof (u8_range (Z.shiftr w 16)).
  pose proof (u8_range (Z.shiftr w 24)). unfold is_u8 in *.
  unfold shl32. rewrite !Z.shiftl_mul_pow2 by lia. rewrite !(u32_id (_ * _)) by (unfold is_u32; lia).
  unfold add32, u32. rewrite !Zplus_mod_idemp_l, <- Z.add_assoc, Zplus_mod_idemp_l.
  f_equal. lia.
Qed.

Lemma tail_one_word w a b c : is_u32 w -> jhash_tail (le_word w) (a, b, c) = (add32 a w, b, c).
Proof. intros Hw. by rewrite <- (add_word_octets a w Hw). Qed.

Lemma tail_two_words w v a b c :
  is_u32 w -> is_u32 v ->
  jhash_tail (le_word w ++ le_word v) (a, b, c) = (add32 a w, add32 b v, c).
Proof.
  intros Hw Hv. by rewrite <- (add_word_octets a w Hw), <- (add_word_octets b v Hv).
Qed.

(** Equations of the two loops. *)
Section equations.
Variable mix : Z * Z * Z -> Z * Z * Z.

Lemma jhash2_loop_block k0 k1 k2 r n a b c :
  jhash2_loop mix (k0 :: k1 :: k2 :: r) n (a, b, c)
  = jhash2_loop mix r n (mix (add32 a k0, add32 b k1, add32 c k2)).
Proof. reflexivity. Qed.

Lemma jhash_loop_block k0 k1 k2 r n a b c :
  jhash_loop mix (le_word k0 ++ le_word k1 ++ le_word k2 ++ r) n (a, b, c)
  = jhash_loop mix r n
      (mix (add32 a (word_at (u8 k0) (u8 (Z.shiftr k0 8)) (u8 (Z.shiftr k0 16)) (u8 (Z.shiftr k0 24))),
                  add32 b (word_at (u8 k1) (u8 (Z.shiftr k1 8)) (u8 (Z.shiftr k1 16)) (u8 (Z.shiftr k1 24))),
                  add32 c (word_at (u8 k2) (u8 (Z.shiftr k2 8)) (u8 (Z.shiftr k2 16)) (u8 (Z.shiftr k2 24))))).
Proof. reflexivity. Qed.

Lemma jhash_loop_one w n a b c :
  jhash_loop mix (le_word w) n (a, b, c) = mix (jhash_tail (le_word w) (a, b, add32 c n)).
Proof. reflexivity. Qed.

Lemma jhash_loop_two w v n a b c :
  jhash_loop mix (le_word w ++ le_word v) n (a, b, c)
  = mix (jhash_tail (le_word w ++ le_word v) (a, b, add32 c n)).
Proof. reflexivity. Qed.

Lemma jhash2_loop_one w n a b c :
  jhash2_loop mix [w] n (a, b, c) = mix (add32 a w, b, add32 c (u32 (n * 4))).
Proof. reflexivity. Qed.

Lemma jhash2_loop_two w v n a b c :
  jhash2_loop mix [w; v] n (a, b, c) = mix (add32 a w, add32 b v, add32 c (u32 (n * 4))).
Proof. reflexivity. Qed.

Lemma loops_agree k n abc :
  Forall is_u32 k ->
  jhash2_loop mix k n abc = jhash_loop mix (le_words k) (u32 (n * 4)) abc.
Proof.
  revert abc. induction k as [k IH] using (induction_ltof1 _ (@length Z)). unfold ltof in IH.
  intros [[a b] c] Hk. destruct k as [|w0 [|w1 [|w2 k]]].
  - done.
  - apply Forall_cons in Hk as [H0 _].
    change (le_words [w0]) with (le_word w0).
    rewrite jhash2_loop_one, jhash_loop_one, tail_one_word by done. reflexivity.
  - apply Forall_cons in Hk as [H0 Hk]. apply Forall_cons in Hk as [H1 _].
    change (le_words [w0; w1]) with (le_word w0 ++ le_word w1).
    rewrite jhash2_loop_two, jhash_loop_two, tail_two_words by done. reflexivity.
  - apply Forall_cons in Hk as [H0 Hk]. apply Forall_cons in Hk as [H1 Hk].
    apply Forall_cons in Hk as [H2 Hk].
    change (le_words (w0 :: w1 :: w2 :: k))
      with (le_word w0 ++ le_word w1 ++ le_word w2 ++ le_words k).
    rewrite jhash2_loop_block, jhash_loop_block, !add_word_at by done.
    apply IH; [simpl; lia|done].
Qed.
End equations.

(** C21. [jhash2], the version "that handles 1 or more of u_int32_ts", computes
    the same hash as the generic [jhash] of the same words laid out in
    little-endian octets. *)
Theorem jhash2_is_jhash k initval :
  Forall is_u32 k -> jhash2 k initval = jhash (le_words k) initval.
Proof.
  intros Hk. unfold jhash2, jhash.
  assert (Hz : forall l, zlen (le_words l) = 4 * zlen l).
  { induction l as [|w l IH]; [done|].
    change (le_words (w :: l)) with (le_word w ++ le_words l).
    rewrite zlen_app, IH, zlen_cons. change (zlen (le_word w)) with 4. lia. }
  rewrite Hz. pose proof (zlen_nonneg k).
  assert (Hl : u32 (4 * zlen k) = u32 (u32 (zlen k) * 4))
    by (unfold u32; rewrite Zmult_mod_idemp_l; f_equal; lia).
  rewrite Hl. f_equal. by apply loops_agree.
Qed.

Lemma jhash2_is_jhash_witness :
  jhash2 [1; 4294967295; 77; 12] 2334325 = jhash (le_words [1; 4294967295; 77; 12]) 2334325.
Proof. apply (jhash2_is_jhash [1; 4294967295; 77; 12] 2334325); by_eval. Defined.
