(* ===== verification/Text.v ===== *)
(** * Character strings and decimal numbers

    A C string is the list of its character codes without the final zero.
    The pieces of [ctype.h] and [printf] that the AS path and community code
    use: [isspace], [isdigit], [isalpha], ["%u"], and the digit loop both
    tokenizers are built on. *)
From stdpp Require Import base option list.
From Stdlib Require Import ZArith Lia.
From Stdlib Require Ascii.
From Stdlib Require Export (notations) String.
From S2P Require Import Prelude.

Abbreviation text := (list Z).

(** A literal as its character codes. *)
Fixpoint codes (s : String.string) : text :=
  match s with
  | String.EmptyString => []
  | String.String c s => Z.of_N (Ascii.N_of_ascii c) :: codes s
  end.

Definition ch_space : Z := 32.
Definition ch_comma : Z := 44.
Definition ch_0 : Z := 48.
Definition ch_colon : Z := 58.

Definition isspace (c : Z) : bool := ((9 <=? c) && (c <=? 13)) || (c =? 32).
Definition isdigit (c : Z) : bool := (48 <=? c) && (c <=? 57).
Definition isalpha (c : Z) : bool :=
  ((65 <=? c) && (c <=? 90)) || ((97 <=? c) && (c <=? 122)).

(** Decimal digits of [n], most significant first; [fuel] bounds their number. *)
Fixpoint decimal (fuel : nat) (n : Z) : text :=
  match fuel with
  | O => []
  | S f => (if n <? 10 then [] else decimal f (n / 10)) ++ [ch_0 + n mod 10]
  end.

(** ["%u"]; ten digits are enough for 32 bits ([print_u_length]). *)
Definition print_u (n : Z) : text := decimal 10 n.

(** One digit of [v = v * 10 + (digit - '0')] on a [u_int32_t]. *)
Definition digit_step (v c : Z) : Z := u32 (u32 (v * 10) + (c - ch_0)).

(** The loop that runs while [isdigit] holds of the next character. *)
Fixpoint read_digits (v : Z) (p : text) : Z * text :=
  match p with
  | c :: r => if isdigit c then read_digits (digit_step v c) r else (v, p)
  | [] => (v, p)
  end.

(** [strncmp (p, w, strlen (w)) == 0]. *)
Fixpoint has_prefix (w p : text) : bool :=
  match w, p with
  | [], _ => true
  | a :: w, b :: p => (a =? b) && has_prefix w p
  | _, _ => false
  end.

(** ** Lemmas *)
Lemma digit_step_u32 v d :
  0 <= d <= 9 -> digit_step v (ch_0 + d) = u32 (v * 10 + d).
Proof.
  intros. unfold digit_step, ch_0, u32.
  replace (48 + d - 48) with d by lia. by rewrite Zplus_mod_idemp_l.
Qed.

Lemma digit_step_mod v c : digit_step (u32 v) c = digit_step v c.
Proof. unfold digit_step, u32. by rewrite Zmult_mod_idemp_l. Qed.

Lemma decimal_step f n :
  decimal (S f) n = (if n <? 10 then [] else decimal f (n / 10)) ++ [ch_0 + n mod 10].
Proof. done. Qed.

Lemma decimal_isdigit f n : 0 <= n -> Forall (fun c => isdigit c = true) (decimal f n).
Proof.
  revert n. induction f as [|f IH]; intros n Hn; [constructor|].
  rewrite decimal_step. apply Forall_app. split.
  - case_test; [constructor|]. apply IH. apply Z.div_pos; lia.
  - constructor; [|constructor]. unfold isdigit, ch_0.
    pose proof (Z.mod_pos_bound n 10). apply andb_true_intro.
    split; apply Z.leb_le; lia.
Qed.

Lemma decimal_nonempty f n : (0 < f)%nat -> decimal f n <> [].
Proof. destruct f; [lia|]. rewrite decimal_step. intros _ H. by apply app_nil in H as [? ?]. Qed.

Lemma decimal_length_le f n : (length (decimal f n) <= f)%nat.
Proof.
  revert n. induction f as [|f IH]; intros n; [done|].
  rewrite decimal_step, length_app. simpl.
  case_test; simpl; [lia|]. specialize (IH (n / 10)). lia.
Qed.

(** A number below [10^k] takes at most [k] digits. *)
Lemma decimal_length_bound f n (k : nat) :
  (1 <= k)%nat -> 0 <= n < 10 ^ Z.of_nat k -> (length (decimal f n) <= k)%nat.
Proof.
  revert n k. induction f as [|f IH]; intros n k Hk Hn; [simpl; lia|].
  rewrite decimal_step, length_app. simpl.
  case_test; simpl; [lia|].
  destruct k as [|[|k]]; [lia|simpl in Hn; lia|].
  specialize (IH (n / 10) (S k)).
  assert (0 <= n / 10 < 10 ^ Z.of_nat (S k)); [|lia].
  split; [apply Z.div_pos; lia|]. apply Z.div_lt_upper_bound; [lia|].
  replace (Z.of_nat (S (S k))) with (1 + Z.of_nat (S k)) in Hn by lia.
  rewrite Z.pow_add_r in Hn by lia. lia.
Qed.

Lemma decimal_foldl f n :
  0 <= n < 10 ^ Z.of_nat f -> foldl digit_step 0 (decimal f n) = u32 n.
Proof.
  revert n. induction f as [|f IH]; intros n Hn.
  - simpl in *. by replace n with 0 by lia.
  - rewrite decimal_step, foldl_app. simpl foldl at 1.
    pose proof (Z.mod_pos_bound n 10).
    rewrite digit_step_u32 by lia. unfold u32.
    case_test.
    + simpl. by rewrite (Z.mod_small n 10) by lia.
    + rewrite IH.
      * unfold u32. rewrite <- Zplus_mod_idemp_l, Zmult_mod_idemp_l, Zplus_mod_idemp_l.
        f_equal. pose proof (Z.div_mod n 10). lia.
      * split; [apply Z.div_pos; lia|]. apply Z.div_lt_upper_bound; [lia|].
        replace (Z.of_nat (S f)) with (1 + Z.of_nat f) in Hn by lia.
        rewrite Z.pow_add_r in Hn by lia. lia.
Qed.

Definition starts_with_digit (p : text) : bool :=
  match p with c :: _ => isdigit c | [] => false end.

Lemma read_digits_run v ds p :
  Forall (fun c => isdigit c = true) ds -> starts_with_digit p = false ->
  read_digits v (ds ++ p) = (foldl digit_step v ds, p).
Proof.
  intros Hds Hp. revert v. induction Hds as [|d ds Hd Hds IH]; intros v; simpl.
  - destruct p as [|c p]; simpl in *; [done|]. by rewrite Hp.
  - by rewrite Hd, IH.
Qed.

Lemma print_u_isdigit n : 0 <= n -> Forall (fun c => isdigit c = true) (print_u n).
Proof. apply decimal_isdigit. Qed.

Lemma print_u_nonempty n : print_u n <> [].
Proof. apply decimal_nonempty. lia. Qed.

Lemma print_u_length n : zlen (print_u n) <= 10.
Proof. pose proof (decimal_length_le 10 n). unfold zlen, print_u. lia. Qed.

(** A 16-bit number takes at most five digits. *)
Lemma print_u_length16 n : is_u16 n -> zlen (print_u n) <= 5.
Proof.
  intros H. unfold is_u16 in H. unfold zlen, print_u.
  pose proof (decimal_length_bound 10 n 5). simpl in *. lia.
Qed.

(** Reading back a printed number, whatever follows it, gives the number. *)
Lemma read_print_u n p :
  is_u32 n -> starts_with_digit p = false -> read_digits 0 (print_u n ++ p) = (n, p).
Proof.
  intros Hn Hp. rewrite read_digits_run; [|apply print_u_isdigit; unfold is_u32 in Hn; lia|done].
  unfold print_u. rewrite decimal_foldl by (unfold is_u32 in Hn; simpl; lia).
  by rewrite u32_id.
Qed.

(** The first digit of a printed number. *)
Lemma print_u_cons n : 0 <= n -> exists c r, print_u n = c :: r /\ isdigit c = true.
Proof.
  intros Hn. pose proof (print_u_isdigit n Hn) as H.
  destruct (print_u n) as [|c r] eqn:E; [by apply print_u_nonempty in E|].
  inversion H; eauto.
Qed.

Lemma has_prefix_app w p : has_prefix w (w ++ p) = true.
Proof. induction w; simpl; [done|]. by rewrite Z.eqb_refl. Qed.
