(* ===== verification/Aspath.v ===== *)
(** * bgpd/bgp_aspath.c: AS path segments and the operations on them

    A segment chain is a list of segments; a path is its chain with the cached
    string.  [seg_as] is the array behind [seg->as]; [seg->length] is a
    [u_short], so it is the number of AS numbers modulo 2^16 and the code only
    ever looks at that many of them ([asns]). *)
From stdpp Require Import base option list sorting gmap.
From Stdlib Require Import ZArith Lia.
From S2P Require Import Prelude.

(** ** Data *)
Definition AS_SET : Z := 1.
Definition AS_SEQUENCE : Z := 2.
Definition AS_CONFED_SEQUENCE : Z := 3.
Definition AS_CONFED_SET : Z := 4.

Definition BGP_PRIVATE_AS_MIN : Z := 64512.
Definition BGP_PRIVATE_AS_MAX : Z := 65535.
Definition BGP_AS_MAX : Z := 65535.
Definition BGP_AS_TRANS : Z := 23456.
Definition AS_SEGMENT_MAX : Z := 255.

Record assegment := Seg { seg_type : Z; seg_as : list Z }.

#[export] Instance assegment_eq_dec : EqDecision assegment.
Proof. solve_decision. Defined.

Definition seg_length (seg : assegment) : Z := u16 (zlen (seg_as seg)).
Definition asns (seg : assegment) : list Z :=
  take (Z.to_nat (seg_length seg)) (seg_as seg).

Abbreviation segments := (list assegment).

(** ** Segment primitives *)
Definition assegment_new (type length : Z) : assegment :=
  Seg type (replicate (Z.to_nat (u16 length)) 0).

Definition assegment_dup (seg : assegment) : assegment := Seg (seg_type seg) (asns seg).

Fixpoint assegment_dup_all (seg : segments) : segments :=
  match seg with
  | [] => []
  | s :: r => assegment_dup s :: assegment_dup_all r
  end.

Definition assegment_prepend_asns (seg : assegment) (asnum num : Z) : assegment :=
  if num =? 0 then seg
  else if AS_SEGMENT_MAX <=? num then seg
  else Seg (seg_type seg) (replicate (Z.to_nat num) asnum ++ asns seg).

Definition assegment_append_asns (seg : assegment) (asnos : list Z) : assegment :=
  Seg (seg_type seg) (asns seg ++ asnos).

(** [ASSEGMENT_TYPES_PACKABLE] and [ASSEGMENTS_PACKABLE]. *)
Definition types_packable (x y : assegment) : bool :=
  (seg_type x =? seg_type y) && (seg_type x =? AS_SEQUENCE).
Definition segments_packable (x y : assegment) : bool :=
  types_packable x y && (seg_length x + seg_length y <=? AS_SEGMENT_MAX).

(** ** Normalisation *)

(** The "weed out dupes" loop on the sorted array; [t] is [seg->as[tail]]. *)
Fixpoint weed (t : Z) (l : list Z) : list Z :=
  match l with
  | [] => [t]
  | x :: l => if t =? x then weed t l else t :: weed x l
  end.

Definition sort_uniq (l : list Z) : list Z :=
  match merge_sort Z.le l with
  | [] => []
  | x :: l => weed x l
  end.

Definition is_set (seg : assegment) : bool :=
  (seg_type seg =? AS_SET) || (seg_type seg =? AS_CONFED_SET).

Definition sort_if_set (seg : assegment) : assegment :=
  if is_set seg then Seg (seg_type seg) (sort_uniq (asns seg)) else seg.

(** Round of the outer loop with [pin] pinned and [rest = pin->next]. *)
Fixpoint normalise_from (pin : assegment) (rest : segments) : segments :=
  match rest with
  | [] => [pin]
  | seg :: rest =>
      if types_packable pin seg
      then normalise_from (assegment_append_asns pin (asns seg)) rest
      else pin :: normalise_from (sort_if_set seg) rest
  end.

Definition assegment_normalise (head : segments) : segments :=
  match head with
  | [] => []
  | seg :: rest => normalise_from (sort_if_set seg) rest
  end.

(** ** Counting *)
Fixpoint assegment_count_asns (seg : segments) (from : Z) : Z :=
  match seg with
  | [] => 0
  | s :: r => (if from =? 0 then seg_length s else seg_length s - from)
              + assegment_count_asns r 0
  end.

Fixpoint aspath_count_confeds (seg : segments) : Z :=
  match seg with
  | [] => 0
  | s :: r => (if seg_type s =? AS_CONFED_SEQUENCE then seg_length s
               else if seg_type s =? AS_CONFED_SET then 1 else 0)
              + aspath_count_confeds r
  end.

Fixpoint aspath_count_hops (seg : segments) : Z :=
  match seg with
  | [] => 0
  | s :: r => (if seg_type s =? AS_SEQUENCE then seg_length s
               else if seg_type s =? AS_SET then 1 else 0)
              + aspath_count_hops r
  end.

(** [ASSEGMENT_SIZE (N, S)]. *)
Definition ASSEGMENT_SIZE (n : Z) (use32 : bool) : Z :=
  2 + n * (if use32 then 4 else 2).

Fixpoint aspath_size (seg : segments) : Z :=
  match seg with
  | [] => 0
  | s :: r => ASSEGMENT_SIZE (seg_length s) true + aspath_size r
  end.

Definition highest_step (highest a : Z) : Z :=
  if (highest <? a) && ((a <? BGP_PRIVATE_AS_MIN) || (BGP_PRIVATE_AS_MAX <? a))
  then a else highest.

Fixpoint aspath_highest_from (highest : Z) (seg : segments) : Z :=
  match seg with
  | [] => highest
  | s :: r => aspath_highest_from (foldl highest_step highest (asns s)) r
  end.
Definition aspath_highest (seg : segments) : Z := aspath_highest_from 0 seg.

Fixpoint aspath_has_as4 (seg : segments) : bool :=
  match seg with
  | [] => false
  | s :: r => existsb (fun a => BGP_AS_MAX <? a) (asns s) || aspath_has_as4 r
  end.

(** ** Checks *)

(** [None] is the NULL path. *)
Definition aspath_firstas_check (aspath : option segments) (asno : Z) : res bool :=
  match aspath with
  | None | Some [] => Ret false
  | Some (s :: _) =>
      if seg_type s =? AS_SEQUENCE
      then a ← zget (seg_as s) 0; Ret (a =? asno)
      else Ret false
  end.

Fixpoint loop_count (seg : segments) (asno : Z) : Z :=
  match seg with
  | [] => 0
  | s :: r => zlen (filter (fun a => a = asno) (asns s)) + loop_count r asno
  end.
Definition aspath_loop_check (aspath : option segments) (asno : Z) : Z :=
  match aspath with
  | None | Some [] => 0
  | Some seg => loop_count seg asno
  end.

Definition is_private (a : Z) : bool :=
  negb ((a <? BGP_PRIVATE_AS_MIN) || (BGP_PRIVATE_AS_MAX <? a)).
Definition aspath_private_as_check (aspath : option segments) : bool :=
  match aspath with
  | None | Some [] => false
  | Some seg => forallb (fun s => forallb is_private (asns s)) seg
  end.

Definition is_confed (s : assegment) : bool :=
  (seg_type s =? AS_CONFED_SET) || (seg_type s =? AS_CONFED_SEQUENCE).
Definition aspath_confed_check (aspath : option segments) : bool :=
  match aspath with
  | None | Some [] => false
  | Some seg => existsb is_confed seg
  end.

Definition aspath_left_confed_check (aspath : option segments) : bool :=
  match aspath with
  | None | Some [] => false
  | Some (s :: _) =>
      (seg_type s =? AS_CONFED_SEQUENCE) || (seg_type s =? AS_CONFED_SET)
  end.

(** Skip leading confederation segments. *)
Fixpoint skip_confed (seg : segments) : segments :=
  match seg with
  | [] => []
  | s :: r => if (seg_type s =? AS_CONFED_SEQUENCE) || (seg_type s =? AS_CONFED_SET)
              then skip_confed r else seg
  end.

Definition aspath_cmp_left (aspath1 aspath2 : option segments) : res bool :=
  match aspath1, aspath2 with
  | Some seg1, Some seg2 =>
      match skip_confed seg1, skip_confed seg2 with
      | s1 :: _, s2 :: _ =>
          if (seg_type s1 =? AS_SEQUENCE) && (seg_type s2 =? AS_SEQUENCE)
          then a ← zget (seg_as s1) 0; b ← zget (seg_as s2) 0; Ret (a =? b)
          else Ret false
      | _, _ => Ret false
      end
  | _, _ => Ret false
  end.

Definition aspath_cmp_left_confed (aspath1 aspath2 : option segments) : res bool :=
  match aspath1, aspath2 with
  | Some (s1 :: _), Some (s2 :: _) =>
      if negb (seg_type s1 =? AS_CONFED_SEQUENCE)
         || negb (seg_type s2 =? AS_CONFED_SEQUENCE)
      then Ret false
      else a ← zget (seg_as s1) 0; b ← zget (seg_as s2) 0; Ret (a =? b)
  | _, _ => Ret false
  end.

(** The hash comparison: same segments, type by type and AS by AS. *)
Fixpoint aspath_cmp (seg1 seg2 : segments) : bool :=
  match seg1, seg2 with
  | [], [] => true
  | s1 :: r1, s2 :: r2 =>
      (seg_type s1 =? seg_type s2) && (seg_length s1 =? seg_length s2)
      && bool_decide (asns s1 = asns s2) && aspath_cmp r1 r2
  | _, _ => false
  end.

(** ** Well-formed segments

    What every segment the daemon holds satisfies: 32-bit AS numbers, fewer of
    them than [seg->length] can count. *)
Definition seg_wf (s : assegment) : Prop :=
  Forall is_u32 (seg_as s) /\ zlen (seg_as s) < 2 ^ 16.

#[export] Instance seg_wf_dec s : Decision (seg_wf s).
Proof. unfold seg_wf. apply _. Defined.

Definition valid_type (s : assegment) : bool :=
  (seg_type s =? AS_SET) || (seg_type s =? AS_SEQUENCE)
  || (seg_type s =? AS_CONFED_SEQUENCE) || (seg_type s =? AS_CONFED_SET).

Lemma seg_length_id s : zlen (seg_as s) < 2 ^ 16 -> seg_length s = zlen (seg_as s).
Proof. intros. apply u16_id. pose proof (zlen_nonneg (seg_as s)). split; lia. Qed.

Lemma asns_id s : zlen (seg_as s) < 2 ^ 16 -> asns s = seg_as s.
Proof.
  intros. unfold asns. rewrite seg_length_id by done. unfold zlen.
  rewrite Nat2Z.id. apply firstn_all.
Qed.

Lemma seg_wf_asns s : seg_wf s -> asns s = seg_as s.
Proof. intros [_ H]. by apply asns_id. Qed.

Lemma seg_length_range s : 0 <= seg_length s < 2 ^ 16.
Proof. apply u16_range. Qed.

Lemma zlen_asns s : zlen (asns s) = seg_length s.
Proof.
  unfold asns, zlen. rewrite length_take.
  pose proof (seg_length_range s). unfold seg_length, u16 in *.
  pose proof (Z.mod_le (zlen (seg_as s)) (2 ^ 16) (zlen_nonneg _)).
  unfold zlen in *. lia.
Qed.

#[export] Hint Rewrite zlen_asns : zlen.

(** No two neighbouring AS_SEQUENCE segments. *)
Fixpoint no_adjacent_seq (seg : segments) : bool :=
  match seg with
  | s :: (t :: _) as r => negb (types_packable s t) && no_adjacent_seq r
  | _ => true
  end.

(** Segments whose text stands for them: an empty sequence has none. *)
Definition printable (s : assegment) : Prop :=
  seg_wf s /\ valid_type s = true /\ (seg_type s = AS_SEQUENCE -> seg_as s <> []).

#[export] Instance printable_dec s : Decision (printable s).
Proof. unfold printable. apply _. Defined.

(** ** Normal form

    What a path says, whatever its representation: AS_SEQUENCE segments are a
    row of hops, AS_SET and AS_CONFED_SET segments are sets, the others are
    kept as they are. *)
Inductive item :=
| Hop (a : Z)
| Members (type : Z) (ms : gset Z)
| Ordered (type : Z) (l : list Z).

Definition items_of (s : assegment) : list item :=
  if seg_type s =? AS_SEQUENCE then map Hop (asns s)
  else if is_set s then [Members (seg_type s) (list_to_set (asns s))]
  else [Ordered (seg_type s) (asns s)].

Definition items (seg : segments) : list item := concat (map items_of seg).

(** Segments as they come from the wire: at least one AS number each. *)
Definition total_asns (seg : segments) : Z :=
  foldr (fun s n => zlen (seg_as s) + n) 0 seg.
Definition path_wf (seg : segments) : Prop :=
  Forall (fun s => seg_as s <> []) seg /\ total_asns seg < 2 ^ 16.

#[export] Instance path_wf_dec seg : Decision (path_wf seg).
Proof. unfold path_wf. apply _. Defined.

Definition seg_canonical (s : assegment) : Prop :=
  seg_as s <> [] /\ zlen (seg_as s) < 2 ^ 16 /\
  (is_set s = true -> StronglySorted Z.lt (seg_as s)).
Definition canonical (seg : segments) : Prop :=
  Forall seg_canonical seg /\ no_adjacent_seq seg = true.

(** *** Sorting without duplicates *)
Lemma elem_of_weed t l x : x ∈ weed t l <-> x ∈ t :: l.
Proof.
  revert t. induction l as [|y l IH]; intros t; simpl; [done|].
  case_test; [subst|]; rewrite ?elem_of_cons, IH, ?elem_of_cons; naive_solver.
Qed.

Lemma weed_sorted t l : StronglySorted Z.le (t :: l) -> StronglySorted Z.lt (weed t l).
Proof.
  revert t. induction l as [|y l IH]; intros t H; simpl; [by repeat constructor|].
  inversion H as [|? ? Hyl Ht]; subst. inversion Ht as [|? ? Hty Htl]; subst.
  case_test; [subst; by apply IH|].
  constructor; [by apply IH|]. apply Forall_forall. intros x Hx%elem_of_weed.
  inversion Hyl as [|? ? _ Hy]; subst.
  apply elem_of_cons in Hx as [->|Hx]; [lia|].
  apply (proj1 (Forall_forall _ _) Hy) in Hx. lia.
Qed.

Lemma weed_length t l : (1 <= length (weed t l) <= S (length l))%nat.
Proof.
  revert t. induction l as [|y l IH]; intros t; simpl; [lia|].
  case_test; simpl; [specialize (IH t)|specialize (IH y)]; lia.
Qed.

Lemma sort_uniq_sorted l : StronglySorted Z.lt (sort_uniq l).
Proof.
  unfold sort_uniq. pose proof (StronglySorted_merge_sort Z.le l) as H.
  destruct (merge_sort Z.le l); [constructor|by apply weed_sorted].
Qed.

Lemma elem_of_sort_uniq l x : x ∈ sort_uniq l <-> x ∈ l.
Proof.
  unfold sort_uniq. pose proof (merge_sort_Permutation Z.le l) as H.
  destruct (merge_sort Z.le l); rewrite <- H; [done|apply elem_of_weed].
Qed.

Lemma sort_uniq_length l : (length (sort_uniq l) <= length l)%nat.
Proof.
  unfold sort_uniq. pose proof (Permutation_length (merge_sort_Permutation Z.le l)) as H.
  destruct (merge_sort Z.le l) as [|y k]; [simpl; lia|].
  pose proof (weed_length y k). simpl in *. lia.
Qed.

(** *** Normalisation keeps what the path says *)
Lemma items_cons s r : items (s :: r) = items_of s ++ items r.
Proof. done. Qed.

Lemma total_asns_cons s r : total_asns (s :: r) = zlen (seg_as s) + total_asns r.
Proof. done. Qed.

Lemma total_asns_nonneg seg : 0 <= total_asns seg.
Proof. induction seg as [|s r IH]; [done|]. rewrite total_asns_cons. pose proof (zlen_nonneg (seg_as s)). lia. Qed.

Lemma sort_if_set_type s : seg_type (sort_if_set s) = seg_type s.
Proof. unfold sort_if_set. by destruct (is_set s). Qed.

Lemma sort_if_set_length s : zlen (seg_as (sort_if_set s)) <= zlen (seg_as s).
Proof.
  unfold sort_if_set. destruct (is_set s); [|lia]. simpl.
  pose proof (sort_uniq_length (asns s)). unfold asns in *.
  rewrite length_take in *. unfold zlen. lia.
Qed.

Lemma items_sort_if_set s :
  zlen (seg_as s) < 2 ^ 16 -> items_of (sort_if_set s) = items_of s.
Proof.
  intros Hs. pose proof (sort_if_set_length s) as Hl. unfold items_of.
  rewrite sort_if_set_type. unfold sort_if_set in *.
  destruct (is_set s) eqn:E; [|by rewrite E].
  rewrite (asns_id (Seg _ _)) by (simpl in *; lia).
  unfold is_set in *. simpl. rewrite E.
  destruct (seg_type s =? AS_SEQUENCE) eqn:E2.
  { zify_bool. rewrite E2 in E. discriminate. }
  do 2 f_equal. apply set_eq. intros x.
  rewrite !elem_of_list_to_set. apply elem_of_sort_uniq.
Qed.

Lemma items_append pin s :
  types_packable pin s = true -> zlen (seg_as pin) + zlen (seg_as s) < 2 ^ 16 ->
  items_of (assegment_append_asns pin (asns s)) = items_of pin ++ items_of s /\
  zlen (seg_as (assegment_append_asns pin (asns s))) = zlen (seg_as pin) + zlen (seg_as s).
Proof.
  unfold types_packable, items_of, assegment_append_asns. intros H Hlen. zify_bool.
  pose proof (zlen_nonneg (seg_as pin)). pose proof (zlen_nonneg (seg_as s)).
  rewrite !asns_id by (simpl; rewrite ?asns_id by lia; zlen). simpl.
  rewrite <- H, H0. simpl. rewrite map_app. split; [done|zlen].
Qed.

Lemma items_normalise_from pin rest :
  zlen (seg_as pin) + total_asns rest < 2 ^ 16 ->
  items (normalise_from pin rest) = items_of pin ++ items rest.
Proof.
  revert pin. induction rest as [|s r IH]; intros pin Hlen; [done|].
  rewrite total_asns_cons in Hlen. pose proof (total_asns_nonneg r).
  pose proof (zlen_nonneg (seg_as pin)).
  simpl. rewrite items_cons. case_test.
  - destruct (items_append pin s) as [Hi Hl]; [done|lia|].
    by rewrite IH, Hi, app_assoc by lia.
  - rewrite items_cons. pose proof (sort_if_set_length s).
    by rewrite IH, items_sort_if_set by lia.
Qed.

Lemma items_normalise seg :
  total_asns seg < 2 ^ 16 -> items (assegment_normalise seg) = items seg.
Proof.
  destruct seg as [|s r]; [done|]. rewrite total_asns_cons. intros Hlen.
  pose proof (total_asns_nonneg r). pose proof (sort_if_set_length s). simpl.
  by rewrite items_normalise_from, items_sort_if_set, items_cons by lia.
Qed.

Lemma types_normalise seg :
  forallb valid_type seg = true -> forallb valid_type (assegment_normalise seg) = true.
Proof.
  assert (Hfrom : forall rest pin, valid_type pin = true -> forallb valid_type rest = true ->
            forallb valid_type (normalise_from pin rest) = true).
  { induction rest as [|s r IH]; intros pin Hp Hr; simpl in *; [by rewrite Hp|].
    apply andb_true_iff in Hr as [Hs Hr]. case_test; [by apply IH|]. simpl. rewrite Hp.
    apply IH; [|done]. unfold valid_type. rewrite sort_if_set_type. exact Hs. }
  destruct seg as [|s r]; [done|]. simpl. intros [Hs Hr]%andb_true_iff. apply Hfrom; [|done].
  unfold valid_type. rewrite sort_if_set_type. exact Hs.
Qed.

(** *** Its result is canonical *)
Lemma sort_if_set_canonical s :
  seg_as s <> [] -> zlen (seg_as s) < 2 ^ 16 -> seg_canonical (sort_if_set s).
Proof.
  intros Hne Hlen. pose proof (sort_if_set_length s). split; [|split; [lia|]].
  - unfold sort_if_set. destruct (is_set s); [|done]. simpl. rewrite asns_id by done.
    destruct (seg_as s) as [|a l]; [done|]. intros E.
    pose proof (proj2 (elem_of_sort_uniq (a :: l) a) ltac:(left)) as Hin.
    rewrite E in Hin. by apply elem_of_nil in Hin.
  - unfold sort_if_set. destruct (is_set s) eqn:E; simpl; [|congruence].
    intros _. apply sort_uniq_sorted.
Qed.

Lemma normalise_from_head pin rest :
  exists h t, normalise_from pin rest = h :: t /\ seg_type h = seg_type pin.
Proof.
  revert pin. induction rest as [|s r IH]; intros pin; simpl; [by eexists _, _|].
  case_test; [|by eexists _, _].
  destruct (IH (assegment_append_asns pin (asns s))) as (h & t & -> & E). by exists h, t.
Qed.

Lemma canonical_normalise_from pin rest :
  seg_canonical pin -> Forall (fun s => seg_as s <> []) rest ->
  zlen (seg_as pin) + total_asns rest < 2 ^ 16 ->
  canonical (normalise_from pin rest).
Proof.
  intros Hpin Hrest. revert pin Hpin.
  induction Hrest as [|s r Hs Hr IH]; intros pin Hpin Hlen; [by split; [apply Forall_singleton|]|].
  rewrite total_asns_cons in Hlen. pose proof (total_asns_nonneg r).
  pose proof (zlen_nonneg (seg_as pin)). pose proof (zlen_nonneg (seg_as s)).
  simpl. case_test.
  - destruct (items_append pin s) as [_ Hl]; [done|lia|].
    apply IH; [|lia]. split; [|split; [lia|]].
    + intros E. rewrite E in Hl. destruct Hpin as [Hne _].
      destruct (seg_as pin) as [|a l]; [done|]. pose proof (zlen_nonneg l). zlen.
    + unfold types_packable in Heqb. zify_bool.
      unfold is_set. simpl. by rewrite H3.
  - pose proof (sort_if_set_length s).
    destruct (IH (sort_if_set s)) as [Hall Hadj]; [apply sort_if_set_canonical; [done|lia]|lia|].
    split; [by constructor|].
    destruct (normalise_from_head (sort_if_set s) r) as (h & t & E & Ht).
    rewrite E in *. simpl in *. rewrite Hadj, andb_true_r. apply negb_true_iff.
    unfold types_packable in *. by rewrite Ht, sort_if_set_type.
Qed.

Lemma canonical_normalise seg : path_wf seg -> canonical (assegment_normalise seg).
Proof.
  intros [Hne Hlen]. destruct Hne as [|s r Hs Hr]; [by split|].
  rewrite total_asns_cons in Hlen. pose proof (total_asns_nonneg r).
  pose proof (sort_if_set_length s). simpl.
  apply canonical_normalise_from; [apply sort_if_set_canonical; [done|lia]|done|lia].
Qed.

(** *** Canonical paths that say the same are equal *)
Definition is_hop (i : item) : bool := match i with Hop _ => true | _ => false end.

Lemma hops_split l k m n :
  map Hop l ++ m = map Hop k ++ n ->
  existsb is_hop (option_list (head m)) = false ->
  existsb is_hop (option_list (head n)) = false -> l = k /\ m = n.
Proof.
  revert k. induction l as [|a l IH]; intros [|b k] E Hm Hn; simpl in *; simplify_eq.
  - done.
  - destruct (IH k) as [-> ->]; done.
Qed.

Lemma items_canonical_head s r :
  canonical (s :: r) -> seg_type s = AS_SEQUENCE ->
  existsb is_hop (option_list (head (items r))) = false.
Proof.
  intros [_ Hadj] Hs. destruct r as [|t r]; [done|]. simpl in Hadj.
  apply andb_true_iff in Hadj as [Hst _]. apply negb_true_iff in Hst.
  rewrite items_cons. unfold items_of. unfold types_packable in Hst.
  rewrite Hs, Z.eqb_refl, andb_true_r, Z.eqb_sym in Hst. rewrite Hst.
  by destruct (is_set t).
Qed.

Lemma canonical_tail s r : canonical (s :: r) -> canonical r.
Proof.
  intros [Hall Hadj]. inversion Hall; subst. split; [done|].
  destruct r; [done|]. simpl in Hadj. by apply andb_true_iff in Hadj as [_ ?].
Qed.

Lemma items_of_inj s t :
  seg_canonical s -> seg_canonical t -> seg_type s <> AS_SEQUENCE ->
  forall m n, items_of s ++ m = items_of t ++ n -> s = t /\ m = n.
Proof.
  destruct s as [ty l], t as [ty' l']. intros (Hne & Hl & Hsort) (Hne' & Hl' & Hsort') Hs m n.
  unfold items_of. rewrite !asns_id by done. simpl in *.
  rewrite (proj2 (Z.eqb_neq _ _) Hs).
  destruct (ty' =? AS_SEQUENCE).
  { destruct l'; [done|]. by destruct (is_set (Seg ty l)). }
  destruct (is_set (Seg ty l)), (is_set (Seg ty' l')); intros [=]; simplify_eq; [|done].
  split; [|done]. f_equal. apply strictly_sorted_unique; auto.
  intros x. rewrite <- !(elem_of_list_to_set (C:=gset Z)). set_solver.
Qed.

Lemma items_of_seq s l :
  seg_canonical s -> seg_type s = AS_SEQUENCE -> seg_as s = l -> items_of s = map Hop l.
Proof. intros (_ & ? & _) Hs <-. unfold items_of. by rewrite Hs, asns_id. Qed.

Lemma items_nonempty s : seg_canonical s -> items_of s <> [].
Proof.
  intros (Hne & Hl & _). unfold items_of. rewrite asns_id by done.
  case_test; [|by destruct (is_set s)]. by destruct (seg_as s).
Qed.

Lemma canonical_unique a b : canonical a -> canonical b -> items a = items b -> a = b.
Proof.
  revert b. induction a as [|s a IH]; intros [|t b] Ha Hb E; [done| | |].
  - pose proof (items_nonempty t ltac:(by inversion Hb as [H _]; inversion H)) as Hne.
    rewrite items_cons in E. by destruct (items_of t).
  - pose proof (items_nonempty s ltac:(by inversion Ha as [H _]; inversion H)) as Hne.
    rewrite items_cons in E. by destruct (items_of s).
  - assert (Hs : seg_canonical s) by (by inversion Ha as [H _]; inversion H).
    assert (Ht : seg_canonical t) by (by inversion Hb as [H _]; inversion H).
    assert (s = t /\ items a = items b) as [-> E'].
    { rewrite !items_cons in E.
      destruct (Z.eq_dec (seg_type s) AS_SEQUENCE) as [Hsq|];
        [destruct (Z.eq_dec (seg_type t) AS_SEQUENCE) as [Htq|]|].
      - rewrite (items_of_seq s _ Hs Hsq eq_refl), (items_of_seq t _ Ht Htq eq_refl) in E.
        apply hops_split in E as [E ->]; [|by eapply items_canonical_head..].
        split; [|done]. destruct s, t; simpl in *. by subst.
      - symmetry in E. apply (items_of_inj t s) in E as [? ?]; auto.
      - by apply (items_of_inj s t) in E. }
    f_equal. apply IH; eauto using canonical_tail.
Qed.

(** Hops as counted for route selection, from what the path says. *)
Definition hops_of (i : item) : Z :=
  match i with
  | Hop _ => 1
  | Members ty _ => if ty =? AS_SET then 1 else 0
  | Ordered _ _ => 0
  end.
Definition sum_hops (l : list item) : Z := foldr (fun i n => hops_of i + n) 0 l.

Lemma sum_hops_app l k : sum_hops (l ++ k) = sum_hops l + sum_hops k.
Proof. induction l as [|i l IH]; simpl; [done|]. rewrite IH. lia. Qed.

Lemma sum_hops_seq l : sum_hops (map Hop l) = zlen l.
Proof. induction l as [|a l IH]; simpl; [done|]. rewrite IH. zlen. Qed.

Lemma count_hops_items seg : aspath_count_hops seg = sum_hops (items seg).
Proof.
  induction seg as [|s r IH]; [done|]. rewrite items_cons, sum_hops_app, <- IH. simpl.
  f_equal. unfold items_of, is_set. destruct (seg_type s =? AS_SEQUENCE) eqn:E.
  - by rewrite sum_hops_seq, zlen_asns.
  - destruct (seg_type s =? AS_SET) eqn:E1; simpl; [by rewrite E1|].
    by destruct (seg_type s =? AS_CONFED_SET); simpl; rewrite ?E1.
Qed.

(** Canonical paths are left alone. *)
Lemma sort_if_set_fixed s : seg_canonical s -> sort_if_set s = s.
Proof.
  intros (_ & Hl & Hs). unfold sort_if_set. destruct (is_set s) eqn:E; [|done].
  rewrite asns_id by done. destruct s as [ty l]; simpl in *. f_equal.
  apply strictly_sorted_unique; auto using sort_uniq_sorted, elem_of_sort_uniq.
Qed.

Lemma canonical_fixed seg : canonical seg -> assegment_normalise seg = seg.
Proof.
  destruct seg as [|s r]; [done|]. intros H. simpl.
  rewrite sort_if_set_fixed by (by inversion H as [H' _]; inversion H').
  revert s H. induction r as [|t r IH]; intros s H; [done|].
  pose proof (canonical_tail _ _ H) as Ht. destruct H as [_ Hadj]. simpl in *.
  apply andb_true_iff in Hadj as [Hst%negb_true_iff _]. rewrite Hst.
  rewrite sort_if_set_fixed by (by inversion Ht as [H' _]; inversion H').
  by rewrite IH.
Qed.

(** C16. [assegment_normalise] gives every path one representation: two paths
    normalise to the same segments exactly when they say the same (the same
    hops in the same order, however they are cut into AS_SEQUENCE segments,
    and the same sets, whatever the order and repetition of their members);
    normalising twice changes nothing more, and the hop count that route
    selection compares is kept. *)
Theorem normalise_canonical_form a b :
  path_wf a -> path_wf b ->
  (assegment_normalise a = assegment_normalise b <-> items a = items b) /\
  assegment_normalise (assegment_normalise a) = assegment_normalise a /\
  aspath_count_hops (assegment_normalise a) = aspath_count_hops a.
Proof.
  intros Ha Hb. split; [split|split].
  - intros E. rewrite <- (items_normalise a), <- (items_normalise b), E; [done|apply Hb|apply Ha].
  - intros E. apply canonical_unique; auto using canonical_normalise.
    rewrite !items_normalise; [done|apply Hb|apply Ha].
  - by apply canonical_fixed, canonical_normalise.
  - rewrite !count_hops_items, items_normalise; [done|apply Ha].
Qed.

Lemma normalise_canonical_form_witness :
  let a := [Seg AS_SEQUENCE [1; 2]; Seg AS_SEQUENCE [3]; Seg AS_SET [5; 4; 5]] in
  let b := [Seg AS_SEQUENCE [1]; Seg AS_SEQUENCE [2; 3]; Seg AS_SET [4; 5]] in
  (assegment_normalise a = assegment_normalise b <-> items a = items b) /\
  assegment_normalise (assegment_normalise a) = assegment_normalise a /\
  aspath_count_hops (assegment_normalise a) = aspath_count_hops a.
Proof. intros a b. apply (normalise_canonical_form a b); by_eval. Defined.
