(* ===== verification/RouteInfo.v ===== *)
(** * bgpd/bgp_route.c, bgpd.c, bgp_table.c: paths, their flags and counters

    The paths to a prefix ([struct bgp_info]) live on a heap, chained in the
    doubly linked list of their [bgp_node]; peers, attributes, paths and the node
    carry reference counts, and a peer counts its usable prefixes ([pcount]).
    The file models the operations on this state: locking, [bgp_info_add] and
    [bgp_info_reap], flags with [bgp_pcount_adjust], deletion and restoration.
    A dereference of NULL or of a freed object is a [Fault]. *)
From stdpp Require Import base option list gmap.
From Stdlib Require Import ZArith Lia.
From S2P Require Import Prelude Aspath.

(** ** Data *)

(** The parts of [struct bgp] read here; [peer_self] is an address. *)
Record bgp := Bgp {
  bgp_as : Z; bgp_config : Z; bgp_flags : Z;
  confed_id : Z; confed_peers : list Z;
  default_local_pref : Z; peer_self : Z;
}.

(** [union sockunion]; [sin_addr] is the address in host order. *)
Record sockunion := SU { sa_family : Z; sin_addr : Z; sin6_addr : list Z }.

(** The parts of [struct peer] read here; [p_group] holds ([local_as], [as]) of each member of the
    peer's group, [remote_id] is in host order, [pcount] is indexed by
    (afi, safi). *)
Record bgp_peer := BgpPeer {
  p_bgp : option bgp; p_as : Z; p_local_as : Z; p_sflags : Z;
  p_group : list (Z * Z); p_deleted : bool;
  remote_id : Z; su_remote : option sockunion;
  p_lock : Z; pcount : gmap (Z * Z) Z;
}.

(** [struct attr_extra]; [cluster] is the length of the cluster list,
    [originator_id] is in host order. *)
Record attr_extra := AttrExtra { weight : Z; originator_id : Z; cluster : option Z }.

Record attr := Attr {
  a_aspath : option segments; a_flag : Z; a_med : Z; a_local_pref : Z;
  a_origin : Z; a_extra : option attr_extra; a_refcnt : Z;
}.

(** [struct bgp_info]; [i_igpmetric] is [extra->igpmetric] where [extra] is
    allocated. *)
Record bgp_info := Info {
  i_next : option Z; i_prev : option Z;
  i_peer : Z; i_attr : option Z; i_igpmetric : option Z;
  i_lock : Z; i_flags : Z; i_type : Z; i_sub_type : Z;
}.

(** [bgp_table.h]: [BGP_TABLE_MAIN] or [BGP_TABLE_RSCLIENT]. *)
Inductive table_type := BGP_TABLE_MAIN | BGP_TABLE_RSCLIENT.
#[export] Instance table_type_eq_dec : EqDecision table_type.
Proof. solve_decision. Defined.

(** [struct bgp_node]; [n_branch] says that both links of the node are set. *)
Record bgp_node := Node {
  n_info : option Z; n_lock : Z; n_scheduled : bool; n_branch : bool;
  t_type : table_type; t_afi : Z; t_safi : Z;
}.

(** The heap; [node] is [None] once the node is freed. *)
Record rib := Rib {
  infos : gmap Z bgp_info;
  attrs : gmap Z attr;
  peers : gmap Z bgp_peer;
  node : option bgp_node;
}.

Definition set_infos (R : rib) m := Rib m (attrs R) (peers R) (node R).
Definition set_attrs (R : rib) m := Rib (infos R) m (peers R) (node R).
Definition set_peers (R : rib) m := Rib (infos R) (attrs R) m (node R).
Definition set_node (R : rib) n := Rib (infos R) (attrs R) (peers R) n.

Definition with_next (i : bgp_info) x := Info x (i_prev i) (i_peer i) (i_attr i)
  (i_igpmetric i) (i_lock i) (i_flags i) (i_type i) (i_sub_type i).
Definition with_prev (i : bgp_info) x := Info (i_next i) x (i_peer i) (i_attr i)
  (i_igpmetric i) (i_lock i) (i_flags i) (i_type i) (i_sub_type i).
Definition with_lock (i : bgp_info) x := Info (i_next i) (i_prev i) (i_peer i) (i_attr i)
  (i_igpmetric i) x (i_flags i) (i_type i) (i_sub_type i).
Definition with_flags (i : bgp_info) x := Info (i_next i) (i_prev i) (i_peer i) (i_attr i)
  (i_igpmetric i) (i_lock i) x (i_type i) (i_sub_type i).
Definition with_node_info (n : bgp_node) x :=
  Node x (n_lock n) (n_scheduled n) (n_branch n) (t_type n) (t_afi n) (t_safi n).
Definition with_node_lock (n : bgp_node) x :=
  Node (n_info n) x (n_scheduled n) (n_branch n) (t_type n) (t_afi n) (t_safi n).
Definition with_scheduled (n : bgp_node) x :=
  Node (n_info n) (n_lock n) x (n_branch n) (t_type n) (t_afi n) (t_safi n).
Definition with_peer_lock (p : bgp_peer) x := BgpPeer (p_bgp p) (p_as p) (p_local_as p)
  (p_sflags p) (p_group p) (p_deleted p) (remote_id p) (su_remote p) x (pcount p).
Definition with_pcount (p : bgp_peer) x := BgpPeer (p_bgp p) (p_as p) (p_local_as p)
  (p_sflags p) (p_group p) (p_deleted p) (remote_id p) (su_remote p) (p_lock p) x.
Definition with_refcnt (a : attr) x := Attr (a_aspath a) (a_flag a) (a_med a)
  (a_local_pref a) (a_origin a) (a_extra a) x.

(** Dereferencing. *)
Definition deref {A} (m : gmap Z A) (p : Z) : res A :=
  match m !! p with Some x => Ret x | None => Fault end.
Definition get_node (R : rib) : res bgp_node :=
  match node R with Some n => Ret n | None => Fault end.
Definition put_info (R : rib) (a : Z) (i : bgp_info) : rib := set_infos R (<[a := i]> (infos R)).

(** ** Flags *)
Definition BGP_INFO_IGP_CHANGED : Z := 2 ^ 0.
Definition BGP_INFO_DAMPED : Z := 2 ^ 1.
Definition BGP_INFO_HISTORY : Z := 2 ^ 2.
Definition BGP_INFO_SELECTED : Z := 2 ^ 3.
Definition BGP_INFO_VALID : Z := 2 ^ 4.
Definition BGP_INFO_ATTR_CHANGED : Z := 2 ^ 5.
Definition BGP_INFO_DMED_CHECK : Z := 2 ^ 6.
Definition BGP_INFO_DMED_SELECTED : Z := 2 ^ 7.
Definition BGP_INFO_STALE : Z := 2 ^ 8.
Definition BGP_INFO_REMOVED : Z := 2 ^ 9.
Definition BGP_INFO_COUNTED : Z := 2 ^ 10.
Definition BGP_INFO_UNUSEABLE : Z :=
  Z.lor (Z.lor BGP_INFO_HISTORY BGP_INFO_DAMPED) BGP_INFO_REMOVED.

(** [CHECK_FLAG], [SET_FLAG] and [UNSET_FLAG]; [flags] is a [u_int16_t]. *)
Definition CHECK_FLAG (v f : Z) : bool := negb (Z.land v f =? 0).
Definition SET_FLAG (v f : Z) : Z := u16 (Z.lor v f).
Definition UNSET_FLAG (v f : Z) : Z := u16 (Z.land v (Z.lnot f)).

Definition BGP_INFO_HOLDDOWN (i : bgp_info) : bool :=
  negb (CHECK_FLAG (i_flags i) BGP_INFO_VALID) || CHECK_FLAG (i_flags i) BGP_INFO_UNUSEABLE.

(** ** Reference counts *)

(** [assert (peer->status == Deleted)] and the peer is gone; the timers, threads
    and strings [peer_free] releases on the way are not part of this state. *)
Definition peer_free (R : rib) (a : Z) (p : bgp_peer) : res rib :=
  _ ← cassert (p_deleted p); Ret (set_peers R (delete a (peers R))).

Definition peer_lock (R : rib) (a : Z) : res rib :=
  p ← deref (peers R) a;
  _ ← cassert (0 <=? p_lock p);
  Ret (set_peers R (<[a := with_peer_lock p (p_lock p + 1)]> (peers R))).

Definition peer_unlock (R : rib) (a : Z) : res rib :=
  p ← deref (peers R) a;
  _ ← cassert (0 <? p_lock p);
  if p_lock p - 1 =? 0 then peer_free R a p
  else Ret (set_peers R (<[a := with_peer_lock p (p_lock p - 1)]> (peers R))).

(** The reference [bgp_attr_unintern] drops; the attribute leaves the table of
    attributes with its last reference.  The references an attribute itself holds
    on its AS path and communities ([bgp_attr_unintern_sub]) are not counted. *)
Definition bgp_attr_unintern (R : rib) (a : Z) : res rib :=
  at_ ← deref (attrs R) a;
  let n := u64 (a_refcnt at_ - 1) in
  Ret (set_attrs R (if n =? 0 then delete a (attrs R)
                    else <[a := with_refcnt at_ n]> (attrs R))).

Definition bgp_lock_node (R : rib) : res rib :=
  n ← get_node R; Ret (set_node R (Some (with_node_lock n (n_lock n + 1)))).

(** With its last reference the node leaves the table: [bgp_node_delete]
    asserts that no path is left and frees the node unless it has two
    subtrees. *)
Definition bgp_unlock_node (R : rib) : res rib :=
  n ← get_node R;
  _ ← cassert (0 <? n_lock n);
  if n_lock n - 1 =? 0 then
    _ ← cassert (bool_decide (n_info n = None));
    Ret (set_node R (if n_branch n then Some (with_node_lock n 0) else None))
  else Ret (set_node R (Some (with_node_lock n (n_lock n - 1)))).

Definition bgp_info_free (R : rib) (a : Z) (i : bgp_info) : res rib :=
  R ← match i_attr i with Some at_ => bgp_attr_unintern R at_ | None => Ret R end;
  R ← peer_unlock R (i_peer i);
  Ret (set_infos R (delete a (infos R))).

Definition bgp_info_lock (R : rib) (a : Z) : res rib :=
  i ← deref (infos R) a; Ret (put_info R a (with_lock i (i_lock i + 1))).

Definition bgp_info_unlock (R : rib) (a : Z) : res rib :=
  i ← deref (infos R) a;
  _ ← cassert (0 <? i_lock i);
  let i := with_lock i (i_lock i - 1) in
  if i_lock i =? 0 then bgp_info_free R a i else Ret (put_info R a i).

(** ** The list of paths *)
Definition bgp_info_add (R : rib) (ri : Z) : res rib :=
  n ← get_node R;
  i ← deref (infos R) ri;
  let top := n_info n in
  let R := put_info R ri (with_prev (with_next i (n_info n)) None) in
  R ← match top with
      | Some t => ti ← deref (infos R) t; Ret (put_info R t (with_prev ti (Some ri)))
      | None => Ret R
      end;
  let R := set_node R (Some (with_node_info n (Some ri))) in
  R ← bgp_info_lock R ri;
  R ← bgp_lock_node R;
  peer_lock R (i_peer i).

Definition bgp_info_reap (R : rib) (ri : Z) : res rib :=
  i ← deref (infos R) ri;
  R ← match i_next i with
      | Some x => xi ← deref (infos R) x; Ret (put_info R x (with_prev xi (i_prev i)))
      | None => Ret R
      end;
  R ← match i_prev i with
      | Some x => xi ← deref (infos R) x; Ret (put_info R x (with_next xi (i_next i)))
      | None => n ← get_node R; Ret (set_node R (Some (with_node_info n (i_next i))))
      end;
  R ← bgp_info_unlock R ri;
  bgp_unlock_node R.

(** ** Flags with the prefix count *)

Definition pcount_of (p : bgp_peer) (n : bgp_node) : Z :=
  default 0 (pcount p !! (t_afi n, t_safi n)).
Definition set_pcount (R : rib) (a : Z) (p : bgp_peer) (n : bgp_node) (c : Z) : rib :=
  set_peers R (<[a := with_pcount p (<[(t_afi n, t_safi n) := c]> (pcount p))]> (peers R)).

Definition bgp_pcount_adjust (R : rib) (ri : Z) : res rib :=
  n ← get_node R;
  i ← deref (infos R) ri;
  p ← deref (peers R) (i_peer i);
  match p_bgp p with
  | None => Abort
  | Some b =>
      if bool_decide (t_type n <> BGP_TABLE_MAIN) || (i_peer i =? peer_self b) then Ret R
      else if BGP_INFO_HOLDDOWN i && CHECK_FLAG (i_flags i) BGP_INFO_COUNTED then
        let R := put_info R ri (with_flags i (UNSET_FLAG (i_flags i) BGP_INFO_COUNTED)) in
        if negb (pcount_of p n =? 0)
        then Ret (set_pcount R (i_peer i) p n (pcount_of p n - 1)) else Ret R
      else if negb (BGP_INFO_HOLDDOWN i) && negb (CHECK_FLAG (i_flags i) BGP_INFO_COUNTED) then
        let R := put_info R ri (with_flags i (SET_FLAG (i_flags i) BGP_INFO_COUNTED)) in
        Ret (set_pcount R (i_peer i) p n (u64 (pcount_of p n + 1)))
      else Ret R
  end.

Definition bgp_info_set_flag (R : rib) (ri flag : Z) : res rib :=
  i ← deref (infos R) ri;
  let R := put_info R ri (with_flags i (SET_FLAG (i_flags i) flag)) in
  if negb (CHECK_FLAG flag (Z.lor BGP_INFO_VALID BGP_INFO_UNUSEABLE)) then Ret R
  else bgp_pcount_adjust R ri.

Definition bgp_info_unset_flag (R : rib) (ri flag : Z) : res rib :=
  i ← deref (infos R) ri;
  let R := put_info R ri (with_flags i (UNSET_FLAG (i_flags i) flag)) in
  if negb (CHECK_FLAG flag (Z.lor BGP_INFO_VALID BGP_INFO_UNUSEABLE)) then Ret R
  else bgp_pcount_adjust R ri.

Definition bgp_info_delete (R : rib) (ri : Z) : res rib :=
  R ← bgp_info_set_flag R ri BGP_INFO_REMOVED;
  i ← deref (infos R) ri;
  Ret (put_info R ri (with_flags i (UNSET_FLAG (i_flags i) BGP_INFO_VALID))).

Definition bgp_info_restore (R : rib) (ri : Z) : res rib :=
  R ← bgp_info_unset_flag R ri BGP_INFO_REMOVED;
  i ← deref (infos R) ri;
  Ret (put_info R ri (with_flags i (SET_FLAG (i_flags i) BGP_INFO_VALID))).

Lemma deref_ok {A} (m : gmap Z A) a x : m !! a = Some x -> deref m a = Ret x.
Proof. intros H. unfold deref. by rewrite H. Qed.

(** ** Flags as bits *)
#[local] Arguments Z.testbit : simpl never.
#[local] Arguments Z.pow : simpl never.
Definition flag (i : bgp_info) (k : Z) : bool := Z.testbit (i_flags i) k.
#[global] Arguments flag : simpl never.

Lemma land_pow2 v k : 0 <= k -> Z.land v (2 ^ k) = if Z.testbit v k then 2 ^ k else 0.
Proof.
  intros Hk. apply Z.bits_inj'. intros j Hj. rewrite Z.land_spec, Z.pow2_bits_eqb by done.
  destruct (Z.eqb_spec k j) as [->|Hne].
  - destruct (Z.testbit v j) eqn:E; [by rewrite Z.pow2_bits_true|by rewrite Z.bits_0].
  - rewrite andb_false_r. destruct (Z.testbit v k); [|by rewrite Z.bits_0].
    by rewrite Z.pow2_bits_false.
Qed.

Lemma CHECK_FLAG_bit v k : 0 <= k -> CHECK_FLAG v (2 ^ k) = Z.testbit v k.
Proof.
  intros Hk. unfold CHECK_FLAG. rewrite land_pow2 by done.
  pose proof (Z.pow_pos_nonneg 2 k ltac:(lia) Hk).
  destruct (Z.testbit v k); [|done]. apply negb_true_iff, Z.eqb_neq. lia.
Qed.

Lemma CHECK_FLAG_lor v f g : CHECK_FLAG v (Z.lor f g) = CHECK_FLAG v f || CHECK_FLAG v g.
Proof.
  unfold CHECK_FLAG. rewrite Z.land_lor_distr_r, <- negb_andb. f_equal.
  destruct (Z.eqb_spec (Z.land v f) 0) as [->|Hf]; [done|].
  simpl. apply Z.eqb_neq. intros H%Z.lor_eq_0_iff. tauto.
Qed.

Lemma SET_FLAG_bit v f k : 0 <= k < 16 ->
  Z.testbit (SET_FLAG v f) k = Z.testbit v k || Z.testbit f k.
Proof.
  intros Hk. unfold SET_FLAG, u16. rewrite Z.mod_pow2_bits_low by lia. apply Z.lor_spec.
Qed.

Lemma UNSET_FLAG_bit v f k : 0 <= k < 16 ->
  Z.testbit (UNSET_FLAG v f) k = Z.testbit v k && negb (Z.testbit f k).
Proof.
  intros Hk. unfold UNSET_FLAG, u16. rewrite Z.mod_pow2_bits_low by lia.
  rewrite Z.land_spec, Z.lnot_spec by lia. done.
Qed.

Lemma holddown_bits i :
  BGP_INFO_HOLDDOWN i = negb (flag i 4) || (flag i 2 || flag i 1 || flag i 9).
Proof.
  unfold BGP_INFO_HOLDDOWN, BGP_INFO_UNUSEABLE. rewrite !CHECK_FLAG_lor.
  unfold BGP_INFO_VALID, BGP_INFO_HISTORY, BGP_INFO_DAMPED, BGP_INFO_REMOVED.
  by rewrite !CHECK_FLAG_bit by lia.
Qed.

Lemma counted_bit i : CHECK_FLAG (i_flags i) BGP_INFO_COUNTED = flag i 10.
Proof. by apply CHECK_FLAG_bit. Qed.

(** ** The prefix count *)

(** Paths of peer [q] that are in use. *)
Definition in_use (q : Z) (i : bgp_info) : bool := (i_peer i =? q) && negb (BGP_INFO_HOLDDOWN i).
Definition usable (m : gmap Z bgp_info) (q : Z) : Z :=
  Z.of_nat (size (filter (fun ai => in_use q ai.2 = true) m)).

Lemma usable_delete m a i q : m !! a = Some i ->
  usable m q = usable (delete a m) q + Z.b2z (in_use q i).
Proof.
  intros Ha. unfold usable. rewrite <- (insert_delete_id m a i Ha) at 1.
  destruct (in_use q i) eqn:E.
  - rewrite map_filter_insert_True by done. rewrite map_size_insert_None; [simpl; lia|].
    apply map_lookup_filter_None. left. apply lookup_delete_eq.
  - rewrite map_filter_insert_False by (simpl; congruence). rewrite delete_delete_eq. simpl. lia.
Qed.

Lemma usable_insert m a i j q : m !! a = Some i ->
  usable (<[a := j]> m) q = usable m q - Z.b2z (in_use q i) + Z.b2z (in_use q j).
Proof.
  intros Ha. rewrite (usable_delete _ a j) by apply lookup_insert_eq.
  rewrite delete_insert_eq, (usable_delete m a i q Ha). lia.
Qed.

Lemma usable_bounds m q : 0 <= usable m q <= Z.of_nat (size m).
Proof.
  unfold usable. split; [lia|]. apply Nat2Z.inj_le, map_subseteq_size, map_filter_subseteq.
Qed.

(** Every path is counted exactly when it is usable, and a peer's count is
    [base], what the paths of other nodes contribute, plus its usable paths. *)
Record pcount_inv (base : Z -> Z) (R : rib) : Prop := {
  inv_node : exists n, node R = Some n /\ t_type n = BGP_TABLE_MAIN;
  inv_info : forall a i, infos R !! a = Some i ->
    (exists p b, peers R !! i_peer i = Some p /\ p_bgp p = Some b /\ i_peer i <> peer_self b)
    /\ flag i 10 = negb (BGP_INFO_HOLDDOWN i);
  inv_count : forall q p n, node R = Some n -> peers R !! q = Some p ->
    0 <= base q /\ base q + Z.of_nat (size (infos R)) < 2 ^ 64
    /\ pcount_of p n = base q + usable (infos R) q;
}.

Lemma in_use_eq q i : i_peer i = q -> in_use q i = negb (BGP_INFO_HOLDDOWN i).
Proof. intros <-. unfold in_use. by rewrite Z.eqb_refl. Qed.

Lemma in_use_ne q i : i_peer i <> q -> in_use q i = false.
Proof. intros H. unfold in_use. apply Z.eqb_neq in H. by rewrite H. Qed.

(** Writing flags that keep the usability of a path keeps the invariant. *)
Lemma inv_put_same base R a i v : pcount_inv base R -> infos R !! a = Some i ->
  BGP_INFO_HOLDDOWN (with_flags i v) = BGP_INFO_HOLDDOWN i -> Z.testbit v 10 = flag i 10 ->
  pcount_inv base (put_info R a (with_flags i v)).
Proof.
  intros [Hn Hi Hc] Ha Hh H10. split; [done| |].
  - intros b j Hb. unfold put_info in *; simpl in *.
    apply lookup_insert_Some in Hb as [[<- <-]|[_ Hb]]; [|by apply (Hi b)].
    destruct (Hi a i Ha) as [? Hf]. split; [done|]. rewrite Hh, <- Hf. done.
  - intros q p n HN Hp. simpl in *. destruct (Hc q p n HN Hp) as (?&?&->).
    split_and!; [done| |].
    + rewrite map_size_insert_Some by eauto. done.
    + rewrite (usable_insert _ _ i) by done. unfold in_use. rewrite Hh. simpl. lia.
Qed.

(** The state after a recount: path [a] has flags [v], counted or not. *)
Lemma inv_put_count base R a i p n v c : pcount_inv base R -> infos R !! a = Some i ->
  node R = Some n -> peers R !! i_peer i = Some p ->
  Z.testbit v 10 = negb (BGP_INFO_HOLDDOWN (with_flags i v)) ->
  c = pcount_of p n - Z.b2z (flag i 10) + Z.b2z (Z.testbit v 10) ->
  pcount_inv base (set_pcount (put_info R a (with_flags i v)) (i_peer i) p n c).
Proof.
  intros [Hn Hi Hc] Ha HN HP Hv Hcc. unfold set_pcount, put_info. split; [done| |]; simpl.
  - intros b j Hb.
    assert (flag j 10 = negb (BGP_INFO_HOLDDOWN j) /\
            exists p' b', peers R !! i_peer j = Some p' /\ p_bgp p' = Some b'
                          /\ i_peer j <> peer_self b') as [Hf (p' & b' & Hp' & Hb' & Hne)].
    { apply lookup_insert_Some in Hb as [[<- <-]|[_ Hb]]; [|destruct (Hi b j Hb); auto].
      split; [done|]. by destruct (Hi a i Ha). }
    split; [|done]. destruct (decide (i_peer j = i_peer i)) as [E|E].
    + rewrite E, lookup_insert_eq. rewrite E in Hp'. assert (p' = p) as -> by congruence.
      exists (with_pcount p (<[(t_afi n, t_safi n) := c]> (pcount p))), b'. by rewrite <- E.
    + rewrite lookup_insert_ne by done. eauto.
  - intros q p' n' HN' Hp'. assert (n' = n) as -> by congruence.
    rewrite map_size_insert_Some by eauto. rewrite (usable_insert _ _ i) by done.
    destruct (Hi a i Ha) as [_ Hf]. apply lookup_insert_Some in Hp' as [[<- <-]|[Hq Hp']].
    + destruct (Hc _ _ _ HN HP) as (?&?&Hpc). split_and!; [done..|].
      rewrite !in_use_eq by done. rewrite <- Hf, <- Hv.
      unfold pcount_of, flag in *. simpl. rewrite lookup_insert_eq. simpl. lia.
    + destruct (Hc _ _ _ HN Hp') as (?&?&->). split_and!; [done..|].
      rewrite !in_use_ne by done. simpl. lia.
Qed.

(** [v] with the COUNTED bit set to [c]. *)
Definition recount (v : Z) (c : bool) : Z :=
  if c then SET_FLAG v BGP_INFO_COUNTED else UNSET_FLAG v BGP_INFO_COUNTED.

Lemma recount_bit v c k : 0 <= k < 16 ->
  Z.testbit (recount v c) k = if k =? 10 then c else Z.testbit v k.
Proof.
  intros Hk. unfold recount, BGP_INFO_COUNTED.
  destruct c; [rewrite SET_FLAG_bit by done|rewrite UNSET_FLAG_bit by done];
    destruct (Z.eqb_spec k 10) as [->|Hne];
    rewrite ?Z.pow2_bits_true, ?Z.pow2_bits_false by lia;
    by rewrite ?orb_true_r, ?andb_false_r, ?orb_false_r, ?andb_true_r.
Qed.

Lemma holddown_recount i v c :
  BGP_INFO_HOLDDOWN (with_flags i (recount v c)) = BGP_INFO_HOLDDOWN (with_flags i v).
Proof. rewrite !holddown_bits. unfold flag. simpl. by rewrite !recount_bit by lia. Qed.

(** What [bgp_pcount_adjust] does to a path of an ordinary peer. *)
Lemma adjust_eq R a i p b n :
  node R = Some n -> t_type n = BGP_TABLE_MAIN -> infos R !! a = Some i ->
  peers R !! i_peer i = Some p -> p_bgp p = Some b -> i_peer i <> peer_self b ->
  (flag i 10 = true -> 0 < pcount_of p n) ->
  (flag i 10 = false -> 0 <= pcount_of p n < 2 ^ 64 - 1) ->
  let u := negb (BGP_INFO_HOLDDOWN i) in
  bgp_pcount_adjust R a = Ret (if Bool.eqb (flag i 10) u then R
    else set_pcount (put_info R a (with_flags i (recount (i_flags i) u))) (i_peer i) p n
           (pcount_of p n - Z.b2z (flag i 10) + Z.b2z u)).
Proof.
  intros HN HT Ha HP HB Hself Hpos Hmax. unfold bgp_pcount_adjust, get_node, deref.
  rewrite HN. simpl. rewrite Ha. simpl. rewrite HP. simpl. rewrite HB.
  rewrite bool_decide_false by (rewrite HT; tauto). apply Z.eqb_neq in Hself. rewrite Hself.
  rewrite counted_bit.
  destruct (BGP_INFO_HOLDDOWN i), (flag i 10) eqn:Ec; cbn [negb andb orb Bool.eqb Z.b2z]; try done.
  - destruct (Z.eqb_spec (pcount_of p n) 0) as [H|_]; [specialize (Hpos eq_refl); lia|].
    cbn [negb]. do 2 f_equal. lia.
  - rewrite u64_id by (specialize (Hmax eq_refl); lia). do 2 f_equal. lia.
Qed.

(** [bgp_pcount_adjust] re-establishes the invariant after a flag change. *)
Lemma adjust_sync base R a i v : pcount_inv base R -> infos R !! a = Some i ->
  Z.testbit v 10 = flag i 10 ->
  exists R' v', bgp_pcount_adjust (put_info R a (with_flags i v)) a = Ret R' /\
    pcount_inv base R' /\ infos R' = <[a := with_flags i v']> (infos R) /\ node R' = node R /\
    (forall k, 0 <= k < 16 -> k <> 10 -> Z.testbit v' k = Z.testbit v k).
Proof.
  intros Hinv Ha H10. pose proof Hinv as [[n [HN HT]] Hi Hc].
  destruct (Hi a i Ha) as [(p & b & HP & HB & Hself) Hf].
  destruct (Hc _ _ _ HN HP) as (Hb1 & Hb2 & Hpc).
  pose proof (usable_delete _ a i (i_peer i) Ha) as Hu. rewrite in_use_eq, <- Hf in Hu by done.
  pose proof (usable_bounds (delete a (infos R)) (i_peer i)) as Hd.
  rewrite map_size_delete_Some in Hd by eauto.
  pose proof (map_size_ne_0_lookup_2 (infos R) a ltac:(eauto)) as Hs.
  pose proof (usable_bounds (infos R) (i_peer i)).
  assert (flag (with_flags i v) 10 = flag i 10) as H10' by done.
  rewrite (adjust_eq _ a (with_flags i v) p b n); simpl; try done;
    [|apply lookup_insert_eq|rewrite H10'; intros E; rewrite E in Hu; simpl in Hu; lia..].
  rewrite H10'. set (u := negb (BGP_INFO_HOLDDOWN (with_flags i v))).
  destruct (Bool.eqb (flag i 10) u) eqn:E.
  - apply eqb_prop in E. eexists _, v. split; [done|]. split_and!; try done.
    apply inv_put_same; try done. apply (f_equal negb) in Hf.
    rewrite negb_involutive in Hf. unfold u in E. rewrite <- Hf, E. by rewrite negb_involutive.
  - eexists _, (recount v u). split; [done|]. split_and!.
    + unfold put_info at 1. simpl. rewrite insert_insert_eq.
      apply (inv_put_count base R a i p n (recount v u)); try done.
      * rewrite holddown_recount. by rewrite recount_bit by lia.
      * by rewrite recount_bit by lia.
    + simpl. by rewrite insert_insert_eq.
    + done.
    + intros k Hk Hk'. rewrite recount_bit by lia. by apply Z.eqb_neq in Hk' as ->.
Qed.

(** Flag [f] touches VALID or a flag of BGP_INFO_UNUSEABLE. *)
Lemma usability_bits f :
  CHECK_FLAG f (Z.lor BGP_INFO_VALID BGP_INFO_UNUSEABLE)
  = Z.testbit f 4 || (Z.testbit f 2 || Z.testbit f 1 || Z.testbit f 9).
Proof.
  unfold BGP_INFO_UNUSEABLE. rewrite !CHECK_FLAG_lor.
  unfold BGP_INFO_VALID, BGP_INFO_HISTORY, BGP_INFO_DAMPED, BGP_INFO_REMOVED.
  by rewrite !CHECK_FLAG_bit by lia.
Qed.

(** A flag change followed by the recount the code does when it is needed. *)
Lemma flag_change_ok base R a i v f : pcount_inv base R -> infos R !! a = Some i ->
  Z.testbit f 10 = false ->
  (forall k, 0 <= k < 16 -> Z.testbit f k = false -> Z.testbit v k = flag i k) ->
  exists R' v',
    (if negb (CHECK_FLAG f (Z.lor BGP_INFO_VALID BGP_INFO_UNUSEABLE))
     then Ret (put_info R a (with_flags i v))
     else bgp_pcount_adjust (put_info R a (with_flags i v)) a) = Ret R' /\
    pcount_inv base R' /\ infos R' = <[a := with_flags i v']> (infos R) /\ node R' = node R /\
    (forall k, 0 <= k < 16 -> k <> 10 -> Z.testbit v' k = Z.testbit v k).
Proof.
  intros Hinv Ha H10 Hv. rewrite usability_bits.
  destruct (Z.testbit f 4 || _) eqn:E; simpl; [apply adjust_sync; auto with lia|].
  repeat (apply orb_false_iff in E as [E ?]); repeat match goal with
    H : _ || _ = false |- _ => apply orb_false_iff in H as [? ?] end.
  exists (put_info R a (with_flags i v)), v. split; [done|]. split_and!; try done.
  apply inv_put_same; try done; [|apply Hv; [lia|done]].
  rewrite !holddown_bits. unfold flag at 1 2 3 4. simpl. by rewrite !Hv by (lia || done).
Qed.

Lemma set_flag_ok base R a i f : pcount_inv base R -> infos R !! a = Some i ->
  Z.testbit f 10 = false ->
  exists R' v, bgp_info_set_flag R a f = Ret R' /\ pcount_inv base R' /\
    infos R' = <[a := with_flags i v]> (infos R) /\ node R' = node R /\
    (forall k, 0 <= k < 16 -> k <> 10 -> Z.testbit v k = flag i k || Z.testbit f k).
Proof.
  intros Hinv Ha H10. unfold bgp_info_set_flag, deref. rewrite Ha. simpl.
  destruct (flag_change_ok base R a i (SET_FLAG (i_flags i) f) f) as (R' & v & H1 & H2 & H3 & Hn & H4);
    try done.
  - intros k Hk Hf. rewrite SET_FLAG_bit, Hf by done. apply orb_false_r.
  - exists R', v. split_and!; try done. intros k Hk Hk'. rewrite H4 by done. by apply SET_FLAG_bit.
Qed.

Lemma unset_flag_ok base R a i f : pcount_inv base R -> infos R !! a = Some i ->
  Z.testbit f 10 = false ->
  exists R' v, bgp_info_unset_flag R a f = Ret R' /\ pcount_inv base R' /\
    infos R' = <[a := with_flags i v]> (infos R) /\ node R' = node R /\
    (forall k, 0 <= k < 16 -> k <> 10 -> Z.testbit v k = flag i k && negb (Z.testbit f k)).
Proof.
  intros Hinv Ha H10. unfold bgp_info_unset_flag, deref. rewrite Ha. simpl.
  destruct (flag_change_ok base R a i (UNSET_FLAG (i_flags i) f) f) as (R' & v & H1 & H2 & H3 & Hn & H4);
    try done.
  - intros k Hk Hf. rewrite UNSET_FLAG_bit, Hf by done. apply andb_true_r.
  - exists R', v. split_and!; try done. intros k Hk Hk'. rewrite H4 by done. by apply UNSET_FLAG_bit.
Qed.

(** [bgp_info_delete]: the path is out of use and no longer counted. *)
Lemma delete_ok base R a i : pcount_inv base R -> infos R !! a = Some i ->
  exists R' v, bgp_info_delete R a = Ret R' /\ pcount_inv base R' /\
    infos R' = <[a := with_flags i v]> (infos R) /\ node R' = node R /\
    Z.testbit v 4 = false /\ Z.testbit v 9 = true /\ Z.testbit v 10 = false /\
    Z.testbit v 1 = flag i 1 /\ Z.testbit v 2 = flag i 2.
Proof.
  intros Hinv Ha. unfold bgp_info_delete.
  destruct (set_flag_ok base R a i BGP_INFO_REMOVED) as (R1 & v & E & Hinv1 & Hm & Hn & Hv); try done.
  rewrite E. simpl. unfold deref. rewrite Hm, lookup_insert_eq. simpl.
  pose proof (Hv 9 ltac:(lia) ltac:(lia)) as H9. rewrite orb_true_r in H9.
  assert (Ha1 : infos R1 !! a = Some (with_flags i v)) by (rewrite Hm; apply lookup_insert_eq).
  set (w := UNSET_FLAG v BGP_INFO_VALID).
  assert (Hw : forall k, 0 <= k < 16 -> Z.testbit w k = if k =? 4 then false else Z.testbit v k).
  { intros k Hk. unfold w, BGP_INFO_VALID. rewrite UNSET_FLAG_bit by done.
    destruct (Z.eqb_spec k 4) as [->|Hne]; [by rewrite Z.pow2_bits_true, andb_false_r by lia|].
    by rewrite Z.pow2_bits_false, andb_true_r by lia. }
  assert (Hd : BGP_INFO_HOLDDOWN (with_flags i v) = true).
  { rewrite holddown_bits. unfold flag at 4. simpl. by rewrite H9, !orb_true_r. }
  destruct (inv_info _ _ Hinv1 a _ Ha1) as [_ H10]. rewrite Hd in H10. simpl in H10.
  exists (put_info R1 a (with_flags i w)), w. split; [done|]. split_and!.
  - apply (inv_put_same base R1 a (with_flags i v) w); try done.
    + rewrite Hd, holddown_bits. unfold flag. simpl. by rewrite !Hw, H9, !orb_true_r by lia.
    + by rewrite Hw by lia.
  - simpl. by rewrite Hm, insert_insert_eq.
  - done.
  - by rewrite Hw by lia.
  - by rewrite Hw, H9 by lia.
  - by rewrite Hw by lia.
  - rewrite Hw, Hv by lia. apply orb_false_r.
  - rewrite Hw, Hv by lia. apply orb_false_r.
Qed.

(** What the rest of bgpd does to a path: change its flags, delete it, or bring
    a deleted one back the way [bgp_update] does, with a restore followed by
    setting VALID. *)
Inductive flag_op :=
| OpSet (ri f : Z)
| OpUnset (ri f : Z)
| OpDelete (ri : Z)
| OpRevive (ri : Z).

Definition run_flag_op (R : rib) (o : flag_op) : res rib :=
  match o with
  | OpSet ri f => bgp_info_set_flag R ri f
  | OpUnset ri f => bgp_info_unset_flag R ri f
  | OpDelete ri => bgp_info_delete R ri
  | OpRevive ri => R ← bgp_info_restore R ri; bgp_info_set_flag R ri BGP_INFO_VALID
  end.

Fixpoint run_flag_ops (R : rib) (os : list flag_op) : res rib :=
  match os with
  | [] => Ret R
  | o :: os => R ← run_flag_op R o; run_flag_ops R os
  end.

(** The path exists, and nobody but the recount writes COUNTED. *)
Definition flag_op_ok (R : rib) (o : flag_op) : Prop :=
  match o with
  | OpSet ri f | OpUnset ri f => ri ∈ dom (infos R) /\ Z.testbit f 10 = false
  | OpDelete ri | OpRevive ri => ri ∈ dom (infos R)
  end.

Lemma revive_ok base R a i : pcount_inv base R -> infos R !! a = Some i ->
  exists R' v, run_flag_op R (OpRevive a) = Ret R' /\ pcount_inv base R' /\
    infos R' = <[a := with_flags i v]> (infos R).
Proof.
  intros Hinv Ha. simpl. unfold bgp_info_restore.
  destruct (unset_flag_ok base R a i BGP_INFO_REMOVED) as (R1 & v & E & Hinv1 & Hm & Hn & Hv); try done.
  rewrite E. simpl. unfold deref. rewrite Hm, lookup_insert_eq. simpl.
  assert (Ha1 : infos R1 !! a = Some (with_flags i v)) by (rewrite Hm; apply lookup_insert_eq).
  unfold bgp_info_set_flag, deref, put_info. simpl. rewrite lookup_insert_eq. simpl.
  rewrite insert_insert_eq. set (w := SET_FLAG (SET_FLAG v BGP_INFO_VALID) BGP_INFO_VALID).
  destruct (flag_change_ok base R1 a (with_flags i v) w BGP_INFO_VALID)
    as (R2 & u & E2 & Hinv2 & Hm2 & _); try done.
  { intros k Hk Hf. unfold w. rewrite !SET_FLAG_bit, Hf, !orb_false_r by done. done. }
  exists R2, u. split_and!; [exact E2|done|]. by rewrite Hm2, Hm, insert_insert_eq.
Qed.

Lemma run_flag_op_ok base R o : pcount_inv base R -> flag_op_ok R o ->
  exists R', run_flag_op R o = Ret R' /\ pcount_inv base R' /\ dom (infos R') = dom (infos R).
Proof.
  intros Hinv Ho.
  assert (Hdom : forall a (i j : bgp_info), infos R !! a = Some i ->
            dom (<[a := j]> (infos R)) = dom (infos R)).
  { intros a i j Ha. apply dom_insert_lookup_L. eauto. }
  destruct o as [a f|a f|a|a]; cbn [flag_op_ok] in Ho;
    [destruct Ho as [[i Ha]%elem_of_dom Hf]..|apply elem_of_dom in Ho as [i Ha]|
     apply elem_of_dom in Ho as [i Ha]]; cbn [run_flag_op].
  - destruct (set_flag_ok base R a i f) as (R' & v & E & ? & Hm & _); try done.
    exists R'. rewrite Hm. eauto.
  - destruct (unset_flag_ok base R a i f) as (R' & v & E & ? & Hm & _); try done.
    exists R'. rewrite Hm. eauto.
  - destruct (delete_ok base R a i) as (R' & v & E & ? & Hm & _); try done.
    exists R'. rewrite Hm. eauto.
  - destruct (revive_ok base R a i) as (R' & v & E & ? & Hm); try done.
    exists R'. rewrite Hm. eauto.
Qed.

(** C10. The prefix count of a peer stays exact.  From a state in which every
    path at the node is counted exactly when it is usable, any sequence of flag
    changes, deletions and re-additions ([bgp_info_restore] followed by setting
    VALID) runs without fault and ends in such a state: [pcount] of every peer is
    its contribution from other nodes plus the number of its paths that are not
    held down. *)
Theorem pcount_tracks_usable base R os :
  pcount_inv base R -> Forall (flag_op_ok R) os ->
  exists R', run_flag_ops R os = Ret R' /\ pcount_inv base R'.
Proof.
  intros Hinv Hos. revert R Hinv Hos. induction os as [|o os IH]; intros R Hinv Hos; [by exists R|].
  apply Forall_cons in Hos as [Ho Hos]. cbn [run_flag_ops].
  destruct (run_flag_op_ok base R o Hinv Ho) as (R1 & -> & Hinv1 & Hd). cbn.
  apply IH; [done|]. eapply Forall_impl; [exact Hos|]. intros [] ; simpl; by rewrite Hd.
Qed.

(** [bgp_info_restore] does not undo [bgp_info_delete] for the prefix count:
    whatever usable path of an ordinary peer is deleted and restored, it ends up
    usable but not counted, and the peer's count is one too low; the comment
    "unset of previous already took care of pcount" holds only for the delete,
    because VALID is still clear when the unset recounts. *)
Theorem info_restore_undercounts base R a i p n :
  pcount_inv base R -> infos R !! a = Some i -> BGP_INFO_HOLDDOWN i = false ->
  node R = Some n -> peers R !! i_peer i = Some p ->
  exists R' i' p',
    (R1 ← bgp_info_delete R a; bgp_info_restore R1 a) = Ret R' /\
    infos R' !! a = Some i' /\ BGP_INFO_HOLDDOWN i' = false /\ flag i' 10 = false /\
    peers R' !! i_peer i = Some p' /\ pcount_of p' n = pcount_of p n - 1.
Proof.
  intros Hinv Ha Hu HN HP. rewrite holddown_bits in Hu.
  repeat match goal with H : _ || _ = false |- _ => apply orb_false_iff in H as [? ?] end.
  destruct (delete_ok base R a i) as (R1 & v & E & Hinv1 & Hm & Hn & B4 & B9 & B10 & B1 & B2); try done.
  assert (Ha1 : infos R1 !! a = Some (with_flags i v)) by (rewrite Hm; apply lookup_insert_eq).
  rewrite E. cbn. unfold bgp_info_restore.
  destruct (unset_flag_ok base R1 a (with_flags i v) BGP_INFO_REMOVED)
    as (R2 & v2 & E2 & Hinv2 & Hm2 & Hn2 & Hv2); try done.
  assert (Ha2 : infos R2 !! a = Some (with_flags i v2)) by (rewrite Hm2; apply lookup_insert_eq).
  rewrite E2. simpl. unfold deref. rewrite Ha2. simpl.
  destruct (inv_info _ _ Hinv2 a _ Ha2) as [(p' & b & HP' & _) Hf].
  assert (Hd : BGP_INFO_HOLDDOWN (with_flags i v2) = true).
  { rewrite holddown_bits. unfold flag at 1. simpl. rewrite Hv2 by lia. unfold flag. simpl.
    by rewrite B4. }
  rewrite Hd in Hf. simpl in HP'.
  eexists _, _, p'. split_and!; [done|simpl; apply lookup_insert_eq| | |done|].
  - rewrite holddown_bits. unfold flag. simpl. rewrite !SET_FLAG_bit, !Hv2 by lia.
    unfold flag. simpl. rewrite B4, B9, B1, B2. unfold flag in *. simpl.
    by repeat match goal with H : Z.testbit (i_flags i) _ = false |- _ => rewrite H end.
  - unfold flag in *. simpl in *. rewrite SET_FLAG_bit, Hf by lia. done.
  - destruct (inv_count _ _ Hinv _ _ _ HN HP) as (_ & _ & ->).
    destruct (inv_count _ _ Hinv2 _ p' n ltac:(congruence) HP') as (_ & _ & ->).
    rewrite Hm2, Hm, insert_insert_eq, (usable_insert _ _ i) by done.
    change (with_flags (with_flags i v) v2) with (with_flags i v2).
    rewrite !in_use_eq, Hd by done. rewrite holddown_bits. unfold flag in *.
    repeat match goal with H : Z.testbit (i_flags i) _ = false |- _ => rewrite H end.
    match goal with H : negb _ = false |- _ => rewrite H end. simpl. lia.
Qed.

(** ** A concrete node: two paths of one peer, one of them held down *)
Definition sample_bgp : bgp := Bgp 1 0 0 0 [] 100 900.
Definition sample_peer : bgp_peer :=
  BgpPeer (Some sample_bgp) 2 1 0 [] false 10 (Some (SU 2 7 [])) 3 {[(1, 1) := 5]}.
Definition sample_info (next prev : option Z) (flags : Z) : bgp_info :=
  Info next prev 50 None None 1 flags 9 0.
Definition sample_rib : rib :=
  Rib {[1 := sample_info (Some 2) None (2 ^ 4 + 2 ^ 10); 2 := sample_info None (Some 1) 0]}
      ∅ {[50 := sample_peer]} (Some (Node (Some 1) 3 false false BGP_TABLE_MAIN 1 1)).

Lemma sample_rib_inv : pcount_inv (fun _ => 4) sample_rib.
Proof.
  split.
  - by eexists.
  - intros a i Ha. simpl in Ha.
    apply lookup_insert_Some in Ha as [[<- <-]|[_ Ha]];
      [|apply lookup_singleton_Some in Ha as [<- <-]];
      (split; [eexists _, _; split_and!; [apply lookup_singleton_eq|done|done]|done]).
  - intros q p n [= <-] Hp. cbn [peers sample_rib] in Hp.
    apply lookup_singleton_Some in Hp as [<- <-]. by vm_compute.
Qed.

Lemma pcount_tracks_usable_witness :
  exists R', run_flag_ops sample_rib
    [OpDelete 1; OpRevive 1; OpSet 2 BGP_INFO_VALID; OpSet 1 BGP_INFO_HISTORY] = Ret R'
  /\ pcount_inv (fun _ => 4) R'.
Proof.
  apply (pcount_tracks_usable (fun _ => 4) sample_rib); [apply sample_rib_inv|].
  repeat constructor; set_solver.
Defined.

Lemma info_restore_undercounts_witness :
  exists R' i' p',
    (R1 ← bgp_info_delete sample_rib 1; bgp_info_restore R1 1) = Ret R' /\
    infos R' !! 1 = Some i' /\ BGP_INFO_HOLDDOWN i' = false /\ flag i' 10 = false /\
    peers R' !! 50 = Some p' /\
    pcount_of p' (Node (Some 1) 3 false false BGP_TABLE_MAIN 1 1) = 5 - 1.
Proof.
  apply (info_restore_undercounts (fun _ => 4) sample_rib 1
           (sample_info (Some 2) None (2 ^ 4 + 2 ^ 10)) sample_peer);
    [apply sample_rib_inv|done..].
Defined.
