(* ===== verification/RouteList.v ===== *)
(** * bgpd/bgp_route.c: the list of paths of a node

    [bgp_info_add] and [bgp_info_reap] maintain the doubly chained list of the
    paths of a node together with the reference counts of the path, the node and
    the peer.  [path_list R l] says that the node of [R] chains exactly the paths
    [l]; the theorem shows that the two operations implement adding at the head
    and removing. *)
From stdpp Require Import base option list gmap.
From Stdlib Require Import ZArith Lia.
From S2P Require Import Prelude RouteInfo.

(** The element [l] starts with, [q] for the empty list; and the one it ends
    with, [p] for the empty list. *)
Definition first (l : list Z) (q : option Z) : option Z :=
  match l with [] => q | x :: _ => Some x end.
Fixpoint final (p : option Z) (l : list Z) : option Z :=
  match l with [] => p | x :: l => final (Some x) l end.

(** The paths [l] are chained: [p] is before the first, [q] after the last. *)
Fixpoint chained (m : gmap Z bgp_info) (p : option Z) (l : list Z) (q : option Z) : Prop :=
  match l with
  | [] => True
  | a :: l => (exists i, m !! a = Some i /\ i_prev i = p /\ i_next i = first l q)
              /\ chained m (Some a) l q
  end.

Lemma first_app l k q : first (l ++ k) q = first l (first k q).
Proof. by destruct l. Qed.

Lemma final_app p l k : final p (l ++ k) = final (final p l) k.
Proof. revert p. induction l as [|x l IH]; intros p; simpl; auto. Qed.

Lemma chained_app m p l k q :
  chained m p (l ++ k) q <-> chained m p l (first k q) /\ chained m (final p l) k q.
Proof.
  revert p. induction l as [|x l IH]; intros p; simpl; [tauto|].
  rewrite IH, first_app. tauto.
Qed.

Lemma chained_frame m p l q a i : a ∉ l -> chained m p l q -> chained (<[a := i]> m) p l q.
Proof.
  revert p. induction l as [|x l IH]; intros p Hni; simpl; [done|].
  apply not_elem_of_cons in Hni as [Hx Hni]. intros [(j & Hj & ?) Hl].
  split; [|by apply IH]. exists j. by rewrite lookup_insert_ne.
Qed.

Lemma chained_frame_delete m p l q a : a ∉ l -> chained m p l q -> chained (delete a m) p l q.
Proof.
  revert p. induction l as [|x l IH]; intros p Hni; simpl; [done|].
  apply not_elem_of_cons in Hni as [Hx Hni]. intros [(j & Hj & ?) Hl].
  split; [|by apply IH]. exists j. by rewrite lookup_delete_ne.
Qed.

Lemma chained_update m p l q a i j : m !! a = Some i -> i_next j = i_next i -> i_prev j = i_prev i ->
  chained m p l q -> chained (<[a := j]> m) p l q.
Proof.
  intros Ha Hn Hp. revert p. induction l as [|x l IH]; intros p; simpl; [done|].
  intros [(k & Hk & ? & ?) Hl]. split; [|by apply IH]. destruct (decide (a = x)) as [->|Hne].
  - simplify_eq. exists j. rewrite lookup_insert_eq. split_and!; congruence.
  - exists k. by rewrite lookup_insert_ne.
Qed.

(** Rewriting the [prev] pointer of the first path. *)
Lemma chained_set_prev m p p' x l q i : m !! x = Some i -> x ∉ l ->
  chained m p (x :: l) q -> chained (<[x := with_prev i p']> m) p' (x :: l) q.
Proof.
  intros Hx Hni [(j & Hj & Hp & Hq) Hl]. simplify_eq. split; [|by apply chained_frame].
  exists (with_prev i p'). rewrite lookup_insert_eq. auto.
Qed.

(** Rewriting the [next] pointer of the last path. *)
Lemma chained_set_next m p l x q q' i : m !! x = Some i -> x ∉ l ->
  chained m p (l ++ [x]) q -> chained (<[x := with_next i q']> m) p (l ++ [x]) q'.
Proof.
  intros Hx Hni. rewrite !chained_app. intros [Hl [(j & Hj & Hp & Hq) _]]. simplify_eq.
  split; [by apply chained_frame|]. split; [|done].
  exists (with_next i q'). rewrite lookup_insert_eq. auto.
Qed.

(** The node chains exactly the paths [l]. *)
Definition path_list (R : rib) (l : list Z) : Prop :=
  exists n, node R = Some n /\ n_info n = first l None /\ chained (infos R) None l None /\ NoDup l.

(** Paths keep everything but their links. *)
Definition same_path (i j : bgp_info) : Prop :=
  i_peer i = i_peer j /\ i_attr i = i_attr j /\ i_igpmetric i = i_igpmetric j /\
  i_flags i = i_flags j /\ i_type i = i_type j /\ i_sub_type i = i_sub_type j.
#[export] Instance same_path_equiv : Equivalence same_path.
Proof.
  unfold same_path. split; [done|intros ?? (?&?&?&?&?&?)|
    intros ??? (?&?&?&?&?&?) (?&?&?&?&?&?)]; split_and!; congruence.
Qed.

(** Every path but [a] is there as before, links apart. *)
Definition same_entry (i j : bgp_info) : Prop := same_path i j /\ i_lock i = i_lock j.
#[export] Instance same_entry_equiv : Equivalence same_entry.
Proof.
  split; [done|intros ?? [? ?]|intros ??? [? ?] [? ?]]; split; (by etrans) || by symmetry.
Qed.
Definition others_kept (m m' : gmap Z bgp_info) (a : Z) : Prop :=
  forall b, b <> a -> option_Forall2 same_entry (m !! b) (m' !! b).

Lemma others_kept_insert m a b i j : m !! b = Some i -> same_entry i j ->
  others_kept m (<[b := j]> m) a.
Proof.
  intros Hb Hs c _. destruct (decide (b = c)) as [->|Hne].
  - rewrite Hb, lookup_insert_eq. by constructor.
  - rewrite lookup_insert_ne by done. by destruct (m !! c); constructor.
Qed.

Lemma others_kept_self m a j : others_kept m (<[a := j]> m) a.
Proof. intros b Hb. rewrite lookup_insert_ne by done. by destruct (m !! b); constructor. Qed.

Lemma others_kept_delete m a : others_kept m (delete a m) a.
Proof. intros b Hb. rewrite lookup_delete_ne by done. by destruct (m !! b); constructor. Qed.

Lemma others_kept_trans m1 m2 m3 a :
  others_kept m1 m2 a -> others_kept m2 m3 a -> others_kept m1 m3 a.
Proof.
  intros H1 H2 b Hb. specialize (H1 b Hb). specialize (H2 b Hb).
  destruct H1 as [i j Hij|]; inversion H2 as [j' k Hjk|]; subst; constructor. by etrans.
Qed.

(** ** Adding *)

(** The heap with [ri] put before the chain [l]. *)
Lemma add_chain m l ri i : chained m None l None -> NoDup l -> ri ∉ l -> m !! ri = Some i ->
  exists m', (match first l None with
    | Some t => ti ← deref (<[ri := with_prev (with_next i (first l None)) None]> m) t;
        Ret (<[t := with_prev ti (Some ri)]> (<[ri := with_prev (with_next i (first l None)) None]> m))
    | None => Ret (<[ri := with_prev (with_next i (first l None)) None]> m)
    end) = Ret m' /\ chained m' None (ri :: l) None /\
    m' !! ri = Some (with_prev (with_next i (first l None)) None) /\ others_kept m m' ri.
Proof.
  intros Hl Hnd Hni Hi. destruct l as [|t l]; simpl first.
  - eexists. split; [done|]. rewrite lookup_insert_eq. split; [|split; [done|apply others_kept_self]].
    split; [|done]. eexists. rewrite lookup_insert_eq. auto.
  - apply not_elem_of_cons in Hni as [Hne Hni]. apply NoDup_cons in Hnd as [Ht Hnd].
    set (m1 := <[ri := with_prev (with_next i (Some t)) None]> m).
    assert (Hl1 : chained m1 None (t :: l) None)
      by (apply chained_frame; [by apply not_elem_of_cons|done]).
    destruct Hl as [(ti & Hti & _) _].
    assert (Hti1 : m1 !! t = Some ti) by (unfold m1; by rewrite lookup_insert_ne).
    unfold deref. rewrite Hti1. simpl. eexists. split; [done|].
    assert (E : <[t := with_prev ti (Some ri)]> m1 !! ri
                = Some (with_prev (with_next i (Some t)) None))
      by (rewrite lookup_insert_ne by done; apply lookup_insert_eq).
    split; [|split; [done|]].
    + split; [|by eapply chained_set_prev]. eexists. split; [done|]. auto.
    + eapply others_kept_trans; [apply others_kept_self|]. by eapply others_kept_insert.
Qed.

(** [bgp_info_add]: a path that is not yet at the node becomes the first of
    its list; the list stays well linked, the other paths keep their contents,
    and the path, the node and the path's peer gain one reference each. *)
Theorem info_add_spec R l ri i p n :
  path_list R l -> ri ∉ l -> infos R !! ri = Some i -> node R = Some n ->
  peers R !! i_peer i = Some p -> 0 <= p_lock p ->
  exists R' i', bgp_info_add R ri = Ret R' /\ path_list R' (ri :: l) /\
    infos R' !! ri = Some i' /\ same_path i i' /\ i_lock i' = i_lock i + 1 /\
    others_kept (infos R) (infos R') ri /\
    node R' = Some (with_node_lock (with_node_info n (Some ri)) (n_lock n + 1)) /\
    peers R' = <[i_peer i := with_peer_lock p (p_lock p + 1)]> (peers R).
Proof.
  intros (n' & HN' & Hhd & Hl & Hnd) Hni Hi HN HP Hpl. assert (n' = n) as -> by congruence.
  destruct (add_chain (infos R) l ri i Hl Hnd Hni Hi) as (m & Em & Hlm & Him & Hok).
  unfold bgp_info_add, get_node. rewrite HN. simpl. rewrite (deref_ok _ _ _ Hi). simpl.
  rewrite Hhd.
  assert (match first l None with
      | Some t => ti ← deref (<[ri := with_prev (with_next i (first l None)) None]> (infos R)) t;
          Ret (put_info (put_info R ri (with_prev (with_next i (first l None)) None)) t
                 (with_prev ti (Some ri)))
      | None => Ret (put_info R ri (with_prev (with_next i (first l None)) None))
      end = Ret (set_infos R m)) as ->.
  { destruct (first l None) as [t|]; simpl in *; [|by simplify_eq].
    destruct (deref _ t) as [ti| |]; simpl in *; [by simplify_eq|done..]. }
  simpl. unfold bgp_info_lock. simpl. rewrite (deref_ok _ _ _ Him). simpl.
  unfold peer_lock. simpl. rewrite (deref_ok _ _ _ HP). simpl.
  rewrite (proj2 (Z.leb_le _ _)) by done. simpl.
  eexists _, _. split; [done|]. split_and!.
  - eexists. split_and!; [done|done| |by constructor].
    destruct Hlm as [(j & Hj & Hp & Hq) Hlm]. simplify_eq. split; [|by apply chained_frame].
    eexists. simpl. rewrite lookup_insert_eq. split_and!; done.
  - simpl. apply lookup_insert_eq.
  - done.
  - done.
  - simpl. eapply others_kept_trans; [done|]. apply others_kept_self.
  - done.
  - done.
Qed.

(** ** Removing *)

(** [ri->next->prev = ri->prev]. *)
Lemma relink_next R ri p l q : chained (infos R) (Some ri) l q -> NoDup l -> ri ∉ l ->
  exists m, (match first l None with
    | Some x => xi ← deref (infos R) x; Ret (put_info R x (with_prev xi p))
    | None => Ret R end) = Ret (set_infos R m) /\
    chained m p l q /\ m !! ri = infos R !! ri /\ others_kept (infos R) m ri /\
    (forall k p' q', (forall x, x ∈ k -> x ∉ l) -> chained (infos R) p' k q' -> chained m p' k q').
Proof.
  intros Hl Hnd Hni. destruct l as [|x l]; simpl first.
  - exists (infos R). split_and!; [by destruct R|done|done| |done].
    intros b _. by destruct (infos R !! b); constructor.
  - apply not_elem_of_cons in Hni as [Hne Hni]. apply NoDup_cons in Hnd as [Hx Hnd].
    pose proof Hl as [(xi & Hxi & _) _]. rewrite (deref_ok _ _ _ Hxi).
    exists (<[x := with_prev xi p]> (infos R)). split; [done|]. split; [|split_and!].
    + by eapply chained_set_prev.
    + by rewrite lookup_insert_ne.
    + by eapply others_kept_insert.
    + intros k p' q' Hk. apply chained_frame. intros Hin. apply (Hk x Hin). by left.
Qed.

(** [ri->prev->next = ri->next], or the node's first path. *)
Lemma relink_prev R n ri l q : node R = Some n -> chained (infos R) None l (Some ri) ->
  NoDup l -> ri ∉ l ->
  exists R', (match final None l with
    | Some x => xi ← deref (infos R) x; Ret (put_info R x (with_next xi q))
    | None => n ← get_node R; Ret (set_node R (Some (with_node_info n q))) end) = Ret R' /\
    chained (infos R') None l q /\ infos R' !! ri = infos R !! ri /\
    others_kept (infos R) (infos R') ri /\ attrs R' = attrs R /\ peers R' = peers R /\
    node R' = Some (if decide (l = []) then with_node_info n q else n) /\
    (forall k p' q', (forall x, x ∈ k -> x ∉ l) -> chained (infos R) p' k q' ->
                     chained (infos R') p' k q').
Proof.
  intros HN Hl Hnd Hni. destruct l as [|x l _] using rev_ind.
  - simpl. unfold get_node. rewrite HN. simpl. eexists. split; [done|]. split_and!; try done.
    intros b _. by destruct (infos R !! b) eqn:E; simpl; rewrite E; constructor.
  - rewrite final_app. simpl. apply NoDup_app in Hnd as (Hnd & Hx & _).
    apply not_elem_of_app in Hni as [Hni Hne]. rewrite list_elem_of_singleton in Hne.
    assert (Hxl : x ∉ l) by (intros Hin; apply (Hx x Hin); by left).
    pose proof Hl as [_ [(xi & Hxi & _) _]]%chained_app. rewrite (deref_ok _ _ _ Hxi). simpl.
    eexists. split; [done|]. simpl. split_and!; try done.
    + by eapply chained_set_next.
    + by rewrite lookup_insert_ne by congruence.
    + by eapply others_kept_insert.
    + rewrite decide_False by (by destruct l). done.
    + intros k p' q' Hk. apply chained_frame. intros Hin. apply (Hk x Hin), elem_of_app. right. by left.
Qed.

(** What [bgp_info_unlock] needs: a reference to drop and, if it is the last,
    a live attribute and a peer that others still hold. *)
Definition can_unlock (R : rib) (i : bgp_info) (p : bgp_peer) : Prop :=
  1 <= i_lock i /\ peers R !! i_peer i = Some p /\ 2 <= p_lock p /\
  forall a, i_attr i = Some a -> is_Some (attrs R !! a).

Definition unlocked_peers (R : rib) (i : bgp_info) (p : bgp_peer) : gmap Z bgp_peer :=
  if i_lock i =? 1 then <[i_peer i := with_peer_lock p (p_lock p - 1)]> (peers R) else peers R.

Definition released_attrs (R : rib) (i : bgp_info) : gmap Z attr :=
  if i_lock i =? 1 then
    match i_attr i ≫= fun a => x ← attrs R !! a; Some (a, x) with
    | Some (a, x) => let n := u64 (a_refcnt x - 1) in
        if n =? 0 then delete a (attrs R) else <[a := with_refcnt x n]> (attrs R)
    | None => attrs R
    end
  else attrs R.

Lemma info_unlock_ok R a i p : infos R !! a = Some i -> can_unlock R i p ->
  exists R', bgp_info_unlock R a = Ret R' /\ node R' = node R /\
    infos R' = (if i_lock i =? 1 then delete a (infos R)
                else <[a := with_lock i (i_lock i - 1)]> (infos R)) /\
    peers R' = unlocked_peers R i p /\ attrs R' = released_attrs R i.
Proof.
  intros Ha (Hlk & HP & Hpl & Hat). unfold bgp_info_unlock, unlocked_peers, released_attrs.
  rewrite (deref_ok _ _ _ Ha). simpl. rewrite (proj2 (Z.ltb_lt _ _)) by lia. simpl.
  replace (i_lock i - 1 =? 0) with (i_lock i =? 1)
    by (destruct (Z.eqb_spec (i_lock i) 1), (Z.eqb_spec (i_lock i - 1) 0); lia || done).
  destruct (i_lock i =? 1); [|by eexists].
  unfold bgp_info_free. simpl.
  assert (match i_attr i with Some at_ => bgp_attr_unintern R at_ | None => Ret R end
    = Ret (set_attrs R (match i_attr i ≫= fun a => x ← attrs R !! a; Some (a, x) with
        | Some (a, x) => let n := u64 (a_refcnt x - 1) in
            if n =? 0 then delete a (attrs R) else <[a := with_refcnt x n]> (attrs R)
        | None => attrs R end))) as ->.
  { destruct (i_attr i) as [at_|]; [|by destruct R].
    destruct (Hat at_ eq_refl) as [x Hx]. unfold bgp_attr_unintern.
    rewrite (deref_ok _ _ _ Hx). simpl. by rewrite Hx. }
  simpl. unfold peer_unlock. simpl. rewrite (deref_ok _ _ _ HP). simpl.
  rewrite (proj2 (Z.ltb_lt _ _)) by lia. simpl.
  rewrite (proj2 (Z.eqb_neq _ _)) by lia. simpl. by eexists.
Qed.

Lemma info_reap_ok R l1 ri l2 i p n :
  path_list R (l1 ++ ri :: l2) -> infos R !! ri = Some i -> can_unlock R i p ->
  node R = Some n -> 2 <= n_lock n ->
  exists R' n', bgp_info_reap R ri = Ret R' /\ path_list R' (l1 ++ l2) /\
    others_kept (infos R) (infos R') ri /\
    infos R' !! ri = (if i_lock i =? 1 then None else Some (with_lock i (i_lock i - 1))) /\
    node R' = Some n' /\ n_lock n' = n_lock n - 1 /\ peers R' = unlocked_peers R i p /\
    attrs R' = released_attrs R i.
Proof.
  intros (n0 & HN0 & Hhd & Hl & Hnd) Hi Hu HN Hnl. assert (n0 = n) as -> by congruence.
  apply chained_app in Hl as [Hl1 [(i0 & Hi0 & Hp & Hq) Hl2]].
  assert (i0 = i) as -> by congruence.
  apply NoDup_app in Hnd as (Hnd1 & Hdis & [Hni2 Hnd2]%NoDup_cons).
  assert (Hni1 : ri ∉ l1) by (intros Hin; apply (Hdis ri Hin); by left).
  unfold bgp_info_reap. rewrite (deref_ok _ _ _ Hi). cbn [mbind res_bind]. rewrite Hp, Hq.
  destruct (relink_next R ri (final None l1) l2 None Hl2 Hnd2 Hni2)
    as (m & -> & Hm2 & Hmri & Hmk & Hmf). cbn [mbind res_bind].
  destruct (relink_prev (set_infos R m) n ri l1 (first l2 None) HN)
    as (R2 & -> & Hr1 & Hrri & Hrk & Hat & Hpe & Hrn & Hrf); try done.
  { apply Hmf; [|exact Hl1]. intros x Hx Hx2. apply (Hdis x Hx). by right. }
  simpl in *.
  assert (Hi2 : infos R2 !! ri = Some i) by congruence.
  destruct (info_unlock_ok R2 ri i p Hi2) as (R3 & -> & HN3 & HI3 & HP3 & HA3).
  { unfold can_unlock in *. rewrite Hat, Hpe. done. }
  simpl. unfold bgp_unlock_node, get_node. rewrite HN3, Hrn. simpl.
  assert (Hnl' : n_lock (if decide (l1 = []) then with_node_info n (first l2 None) else n)
                 = n_lock n) by (by case_decide).
  rewrite Hnl', (proj2 (Z.ltb_lt _ _)) by lia. simpl.
  rewrite (proj2 (Z.eqb_neq _ _)) by lia. eexists _, _. split; [done|]. split_and!.
  - eexists. split_and!; [done| | |].
    + simpl. destruct l1; [done|]. simpl in Hhd. case_decide; done.
    + simpl. assert (Hj : chained (infos R2) None (l1 ++ l2) None).
      { apply chained_app. split; [done|]. apply Hrf; [|done].
        intros x Hx Hx1. apply (Hdis x Hx1). by right. }
      assert (ri ∉ l1 ++ l2) by (by apply not_elem_of_app).
      rewrite HI3. destruct (_ =? 1); [by apply chained_frame_delete|by apply chained_frame].
    + apply NoDup_app. split_and!; [done| |done]. intros x Hx Hx2. apply (Hdis x Hx). by right.
  - simpl. eapply others_kept_trans; [done|]. eapply others_kept_trans; [done|]. rewrite HI3.
    destruct (_ =? 1); [apply others_kept_delete|apply others_kept_self].
  - simpl. rewrite HI3. destruct (_ =? 1); [apply lookup_delete_eq|apply lookup_insert_eq].
  - done.
  - simpl. lia.
  - simpl. rewrite HP3. unfold unlocked_peers. by rewrite Hpe.
  - simpl. rewrite HA3. unfold released_attrs. by rewrite Hat.
Qed.

(** [bgp_info_reap]: a path anywhere in the list of its node is taken out;
    the rest stays well linked in the same order with its contents, the node
    loses one reference, and the path loses one: with the last one it is freed
    and its peer released, otherwise it stays allocated. *)
Theorem info_reap_spec R l1 ri l2 i p n :
  path_list R (l1 ++ ri :: l2) -> infos R !! ri = Some i -> can_unlock R i p ->
  node R = Some n -> 2 <= n_lock n ->
  exists R' n', bgp_info_reap R ri = Ret R' /\ path_list R' (l1 ++ l2) /\
    others_kept (infos R) (infos R') ri /\
    infos R' !! ri = (if i_lock i =? 1 then None else Some (with_lock i (i_lock i - 1))) /\
    node R' = Some n' /\ n_lock n' = n_lock n - 1 /\ peers R' = unlocked_peers R i p.
Proof.
  intros Hl Hi Hu HN Hnl.
  destruct (info_reap_ok R l1 ri l2 i p n) as (R' & n' & E & H1 & H2 & H3 & H4 & H5 & H6 & _); eauto 10.
Qed.

(** ** Witnesses: on the sample node *)
Lemma sample_path_list : path_list sample_rib [1; 2].
Proof.
  eexists. split; [done|]. split; [done|]. split; [|repeat constructor; set_solver].
  split; [eexists; split; [done|]; done|]. split; [eexists; split; [done|]; done|]. done.
Qed.

Definition sample_rib3 : rib :=
  put_info sample_rib 3 (Info None None 50 None None 0 0 9 0).

Lemma info_add_spec_witness :
  exists R' i', bgp_info_add sample_rib3 3 = Ret R' /\ path_list R' [3; 1; 2] /\
    infos R' !! 3 = Some i' /\ same_path (Info None None 50 None None 0 0 9 0) i' /\
    i_lock i' = 0 + 1 /\ others_kept (infos sample_rib3) (infos R') 3 /\
    node R' = Some (Node (Some 3) (3 + 1) false false BGP_TABLE_MAIN 1 1) /\
    peers R' = <[50 := with_peer_lock sample_peer 4]> (peers sample_rib3).
Proof.
  apply (info_add_spec sample_rib3 [1; 2] 3 (Info None None 50 None None 0 0 9 0) sample_peer
           (Node (Some 1) 3 false false BGP_TABLE_MAIN 1 1)); try done; [|set_solver].
  destruct sample_path_list as (n & ? & ? & ? & ?). exists n. split; [done|]. split; [done|].
  split; [apply chained_frame; [set_solver|done]|done].
Defined.

Lemma info_reap_spec_witness :
  exists R' n', bgp_info_reap sample_rib 2 = Ret R' /\ path_list R' [1] /\
    others_kept (infos sample_rib) (infos R') 2 /\ infos R' !! 2 = None /\
    node R' = Some n' /\ n_lock n' = 3 - 1 /\
    peers R' = unlocked_peers sample_rib (sample_info None (Some 1) 0) sample_peer.
Proof.
  apply (info_reap_spec sample_rib [1] 2 [] (sample_info None (Some 1) 0) sample_peer
           (Node (Some 1) 3 false false BGP_TABLE_MAIN 1 1)); try done.
  apply sample_path_list.
Defined.
