(* ===== verification/RouteCmp.v ===== *)
(** * bgpd/bgp_route.c: the comparison of two paths

    [bgp_info_cmp] decides whether a new path is preferred to the one selected
    so far.  This repository puts a trust check in front of the usual BGP
    decision steps: the sum of the configured and the observed trust of the
    neighbour and, when both neighbours have delivered vote results, a mean of
    the votes weighted by the trust in the voters, in [float] arithmetic. *)
From stdpp Require Import base option list gmap strings.
From Stdlib Require Import ZArith Lia SpecFloat.
From S2P Require Import Prelude Float32 Files Trust Aspath RouteInfo.

(** ** Peers and addresses *)

Definition BGP_CONFIG_CONFEDERATION : Z := 2 ^ 2.
Definition PEER_STATUS_GROUP : Z := 2 ^ 4.

Inductive peer_type := BGP_PEER_IBGP | BGP_PEER_EBGP | BGP_PEER_INTERNAL | BGP_PEER_CONFED.
#[export] Instance peer_type_eq_dec : EqDecision peer_type.
Proof. solve_decision. Defined.

Definition bgp_confederation_peers_check (b : option bgp) (asn : Z) : bool :=
  match b with
  | None => false
  | Some b => existsb (fun a => a =? asn) (confed_peers b)
  end.

Definition peer_sort (p : bgp_peer) : res peer_type :=
  if CHECK_FLAG (p_sflags p) PEER_STATUS_GROUP then
    if negb (p_as p =? 0) then
      match p_bgp p with
      | None => Fault
      | Some b => Ret (if bgp_as b =? p_as p then BGP_PEER_IBGP else BGP_PEER_EBGP)
      end
    else match p_group p with
         | (local_as1, as1) :: _ =>
             Ret (if local_as1 =? as1 then BGP_PEER_IBGP else BGP_PEER_EBGP)
         | [] => Ret BGP_PEER_INTERNAL
         end
  else
    let confederation :=
      match p_bgp p with
      | Some b => CHECK_FLAG (bgp_config b) BGP_CONFIG_CONFEDERATION
      | None => false
      end in
    if confederation then
      if p_local_as p =? 0 then Ret BGP_PEER_INTERNAL
      else if p_local_as p =? p_as p then
        match p_bgp p with
        | Some b => Ret (if p_local_as p =? confed_id b then BGP_PEER_EBGP else BGP_PEER_IBGP)
        | None => Fault
        end
      else if bgp_confederation_peers_check (p_bgp p) (p_as p) then Ret BGP_PEER_CONFED
      else Ret BGP_PEER_EBGP
    else Ret (if p_local_as p =? 0 then BGP_PEER_INTERNAL
              else if p_local_as p =? p_as p then BGP_PEER_IBGP else BGP_PEER_EBGP).

Definition AF_INET : Z := 2.
Definition AF_INET6 : Z := 10.

(** The loop over the 16 bytes of the addresses. *)
Fixpoint in6addr_cmp (n : nat) (p1 p2 : list Z) : res Z :=
  match n with
  | O => Ret 0
  | S n =>
      match p1, p2 with
      | a :: p1, b :: p2 =>
          if b <? a then Ret 1 else if a <? b then Ret (-1) else in6addr_cmp n p1 p2
      | _, _ => Fault
      end
  end.

Definition sockunion_cmp (su1 su2 : sockunion) : res Z :=
  if sa_family su2 <? sa_family su1 then Ret 1
  else if sa_family su1 <? sa_family su2 then Ret (-1)
  else if sa_family su1 =? AF_INET then
    Ret (if sin_addr su1 =? sin_addr su2 then 0
         else if sin_addr su2 <? sin_addr su1 then 1 else -1)
  else if sa_family su1 =? AF_INET6 then in6addr_cmp 16 (sin6_addr su1) (sin6_addr su2)
  else Ret 0.

(** ** Early returns

    A step of the comparison returns 1 ([Some true]) or 0 ([Some false]), or
    falls through to the next one ([None]). *)
Definition step := res (option bool).
Definition orelse (s : step) (k : step) : step :=
  r ← s; match r with Some _ => Ret r | None => k end.
Definition prefer_gt (new exist : Z) : option bool :=
  if exist <? new then Some true else if new <? exist then Some false else None.
Definition prefer_lt (new exist : Z) : option bool :=
  if new <? exist then Some true else if exist <? new then Some false else None.

(** ** Trust check *)

(** [votes[i] != 0 && i != myAS - 1]. *)
Definition voter (myAS : Z) (i v : Z) : bool := negb (v =? 0) && negb (i =? u32 (myAS - 1)).

(** The loop that adds the trust in the voters. *)
Fixpoint sum_trusts (myAS i : Z) (votes trusts : list Z) (acc : spec_float) : spec_float :=
  match votes, trusts with
  | v :: votes, t :: trusts =>
      sum_trusts myAS (i + 1) votes trusts
        (if voter myAS i v then fadd acc (i2f t) else acc)
  | _, _ => acc
  end.

(** The loop that adds the weighted votes. *)
Fixpoint sum_votes (myAS i : Z) (votes trusts : list Z) (sum acc : spec_float) : spec_float :=
  match votes, trusts with
  | v :: votes, t :: trusts =>
      sum_votes myAS (i + 1) votes trusts sum
        (if voter myAS i v then fadd acc (fmul (i2f v) (fdiv (i2f t) sum)) else acc)
  | _, _ => acc
  end.

Definition voted_trust (myAS : Z) (votes trusts : list Z) : spec_float :=
  sum_votes myAS 0 votes trusts (sum_trusts myAS 0 votes trusts (i2f 0)) (i2f 0).

(** [(float) (inTrusts[as-1] + obsTrusts[as-1])]. *)
Definition peer_trust (inTrusts obsTrusts : list Z) (asn : Z) : res spec_float :=
  t ← zget inTrusts (as_index asn);
  o ← zget obsTrusts (as_index asn);
  Ret (i2f (t + o)).

Section Compare.
Context {L : Layout}.

Definition trust_check (fs : filesystem) (myAS newAS existAS : Z) : step :=
  obsTrusts ← read_ten_u16 fs "/obsTrust.txt";
  inTrusts ← read_ten_u16 fs "/inTrust.txt";
  newTrust ← peer_trust inTrusts obsTrusts newAS;
  existTrust ← peer_trust inTrusts obsTrusts existAS;
  if bool_decide (is_Some (fs !! voteresult_name existAS))
     && bool_decide (is_Some (fs !! voteresult_name newAS)) then
    oldvotes ← read_ten_u16 fs (voteresult_name existAS);
    newvotes ← read_ten_u16 fs (voteresult_name newAS);
    let new := fadd (voted_trust myAS newvotes inTrusts) newTrust in
    let exist := fadd (voted_trust myAS oldvotes inTrusts) existTrust in
    Ret (if fgt new exist then Some true else if fle new exist then Some false else None)
  else
    Ret (if fgt newTrust existTrust then Some true
         else if flt newTrust existTrust then Some false else None).

(** ** The BGP decision steps *)

Definition BGP_FLAG_ALWAYS_COMPARE_MED : Z := 2 ^ 0.
Definition BGP_FLAG_DETERMINISTIC_MED : Z := 2 ^ 1.
Definition BGP_FLAG_MED_MISSING_AS_WORST : Z := 2 ^ 2.
Definition BGP_FLAG_MED_CONFED : Z := 2 ^ 3.
Definition BGP_FLAG_COMPARE_ROUTER_ID : Z := 2 ^ 7.
Definition BGP_FLAG_ASPATH_IGNORE : Z := 2 ^ 8.
Definition BGP_FLAG_ASPATH_CONFED : Z := 2 ^ 13.
Definition bgp_flag_check (b : bgp) (f : Z) : bool := CHECK_FLAG (bgp_flags b) f.

Definition BGP_ATTR_MULTI_EXIT_DISC : Z := 4.
Definition BGP_ATTR_LOCAL_PREF : Z := 5.
Definition BGP_ATTR_ORIGINATOR_ID : Z := 9.
Definition BGP_ATTR_CLUSTER_LIST : Z := 10.
Definition ATTR_FLAG_BIT (x : Z) : Z := 2 ^ (x - 1).
Definition has_attr (a : attr) (x : Z) : bool := CHECK_FLAG (a_flag a) (ATTR_FLAG_BIT x).

Definition BGP_ROUTE_NORMAL : Z := 0.
Definition BGP_ROUTE_STATIC : Z := 1.
Definition BGP_ROUTE_AGGREGATE : Z := 2.
Definition BGP_ROUTE_REDISTRIBUTE : Z := 3.

Definition BGP_MED_MAX : Z := 2 ^ 32 - 1.
Definition bgp_med_value (a : attr) (b : bgp) : Z :=
  if has_attr a BGP_ATTR_MULTI_EXIT_DISC then a_med a
  else if bgp_flag_check b BGP_FLAG_MED_MISSING_AS_WORST then BGP_MED_MAX else 0.

(** What the steps read of a path. *)
Record path := Path { info : bgp_info; pattr : attr; ppeer : bgp_peer }.

(** [aspath_count_hops (attr->aspath)] and [aspath_count_confeds]. *)
Definition hops (x : path) : res Z :=
  match a_aspath (pattr x) with Some s => Ret (aspath_count_hops s) | None => Fault end.
Definition confeds (x : path) : res Z :=
  match a_aspath (pattr x) with Some s => Ret (aspath_count_confeds s) | None => Fault end.

(** 1. Weight check. *)
Definition path_weight (x : path) : Z :=
  match a_extra (pattr x) with Some e => weight e | None => 0 end.
Definition weight_check (new exist : path) : step :=
  Ret (prefer_gt (path_weight new) (path_weight exist)).

(** 2. Local preference check. *)
Definition path_pref (b : bgp) (x : path) : Z :=
  if has_attr (pattr x) BGP_ATTR_LOCAL_PREF then a_local_pref (pattr x) else default_local_pref b.
Definition local_pref_check (b : bgp) (new exist : path) : step :=
  Ret (prefer_gt (path_pref b new) (path_pref b exist)).

(** 3. Local route check. *)
Definition sub_type_check (t : Z) (new exist : path) : step :=
  Ret (if i_sub_type (info new) =? t then Some true
       else if i_sub_type (info exist) =? t then Some false else None).
Definition local_route_check (new exist : path) : step :=
  orelse (sub_type_check BGP_ROUTE_STATIC new exist)
    (orelse (sub_type_check BGP_ROUTE_REDISTRIBUTE new exist)
       (sub_type_check BGP_ROUTE_AGGREGATE new exist)).

(** 4. AS path length check. *)
Definition aspath_length_check (b : bgp) (new exist : path) : step :=
  if bgp_flag_check b BGP_FLAG_ASPATH_IGNORE then Ret None
  else
    exist_hops ← hops exist;
    exist_confeds ← confeds exist;
    if bgp_flag_check b BGP_FLAG_ASPATH_CONFED then
      h ← hops new; c ← confeds new;
      Ret (prefer_lt (h + c) (exist_hops + exist_confeds))
    else newhops ← hops new; Ret (prefer_lt newhops exist_hops).

(** 5. Origin check. *)
Definition origin_check (new exist : path) : step :=
  Ret (prefer_lt (a_origin (pattr new)) (a_origin (pattr exist))).

(** 6. MED check. *)
Definition med_comparable (b : bgp) (new exist : path) : res bool :=
  nh ← hops new; eh ← hops exist; nc ← confeds new; ec ← confeds exist;
  let internal_as_route := (nh =? 0) && (eh =? 0) in
  let confed_as_route := (0 <? nc) && (0 <? ec) && (nh =? 0) && (eh =? 0) in
  if bgp_flag_check b BGP_FLAG_ALWAYS_COMPARE_MED
     || (bgp_flag_check b BGP_FLAG_MED_CONFED && confed_as_route) then Ret true
  else
    left ← aspath_cmp_left (a_aspath (pattr new)) (a_aspath (pattr exist));
    if left : bool then Ret true
    else
      left ← aspath_cmp_left_confed (a_aspath (pattr new)) (a_aspath (pattr exist));
      Ret (left || internal_as_route).
Definition med_check (b : bgp) (new exist : path) : step :=
  c ← med_comparable b new exist;
  Ret (if c : bool
       then prefer_lt (bgp_med_value (pattr new) b) (bgp_med_value (pattr exist) b) else None).

(** 7. Peer type check. *)
Definition peer_type_check (new exist : path) : step :=
  n ← peer_sort (ppeer new); e ← peer_sort (ppeer exist);
  Ret (match n, e with
       | BGP_PEER_EBGP, (BGP_PEER_IBGP | BGP_PEER_CONFED) => Some true
       | (BGP_PEER_IBGP | BGP_PEER_CONFED), BGP_PEER_EBGP => Some false
       | _, _ => None
       end).

(** 8. IGP metric check. *)
Definition igpmetric (x : path) : Z := default 0 (i_igpmetric (info x)).
Definition igp_check (new exist : path) : step :=
  match i_igpmetric (info new), i_igpmetric (info exist) with
  | None, None => Ret None
  | _, _ => Ret (prefer_lt (igpmetric new) (igpmetric exist))
  end.

(** 10. Prefer the path received first. *)
Definition selected (x : path) : bool := CHECK_FLAG (i_flags (info x)) BGP_INFO_SELECTED.
Definition oldest_check (b : bgp) (new exist : path) : step :=
  if bgp_flag_check b BGP_FLAG_COMPARE_ROUTER_ID then Ret None
  else
    n ← peer_sort (ppeer new);
    e ← peer_sort (ppeer exist);
    Ret (if bool_decide (n = BGP_PEER_EBGP) && bool_decide (e = BGP_PEER_EBGP) then
           if selected new then Some true
           else if selected exist then Some false else None
         else None).

(** 11. Router-ID comparison. *)
Definition router_id (x : path) : res Z :=
  if has_attr (pattr x) BGP_ATTR_ORIGINATOR_ID then
    match a_extra (pattr x) with Some e => Ret (originator_id e) | None => Fault end
  else Ret (remote_id (ppeer x)).
Definition router_id_check (new exist : path) : step :=
  n ← router_id new; e ← router_id exist; Ret (prefer_lt n e).

(** 12. Cluster length comparison. *)
Definition cluster_length (x : path) : res Z :=
  if has_attr (pattr x) BGP_ATTR_CLUSTER_LIST then
    match a_extra (pattr x) with
    | Some e => match cluster e with Some n => Ret n | None => Fault end
    | None => Fault
    end
  else Ret 0.
Definition cluster_check (new exist : path) : step :=
  n ← cluster_length new; e ← cluster_length exist; Ret (prefer_lt n e).

(** 13. Neighbor address comparison. *)
Definition address (x : path) : res sockunion :=
  match su_remote (ppeer x) with Some s => Ret s | None => Fault end.
Definition address_check (new exist : path) : step :=
  n ← address new; e ← address exist;
  ret ← sockunion_cmp n e;
  Ret (if ret =? 1 then Some false else Some true).

Definition decision_steps (b : bgp) (new exist : path) : step :=
  orelse (weight_check new exist)
  (orelse (local_pref_check b new exist)
  (orelse (local_route_check new exist)
  (orelse (aspath_length_check b new exist)
  (orelse (origin_check new exist)
  (orelse (med_check b new exist)
  (orelse (peer_type_check new exist)
  (orelse (igp_check new exist)
  (orelse (oldest_check b new exist)
  (orelse (router_id_check new exist)
  (orelse (cluster_check new exist)
          (address_check new exist))))))))))).

(** [bgp_info_cmp (bgp, new, exist)]: [true] is the return value 1. *)
Definition bgp_info_cmp (fs : filesystem) (b : bgp) (R : rib) (new exist : option Z) : res bool :=
  match new, exist with
  | None, _ => Ret false
  | _, None => Ret true
  | Some n, Some e =>
      ei ← deref (infos R) e; ep ← deref (peers R) (i_peer ei);
      ni ← deref (infos R) n; np ← deref (peers R) (i_peer ni);
      r ← orelse (trust_check fs (bgp_as b) (p_as np) (p_as ep))
        (na ← match i_attr ni with Some a => deref (attrs R) a | None => Fault end;
         ea ← match i_attr ei with Some a => deref (attrs R) a | None => Fault end;
         decision_steps b (Path ni na np) (Path ei ea ep));
      Ret (default true r)
  end.

(** ** Trust values *)

(** The files hold the ten configured and the ten observed trust values. *)
Definition trust_files (fs : filesystem) (ins obs : list Z) : Prop :=
  read_ten_u16 fs "/obsTrust.txt" = Ret obs /\ read_ten_u16 fs "/inTrust.txt" = Ret ins.

Definition entry (l : list Z) (asn : Z) : Z := default 0 (l !! Z.to_nat (asn - 1)).
Definition trust_of (ins obs : list Z) (asn : Z) : Z := entry ins asn + entry obs asn.

Lemma read_ten_u16_facts fs name l :
  read_ten_u16 fs name = Ret l -> length l = 10%nat /\ Forall is_u16 l.
Proof.
  intros (_ & k & Hk & ->)%read_ten_u16_inv.
  split; [rewrite length_map; by apply (read_ten_length fs name)|].
  apply Forall_map. apply Forall_true. intros. apply u16_range.
Qed.

Lemma entry_ok l asn : length l = 10%nat -> Forall is_u16 l -> 1 <= asn <= 10 ->
  zget l (as_index asn) = Ret (entry l asn) /\ is_u16 (entry l asn).
Proof.
  intros Hl Hu Ha. unfold as_index. rewrite u32_id by (unfold is_u32; lia).
  destruct (zget_ok l (asn - 1)) as (x & Hx & Hlk); [unfold zlen; lia|].
  unfold entry. rewrite Hx, Hlk. split; [done|]. simpl. eapply Forall_lookup_1; eauto.
Qed.

Lemma trust_of_range ins obs asn : length ins = 10%nat -> Forall is_u16 ins ->
  length obs = 10%nat -> Forall is_u16 obs -> 1 <= asn <= 10 -> 0 <= trust_of ins obs asn < 2 ^ 17.
Proof.
  intros. destruct (entry_ok ins asn) as [_ H5]; [done..|].
  destruct (entry_ok obs asn) as [_ H6]; [done..|]. unfold trust_of, is_u16 in *. lia.
Qed.

Lemma peer_trust_ok fs ins obs asn : trust_files fs ins obs -> 1 <= asn <= 10 ->
  peer_trust ins obs asn = Ret (i2f (trust_of ins obs asn)) /\ 0 <= trust_of ins obs asn < 2 ^ 17.
Proof.
  intros [Ho Hi] Ha. apply read_ten_u16_facts in Ho as [Ho1 Ho2], Hi as [Hi1 Hi2].
  unfold peer_trust.
  rewrite (proj1 (entry_ok ins asn Hi1 Hi2 Ha)). simpl.
  rewrite (proj1 (entry_ok obs asn Ho1 Ho2 Ha)). simpl. split; [done|].
  by apply trust_of_range.
Qed.

(** Without the two vote results the trust sums decide unless they are equal. *)
Lemma trust_check_sums fs ins obs myAS n e :
  trust_files fs ins obs -> 1 <= n <= 10 -> 1 <= e <= 10 ->
  (fs !! voteresult_name n = None \/ fs !! voteresult_name e = None) ->
  trust_check fs myAS n e = Ret (prefer_gt (trust_of ins obs n) (trust_of ins obs e)).
Proof.
  intros Hf Hn He Hv. unfold trust_check. pose proof Hf as [-> ->]. simpl.
  destruct (peer_trust_ok fs ins obs n) as [-> Hn']; [done..|]. simpl.
  destruct (peer_trust_ok fs ins obs e) as [-> He']; [done..|]. simpl.
  assert (bool_decide (is_Some (fs !! voteresult_name e))
          && bool_decide (is_Some (fs !! voteresult_name n)) = false) as ->.
  { destruct Hv as [-> | ->]; rewrite (bool_decide_false (is_Some None)) by (by intros [? ?]);
      [apply andb_false_r|done]. }
  rewrite fgt_i2f, flt_i2f by lia. done.
Qed.

(** ** Votes *)

(** From position [i] on, [votes] holds no vote that counts except at [k]. *)
Definition only_at (myAS i : Z) (votes : list Z) (P : nat -> Prop) : Prop :=
  forall j w, votes !! j = Some w -> ~ P j -> voter myAS (i + Z.of_nat j) w = false.

Lemma only_at_tail myAS i v votes P :
  only_at myAS i (v :: votes) P -> only_at myAS (i + 1) votes (fun j => P (S j)).
Proof.
  intros H j w Hj HP. replace (i + 1 + Z.of_nat j) with (i + Z.of_nat (S j)) by lia. by apply H.
Qed.

Lemma only_at_head myAS i v votes P :
  only_at myAS i (v :: votes) P -> ~ P O -> voter myAS i v = false.
Proof. intros H HP. rewrite <- (Z.add_0_r i). by apply (H O v). Qed.

Lemma sums_none myAS i votes trusts sum acc :
  only_at myAS i votes (fun _ => False) ->
  sum_trusts myAS i votes trusts acc = acc /\ sum_votes myAS i votes trusts sum acc = acc.
Proof.
  revert i trusts. induction votes as [|v votes IH]; intros i [|t trusts] H; simpl; try done.
  rewrite (only_at_head _ _ _ _ _ H) by tauto. by apply IH, (only_at_tail _ _ _ _ _ H).
Qed.

Lemma sums_one myAS i votes trusts sum acc k v t :
  votes !! k = Some v -> trusts !! k = Some t -> voter myAS (i + Z.of_nat k) v = true ->
  only_at myAS i votes (fun j => j = k) ->
  sum_trusts myAS i votes trusts acc = fadd acc (i2f t) /\
  sum_votes myAS i votes trusts sum acc = fadd acc (fmul (i2f v) (fdiv (i2f t) sum)).
Proof.
  revert i votes trusts. induction k as [|k IH]; intros i [|w votes] [|u trusts] Hv Ht Hk Ho;
    simpl in *; try done; simplify_eq.
  - rewrite Z.add_0_r in Hk. rewrite Hk.
    assert (Hn : only_at myAS (i + 1) votes (fun _ => False)).
    { intros j x Hj _. apply (only_at_tail _ _ _ _ _ Ho j x Hj). lia. }
    split; [apply (sums_none _ _ _ _ sum _ Hn)|apply (sums_none _ _ _ _ sum _ Hn)].
  - rewrite (only_at_head _ _ _ _ _ Ho) by lia. apply IH; [done|done| |].
    + rewrite <- Hk. f_equal. lia.
    + intros j x Hj Hne. apply (only_at_tail _ _ _ _ _ Ho j x Hj). lia.
Qed.

(** AS [asn] cast the only vote that counts, and it is trusted. *)
Definition only_voter (myAS : Z) (votes ins : list Z) (asn : Z) : Prop :=
  1 <= asn <= 10 /\ voter myAS (asn - 1) (entry votes asn) = true /\
  only_at myAS 0 votes (fun j => Z.of_nat j = asn - 1) /\ 0 < entry ins asn.

Lemma lookup_entry l asn : length l = 10%nat -> 1 <= asn <= 10 ->
  l !! Z.to_nat (asn - 1) = Some (entry l asn).
Proof.
  intros Hl Ha. unfold entry.
  destruct (lookup_lt_is_Some_2 l (Z.to_nat (asn - 1))) as [x ->]; [lia|done].
Qed.

(** A single vote counts in full: the weight is exactly 1. *)
Lemma voted_trust_one myAS votes ins asn :
  length votes = 10%nat -> Forall is_u16 votes -> length ins = 10%nat -> Forall is_u16 ins ->
  only_voter myAS votes ins asn -> voted_trust myAS votes ins = i2f (entry votes asn).
Proof.
  intros Hv Hvu Hi Hiu (Ha & Hvt & Ho & Ht).
  destruct (entry_ok votes asn) as [_ Uv]; [done..|]. destruct (entry_ok ins asn) as [_ Ui]; [done..|].
  unfold is_u16 in *.
  destruct (fun s a => sums_one myAS 0 votes ins s a (Z.to_nat (asn - 1)) _ _
     (lookup_entry votes asn Hv Ha) (lookup_entry ins asn Hi Ha)) with (s := i2f (entry ins asn)) (a := i2f 0)
    as [Es Ev].
  - by rewrite Z2Nat.id, Z.add_0_l by lia.
  - intros j w Hj Hne. apply (Ho j w Hj). lia.
  - unfold voted_trust. rewrite Es, i2f_add by lia. rewrite Z.add_0_l, Ev.
    rewrite i2f_div_self, i2f_mul_1, i2f_add by lia. done.
Qed.

(** Every vote that counts comes from an AS without trust. *)
Definition votes_untrusted (myAS i : Z) (votes ins : list Z) : Prop :=
  forall k v t, votes !! k = Some v -> ins !! k = Some t ->
    voter myAS (i + Z.of_nat k) v = true -> t = 0.

Lemma votes_untrusted_tail myAS i v votes t ins :
  votes_untrusted myAS i (v :: votes) (t :: ins) -> votes_untrusted myAS (i + 1) votes ins.
Proof.
  intros H k w u Hw Hu Hv. apply (H (S k) w u Hw Hu).
  rewrite <- Hv. f_equal. lia.
Qed.

Lemma sum_trusts_zero myAS i votes ins : votes_untrusted myAS i votes ins ->
  sum_trusts myAS i votes ins (i2f 0) = i2f 0.
Proof.
  revert i ins. induction votes as [|v votes IH]; intros i [|t ins] H; simpl; try done.
  pose proof (IH _ _ (votes_untrusted_tail _ _ _ _ _ _ H)).
  destruct (voter myAS i v) eqn:E; [|done].
  rewrite (H O v t eq_refl eq_refl) by (by rewrite Z.add_0_r). by rewrite i2f_add.
Qed.

Lemma sum_votes_nan myAS i votes ins sum : sum_votes myAS i votes ins sum S754_nan = S754_nan.
Proof.
  revert i ins. induction votes as [|v votes IH]; intros i [|t ins]; simpl; try done.
  destruct (voter myAS i v); [rewrite fadd_nan_l|]; apply IH.
Qed.

(** If some vote counts, its weight is 0 / 0. *)
Lemma sum_votes_untrusted myAS i votes ins acc k v : votes_untrusted myAS i votes ins ->
  length votes = length ins -> votes !! k = Some v -> voter myAS (i + Z.of_nat k) v = true ->
  sum_votes myAS i votes ins (i2f 0) acc = S754_nan.
Proof.
  revert i ins acc k. induction votes as [|w votes IH]; intros i [|t ins] acc k Hu Hl Hk Hv; try done.
  simpl. destruct (voter myAS i w) eqn:E.
  - rewrite (Hu O w t eq_refl eq_refl) by (by rewrite Z.add_0_r).
    rewrite fdiv_0_0, fmul_nan_r, fadd_nan_r. apply sum_votes_nan.
  - destruct k as [|k]; simpl in Hk; [simplify_eq; rewrite Z.add_0_r in Hv; congruence|].
    apply (IH _ _ _ k); [by eapply votes_untrusted_tail|simpl in Hl; lia|done|].
    rewrite <- Hv. f_equal. lia.
Qed.

(** Some vote counts and all that do come from ASes without trust. *)
Definition only_untrusted (myAS : Z) (votes ins : list Z) : Prop :=
  votes_untrusted myAS 0 votes ins /\
  exists k v, votes !! k = Some v /\ voter myAS (Z.of_nat k) v = true.

Lemma voted_trust_nan myAS votes ins : length votes = length ins ->
  only_untrusted myAS votes ins -> voted_trust myAS votes ins = S754_nan.
Proof.
  intros Hl [Hu (k & v & Hk & Hv)]. unfold voted_trust. rewrite sum_trusts_zero by done.
  by apply (sum_votes_untrusted _ _ _ _ _ k v).
Qed.

(** ** Comparing two loaded paths *)

(** Path [a] of the heap with its attribute and its peer. *)
Definition loaded (R : rib) (a : Z) (x : path) : Prop :=
  infos R !! a = Some (info x) /\ peers R !! i_peer (info x) = Some (ppeer x) /\
  exists at_, i_attr (info x) = Some at_ /\ attrs R !! at_ = Some (pattr x).

Definition path_as (x : path) : Z := p_as (ppeer x).
Definition known_as (x : path) : Prop := 1 <= path_as x <= 10.

Lemma cmp_loaded fs b R n e x y : loaded R n x -> loaded R e y ->
  bgp_info_cmp fs b R (Some n) (Some e)
  = r ← orelse (trust_check fs (bgp_as b) (path_as x) (path_as y)) (decision_steps b x y);
    Ret (default true r).
Proof.
  intros (Hn & Hnp & na & Hna & HnA) (He & Hep & ea & Hea & HeA). unfold bgp_info_cmp.
  rewrite (deref_ok _ _ _ He). cbn [mbind res_bind]. rewrite (deref_ok _ _ _ Hep).
  cbn [mbind res_bind]. rewrite (deref_ok _ _ _ Hn). cbn [mbind res_bind].
  rewrite (deref_ok _ _ _ Hnp). cbn [mbind res_bind]. rewrite Hna, Hea.
  rewrite (deref_ok _ _ _ HnA), (deref_ok _ _ _ HeA). cbn [mbind res_bind].
  by destruct x, y.
Qed.

Lemma peer_trust_foreign fs ins obs asn : trust_files fs ins obs -> is_u32 asn ->
  ~ 1 <= asn <= 10 -> peer_trust ins obs asn = Fault.
Proof.
  intros [_ Hi] Hu Ha. apply read_ten_u16_facts in Hi as [Hl _]. unfold peer_trust, zget, as_index.
  pose proof (u32_range (asn - 1)) as Hr. unfold is_u32 in *.
  assert (10 <= u32 (asn - 1)).
  { destruct (decide (asn = 0)) as [->|H0]; [done|]. rewrite u32_id by (unfold is_u32; lia). lia. }
  rewrite (proj2 (Z.ltb_ge _ _)) by lia. rewrite (lookup_ge_None_2 ins) by lia. done.
Qed.

(** The trust arrays have ten entries and the index is not checked: as soon
    as one of two paths to the same prefix comes from an AS outside 1..10, the
    comparison of the two reads outside the arrays, before any BGP criterion is
    looked at. *)
Theorem foreign_as_out_of_bounds fs b R ins obs n e x y :
  trust_files fs ins obs -> loaded R n x -> loaded R e y ->
  is_u32 (path_as x) -> is_u32 (path_as y) -> ~ (known_as x /\ known_as y) ->
  bgp_info_cmp fs b R (Some n) (Some e) = Fault.
Proof.
  intros Hf Hx Hy Ux Uy Hk. rewrite (cmp_loaded fs b R n e x y) by done.
  unfold trust_check. pose proof Hf as [Eo Ei]. rewrite Eo, Ei. cbn [mbind res_bind].
  destruct (decide (1 <= path_as x <= 10)) as [Kx|Kx];
    [|by rewrite (peer_trust_foreign fs ins obs (path_as x))].
  destruct (peer_trust_ok fs ins obs (path_as x) Hf Kx) as [-> _]. cbn [mbind res_bind].
  by rewrite (peer_trust_foreign fs ins obs (path_as y)) by (done || unfold known_as in *; tauto).
Qed.

Section TrustCheck.
Context (fs : filesystem) (b : bgp) (R : rib) (ins obs : list Z).
Context (n e : Z) (x y : path).
Hypothesis Hfiles : trust_files fs ins obs.
Hypothesis Hx : loaded R n x.
Hypothesis Hy : loaded R e y.
Hypothesis Hxa : known_as x.
Hypothesis Hya : known_as y.

(** C1. Trust comes first.  Unless both neighbours have delivered vote results,
    the path of the neighbour with the higher sum of configured and observed
    trust is preferred whatever the BGP attributes say, and only equal sums
    leave the decision to the BGP steps.  The [float] comparison is exact. *)
Theorem trust_decides :
  fs !! voteresult_name (path_as x) = None \/ fs !! voteresult_name (path_as y) = None ->
  let tn := trust_of ins obs (path_as x) in
  let te := trust_of ins obs (path_as y) in
  bgp_info_cmp fs b R (Some n) (Some e)
  = if te <? tn then Ret true else if tn <? te then Ret false
    else r ← decision_steps b x y; Ret (default true r).
Proof.
  intros Hv. cbn zeta. rewrite (cmp_loaded fs b R n e x y) by done.
  rewrite (trust_check_sums fs ins obs) by done. unfold prefer_gt.
  by repeat case_test.
Qed.

(** Both neighbours have delivered vote results. *)
Context (newvotes oldvotes : list Z).
Hypothesis Hnew : read_ten_u16 fs (voteresult_name (path_as x)) = Ret newvotes.
Hypothesis Hold : read_ten_u16 fs (voteresult_name (path_as y)) = Ret oldvotes.

Lemma trust_check_votes :
  let new := fadd (voted_trust (bgp_as b) newvotes ins) (i2f (trust_of ins obs (path_as x))) in
  let exist := fadd (voted_trust (bgp_as b) oldvotes ins) (i2f (trust_of ins obs (path_as y))) in
  trust_check fs (bgp_as b) (path_as x) (path_as y)
  = Ret (if fgt new exist then Some true else if fle new exist then Some false else None).
Proof.
  assert (Hsome : forall name l, read_ten_u16 fs name = Ret l -> is_Some (fs !! name)).
  { intros name l (_ & k & Hk & _)%read_ten_u16_inv. revert Hk. unfold read_ten.
    destruct (fs !! name); [by eexists|done]. }
  unfold trust_check. destruct Hfiles as [-> ->]. cbn [mbind res_bind].
  destruct (peer_trust_ok fs ins obs (path_as x)) as [-> _]; [done..|]. cbn [mbind res_bind].
  destruct (peer_trust_ok fs ins obs (path_as y)) as [-> _]; [done..|]. cbn [mbind res_bind].
  rewrite !bool_decide_true by eauto. by rewrite Hold, Hnew.
Qed.

(** C7. One trusted voter on each side: its vote counts in full and the totals
    of vote and trust are compared exactly.  The BGP steps are never reached:
    equal totals keep the old path, whichever of the two is the old one. *)
Theorem single_votes_decide vn ve :
  only_voter (bgp_as b) newvotes ins vn -> only_voter (bgp_as b) oldvotes ins ve ->
  bgp_info_cmp fs b R (Some n) (Some e)
  = Ret (entry oldvotes ve + trust_of ins obs (path_as y)
         <? entry newvotes vn + trust_of ins obs (path_as x)).
Proof.
  intros Hvn Hve. rewrite (cmp_loaded fs b R n e x y) by done. rewrite trust_check_votes.
  destruct (read_ten_u16_facts _ _ _ Hnew) as [Hn1 Hn2].
  destruct (read_ten_u16_facts _ _ _ Hold) as [Ho1 Ho2].
  destruct (read_ten_u16_facts _ _ _ (proj2 Hfiles)) as [Hi1 Hi2].
  rewrite (voted_trust_one _ _ _ vn) by done. rewrite (voted_trust_one _ _ _ ve) by done.
  destruct (peer_trust_ok fs ins obs (path_as x)) as [_ Rx]; [done..|].
  destruct (peer_trust_ok fs ins obs (path_as y)) as [_ Ry]; [done..|].
  destruct (entry_ok newvotes vn) as [_ Rn]; [done|done|apply Hvn|].
  destruct (entry_ok oldvotes ve) as [_ Ro]; [done|done|apply Hve|].
  unfold is_u16 in *. rewrite !i2f_add, fgt_i2f, fle_i2f by lia.
  repeat case_test; simpl; try done. lia.
Qed.

(** C9. Votes that carry no weight disable the trust check: if every vote that
    counts for one of the two neighbours comes from ASes the daemon has no trust
    in, the weights are 0/0, both comparisons are with NaN and fail, and the
    path is chosen by the BGP steps even when the trust in the two neighbours
    differs. *)
Theorem untrusted_votes_bypass_trust :
  only_untrusted (bgp_as b) newvotes ins \/ only_untrusted (bgp_as b) oldvotes ins ->
  bgp_info_cmp fs b R (Some n) (Some e)
  = r ← decision_steps b x y; Ret (default true r).
Proof.
  intros Hu. rewrite (cmp_loaded fs b R n e x y) by done. rewrite trust_check_votes.
  destruct (read_ten_u16_facts _ _ _ Hnew) as [Hn1 _].
  destruct (read_ten_u16_facts _ _ _ Hold) as [Ho1 _].
  destruct (read_ten_u16_facts _ _ _ (proj2 Hfiles)) as [Hi1 _].
  destruct Hu as [Hu|Hu].
  - rewrite (voted_trust_nan _ newvotes), fadd_nan_l by (done || congruence).
    by rewrite (proj1 (cmp_nan_l _)), (proj2 (cmp_nan_l _)).
  - rewrite (voted_trust_nan _ oldvotes), fadd_nan_l by (done || congruence).
    by rewrite (proj1 (cmp_nan_r _)), (proj2 (cmp_nan_r _)).
Qed.
End TrustCheck.
End Compare.
