(* ===== verification/RouteOrder.v ===== *)
(** * The order behind the comparison of paths

    With "bgp always-compare-med" and "bgp bestpath compare-routerid" set, and
    without vote results, [bgp_info_cmp] is a lexicographic comparison of keys:
    trust, weight, local preference, kind of local route, AS path length, origin,
    MED, kind of neighbour, IGP metric, router id, cluster list length and
    neighbour address.  The file defines the key, proves that the code compares
    it, and that the order is total. *)
From stdpp Require Import base option list gmap strings.
From Stdlib Require Import ZArith Lia.
From S2P Require Import Prelude Files Trust Aspath RouteInfo RouteCmp.

(** ** Lexicographic order on keys *)
Fixpoint lex (l k : list Z) : comparison :=
  match l, k with
  | [], [] => Eq
  | [], _ :: _ => Lt
  | _ :: _, [] => Gt
  | x :: l, y :: k => match x ?= y with Eq => lex l k | c => c end
  end.
Definition at_least (l k : list Z) : bool := match lex l k with Lt => false | _ => true end.

Lemma lex_refl l : lex l l = Eq.
Proof. induction l as [|x l IH]; simpl; [done|]. by rewrite Z.compare_refl. Qed.

Lemma lex_flip l k : lex k l = CompOpp (lex l k).
Proof.
  revert k. induction l as [|x l IH]; intros [|y k]; simpl; try done.
  rewrite (Z.compare_antisym x y). destruct (x ?= y); simpl; [apply IH|done..].
Qed.

Lemma lex_eq l k : lex l k = Eq -> l = k.
Proof.
  revert k. induction l as [|x l IH]; intros [|y k]; simpl; try done.
  destruct (Z.compare_spec x y) as [->|?|?]; try done. intros H. by rewrite (IH k H).
Qed.

Lemma at_least_total l k : at_least l k = false -> at_least k l = true.
Proof. unfold at_least. rewrite (lex_flip l k). by destruct (lex l k). Qed.

Lemma at_least_refl l : at_least l l = true.
Proof. unfold at_least. by rewrite lex_refl. Qed.

Lemma at_least_trans l k m : at_least l k = true -> at_least k m = true -> at_least l m = true.
Proof.
  unfold at_least. revert k m. induction l as [|x l IH]; intros [|y k] [|z m]; simpl; try done.
  destruct (Z.compare_spec x y), (Z.compare_spec y z), (Z.compare_spec x z);
    simplify_eq; try done; try lia. apply IH.
Qed.

(** The first difference decides: what a step returns for two key fields. *)
Definition of_cmp (c : comparison) : option bool :=
  match c with Gt => Some true | Lt => Some false | Eq => None end.

Lemma prefer_gt_cmp a b : prefer_gt a b = of_cmp (a ?= b).
Proof.
  unfold prefer_gt. destruct (Z.compare_spec a b) as [->|?|?]; simpl;
    repeat case_test; done || lia.
Qed.

Lemma prefer_lt_cmp a b : prefer_lt a b = of_cmp (- a ?= - b).
Proof.
  unfold prefer_lt. rewrite Z.compare_opp.
  destruct (Z.compare_spec b a) as [->|?|?]; simpl; repeat case_test; done || lia.
Qed.

Lemma orelse_lex x y l k s : s = Ret (Some (at_least l k)) ->
  orelse (Ret (of_cmp (x ?= y))) s = Ret (Some (at_least (x :: l) (y :: k))).
Proof. intros ->. unfold at_least. simpl. by destruct (x ?= y). Qed.

(** ** The key of a path *)
Definition value (r : res Z) : Z := match r with Ret z => z | _ => 0 end.

Definition local_rank (x : path) : Z :=
  let t := i_sub_type (info x) in
  if t =? BGP_ROUTE_STATIC then 3 else if t =? BGP_ROUTE_REDISTRIBUTE then 2
  else if t =? BGP_ROUTE_AGGREGATE then 1 else 0.

Definition path_length (b : bgp) (x : path) : Z :=
  if bgp_flag_check b BGP_FLAG_ASPATH_IGNORE then 0
  else if bgp_flag_check b BGP_FLAG_ASPATH_CONFED then value (hops x) + value (confeds x)
  else value (hops x).

Definition external_rank (x : path) : Z :=
  match peer_sort (ppeer x) with Ret BGP_PEER_EBGP => 1 | _ => 0 end.

Definition address_key (su : sockunion) : list Z :=
  sa_family su :: (if sa_family su =? AF_INET then [sin_addr su]
                   else if sa_family su =? AF_INET6 then sin6_addr su else []).
Definition path_address (x : path) : list Z :=
  match su_remote (ppeer x) with Some su => map Z.opp (address_key su) | None => [] end.

Definition steps_key (b : bgp) (x : path) : list Z :=
  path_weight x :: path_pref b x :: local_rank x :: - path_length b x ::
  - a_origin (pattr x) :: - bgp_med_value (pattr x) b :: external_rank x ::
  - igpmetric x :: - value (router_id x) :: - value (cluster_length x) :: path_address x.

Definition path_key (b : bgp) (ins obs : list Z) (x : path) : list Z :=
  trust_of ins obs (path_as x) :: steps_key b x.

(** A path all of whose key fields are there: an AS path, the attributes its
    flags announce, a neighbour address, and a neighbour that is external,
    internal or in the confederation. *)
Record rankable (x : path) : Prop := {
  rk_aspath : is_Some (a_aspath (pattr x));
  rk_sort : exists t, peer_sort (ppeer x) = Ret t /\ t <> BGP_PEER_INTERNAL;
  rk_router_id : exists z, router_id x = Ret z;
  rk_cluster : exists z, cluster_length x = Ret z;
  rk_address : exists su, su_remote (ppeer x) = Some su /\
    (sa_family su = AF_INET6 -> length (sin6_addr su) = 16%nat);
}.

(** The routes are not local routes of the same kind: of two such the code
    prefers whichever is the new one. *)
Definition not_same_local (x y : path) : Prop := local_rank x <> local_rank y \/ local_rank x = 0.

(** ** The steps compare the key fields *)
Lemma local_route_step x y : not_same_local x y ->
  local_route_check x y = Ret (of_cmp (local_rank x ?= local_rank y)).
Proof.
  unfold not_same_local, local_route_check, sub_type_check, local_rank.
  unfold BGP_ROUTE_STATIC, BGP_ROUTE_REDISTRIBUTE, BGP_ROUTE_AGGREGATE.
  set (t := i_sub_type (info x)). set (u := i_sub_type (info y)).
  intros H. destruct (Z.eqb_spec t 1), (Z.eqb_spec u 1), (Z.eqb_spec t 3), (Z.eqb_spec u 3),
    (Z.eqb_spec t 2), (Z.eqb_spec u 2); cbn; done || lia.
Qed.

Lemma hops_value x : is_Some (a_aspath (pattr x)) ->
  hops x = Ret (value (hops x)) /\ confeds x = Ret (value (confeds x)).
Proof. intros [s Hs]. unfold hops, confeds. by rewrite Hs. Qed.

Lemma aspath_length_step b x y : is_Some (a_aspath (pattr x)) -> is_Some (a_aspath (pattr y)) ->
  aspath_length_check b x y = Ret (of_cmp (- path_length b x ?= - path_length b y)).
Proof.
  intros Hx Hy. unfold aspath_length_check, path_length.
  destruct (bgp_flag_check b BGP_FLAG_ASPATH_IGNORE); [done|].
  destruct (hops_value x Hx) as [Ex Cx], (hops_value y Hy) as [Ey Cy].
  rewrite Ex, Ey, Cx, Cy. cbn [mbind res_bind value]. rewrite <- !prefer_lt_cmp.
  by destruct (bgp_flag_check b BGP_FLAG_ASPATH_CONFED).
Qed.

Lemma med_step b x y : bgp_flag_check b BGP_FLAG_ALWAYS_COMPARE_MED = true ->
  is_Some (a_aspath (pattr x)) -> is_Some (a_aspath (pattr y)) ->
  med_check b x y = Ret (of_cmp (- bgp_med_value (pattr x) b ?= - bgp_med_value (pattr y) b)).
Proof.
  intros Hb Hx Hy. unfold med_check, med_comparable.
  destruct (hops_value x Hx) as [-> ->], (hops_value y Hy) as [-> ->].
  cbn [mbind res_bind]. rewrite Hb. cbn [orb mbind res_bind]. by rewrite prefer_lt_cmp.
Qed.

Lemma peer_type_step x y : rankable x -> rankable y ->
  peer_type_check x y = Ret (of_cmp (external_rank x ?= external_rank y)).
Proof.
  intros [_ (t & Et & Ht) _ _ _] [_ (u & Eu & Hu) _ _ _].
  unfold peer_type_check, external_rank. rewrite Et, Eu. by destruct t, u.
Qed.

Lemma igp_step x y : igp_check x y = Ret (of_cmp (- igpmetric x ?= - igpmetric y)).
Proof.
  unfold igp_check. rewrite <- prefer_lt_cmp. unfold igpmetric.
  by destruct (i_igpmetric (info x)), (i_igpmetric (info y)).
Qed.

Lemma in6addr_cmp_lex k p q : length p = k -> length q = k ->
  exists r, in6addr_cmp k p q = Ret r /\
    (r =? 1) = negb (at_least (map Z.opp p) (map Z.opp q)).
Proof.
  revert p q. induction k as [|k IH]; intros [|a p] [|c q] Hp Hq; try done; simpl in *.
  - by exists 0.
  - unfold at_least. simpl. rewrite Z.compare_opp.
    destruct (Z.compare_spec c a) as [->|H|H]; repeat case_test; try lia.
    + by apply IH; lia.
    + by exists 1.
    + by exists (-1).
Qed.

Lemma sockunion_cmp_lex s t :
  (sa_family s = AF_INET6 -> length (sin6_addr s) = 16%nat) ->
  (sa_family t = AF_INET6 -> length (sin6_addr t) = 16%nat) ->
  exists r, sockunion_cmp s t = Ret r /\
    (r =? 1) = negb (at_least (map Z.opp (address_key s)) (map Z.opp (address_key t))).
Proof.
  intros Hs Ht. unfold sockunion_cmp, address_key, at_least. cbn [map lex]. rewrite Z.compare_opp.
  destruct (Z.compare_spec (sa_family t) (sa_family s)) as [E|E|E];
    [|rewrite (proj2 (Z.ltb_lt _ _)) by done; by exists 1|
      rewrite (proj2 (Z.ltb_ge _ _)), (proj2 (Z.ltb_lt _ _)) by lia; by exists (-1)].
  rewrite E, Z.ltb_irrefl. destruct (Z.eqb_spec (sa_family s) AF_INET) as [_|_].
  - cbn [map lex]. rewrite Z.compare_opp. eexists. split; [done|].
    destruct (Z.compare_spec (sin_addr t) (sin_addr s)) as [->|?|?];
      repeat case_test; done || lia.
  - destruct (Z.eqb_spec (sa_family s) AF_INET6) as [F|_]; [|by exists 0].
    apply in6addr_cmp_lex; [auto|]. apply Ht. congruence.
Qed.

Lemma address_step x y : rankable x -> rankable y ->
  address_check x y = Ret (Some (at_least (path_address x) (path_address y))).
Proof.
  intros [_ _ _ _ (s & Es & Hs)] [_ _ _ _ (t & Et & Ht)].
  unfold address_check, address, path_address. rewrite Es, Et. cbn [mbind res_bind].
  destruct (sockunion_cmp_lex s t Hs Ht) as (r & -> & Hr). cbn [mbind res_bind]. rewrite Hr.
  by destruct (at_least _ _).
Qed.

(** The configuration under which paths are totally ordered. *)
Definition total_order_config (b : bgp) : Prop :=
  bgp_flag_check b BGP_FLAG_ALWAYS_COMPARE_MED = true /\
  bgp_flag_check b BGP_FLAG_COMPARE_ROUTER_ID = true.

Lemma steps_lex b x y : total_order_config b -> rankable x -> rankable y -> not_same_local x y ->
  decision_steps b x y = Ret (Some (at_least (steps_key b x) (steps_key b y))).
Proof.
  intros [Hmed Hrid] Hx Hy Hl. unfold decision_steps, steps_key.
  destruct Hx as [Ax Sx (rx & Rx) (cx & Cx) Px] eqn:EX, Hy as [Ay Sy (ry & Ry) (cy & Cy) Py] eqn:EY.
  unfold weight_check, local_pref_check, origin_check, router_id_check, cluster_check.
  rewrite Rx, Ry, Cx, Cy. cbn [mbind res_bind value].
  rewrite local_route_step, aspath_length_step, med_step, peer_type_step, igp_step by done.
  unfold oldest_check. rewrite Hrid. rewrite !prefer_gt_cmp, !prefer_lt_cmp.
  repeat apply orelse_lex. cbn [orelse mbind res_bind].
  repeat apply orelse_lex. by apply address_step.
Qed.

Section Order.
Context {L : Layout} (fs : filesystem) (b : bgp) (R : rib) (ins obs : list Z).
Hypothesis Hfiles : trust_files fs ins obs.
Hypothesis Hconf : total_order_config b.

Lemma cmp_key n e x y :
  loaded R n x -> loaded R e y -> known_as x -> known_as y -> rankable x -> rankable y ->
  not_same_local x y ->
  fs !! voteresult_name (path_as x) = None \/ fs !! voteresult_name (path_as y) = None ->
  bgp_info_cmp fs b R (Some n) (Some e)
    = Ret (at_least (path_key b ins obs x) (path_key b ins obs y)).
Proof.
  intros Hx Hy Kx Ky Rx Ry Hl Hv. rewrite (cmp_loaded fs b R n e x y) by done.
  rewrite (trust_check_sums fs ins obs), prefer_gt_cmp by done.
  unfold path_key. by rewrite (orelse_lex _ _ (steps_key b x) (steps_key b y)) by (by apply steps_lex).
Qed.

End Order.
