(* ===== verification/RouteSelect.v ===== *)
(** * bgpd/bgp_route.c: best path selection

    [bgp_best_selection] walks the list of the paths of a node, frees the removed
    ones and keeps the best usable one with [bgp_info_cmp]; [bgp_process_main]
    creates the trust files where they are missing, runs the selection and moves
    the SELECTED flag.  What it hands to peers and to zebra is the list of events
    it returns.  The loops run on the heap; their fuel is the number of paths. *)
From stdpp Require Import base option list gmap strings.
From Stdlib Require Import ZArith Lia.
From S2P Require Import Prelude Files Trust Aspath RouteInfo RouteList RouteCmp RouteOrder.

Section Selection.
Context {L : Layout} (fs : filesystem) (b : bgp).

(** [ri->attr]. *)
Definition attr_of (R : rib) (i : bgp_info) : res attr :=
  match i_attr i with Some a => deref (attrs R) a | None => Fault end.

(** ** Deterministic MED *)

(** The inner loop: [ri2] runs over the paths after [ri1]. *)
Fixpoint dmed_group (fuel : nat) (R : rib) (ri1 : Z) (ri2 : option Z) (new_select : Z)
    : res (rib * Z) :=
  match ri2, fuel with
  | None, _ => Ret (R, new_select)
  | Some _, O => Fault
  | Some r2, S fuel =>
      i2 ← deref (infos R) r2;
      if CHECK_FLAG (i_flags i2) BGP_INFO_DMED_CHECK || BGP_INFO_HOLDDOWN i2
      then dmed_group fuel R ri1 (i_next i2) new_select
      else
        i1 ← deref (infos R) ri1; a1 ← attr_of R i1; a2 ← attr_of R i2;
        left ← aspath_cmp_left (a_aspath a1) (a_aspath a2);
        left ← (if left : bool then Ret true
                else aspath_cmp_left_confed (a_aspath a1) (a_aspath a2));
        '(R, new_select) ←
          (if left : bool then
             better ← bgp_info_cmp fs b R (Some r2) (Some new_select);
             '(R, new_select) ←
               (if better : bool then
                  R ← bgp_info_unset_flag R new_select BGP_INFO_DMED_SELECTED; Ret (R, r2)
                else Ret (R, new_select));
             R ← bgp_info_set_flag R r2 BGP_INFO_DMED_CHECK;
             Ret (R, new_select)
           else Ret (R, new_select));
        dmed_group fuel R ri1 (i_next i2) new_select
  end.

(** The outer loop: one group of comparable paths per round. *)
Fixpoint dmed_select (fuel : nat) (R : rib) (ri1 : option Z) : res rib :=
  match ri1, fuel with
  | None, _ => Ret R
  | Some _, O => Fault
  | Some r1, S fuel =>
      i1 ← deref (infos R) r1;
      if CHECK_FLAG (i_flags i1) BGP_INFO_DMED_CHECK || BGP_INFO_HOLDDOWN i1
      then dmed_select fuel R (i_next i1)
      else
        '(R, new_select) ← dmed_group (S fuel) R r1 (i_next i1) r1;
        R ← bgp_info_set_flag R new_select BGP_INFO_DMED_CHECK;
        R ← bgp_info_set_flag R new_select BGP_INFO_DMED_SELECTED;
        dmed_select fuel R (i_next i1)
  end.

(** ** The selection loop *)
Fixpoint select_loop (fuel : nat) (R : rib) (ri old_select new_select : option Z)
    : res (rib * (option Z * option Z)) :=
  match ri, fuel with
  | None, _ => Ret (R, (old_select, new_select))
  | Some _, O => Fault
  | Some r, S fuel =>
      i ← deref (infos R) r;
      let nextri := i_next i in
      let old_select :=
        if CHECK_FLAG (i_flags i) BGP_INFO_SELECTED then Some r else old_select in
      if BGP_INFO_HOLDDOWN i then
        R ← (if CHECK_FLAG (i_flags i) BGP_INFO_REMOVED && bool_decide (Some r <> old_select)
             then bgp_info_reap R r else Ret R);
        select_loop fuel R nextri old_select new_select
      else if bgp_flag_check b BGP_FLAG_DETERMINISTIC_MED
              && negb (CHECK_FLAG (i_flags i) BGP_INFO_DMED_SELECTED) then
        R ← bgp_info_unset_flag R r BGP_INFO_DMED_CHECK;
        select_loop fuel R nextri old_select new_select
      else
        R ← bgp_info_unset_flag R r BGP_INFO_DMED_CHECK;
        R ← bgp_info_unset_flag R r BGP_INFO_DMED_SELECTED;
        better ← bgp_info_cmp fs b R (Some r) new_select;
        select_loop fuel R nextri old_select (if better : bool then Some r else new_select)
  end.

(** Returns the pair ([old], [new]). *)
Definition bgp_best_selection (R : rib) : res (rib * (option Z * option Z)) :=
  n ← get_node R;
  let fuel := size (infos R) in
  R ← (if bgp_flag_check b BGP_FLAG_DETERMINISTIC_MED
       then dmed_select fuel R (n_info n) else Ret R);
  n ← get_node R;
  select_loop fuel R (n_info n) None None.
End Selection.

(** ** Processing a node *)

(** The trust an AS starts with in the ten ASes of the simulation; for another
    AS the file is created empty. *)
Definition initial_trust (myAS : Z) : list Z :=
  if myAS =? 1 then [71; 40; 50; 60; 34; 56; 78; 31; 80; 45]
  else if myAS =? 2 then [25; 44; 78; 33; 66; 90; 80; 31; 40; 70]
  else if myAS =? 3 then [67; 40; 28; 76; 72; 67; 57; 88; 50; 21]
  else if myAS =? 4 then [88; 53; 66; 28; 76; 38; 82; 57; 62; 66]
  else if myAS =? 5 then [29; 44; 79; 33; 22; 29; 82; 63; 49; 76]
  else if myAS =? 6 then [70; 70; 44; 60; 67; 87; 49; 31; 35; 55]
  else if myAS =? 7 then [72; 61; 55; 59; 50; 43; 47; 49; 33; 57]
  else if myAS =? 8 then [66; 40; 48; 60; 27; 22; 46; 79; 21; 52]
  else if myAS =? 9 then [54; 26; 68; 44; 30; 63; 56; 35; 64; 25]
  else if myAS =? 10 then [36; 75; 58; 34; 73; 20; 32; 74; 41; 62]
  else [].

Definition create_missing (fs : filesystem) (name : string) (l : list Z) : filesystem :=
  match fs !! name with Some _ => fs | None => write_ints fs name l end.

Definition init_trust_files (fs : filesystem) (myAS : Z) : filesystem :=
  let fs := create_missing fs "/myAS.txt" [i32 myAS] in
  let fs := create_missing fs "/inTrust.txt" (initial_trust myAS) in
  create_missing fs "/obsTrust.txt" (replicate 10 50).

(** What the node's processing tells others. *)
Inductive event :=
| AnnounceSelected (peer : Z) (selected : option Z)
| ZebraAnnounce (ri : Z)
| ZebraWithdraw (ri : Z).

Definition ZEBRA_ROUTE_BGP : Z := 9.
Definition bgp_normal (i : bgp_info) : bool :=
  (i_type i =? ZEBRA_ROUTE_BGP) && (i_sub_type i =? BGP_ROUTE_NORMAL).

Definition unschedule (R : rib) : res rib :=
  n ← get_node R; Ret (set_node R (Some (with_scheduled n false))).

(** [fib] is [safi == SAFI_UNICAST && !bgp->name && !bgp_option_check
    (BGP_OPT_NO_FIB)], [neighbours] is [bgp->peer]. *)
Definition fib_update (fib : bool) (R : rib) (old_select new_select : option Z) : res (list event) :=
  if fib then
    new ← match new_select with
          | Some r => i ← deref (infos R) r; Ret (if bgp_normal i then [ZebraAnnounce r] else [])
          | None => Ret []
          end;
    match new with
    | [] => match old_select with
            | Some r => i ← deref (infos R) r; Ret (if bgp_normal i then [ZebraWithdraw r] else [])
            | None => Ret []
            end
    | _ => Ret new
    end
  else Ret [].

(** The SELECTED flag moves from the old path to the new one. *)
Definition clear_old (R : rib) (old : option Z) : res rib :=
  match old with Some r => bgp_info_unset_flag R r BGP_INFO_SELECTED | None => Ret R end.
Definition set_new (R : rib) (new : option Z) : res rib :=
  match new with
  | Some r => R ← bgp_info_set_flag R r BGP_INFO_SELECTED;
              bgp_info_unset_flag R r BGP_INFO_ATTR_CHANGED
  | None => Ret R
  end.

(** [if (old_select && CHECK_FLAG (old_select->flags, BGP_INFO_REMOVED))
    bgp_info_reap (rn, old_select)]. *)
Definition reap_old (R : rib) (old : option Z) : res rib :=
  match old with
  | Some r => i ← deref (infos R) r;
              if CHECK_FLAG (i_flags i) BGP_INFO_REMOVED then bgp_info_reap R r else Ret R
  | None => Ret R
  end.

(** The early return: the selected path is the old one and unchanged. *)
Definition nothing_to_do (R : rib) (old_select new_select : option Z) : res (option (list event)) :=
  match old_select with
  | Some r =>
      if bool_decide (old_select = new_select) then
        i ← deref (infos R) r;
        Ret (if CHECK_FLAG (i_flags i) BGP_INFO_ATTR_CHANGED then None
             else Some (if CHECK_FLAG (i_flags i) BGP_INFO_IGP_CHANGED
                        then [ZebraAnnounce r] else []))
      else Ret None
  | None => Ret None
  end.

Section Process.
Context {L : Layout}.

Definition bgp_process_main (b : bgp) (neighbours : list Z) (fib : bool)
    (fs : filesystem) (R : rib) : res (filesystem * rib * list event) :=
  let fs := init_trust_files fs (bgp_as b) in
  '(R, (old_select, new_select)) ← bgp_best_selection fs b R;
  unchanged ← nothing_to_do R old_select new_select;
  match unchanged with
  | Some ev => R ← unschedule R; Ret (fs, R, ev)
  | None =>
      R ← clear_old R old_select;
      R ← set_new R new_select;
      let told := map (fun p => AnnounceSelected p new_select) neighbours in
      zebra ← fib_update fib R old_select new_select;
      R ← reap_old R old_select;
      R ← unschedule R;
      Ret (fs, R, told ++ zebra)
  end.

(** ** Paths up to bookkeeping

    Selection only changes links, locks, reference counts and the two DMED
    flags; none of them matters to the comparison. *)
Record psim (x y : path) : Prop := {
  ps_peer : i_peer (info x) = i_peer (info y);
  ps_attr : i_attr (info x) = i_attr (info y);
  ps_igp : i_igpmetric (info x) = i_igpmetric (info y);
  ps_sub : i_sub_type (info x) = i_sub_type (info y);
  ps_flag : forall k, 0 <= k < 16 -> k <> 6 -> k <> 7 -> flag (info x) k = flag (info y) k;
  ps_pattr : with_refcnt (pattr x) 0 = with_refcnt (pattr y) 0;
  ps_ppeer : with_peer_lock (ppeer x) 0 = with_peer_lock (ppeer y) 0;
}.

Lemma psim_refl x : psim x x.
Proof. by split. Qed.

Lemma psim_trans x y z : psim x y -> psim y z -> psim x z.
Proof.
  intros [] []. split; try congruence. intros k Hk H6 H7. etrans; eauto.
Qed.

(** What the comparison reads of a path is kept. *)
Lemma psim_reads x y : psim x y ->
  path_as x = path_as y /\ peer_sort (ppeer x) = peer_sort (ppeer y) /\
  a_aspath (pattr x) = a_aspath (pattr y) /\ router_id x = router_id y /\
  cluster_length x = cluster_length y /\ su_remote (ppeer x) = su_remote (ppeer y).
Proof.
  intros [_ _ _ _ _ Ha Hp]. destruct x as [ix ax px], y as [iy ay py].
  destruct ax, ay, px, py. simpl in *. by simplify_eq.
Qed.

Lemma psim_key b ins obs x y : psim x y ->
  path_key b ins obs x = path_key b ins obs y /\ local_rank x = local_rank y.
Proof.
  intros H. destruct (psim_reads x y H) as (E1 & E2 & E3 & E4 & E5 & E6).
  destruct H as [_ _ Hi Hs _ Ha _].
  assert (local_rank x = local_rank y) as Hl by (unfold local_rank; by rewrite Hs).
  split; [|done]. unfold path_key, steps_key, path_length, external_rank, path_address, igpmetric.
  unfold hops, confeds. rewrite E1, E2, E3, E4, E5, E6, Hi, Hl.
  unfold path_weight, path_pref, bgp_med_value, has_attr.
  destruct (pattr x), (pattr y). simpl in *. by simplify_eq.
Qed.

Lemma psim_rankable x y : psim x y -> rankable x -> rankable y.
Proof.
  intros H [? ? ? ? ?]. destruct (psim_reads x y H) as (E1 & E2 & E3 & E4 & E5 & E6).
  split; by rewrite <- ?E2, <- ?E3, <- ?E4, <- ?E5, <- ?E6.
Qed.

Lemma psim_holddown x y : psim x y -> BGP_INFO_HOLDDOWN (info x) = BGP_INFO_HOLDDOWN (info y).
Proof. intros H. rewrite !holddown_bits. by rewrite !(ps_flag _ _ H) by lia. Qed.

(** ** The state during selection *)

(** [S] holds the paths as they were at the start. *)
Definition peer_at (S : gmap Z path) (a : Z) : option Z := i_peer ∘ info <$> S !! a.
Definition attr_at (S : gmap Z path) (a : Z) : option Z := S !! a ≫= i_attr ∘ info.

Definition count {A} (f : Z -> option A) `{EqDecision A} (v : A) (l : list Z) : Z :=
  zlen (filter (fun a => f a = Some v) l).

Lemma count_middle {A} (f : Z -> option A) `{EqDecision A} v l a k :
  count f v (l ++ a :: k) = count f v (l ++ k) + (if decide (f a = Some v) then 1 else 0).
Proof.
  unfold count. rewrite !filter_app, filter_cons. case_decide; zlen.
Qed.

Lemma count_nonneg {A} (f : Z -> option A) `{EqDecision A} v l : 0 <= count f v l.
Proof. apply zlen_nonneg. Qed.

Lemma count_elem {A} (f : Z -> option A) `{EqDecision A} v l a :
  a ∈ l -> f a = Some v -> 1 <= count f v l.
Proof.
  intros (k & r & ->)%list_elem_of_split Hf. rewrite count_middle, decide_True by done.
  pose proof (count_nonneg f v (k ++ r)). lia.
Qed.

(** The node chains [l]; every path of [l] is as in [S]; references cover their
    holders. *)
Record sel_inv (S : gmap Z path) (R : rib) (l : list Z) : Prop := {
  si_list : path_list R l;
  si_paths : forall a, a ∈ l -> exists x0 x,
    S !! a = Some x0 /\ loaded R a x /\ psim x0 x /\ 1 <= i_lock (info x);
  si_node : exists n, node R = Some n /\ zlen l + 1 <= n_lock n;
  si_peers : forall q p, peers R !! q = Some p -> count (peer_at S) q l + 1 <= p_lock p;
  si_attrs : forall t x, attrs R !! t = Some x -> count (attr_at S) t l <= a_refcnt x < 2 ^ 64;
}.

Lemma sel_at S a x0 x : S !! a = Some x0 -> psim x0 x ->
  peer_at S a = Some (i_peer (info x)) /\ attr_at S a = i_attr (info x).
Proof.
  intros HS Hp. unfold peer_at, attr_at. rewrite HS. simpl.
  by rewrite (ps_peer _ _ Hp), (ps_attr _ _ Hp).
Qed.

(** Clearing a DMED flag. *)
Lemma unset_dmed S R l a f : sel_inv S R l -> a ∈ l ->
  f = BGP_INFO_DMED_CHECK \/ f = BGP_INFO_DMED_SELECTED ->
  exists R', bgp_info_unset_flag R a f = Ret R' /\ sel_inv S R' l.
Proof.
  intros Hinv Ha Hf. destruct (si_paths _ _ _ Hinv a Ha) as (x0 & x & HS & Hx & Hsim & Hlk).
  destruct Hx as (Hi & Hp & Hat). unfold bgp_info_unset_flag. rewrite (deref_ok _ _ _ Hi).
  cbn [mbind res_bind].
  assert (CHECK_FLAG f (Z.lor BGP_INFO_VALID BGP_INFO_UNUSEABLE) = false) as ->
    by (by destruct Hf as [-> | ->]). cbn [negb].
  set (v := UNSET_FLAG _ f). eexists. split; [done|].
  assert (Hv : forall k, 0 <= k < 16 -> k <> 6 -> k <> 7 -> Z.testbit v k = flag (info x) k).
  { intros k Hk H6 H7. unfold v, flag. rewrite UNSET_FLAG_bit by done.
    unfold BGP_INFO_DMED_CHECK, BGP_INFO_DMED_SELECTED in Hf.
    destruct Hf as [-> | ->]; by rewrite Z.pow2_bits_false, andb_true_r by lia. }
  destruct Hinv as [(n & HN & Hhd & Hl & Hnd) Hps HNn Hpe Hatt]. split; try done.
  - exists n. split_and!; try done. by eapply chained_update.
  - intros c Hc. destruct (decide (c = a)) as [->|Hne].
    + exists x0, (Path (with_flags (info x) v) (pattr x) (ppeer x)). split; [done|]. split_and!; try done.
      * split; [exact (lookup_insert_eq (infos R) a _)|done].
      * eapply psim_trans; [exact Hsim|]. split; try done. intros k Hk H6 H7. symmetry. by apply Hv.
    + destruct (Hps c Hc) as (y0 & y & ? & (Hyi & ? & ?) & ? & ?). exists y0, y.
      split_and!; try done. split; [simpl; by rewrite lookup_insert_ne|done].
Qed.

(** Releasing the references of a reaped path. *)
Lemma released_peers S R l k a x0 x p : sel_inv S R (l ++ a :: k) ->
  S !! a = Some x0 -> psim x0 x -> peers R !! i_peer (info x) = Some p ->
  forall q p', unlocked_peers R (info x) p !! q = Some p' ->
    count (peer_at S) q (l ++ k) + 1 <= p_lock p'
    /\ exists p0, peers R !! q = Some p0 /\ with_peer_lock p' 0 = with_peer_lock p0 0.
Proof.
  intros Hinv HS Hsim HP q p' Hp'. destruct (sel_at S a x0 x HS Hsim) as [Hpa _].
  pose proof (fun p0 H => si_peers _ _ _ Hinv q p0 H) as Hc. setoid_rewrite count_middle in Hc.
  rewrite Hpa in Hc. unfold unlocked_peers in Hp'. destruct (i_lock (info x) =? 1).
  - apply lookup_insert_Some in Hp' as [[<- <-]|[Hne Hp']].
    + specialize (Hc p HP). rewrite decide_True in Hc by done. simpl. split; [lia|]. eauto.
    + specialize (Hc p' Hp'). rewrite decide_False in Hc by congruence. split; [lia|]. eauto.
  - specialize (Hc p' Hp'). split; [case_decide; lia|]. eauto.
Qed.

Lemma released_attr_refs S R l k a x0 x : sel_inv S R (l ++ a :: k) ->
  S !! a = Some x0 -> psim x0 x ->
  (forall t y, released_attrs R (info x) !! t = Some y -> count (attr_at S) t (l ++ k) <= a_refcnt y < 2 ^ 64)
  /\ (forall t y, attrs R !! t = Some y -> 1 <= count (attr_at S) t (l ++ k) ->
        exists y', released_attrs R (info x) !! t = Some y' /\ with_refcnt y' 0 = with_refcnt y 0).
Proof.
  intros Hinv HS Hsim. destruct (sel_at S a x0 x HS Hsim) as [_ Hat].
  pose proof (si_attrs _ _ _ Hinv) as Hc. setoid_rewrite count_middle in Hc. rewrite Hat in Hc.
  assert (Hsame : (forall t y, attrs R !! t = Some y -> count (attr_at S) t (l ++ k) <= a_refcnt y < 2 ^ 64)
    /\ (forall t y, attrs R !! t = Some y -> 1 <= count (attr_at S) t (l ++ k) ->
        exists y', attrs R !! t = Some y' /\ with_refcnt y' 0 = with_refcnt y 0)).
  { split; [|eauto]. intros t y Hy. specialize (Hc t y Hy). case_decide; lia. }
  unfold released_attrs. destruct (i_lock (info x) =? 1); [|done].
  destruct (i_attr (info x)) as [at_|] eqn:E; simpl; [|done].
  destruct (attrs R !! at_) as [z|] eqn:Ez; simpl; [|done].
  pose proof (Hc at_ z Ez) as Hz. rewrite decide_True in Hz by done.
  pose proof (count_nonneg (attr_at S) at_ (l ++ k)). rewrite u64_id by lia.
  destruct (Z.eqb_spec (a_refcnt z - 1) 0) as [H0|H0].
  - split.
    + intros t y [Hne Hy]%lookup_delete_Some. by apply Hsame.
    + intros t y Hy H1. destruct (decide (at_ = t)) as [->|Hne]; [simplify_eq; lia|].
      rewrite lookup_delete_ne by done. eauto.
  - split.
    + intros t y [[<- <-]|[Hne Hy]]%lookup_insert_Some; [simpl; lia|]. by apply Hsame.
    + intros t y Hy H1. destruct (decide (at_ = t)) as [->|Hne].
      * rewrite lookup_insert_eq. simplify_eq. eauto.
      * rewrite lookup_insert_ne by done. eauto.
Qed.

(** Reaping a path from the middle of the list. *)
Lemma reap_step S R l a k : sel_inv S R (l ++ a :: k) ->
  exists R', bgp_info_reap R a = Ret R' /\ sel_inv S R' (l ++ k).
Proof.
  intros Hinv. pose proof (si_paths _ _ _ Hinv a ltac:(set_solver))
    as (x0 & x & HS & (Hi & Hp & (ta & Eta & Hta)) & Hsim & Hlk).
  destruct (si_node _ _ _ Hinv) as (n & HN & Hnl). autorewrite with zlen in Hnl.
  pose proof (zlen_nonneg l). pose proof (zlen_nonneg k).
  destruct (sel_at S a x0 x HS Hsim) as [Hpa _].
  assert (Hu : can_unlock R (info x) (ppeer x)).
  { split_and!; [done|done| |].
    - pose proof (si_peers _ _ _ Hinv _ _ Hp).
      pose proof (count_elem (peer_at S) _ (l ++ a :: k) a ltac:(set_solver) Hpa). lia.
    - intros c Hc. rewrite Eta in Hc. simplify_eq. eauto. }
  destruct (info_reap_ok R l a k (info x) (ppeer x) n (si_list _ _ _ Hinv) Hi Hu HN ltac:(lia))
    as (R' & n' & E & Hpl & Hok & _ & HN' & Hnl' & HPs & HAs).
  destruct (si_list _ _ _ Hinv) as (_ & _ & _ & _ & Hnd).
  apply NoDup_app in Hnd as (_ & Hd & [Hak _]%NoDup_cons).
  pose proof (released_peers S R l k a x0 x (ppeer x) Hinv HS Hsim Hp) as Hpeers.
  destruct (released_attr_refs S R l k a x0 x Hinv HS Hsim) as [Hattrs Hkeep].
  exists R'. split; [done|]. split; [done| | | |].
  - intros c Hc. assert (c <> a) as Hne.
    { intros ->. apply elem_of_app in Hc as [Hc|Hc]; [apply (Hd a Hc); by left|done]. }
    destruct (si_paths _ _ _ Hinv c ltac:(set_solver))
      as (y0 & y & HSc & (Hyi & Hyp & (tc & Etc & Htc)) & Hsimc & Hlkc).
    destruct (sel_at S c y0 y HSc Hsimc) as [Hpc Hac].
    specialize (Hok c Hne). rewrite Hyi in Hok. inversion Hok as [i j [Hij Hlij] E1 E2|]; subst.
    destruct Hij as (P1 & P2 & P3 & P4 & P5 & P6).
    destruct (Hkeep tc (pattr y) Htc) as (ay & Hay & Eay).
    { apply (count_elem _ _ _ c Hc). congruence. }
    assert (exists py, peers R' !! i_peer (info y) = Some py
                       /\ with_peer_lock py 0 = with_peer_lock (ppeer y) 0) as (py & Hpy & Epy).
    { rewrite HPs. unfold unlocked_peers. destruct (i_lock (info x) =? 1); [|eauto].
      destruct (decide (i_peer (info x) = i_peer (info y))) as [Eq|Eq].
      - rewrite Eq, lookup_insert_eq. rewrite Eq in Hp. eexists. split; [done|].
        by assert (ppeer x = ppeer y) as -> by congruence.
      - rewrite lookup_insert_ne by done. eauto. }
    exists y0, (Path j ay py). split; [done|]. split_and!.
    + split; [done|]. simpl. rewrite <- P1, <- P2. split; [done|]. exists tc. by rewrite HAs.
    + eapply psim_trans; [exact Hsimc|]. split; simpl; try done.
      intros b Hb H6 H7. unfold flag. by rewrite P4.
    + simpl. by rewrite <- Hlij.
  - exists n'. split; [done|]. autorewrite with zlen. lia.
  - intros q p' Hq. rewrite HPs in Hq. by apply Hpeers.
  - intros t y Hy. rewrite HAs in Hy. by apply Hattrs.
Qed.

(** ** What the loop computes *)
Section SelectionSpec.
Context (fs : filesystem) (b : bgp) (ins obs : list Z) (S : gmap Z path).
Hypothesis Hfiles : trust_files fs ins obs.
Hypothesis Hconf : total_order_config b.
Hypothesis Hdmed : bgp_flag_check b BGP_FLAG_DETERMINISTIC_MED = false.

(** What [S] says of the path at [a]. *)
Definition shot_flag (a k : Z) : bool :=
  match S !! a with Some x => flag (info x) k | None => false end.
Definition eligible (a : Z) : bool :=
  match S !! a with Some x => negb (BGP_INFO_HOLDDOWN (info x)) | None => false end.
Definition kept (a : Z) : bool := negb (shot_flag a 9 && negb (shot_flag a 3)).
Definition key_of (a : Z) : list Z :=
  match S !! a with Some x => path_key b ins obs x | None => [] end.

(** The usable paths are rankable, no vote result has been delivered for their
    neighbours, and no two are local routes of the same kind. *)
Definition candidates_ok : Prop :=
  (forall a x, S !! a = Some x -> BGP_INFO_HOLDDOWN (info x) = false ->
     known_as x /\ rankable x /\ fs !! voteresult_name (path_as x) = None) /\
  (forall a c x y, a <> c -> S !! a = Some x -> S !! c = Some y ->
     BGP_INFO_HOLDDOWN (info x) = false -> BGP_INFO_HOLDDOWN (info y) = false ->
     not_same_local x y).
Hypothesis Hcand : candidates_ok.

(** The last SELECTED path, and the last path no earlier one beats. *)
Definition note_old (o : option Z) (a : Z) : option Z := if shot_flag a 3 then Some a else o.
Definition choose (o : option Z) (a : Z) : option Z :=
  if eligible a then
    match o with
    | None => Some a
    | Some c => if at_least (key_of a) (key_of c) then Some a else o
    end
  else o.

Lemma cmp_choose R l a new : sel_inv S R l -> a ∈ l -> eligible a = true ->
  (forall c, new = Some c -> c ∈ l /\ c <> a /\ eligible c = true) ->
  exists r, bgp_info_cmp fs b R (Some a) new = Ret r /\
    (if r : bool then Some a else new) = choose new a.
Proof.
  intros Hinv Ha Hel Hnew. unfold choose. rewrite Hel.
  destruct new as [c|]; [|by exists true].
  destruct (Hnew c eq_refl) as (Hc & Hne & Hec).
  destruct (si_paths _ _ _ Hinv a Ha) as (x0 & x & HSx & Hlx & Hsx & _).
  destruct (si_paths _ _ _ Hinv c Hc) as (y0 & y & HSy & Hly & Hsy & _).
  unfold eligible in Hel, Hec. rewrite HSx in Hel. rewrite HSy in Hec. unneg.
  destruct Hcand as [H1 H2]. destruct (H1 a x0 HSx Hel) as (Kx & Rx & Vx).
  destruct (H1 c y0 HSy Hec) as (Ky & Ry & Vy).
  pose proof (H2 a c x0 y0 ltac:(done) HSx HSy Hel Hec) as Hns.
  destruct (psim_key b ins obs x0 x Hsx) as [Ekx Elx], (psim_key b ins obs y0 y Hsy) as [Eky Ely].
  destruct (psim_reads x0 x Hsx) as [Eax _], (psim_reads y0 y Hsy) as [Eay _].
  rewrite (cmp_key fs b R ins obs Hfiles Hconf a c x y);
    [|done|done|unfold known_as in *; congruence|unfold known_as in *; congruence|
     by eapply psim_rankable|by eapply psim_rankable|unfold not_same_local in *; congruence|
     left; congruence].
  eexists. split; [done|]. unfold key_of. by rewrite HSx, HSy, Ekx, Eky.
Qed.

(** The next path, whatever happens to the current one. *)
Lemma sel_next R l a r : sel_inv S R (l ++ a :: r) ->
  exists x0 x, S !! a = Some x0 /\ infos R !! a = Some (info x) /\ psim x0 x /\
    i_next (info x) = first r None.
Proof.
  intros Hinv. destruct (si_paths _ _ _ Hinv a ltac:(set_solver)) as (x0 & x & HS & (Hi & _) & Hs & _).
  destruct (si_list _ _ _ Hinv) as (n & _ & _ & Hl & _).
  apply chained_app in Hl as [_ [(i & Hi' & _ & Hn) _]]. exists x0, x.
  assert (i = info x) as -> by congruence. done.
Qed.

(** One round of the loop, with the tests on the path as it was at the start. *)
Lemma select_round R d a r fuel old new : sel_inv S R (d ++ a :: r) ->
  select_loop fs b (Datatypes.S fuel) R (Some a) old new
  = if negb (eligible a) then
      R ← (if shot_flag a 9 && bool_decide (Some a <> note_old old a)
           then bgp_info_reap R a else Ret R);
      select_loop fs b fuel R (first r None) (note_old old a) new
    else
      R ← bgp_info_unset_flag R a BGP_INFO_DMED_CHECK;
      R ← bgp_info_unset_flag R a BGP_INFO_DMED_SELECTED;
      better ← bgp_info_cmp fs b R (Some a) new;
      select_loop fs b fuel R (first r None) (note_old old a)
        (if better : bool then Some a else new).
Proof.
  intros Hinv. destruct (sel_next R d a r Hinv) as (x0 & x & HS & Hi & Hsim & Hnx).
  cbn [select_loop]. rewrite (deref_ok _ _ _ Hi). cbn [mbind res_bind].
  unfold note_old, eligible, shot_flag. rewrite HS, negb_involutive, Hnx, Hdmed.
  unfold BGP_INFO_SELECTED, BGP_INFO_REMOVED. rewrite !CHECK_FLAG_bit by lia.
  fold (flag (info x) 3) (flag (info x) 9). rewrite <- !(ps_flag _ _ Hsim) by lia.
  by rewrite <- (psim_holddown _ _ Hsim).
Qed.

Lemma eligible_kept a : eligible a = true -> kept a = true.
Proof.
  unfold eligible, kept, shot_flag. destruct (S !! a) as [x|]; [|done]. intros He. unneg.
  rewrite holddown_bits in He. apply orb_false_iff in He as [_ He].
  apply orb_false_iff in He as [_ ->]. done.
Qed.

(** A round keeps the path or reaps it, and updates the two candidates. *)
Lemma select_step R d a r fuel old new : sel_inv S R (d ++ a :: r) ->
  (forall c, old = Some c -> c ∈ d) -> (forall c, new = Some c -> c ∈ d /\ eligible c = true) ->
  exists R', select_loop fs b (Datatypes.S fuel) R (Some a) old new
      = select_loop fs b fuel R' (first r None) (note_old old a) (choose new a) /\
    sel_inv S R' (d ++ (if kept a then [a] else []) ++ r).
Proof.
  intros Hinv Hold Hnew. rewrite (select_round R d a r) by done.
  assert (Hnd : a ∉ d).
  { destruct (si_list _ _ _ Hinv) as (_ & _ & _ & _ & Hnd). apply NoDup_app in Hnd as (_ & Hd & _).
    intros Hin. apply (Hd a Hin). by left. }
  destruct (eligible a) eqn:Ee; cbn [negb].
  - rewrite eligible_kept by done.
    destruct (unset_dmed S R (d ++ a :: r) a BGP_INFO_DMED_CHECK) as (R1 & -> & Hinv1);
      [done|set_solver|auto|]. cbn [mbind res_bind].
    destruct (unset_dmed S R1 (d ++ a :: r) a BGP_INFO_DMED_SELECTED) as (R2 & -> & Hinv2);
      [done|set_solver|auto|]. cbn [mbind res_bind].
    destruct (cmp_choose R2 (d ++ a :: r) a new Hinv2 ltac:(set_solver) Ee) as (res & -> & Hres).
    { intros c Hc. destruct (Hnew c Hc) as [Hcd Hce]. split; [set_solver|]. split; [|done].
      intros ->. done. }
    cbn [mbind res_bind]. rewrite Hres. eauto.
  - assert (choose new a = new) as -> by (unfold choose; by rewrite Ee).
    assert (bool_decide (Some a <> note_old old a) = negb (shot_flag a 3)) as ->.
    { unfold note_old. destruct (shot_flag a 3); [by apply bool_decide_false; intros []|].
      apply bool_decide_true. intros He. by apply Hnd, Hold. }
    unfold kept. destruct (shot_flag a 9 && negb (shot_flag a 3)); cbn [negb].
    + destruct (reap_step S R d a r Hinv) as (R1 & -> & Hinv1). cbn [mbind res_bind]. eauto.
    + cbn [mbind res_bind]. eauto.
Qed.

(** The candidates after a round are paths that were kept. *)
Lemma candidates_kept d a old new :
  (forall c, old = Some c -> c ∈ d) -> (forall c, new = Some c -> c ∈ d /\ eligible c = true) ->
  let d' := d ++ (if kept a then [a] else []) in
  (forall c, note_old old a = Some c -> c ∈ d') /\
  (forall c, choose new a = Some c -> c ∈ d' /\ eligible c = true).
Proof.
  intros Hold Hnew d'. unfold d'. split; intros c.
  - unfold note_old. destruct (shot_flag a 3) eqn:E3; [intros [= <-]|intros Hc%Hold; set_solver].
    unfold kept. rewrite E3, andb_false_r. set_solver.
  - unfold choose. destruct (eligible a) eqn:Ee; [|intros Hc; destruct (Hnew c Hc); set_solver].
    rewrite eligible_kept by done.
    destruct new as [c'|]; [destruct (at_least _ _)|]; intros [= <-];
      [split; [set_solver|done]| |split; [set_solver|done]].
    destruct (Hnew c' eq_refl). split; [set_solver|done].
Qed.

Lemma select_loop_ok r : forall d R fuel old new,
  sel_inv S R (d ++ r) -> (length r <= fuel)%nat ->
  (forall c, old = Some c -> c ∈ d) -> (forall c, new = Some c -> c ∈ d /\ eligible c = true) ->
  exists R', select_loop fs b fuel R (first r None) old new
    = Ret (R', (foldl note_old old r, foldl choose new r)) /\
  sel_inv S R' (d ++ filter (fun a => kept a = true) r).
Proof.
  induction r as [|a r IH]; intros d R fuel old new Hinv Hf Hold Hnew.
  { exists R. split; [by destruct fuel|done]. }
  destruct fuel as [|fuel]; [simpl in Hf; lia|]. cbn [first length foldl] in *.
  destruct (select_step R d a r fuel old new) as (R1 & -> & Hinv1); [done..|].
  destruct (candidates_kept d a old new Hold Hnew) as [Ho Hn]. rewrite app_assoc in Hinv1.
  destruct (IH _ R1 fuel _ _ Hinv1 ltac:(lia) Ho Hn) as (R' & -> & Hinv').
  exists R'. split; [done|]. rewrite filter_cons. rewrite <- app_assoc in Hinv'.
  by destruct (kept a).
Qed.
(** [best l new]: [new] is a usable path of [l] with the largest key, or there
    is none. *)
Definition best (l : list Z) (new : option Z) : Prop :=
  match new with
  | None => forall a, a ∈ l -> eligible a = false
  | Some a => a ∈ l /\ eligible a = true /\
      forall c, c ∈ l -> eligible c = true -> at_least (key_of a) (key_of c) = true
  end.

Lemma choose_best l o a : best l o -> best (l ++ [a]) (choose o a).
Proof.
  unfold choose. intros Ho. destruct (eligible a) eqn:Ea.
  - destruct o as [c|]; cbn [best] in *.
    + destruct Ho as (Hc & Hce & Hmax). destruct (at_least (key_of a) (key_of c)) eqn:E; cbn [best].
      * split; [set_solver|]. split; [done|]. intros d Hd Hde.
        apply elem_of_app in Hd as [Hd| ->%list_elem_of_singleton]; [|apply at_least_refl].
        eapply at_least_trans; eauto.
      * split; [set_solver|]. split; [done|]. intros d Hd Hde.
        apply elem_of_app in Hd as [Hd| ->%list_elem_of_singleton]; [auto|].
        by apply at_least_total.
    + split; [set_solver|]. split; [done|]. intros d Hd Hde.
      apply elem_of_app in Hd as [Hd| ->%list_elem_of_singleton]; [|apply at_least_refl].
      rewrite (Ho d Hd) in Hde. done.
  - destruct o as [c|]; cbn [best] in *.
    + destruct Ho as (Hc & Hce & Hmax). split; [set_solver|]. split; [done|]. intros d Hd Hde.
      apply elem_of_app in Hd as [Hd| ->%list_elem_of_singleton]; [auto|congruence].
    + intros d Hd. apply elem_of_app in Hd as [Hd| ->%list_elem_of_singleton]; auto.
Qed.

Lemma foldl_choose_best l : best l (foldl choose None l).
Proof.
  induction l as [|a l IH] using rev_ind; [intros a Ha; by apply not_elem_of_nil in Ha|].
  rewrite foldl_app. by apply choose_best.
Qed.

Lemma foldl_note_old l :
  match foldl note_old None l with
  | None => forall a, a ∈ l -> shot_flag a 3 = false
  | Some a => a ∈ l /\ shot_flag a 3 = true
  end.
Proof.
  induction l as [|a l IH] using rev_ind; [intros a Ha; by apply not_elem_of_nil in Ha|].
  rewrite foldl_app. cbn [foldl]. unfold note_old at 1. destruct (shot_flag a 3) eqn:E.
  - split; [set_solver|done].
  - destruct (foldl note_old None l) as [c|].
    + destruct IH. split; [set_solver|done].
    + intros d Hd. apply elem_of_app in Hd as [Hd| ->%list_elem_of_singleton]; auto.
Qed.

Lemma chained_dom m p l q : chained m p l q -> forall a, a ∈ l -> a ∈ dom m.
Proof.
  revert p. induction l as [|x l IH]; intros p; [intros _ a Ha; by apply not_elem_of_nil in Ha|].
  intros [(i & Hi & _) Hl] a [-> |Ha]%elem_of_cons; [by eapply elem_of_dom_2|by eapply IH].
Qed.

Lemma list_fits R l : path_list R l -> (length l <= size (infos R))%nat.
Proof.
  intros (n & _ & _ & Hl & Hnd). rewrite <- size_dom, <- (size_list_to_set (C := gset Z)) by done.
  apply subseteq_size. intros a Ha%elem_of_list_to_set. by eapply chained_dom.
Qed.

Lemma best_selection_ok R l : sel_inv S R l ->
  exists R' old new, bgp_best_selection fs b R = Ret (R', (old, new)) /\
    sel_inv S R' (filter (fun a => kept a = true) l) /\ best l new /\
    match old with
    | None => forall a, a ∈ l -> shot_flag a 3 = false
    | Some a => a ∈ l /\ shot_flag a 3 = true
    end.
Proof.
  intros Hinv. destruct (si_list _ _ _ Hinv) as (n & HN & Hhd & Hl & Hnd).
  unfold bgp_best_selection, get_node. rewrite HN, Hdmed. cbn [mbind res_bind]. rewrite HN.
  cbn [mbind res_bind]. rewrite Hhd.
  destruct (select_loop_ok l [] R (size (infos R)) None None) as (R' & E & Hinv'); try done.
  { by apply list_fits, (si_list _ _ _ Hinv). }
  exists R', (foldl note_old None l), (foldl choose None l).
  split; [exact E|]. split; [done|]. split; [apply foldl_choose_best|apply foldl_note_old].
Qed.

(** C2. Best path selection computes a maximum, under conditions that make the
    comparison a total order.  The conditions: "bgp always-compare-med" and "bgp
    bestpath compare-routerid" are configured and "bgp deterministic-med" is not (in
    the default configuration the outcome can depend on the order of the list); the
    two trust files can be read (so the frames are padded); and of every usable path
    the neighbour AS is between 1 and 10, no vote result of that neighbour has been
    delivered, the AS path, router id, cluster list and address are there, and no
    two usable paths are local routes of the same kind.  Then [bgp_best_selection] on
    a well linked list whose reference counts cover their holders runs without
    fault; the selected path is a usable path whose key (trust first, then the BGP
    criteria) is at least that of every usable path of the node, whatever the order
    of the list, and there is none only if no path is usable.  Exactly the paths that
    are REMOVED and not SELECTED are unlinked and released, the others stay in
    order, and [old] is a SELECTED path if there is one. *)
Theorem best_selection_maximal R l : sel_inv S R l ->
  exists R' old new, bgp_best_selection fs b R = Ret (R', (old, new)) /\
    path_list R' (filter (fun a => kept a = true) l) /\ best l new /\
    match old with
    | None => forall a, a ∈ l -> shot_flag a 3 = false
    | Some a => a ∈ l /\ shot_flag a 3 = true
    end.
Proof.
  intros Hinv. destruct (best_selection_ok R l Hinv) as (R' & old & new & E & Hinv' & Hb & Ho).
  exists R', old, new. split; [done|]. split; [by apply (si_list _ _ _ Hinv')|done].
Qed.
End SelectionSpec.

(** ** Moving the SELECTED flag *)

(** [SET_FLAG] or [UNSET_FLAG] by [on], and the operation that uses it. *)
Definition upd_flag (on : bool) (f v : Z) : Z := if on then SET_FLAG v f else UNSET_FLAG v f.
Definition write_flag (on : bool) (R : rib) (a f : Z) : res rib :=
  if on then bgp_info_set_flag R a f else bgp_info_unset_flag R a f.

Lemma upd_flag_bit on f v k : 0 <= k < 16 ->
  Z.testbit (upd_flag on f v) k = if Z.testbit f k then on else Z.testbit v k.
Proof.
  intros Hk. destruct on; simpl; [rewrite SET_FLAG_bit by done|rewrite UNSET_FLAG_bit by done];
    by destruct (Z.testbit v k), (Z.testbit f k).
Qed.

(** The snapshot with the same flag written. *)
Definition reflag (S : gmap Z path) (a : Z) (on : bool) (f : Z) : gmap Z path :=
  alter (fun x => Path (with_flags (info x) (upd_flag on f (i_flags (info x)))) (pattr x) (ppeer x)) a S.

Lemma shot_reflag S a on f c k : 0 <= k < 16 -> is_Some (S !! a) ->
  shot_flag (reflag S a on f) c k
  = if bool_decide (c = a) && Z.testbit f k then on else shot_flag S c k.
Proof.
  intros Hk [x Hx]. unfold shot_flag, reflag. destruct (decide (c = a)) as [->|Hne].
  - rewrite lookup_alter_eq, Hx, bool_decide_true by done. simpl. unfold flag. simpl.
    by rewrite upd_flag_bit.
  - by rewrite lookup_alter_ne, bool_decide_false by done.
Qed.

Lemma reflag_at S a on f c :
  peer_at (reflag S a on f) c = peer_at S c /\ attr_at (reflag S a on f) c = attr_at S c.
Proof.
  unfold peer_at, attr_at, reflag. destruct (decide (c = a)) as [->|Hne].
  - rewrite lookup_alter_eq. by destruct (S !! a).
  - by rewrite lookup_alter_ne by done.
Qed.

Lemma count_ext {A} (f g : Z -> option A) `{EqDecision A} v l :
  (forall a, f a = g a) -> count f v l = count g v l.
Proof.
  intros H. unfold count. f_equal. apply list_filter_iff. intros a. by rewrite H.
Qed.

(** Writing a flag that does not change usability. *)
Lemma write_flag_ok S R l a on f : sel_inv S R l -> a ∈ l ->
  CHECK_FLAG f (Z.lor BGP_INFO_VALID BGP_INFO_UNUSEABLE) = false ->
  exists R', write_flag on R a f = Ret R' /\ sel_inv (reflag S a on f) R' l.
Proof.
  intros Hinv Ha Hf. destruct (si_paths _ _ _ Hinv a Ha) as (x0 & x & HS & (Hi & Hp & Hat) & Hsim & Hlk).
  exists (put_info R a (with_flags (info x) (upd_flag on f (i_flags (info x))))). split.
  { unfold write_flag, bgp_info_set_flag, bgp_info_unset_flag. rewrite (deref_ok _ _ _ Hi), Hf.
    by destruct on. }
  destruct Hinv as [(n & HN & Hhd & Hl & Hnd) Hps HNn Hpe Hatt]. split; try done.
  - exists n. split_and!; try done. by eapply chained_update.
  - intros c Hc. unfold reflag. destruct (decide (c = a)) as [->|Hne].
    + rewrite lookup_alter_eq, HS. simpl.
      eexists _, (Path (with_flags (info x) _) (pattr x) (ppeer x)). split; [done|].
      split; [split; [exact (lookup_insert_eq (infos R) a _)|done]|]. split; [|done].
      destruct Hsim. split; try done. intros k Hk H6 H7. unfold flag in *. simpl.
      rewrite !upd_flag_bit by done. destruct (Z.testbit f k); [done|]. eauto.
    + rewrite lookup_alter_ne by done. destruct (Hps c Hc) as (y0 & y & ? & (? & ? & ?) & ? & ?).
      exists y0, y. split_and!; try done. split; [simpl; by rewrite lookup_insert_ne|done].
  - intros q p Hq. rewrite (count_ext _ (peer_at S)); [by apply Hpe|]. intros c. apply reflag_at.
  - intros t y Hy. rewrite (count_ext _ (attr_at S)); [by apply Hatt|]. intros c. apply reflag_at.
Qed.

Lemma unschedule_ok S R l : sel_inv S R l -> exists R', unschedule R = Ret R' /\
  path_list R' l /\ infos R' = infos R.
Proof.
  intros Hinv. destruct (si_list _ _ _ Hinv) as (n & HN & Hhd & Hl & Hnd).
  unfold unschedule, get_node. rewrite HN. simpl. eexists. split; [done|]. split; [|done].
  eexists. split; [done|]. done.
Qed.

(** The flag of a path is the one the snapshot says. *)
Lemma sel_flag S R l a k : sel_inv S R l -> a ∈ l -> 0 <= k < 16 -> k <> 6 -> k <> 7 ->
  exists i, infos R !! a = Some i /\ flag i k = shot_flag S a k.
Proof.
  intros Hinv Ha Hk H6 H7. destruct (si_paths _ _ _ Hinv a Ha) as (x0 & x & HS & (Hi & _) & Hsim & _).
  exists (info x). split; [done|]. unfold shot_flag. rewrite HS. symmetry. by apply (ps_flag _ _ Hsim).
Qed.

Lemma clear_old_ok S R l old : sel_inv S R l -> (forall o, old = Some o -> o ∈ l) ->
  (forall c, c ∈ l -> shot_flag S c 3 = true -> old = Some c) ->
  exists R' S', clear_old R old = Ret R' /\ sel_inv S' R' l /\
    (forall c, c ∈ l -> shot_flag S' c 3 = false) /\ (forall c, shot_flag S' c 9 = shot_flag S c 9).
Proof.
  intros Hinv Hin Hsel. destruct old as [o|]; simpl.
  - destruct (write_flag_ok S R l o false BGP_INFO_SELECTED) as (R' & E & Hinv'); [done|auto|done|].
    assert (is_Some (S !! o)) as Ho
      by (destruct (si_paths _ _ _ Hinv o (Hin o eq_refl)) as (x0 & ? & ? & _); eauto).
    exists R', (reflag S o false BGP_INFO_SELECTED). split; [exact E|]. split; [done|].
    split; intros c; [intros Hc|]; rewrite shot_reflag by (lia || done).
    + destruct (decide (c = o)) as [->|Hne]; [by rewrite bool_decide_true|].
      rewrite bool_decide_false by done. simpl. destruct (shot_flag S c 3) eqn:E3; [|done].
      specialize (Hsel c Hc E3). congruence.
    + change (Z.testbit BGP_INFO_SELECTED 9) with false. by rewrite andb_false_r.
  - exists R, S. split; [done|]. split; [done|]. split; [|done].
    intros c Hc. destruct (shot_flag S c 3) eqn:E3; [|done]. by specialize (Hsel c Hc E3).
Qed.

Lemma set_new_ok S R l new : sel_inv S R l -> (forall a, new = Some a -> a ∈ l) ->
  (forall c, c ∈ l -> shot_flag S c 3 = false) ->
  exists R' S', set_new R new = Ret R' /\ sel_inv S' R' l /\
    (forall c, c ∈ l -> shot_flag S' c 3 = bool_decide (new = Some c)) /\
    (forall c, shot_flag S' c 9 = shot_flag S c 9).
Proof.
  intros Hinv Hin Hsel. destruct new as [a|]; simpl.
  - destruct (write_flag_ok S R l a true BGP_INFO_SELECTED) as (R1 & E1 & Hinv1); [done|auto|done|].
    simpl in E1. rewrite E1. simpl. set (S1 := reflag S a true BGP_INFO_SELECTED) in *.
    destruct (write_flag_ok S1 R1 l a false BGP_INFO_ATTR_CHANGED) as (R2 & E2 & Hinv2); [done|auto|done|].
    assert (is_Some (S !! a)) as Ha
      by (destruct (si_paths _ _ _ Hinv a (Hin a eq_refl)) as (x0 & ? & ? & _); eauto).
    assert (is_Some (S1 !! a)) as Ha1
      by (destruct (si_paths _ _ _ Hinv1 a (Hin a eq_refl)) as (x0 & ? & ? & _); eauto).
    eexists R2, _. split; [exact E2|]. split; [exact Hinv2|].
    split; intros c; [intros Hc|]; rewrite shot_reflag by (lia || done); unfold S1;
      rewrite shot_reflag by (lia || done).
    + change (Z.testbit BGP_INFO_ATTR_CHANGED 3) with false.
      change (Z.testbit BGP_INFO_SELECTED 3) with true. rewrite andb_false_r, andb_true_r, (Hsel c Hc).
      destruct (decide (c = a)) as [->|Hne]; [by rewrite !bool_decide_true|].
      by rewrite !bool_decide_false by congruence.
    + change (Z.testbit BGP_INFO_ATTR_CHANGED 9) with false.
      change (Z.testbit BGP_INFO_SELECTED 9) with false. by rewrite !andb_false_r.
  - exists R, S. split; [done|]. split; [done|]. split; [|done]. intros c Hc. by rewrite Hsel.
Qed.

Lemma fib_update_ok fib S R l old new : sel_inv S R l ->
  (forall o, old = Some o -> o ∈ l) -> (forall a, new = Some a -> a ∈ l) ->
  exists ev, fib_update fib R old new = Ret ev.
Proof.
  intros Hinv Ho Hn. unfold fib_update. destruct fib; [|by eexists].
  assert (Hd : forall c, c ∈ l -> exists i, deref (infos R) c = Ret i).
  { intros c Hc. destruct (sel_flag S R l c 3) as (i & Hi & _); try done. exists i. by apply deref_ok. }
  assert (exists ev, match old with
      | Some r => i ← deref (infos R) r; Ret (if bgp_normal i then [ZebraWithdraw r] else [])
      | None => Ret [] end = Ret ev) as [ev Hev].
  { destruct old as [o|]; [|by eexists]. destruct (Hd o (Ho o eq_refl)) as [i ->]. by eexists. }
  destruct new as [a|]; [destruct (Hd a (Hn a eq_refl)) as [i ->]|]; cbn [mbind res_bind];
    [destruct (bgp_normal i); [by eexists|]|]; by eexists.
Qed.

(** The paths left when the old path, if REMOVED, is reaped. *)
Lemma reap_old_ok S R l old : sel_inv S R l -> (forall o, old = Some o -> o ∈ l) ->
  (forall c, c ∈ l -> shot_flag S c 9 = true -> old = Some c) ->
  exists R', reap_old R old = Ret R' /\
    sel_inv S R' (filter (fun a => shot_flag S a 9 = false) l).
Proof.
  intros Hinv Hin Hrem. unfold reap_old.
  assert (Hall : (forall c, c ∈ l -> shot_flag S c 9 = false) -> filter (fun a => shot_flag S a 9 = false) l = l).
  { apply filter_all. }
  destruct old as [o|].
  - destruct (sel_flag S R l o 9) as (i & Hi & Hf); try done; [by apply Hin|].
    rewrite (deref_ok _ _ _ Hi). cbn [mbind res_bind]. unfold BGP_INFO_REMOVED.
    rewrite CHECK_FLAG_bit by lia. fold (flag i 9). rewrite Hf.
    destruct (shot_flag S o 9) eqn:E9.
    + destruct (list_elem_of_split _ _ (Hin o eq_refl)) as (l1 & l2 & ->).
      destruct (reap_step S R l1 o l2 Hinv) as (R' & -> & Hinv'). exists R'. split; [done|].
      destruct (si_list _ _ _ Hinv) as (_ & _ & _ & _ & Hnd).
      apply NoDup_app in Hnd as (_ & Hd & [Ho2 _]%NoDup_cons).
      assert (Hne : forall c, c ∈ l1 ++ l2 -> shot_flag S c 9 = false).
      { intros c Hc. destruct (shot_flag S c 9) eqn:Ec; [|done].
        specialize (Hrem c ltac:(set_solver) Ec). simplify_eq.
        apply elem_of_app in Hc as [Hc|Hc]; [exfalso; apply (Hd c Hc); by left|done]. }
      rewrite filter_app, filter_cons_False, <- filter_app by congruence.
      by rewrite filter_all.
    + exists R. split; [done|]. rewrite Hall; [done|]. intros c Hc.
      destruct (shot_flag S c 9) eqn:Ec; [|done]. specialize (Hrem c Hc Ec). congruence.
  - exists R. split; [done|]. rewrite Hall; [done|]. intros c Hc.
    destruct (shot_flag S c 9) eqn:Ec; [|done]. by specialize (Hrem c Hc Ec).
Qed.

Lemma nothing_to_do_ok S R l old new : sel_inv S R l -> (forall o, old = Some o -> o ∈ l) ->
  exists u, nothing_to_do R old new = Ret u /\ (is_Some u -> old = new /\ is_Some new).
Proof.
  intros Hinv Ho. unfold nothing_to_do. destruct old as [o|]; [|exists None; by split; [|intros []]].
  destruct (sel_flag S R l o 3) as (i & Hi & _); try done; [by apply Ho|].
  case_bool_decide as E; [|exists None; by split; [|intros []]].
  rewrite (deref_ok _ _ _ Hi). simpl. eexists. split; [done|]. intros _. by rewrite <- E.
Qed.

Section ProcessMain.
Context (fs : filesystem) (b : bgp) (ins obs : list Z) (S : gmap Z path).
Context (neighbours : list Z) (fib : bool).
Let fs' := init_trust_files fs (bgp_as b).
Hypothesis Hfiles : trust_files fs' ins obs.
Hypothesis Hconf : total_order_config b.
Hypothesis Hdmed : bgp_flag_check b BGP_FLAG_DETERMINISTIC_MED = false.
Hypothesis Hcand : candidates_ok fs' S.

(** What selection leaves: [old] and [new] are in the list, [old] is the only
    SELECTED path and the only one that may be REMOVED. *)
Lemma selection_facts l old new :
  let l1 := filter (fun a => kept S a = true) l in
  best b ins obs S l new ->
  match old with
  | None => forall a, a ∈ l -> shot_flag S a 3 = false
  | Some a => a ∈ l /\ shot_flag S a 3 = true
  end ->
  (forall a c, a ∈ l -> c ∈ l -> shot_flag S a 3 = true -> shot_flag S c 3 = true -> a = c) ->
  (forall o, old = Some o -> o ∈ l1 /\ shot_flag S o 3 = true) /\
  (forall a, new = Some a -> a ∈ l1 /\ shot_flag S a 9 = false) /\
  (forall c, c ∈ l1 -> shot_flag S c 3 = true -> old = Some c) /\
  (forall c, c ∈ l1 -> shot_flag S c 9 = true -> old = Some c) /\
  filter (fun a => shot_flag S a 9 = false) l1 = filter (fun a => shot_flag S a 9 = false) l.
Proof.
  intros l1 Hb Ho Huniq. unfold l1.
  assert (Hsel : forall c, c ∈ l -> shot_flag S c 3 = true -> old = Some c).
  { intros c Hc H3. destruct old as [o|]; [|rewrite (Ho c Hc) in H3; done].
    destruct Ho as [Hol Ho3]. f_equal. by apply Huniq. }
  split_and!.
  - intros o ->. destruct Ho as [Hol Ho3]. split; [|done]. apply list_elem_of_filter. split; [|done].
    unfold kept. by rewrite Ho3, andb_false_r.
  - intros c ->. destruct Hb as (Hc & Hce & _). split.
    + apply list_elem_of_filter. split; [by apply eligible_kept|done].
    + unfold eligible, shot_flag in *. destruct (S !! c) as [x|]; [|done]. unneg.
      rewrite holddown_bits in Hce. apply orb_false_iff in Hce as [_ Hce].
      by apply orb_false_iff in Hce as [_ ?].
  - intros c [_ Hc]%list_elem_of_filter. by apply Hsel.
  - intros c [Hk Hc]%list_elem_of_filter H9. apply Hsel; [done|]. unfold kept in Hk.
    rewrite H9 in Hk. by destruct (shot_flag S c 3).
  - rewrite list_filter_filter. apply list_filter_iff. intros c. unfold kept.
    split; [tauto|]. intros ->. done.
Qed.

(** C3. Processing a node makes the best path the SELECTED one, under the
    conditions of C2 (always-compare-med and compare-routerid set, deterministic-med
    not; after [init_trust_files] both trust files can be read; the usable paths
    have neighbour ASes between 1 and 10 without delivered vote results, complete
    attributes, and no two are local routes of the same kind).  From a node with at
    most one SELECTED path, as a new node has and as this function leaves every
    node, [bgp_process_main] ends with the SELECTED flag on the best usable path and
    on no other, with every REMOVED path unlinked, and with the list of the remaining
    paths well linked and in order; the trust files exist afterwards. *)
Theorem process_main_selects_best R l :
  sel_inv S R l ->
  (forall a c, a ∈ l -> c ∈ l -> shot_flag S a 3 = true -> shot_flag S c 3 = true -> a = c) ->
  exists R' ev new, bgp_process_main b neighbours fib fs R = Ret (fs', R', ev) /\
    best b ins obs S l new /\
    path_list R' (filter (fun a => shot_flag S a 9 = false) l) /\
    (forall a, a ∈ l -> shot_flag S a 9 = false ->
       exists i, infos R' !! a = Some i /\ flag i 3 = bool_decide (new = Some a)).
Proof.
  intros Hinv Huniq.
  destruct (best_selection_ok fs' b ins obs S Hfiles Hconf Hdmed Hcand R l Hinv)
    as (R1 & old & new & E & Hinv1 & Hb & Ho).
  destruct (selection_facts l old new Hb Ho Huniq) as (Fo & Fn & Fs & Fr & Ff).
  set (l1 := filter (fun a => kept S a = true) l) in *.
  assert (Hl1 : forall a, a ∈ l -> shot_flag S a 9 = false -> a ∈ l1).
  { intros a Ha H9. apply list_elem_of_filter. split; [|done]. unfold kept. by rewrite H9. }
  unfold bgp_process_main. fold fs'. rewrite E. cbn [mbind res_bind].
  destruct (nothing_to_do_ok S R1 l1 old new Hinv1) as (u & -> & Hu); [naive_solver|].
  cbn [mbind res_bind]. destruct u as [ev|].
  - destruct (Hu ltac:(by eexists)) as [-> [a ->]].
    destruct (unschedule_ok S R1 l1 Hinv1) as (R' & -> & Hpl & HI). cbn [mbind res_bind].
    eexists R', ev, (Some a). split; [done|]. split; [done|]. split.
    + rewrite <- Ff, filter_all; [done|]. intros c Hc. destruct (shot_flag S c 9) eqn:E9; [|done].
      specialize (Fr c Hc E9). destruct (Fn a eq_refl). congruence.
    + intros c Hc H9. rewrite HI. destruct (sel_flag S R1 l1 c 3) as (i & Hi & Hf); try done; [auto|].
      exists i. split; [done|]. rewrite Hf. case_bool_decide as Eq.
      * simplify_eq. by destruct (Fo c eq_refl).
      * destruct (shot_flag S c 3) eqn:E3; [|done]. by specialize (Fs c (Hl1 c Hc H9) E3).
  - destruct (clear_old_ok S R1 l1 old Hinv1) as (R2 & S2 & -> & Hinv2 & H3 & H9); [naive_solver|done|].
    cbn [mbind res_bind].
    destruct (set_new_ok S2 R2 l1 new Hinv2) as (R3 & S3 & -> & Hinv3 & K3 & K9); [naive_solver|done|].
    cbn [mbind res_bind].
    destruct (fib_update_ok fib S3 R3 l1 old new Hinv3) as (ev & ->); [naive_solver..|].
    cbn [mbind res_bind].
    destruct (reap_old_ok S3 R3 l1 old Hinv3) as (R4 & -> & Hinv4); [naive_solver| |].
    { intros c Hc. rewrite K9, H9. by apply Fr. }
    cbn [mbind res_bind].
    assert (Hl4 : filter (fun a => shot_flag S3 a 9 = false) l1
                  = filter (fun a => shot_flag S a 9 = false) l).
    { rewrite <- Ff. apply list_filter_iff. intros c. by rewrite K9, H9. }
    rewrite Hl4 in Hinv4.
    destruct (unschedule_ok S3 R4 _ Hinv4) as (R' & -> & Hpl & HI). cbn [mbind res_bind].
    eexists R', _, new. split; [done|]. split; [done|]. split; [done|].
    intros c Hc Hc9. rewrite HI.
    destruct (sel_flag S3 R4 _ c 3 Hinv4) as (i & Hi & Hf); try done.
    { by apply list_elem_of_filter. }
    exists i. split; [done|]. by rewrite Hf, K3 by auto.
Qed.
End ProcessMain.
End Process.
