(* ===== verification/RouteSample.v ===== *)
(** * A concrete node

    AS 1 with two neighbours, AS 2 and AS 3, and three paths to a prefix: one of
    each neighbour and a removed one.  The theorems about the comparison and the
    selection of paths are applied here, so that their hypotheses are seen to
    hold together. *)
From stdpp Require Import base option list gmap strings.
From Stdlib Require Import ZArith Lia.
From S2P Require Import Prelude Files Trust Aspath RouteInfo RouteList RouteCmp RouteOrder RouteSelect.

Definition my_bgp : bgp :=
  Bgp 1 0 (BGP_FLAG_ALWAYS_COMPARE_MED + BGP_FLAG_COMPARE_ROUTER_ID) 0 [] 100 900.
Definition neighbour (asn id addr : Z) : bgp_peer :=
  BgpPeer (Some my_bgp) asn 1 0 [] false id (Some (SU AF_INET addr [])) 5 ∅.
Definition peer2 : bgp_peer := neighbour 2 10 7.
Definition peer3 : bgp_peer := neighbour 3 11 8.
Definition attr2 : attr := Attr (Some [Seg AS_SEQUENCE [2; 5]]) 0 0 0 0 None 2.
Definition attr3 : attr := Attr (Some [Seg AS_SEQUENCE [3; 4; 5]]) 0 0 0 0 None 1.

Definition info1 : bgp_info := Info (Some 2) None 50 (Some 70) None 1 BGP_INFO_VALID 9 0.
Definition info2 : bgp_info :=
  Info (Some 3) (Some 1) 51 (Some 71) None 1 (BGP_INFO_VALID + BGP_INFO_ATTR_CHANGED) 9 0.
Definition info3 : bgp_info :=
  Info None (Some 2) 50 (Some 70) None 1 (BGP_INFO_REMOVED + BGP_INFO_SELECTED) 9 0.

Definition my_rib : rib :=
  Rib {[1 := info1; 2 := info2; 3 := info3]} {[70 := attr2; 71 := attr3]}
      {[50 := peer2; 51 := peer3]} (Some (Node (Some 1) 4 true false BGP_TABLE_MAIN 1 1)).
Definition path1 : path := Path info1 attr2 peer2.
Definition path2 : path := Path info2 attr3 peer3.
Definition path3 : path := Path info3 attr2 peer2.
Definition shot : gmap Z path := {[1 := path1; 2 := path2; 3 := path3]}.

(** The trust files as [bgp_process_main] creates them. *)
Definition my_files : filesystem := init_trust_files ∅ 1.
Definition my_ins : list Z := initial_trust 1.
Definition my_obs : list Z := replicate 10 50.

Section Sample.
Existing Instance demo_layout.

Lemma my_trust_files : trust_files my_files my_ins my_obs.
Proof. by split; vm_compute. Qed.

Lemma my_config : total_order_config my_bgp.
Proof. done. Qed.

Lemma loaded1 : loaded my_rib 1 path1.
Proof. split; [done|]. split; [done|]. by exists 70. Qed.
Lemma loaded2 : loaded my_rib 2 path2.
Proof. split; [done|]. split; [done|]. by exists 71. Qed.
Lemma loaded3 : loaded my_rib 3 path3.
Proof. split; [done|]. split; [done|]. by exists 70. Qed.

Lemma rankable1 : rankable path1.
Proof. split; [by eexists|by exists BGP_PEER_EBGP|by eexists|by eexists|by eexists]. Qed.
Lemma rankable2 : rankable path2.
Proof. split; [by eexists|by exists BGP_PEER_EBGP|by eexists|by eexists|by eexists]. Qed.

Lemma shot_cases a x : shot !! a = Some x ->
  a = 1 /\ x = path1 \/ a = 2 /\ x = path2 \/ a = 3 /\ x = path3.
Proof.
  unfold shot. intros H. apply lookup_insert_Some in H as [[<- <-]|[_ H]]; [auto|].
  apply lookup_insert_Some in H as [[<- <-]|[_ H]]; [auto|].
  apply lookup_singleton_Some in H as [<- <-]. auto.
Qed.

Lemma my_candidates : candidates_ok my_files shot.
Proof.
  split.
  - intros a x [[_ ->]|[[_ ->]|[_ ->]]]%shot_cases Hd; [| |by vm_compute in Hd].
    + split; [by unfold known_as|]. split; [apply rankable1|by vm_compute].
    + split; [by unfold known_as|]. split; [apply rankable2|by vm_compute].
  - intros a c x y _ [[_ ->]|[[_ ->]|[_ ->]]]%shot_cases [[_ ->]|[[_ ->]|[_ ->]]]%shot_cases;
      intros; by right.
Qed.

Lemma my_sel_inv : sel_inv shot my_rib [1; 2; 3].
Proof.
  split.
  - eexists. split; [done|]. split; [done|]. split; [|repeat constructor; set_solver].
    repeat (split; [eexists; split; [done|done]|]). done.
  - intros a Ha. rewrite !elem_of_cons in Ha.
    destruct Ha as [-> |[-> |[-> |Ha%not_elem_of_nil]]]; [| | |done].
    + exists path1, path1. split; [done|]. split; [apply loaded1|]. by split; [apply psim_refl|].
    + exists path2, path2. split; [done|]. split; [apply loaded2|]. by split; [apply psim_refl|].
    + exists path3, path3. split; [done|]. split; [apply loaded3|]. by split; [apply psim_refl|].
  - by eexists.
  - intros q p Hp. simpl in Hp. apply lookup_insert_Some in Hp as [[<- <-]|[_ Hp]]; [by vm_compute|].
    apply lookup_singleton_Some in Hp as [<- <-]. by vm_compute.
  - intros q p Hp. simpl in Hp. apply lookup_insert_Some in Hp as [[<- <-]|[_ Hp]]; [by vm_compute|].
    apply lookup_singleton_Some in Hp as [<- <-]. by vm_compute.
Qed.

(** ** The comparison *)

(** AS 3 is trusted with 100, AS 2 with 90. *)
Lemma trust_decides_witness :
  bgp_info_cmp my_files my_bgp my_rib (Some 2) (Some 1) = Ret true.
Proof.
  rewrite (trust_decides my_files my_bgp my_rib my_ins my_obs 2 1 path2 path1);
    [done|apply my_trust_files|apply loaded2|apply loaded1|by unfold known_as..|by left].
Defined.


(** A path of AS 11. *)
Definition foreign_rib : rib :=
  set_peers my_rib (<[50 := neighbour 11 10 7]> (peers my_rib)).

Lemma foreign_as_out_of_bounds_witness :
  bgp_info_cmp my_files my_bgp foreign_rib (Some 2) (Some 1) = Fault.
Proof.
  apply (foreign_as_out_of_bounds my_files my_bgp foreign_rib my_ins my_obs 2 1 path2
           (Path info1 attr2 (neighbour 11 10 7)));
    [apply my_trust_files|split; [done|split; [done|by exists 71]]|
     split; [done|split; [done|by exists 70]]|by_eval|by_eval|].
  intros [_ [_ H]]. by vm_compute in H.
Defined.

(** ** The votes: AS 4 votes 30 for AS 2 and 20 for AS 3 *)
Definition vote_files (trust4 vote2 vote3 : Z) : filesystem :=
  <[voteresult_name 2 := [0; 0; 0; vote2; 0; 0; 0; 0; 0; 0]]>
  (<[voteresult_name 3 := [0; 0; 0; vote3; 0; 0; 0; 0; 0; 0]]>
  (<["/inTrust.txt" := [71; 40; 50; trust4; 34; 56; 78; 31; 80; 45]]> my_files)).

Lemma vote_only_at v : 
  only_at 1 0 [0; 0; 0; v; 0; 0; 0; 0; 0; 0] (fun j => Z.of_nat j = 4 - 1).
Proof.
  intros j w Hj Hne. do 10 (destruct j as [|j]; [simpl in Hj; simplify_eq; done || lia|]). done.
Qed.

(** 20 + 100 against 30 + 90: a tie keeps the old path, in both directions. *)
Lemma single_votes_decide_witness :
  bgp_info_cmp (vote_files 60 30 20) my_bgp my_rib (Some 2) (Some 1) = Ret false.
Proof.
  rewrite (single_votes_decide (vote_files 60 30 20) my_bgp my_rib my_ins my_obs 2 1 path2 path1)
    with (newvotes := [0; 0; 0; 20; 0; 0; 0; 0; 0; 0]) (oldvotes := [0; 0; 0; 30; 0; 0; 0; 0; 0; 0])
         (vn := 4) (ve := 4);
    [done|by split; vm_compute|apply loaded2|apply loaded1|by unfold known_as..|
     by vm_compute|by vm_compute| |]; split_and!; try done; apply vote_only_at.
Defined.

(** With no trust in AS 4 the shorter AS path of the less trusted AS 2 wins. *)
Lemma untrusted_votes_bypass_trust_witness :
  bgp_info_cmp (vote_files 0 30 20) my_bgp my_rib (Some 1) (Some 2) = Ret true.
Proof.
  rewrite (untrusted_votes_bypass_trust (vote_files 0 30 20) my_bgp my_rib
             [71; 40; 50; 0; 34; 56; 78; 31; 80; 45] my_obs 1 2 path1 path2)
    with (newvotes := [0; 0; 0; 30; 0; 0; 0; 0; 0; 0]) (oldvotes := [0; 0; 0; 20; 0; 0; 0; 0; 0; 0]);
    [done|by split; vm_compute|apply loaded1|apply loaded2|by unfold known_as..|
     by vm_compute|by vm_compute|left].
  split; [|by exists 3%nat, 30].
  intros k v t Hv Ht Hvt. do 10 (destruct k as [|k]; [simpl in *; simplify_eq; done|]). done.
Defined.

(** ** The selection *)
Lemma best_selection_maximal_witness :
  exists R' old new, bgp_best_selection my_files my_bgp my_rib = Ret (R', (old, new)) /\
    path_list R' [1; 2; 3] /\ best my_bgp my_ins my_obs shot [1; 2; 3] new /\
    match old with
    | None => forall a, a ∈ [1; 2; 3] -> shot_flag shot a 3 = false
    | Some a => a ∈ [1; 2; 3] /\ shot_flag shot a 3 = true
    end.
Proof.
  apply (best_selection_maximal my_files my_bgp my_ins my_obs shot my_trust_files my_config
           eq_refl my_candidates my_rib [1; 2; 3] my_sel_inv).
Defined.

Lemma process_main_selects_best_witness :
  exists R' ev new, bgp_process_main my_bgp [50; 51] true ∅ my_rib = Ret (my_files, R', ev) /\
    best my_bgp my_ins my_obs shot [1; 2; 3] new /\ path_list R' [1; 2] /\
    (forall a, a ∈ [1; 2; 3] -> shot_flag shot a 9 = false ->
       exists i, infos R' !! a = Some i /\ flag i 3 = bool_decide (new = Some a)).
Proof.
  apply (process_main_selects_best ∅ my_bgp my_ins my_obs shot [50; 51] true my_trust_files my_config
           eq_refl my_candidates my_rib [1; 2; 3] my_sel_inv).
  intros a c Ha Hc. rewrite !elem_of_cons in Ha, Hc.
  destruct Ha as [-> |[-> |[-> |Ha%not_elem_of_nil]]], Hc as [-> |[-> |[-> |Hc%not_elem_of_nil]]]; done.
Defined.
End Sample.
