(* ===== verification/Prefix.v ===== *)
(** * lib/prefix.c: network prefixes

    A [struct prefix] is a family, a length in bits and the octets of the
    address; reading past them is a [Fault].  The reference point is the list of
    the bits of a prefix, most significant first ([pbits]): matching is the prefix
    order on bit lists, comparison is equality, masking clears the rest, and the
    netmask functions convert between a length and that many one bits. *)
From stdpp Require Import base option list.
From Stdlib Require Import ZArith Lia ZifyNat.
From S2P Require Import Prelude Text RouteInfo RouteCmp.

(** ** Data *)
Record ip_prefix := IpPrefix { family : Z; prefixlen : Z; octets : list Z }.

#[export] Instance ip_prefix_eq_dec : EqDecision ip_prefix.
Proof. solve_decision. Defined.

Definition AFI_IP : Z := 1.
Definition AFI_IP6 : Z := 2.
Definition AF_UNSPEC : Z := 0.
Definition IPV4_MAX_BYTELEN : Z := 4.
Definition IPV4_MAX_PREFIXLEN : Z := 32.
Definition IPV6_MAX_BYTELEN : Z := 16.
Definition IPV6_MAX_PREFIXLEN : Z := 128.

Definition afi2family (afi : Z) : Z :=
  if afi =? AFI_IP then AF_INET else if afi =? AFI_IP6 then AF_INET6 else 0.
Definition family2afi (family : Z) : Z :=
  if family =? AF_INET then AFI_IP else if family =? AF_INET6 then AFI_IP6 else 0.

(** The array [maskbit]. *)
Definition maskbit_table : list Z := [0; 128; 192; 224; 240; 248; 252; 254; 255].
Definition maskbit (k : Z) : res Z := zget maskbit_table k.

(** [prefix_bit (prefix, prefixlen)]. *)
Definition prefix_bit (prefix : list Z) (n : Z) : res Z :=
  b ← zget prefix (n / 8);
  Ret (Z.land (Z.shiftr b (7 - n mod 8)) 1).

(** ** Matching and comparing *)

(** [while (offset--) if (np[offset] != pp[offset]) return 0; return 1]. *)
Fixpoint same_octets (np pp : list Z) (offset : nat) : res bool :=
  match offset with
  | O => Ret true
  | S o =>
      a ← zget np (Z.of_nat o); b ← zget pp (Z.of_nat o);
      if a =? b then same_octets np pp o else Ret false
  end.

(** The test both functions share: the first [n] bits agree. *)
Definition same_bits (np pp : list Z) (n : Z) : res bool :=
  let offset := n / 8 in
  let shift := n mod 8 in
  differ ← (if negb (shift =? 0) then
              m ← maskbit shift; a ← zget np offset; b ← zget pp offset;
              Ret (negb (Z.land m (Z.lxor a b) =? 0))
            else Ret false);
  if differ : bool then Ret false else same_octets np pp (Z.to_nat offset).

Definition prefix_match (n p : ip_prefix) : res bool :=
  if prefixlen p <? prefixlen n then Ret false
  else same_bits (octets n) (octets p) (prefixlen n).

(** [prefix_cmp] returns 0 for the same prefix, 1 otherwise. *)
Definition prefix_cmp (p1 p2 : ip_prefix) : res Z :=
  if negb (family p1 =? family p2) || negb (prefixlen p1 =? prefixlen p2) then Ret 1
  else same ← same_bits (octets p1) (octets p2) (prefixlen p1);
       Ret (if same : bool then 0 else 1).

(** [memcmp (a, b, n) == 0]. *)
Definition octets_same (n : Z) (a b : list Z) : res bool :=
  x ← zload a 0 n; y ← zload b 0 n; Ret (bool_decide (x = y)).

Definition prefix_same (p1 p2 : ip_prefix) : res bool :=
  if (family p1 =? family p2) && (prefixlen p1 =? prefixlen p2) then
    same4 ← (if family p1 =? AF_INET
             then octets_same IPV4_MAX_BYTELEN (octets p1) (octets p2) else Ret false);
    if same4 : bool then Ret true
    else if family p1 =? AF_INET6
         then octets_same IPV6_MAX_BYTELEN (octets p1) (octets p2) else Ret false
  else Ret false.

(** [prefix_copy] into a prefix whose storage holds [octets dest]. *)
Definition prefix_copy (dest src : ip_prefix) : res ip_prefix :=
  let copy n :=
    x ← zload (octets src) 0 n;
    o ← zstore (octets dest) 0 x;
    Ret (IpPrefix (family src) (prefixlen src) o) in
  if family src =? AF_INET then copy 4
  else if family src =? AF_INET6 then copy 16
  else if family src =? AF_UNSPEC then copy 8
  else Abort.

Definition prefix_blen (p : ip_prefix) : Z :=
  if family p =? AF_INET then IPV4_MAX_BYTELEN
  else if family p =? AF_INET6 then IPV6_MAX_BYTELEN else 0.

(** ** Masks *)

(** [while (index < size) pnt[index++] = 0] on the storage. *)
Fixpoint clear_from (pnt : list Z) (index : Z) (n : nat) : res (list Z) :=
  match n with
  | O => Ret pnt
  | S n => pnt ← zput pnt index 0; clear_from pnt (index + 1) n
  end.

(** [apply_mask_ipv4] with [size] 4, [apply_mask_ipv6] with [size] 16. *)
Definition mask_octets (size : Z) (p : ip_prefix) : res ip_prefix :=
  let index := prefixlen p / 8 in
  if index <? size then
    b ← zget (octets p) index;
    m ← maskbit (prefixlen p mod 8);
    o ← zput (octets p) index (Z.land b m);
    o ← clear_from o (index + 1) (Z.to_nat (size - (index + 1)));
    Ret (IpPrefix (family p) (prefixlen p) o)
  else Ret p.
Definition apply_mask_ipv4 (p : ip_prefix) : res ip_prefix := mask_octets 4 p.
Definition apply_mask_ipv6 (p : ip_prefix) : res ip_prefix := mask_octets 16 p.

Definition apply_mask (p : ip_prefix) : res ip_prefix :=
  if family p =? AF_INET then apply_mask_ipv4 p
  else if family p =? AF_INET6 then apply_mask_ipv6 p else Ret p.

(** [while (offset--) *pnt++ = 0xff; if (bit) *pnt = maskbit[bit]]. *)
Fixpoint fill_ones (netmask : list Z) (pos : Z) (offset : nat) : res (list Z) :=
  match offset with
  | O => Ret netmask
  | S o => netmask ← zput netmask pos 255; fill_ones netmask (pos + 1) o
  end.
Definition make_mask (size masklen : Z) : res (list Z) :=
  let offset := masklen / 8 in
  let bit := masklen mod 8 in
  netmask ← fill_ones (replicate (Z.to_nat size) 0) 0 (Z.to_nat offset);
  if negb (bit =? 0) then m ← maskbit bit; zput netmask offset m else Ret netmask.
Definition masklen2ip (masklen : Z) : res (list Z) := make_mask 4 masklen.
Definition masklen2ip6 (masklen : Z) : res (list Z) := make_mask 16 masklen.

(** [while (val) { len++; val <<= 1; }] on an [u_char]: eight shifts clear it. *)
Fixpoint count_shifts (fuel : nat) (val len : Z) : Z :=
  match fuel with
  | O => len
  | S f => if val =? 0 then len else count_shifts f (u8 (Z.shiftl val 1)) (len + 1)
  end.

(** [ip_masklen]: full octets, then the shifts of the next one. *)
Fixpoint masklen_from (netmask : list Z) (len : Z) : Z :=
  match netmask with
  | [] => len
  | b :: r => if b =? 255 then masklen_from r (len + 8) else count_shifts 8 b len
  end.
Definition ip_masklen (netmask : list Z) : Z := u8 (masklen_from netmask 0).

(** [ip6_masklen] tests [*pnt == 0xff] before [len < 128]. *)
Fixpoint masklen6_from (netmask : list Z) (len : Z) : res Z :=
  match netmask with
  | [] => Fault
  | b :: r =>
      if (b =? 255) && (len <? 128) then masklen6_from r (len + 8)
      else Ret (if len <? 128 then count_shifts 8 b len else len)
  end.
Definition ip6_masklen (netmask : list Z) : res Z := masklen6_from netmask 0.

Definition prefix_ipv4_any (p : ip_prefix) : res bool :=
  a ← zload (octets p) 0 4;
  Ret (bool_decide (a = [0; 0; 0; 0]) && (prefixlen p =? 0)).

(** Octet-wise operations on an [in_addr_t]. *)
Definition ipv4_network_addr (hostaddr : list Z) (masklen : Z) : res (list Z) :=
  mask ← masklen2ip masklen; Ret (zip_with Z.land hostaddr mask).
Definition ipv4_broadcast_addr (hostaddr : list Z) (masklen : Z) : res (list Z) :=
  mask ← masklen2ip masklen;
  let inverse := map (fun m => u8 (Z.lnot m)) mask in
  Ret (if negb (masklen =? IPV4_MAX_PREFIXLEN - 1)
       then zip_with Z.lor hostaddr inverse else zip_with Z.lxor hostaddr inverse).

(** [IN_CLASSC] and the others look at the first octet. *)
Definition IN_CLASSA (b : Z) : bool := Z.land b 128 =? 0.
Definition IN_CLASSB (b : Z) : bool := Z.land b 192 =? 128.
Definition IN_CLASSC (b : Z) : bool := Z.land b 224 =? 192.
Definition with_prefixlen (p : ip_prefix) (n : Z) := IpPrefix (family p) n (octets p).
Definition apply_classful_mask_ipv4 (p : ip_prefix) : res ip_prefix :=
  b ← zget (octets p) 0;
  if prefixlen p =? IPV4_MAX_PREFIXLEN then Ret p
  else if IN_CLASSC b then apply_mask_ipv4 (with_prefixlen p 24)
  else if IN_CLASSB b then apply_mask_ipv4 (with_prefixlen p 16)
  else apply_mask_ipv4 (with_prefixlen p 8).

(** ** Bits of an address

    [bit_at o i] is bit [i] counted from the most significant one; [pbits p] are
    the bits a prefix fixes. *)
Definition bit_at (o : list Z) (i : nat) : bool :=
  Z.testbit (default 0 (o !! (i / 8)%nat)) (7 - Z.of_nat (i mod 8)).
Definition plen (p : ip_prefix) : nat := Z.to_nat (prefixlen p).
Definition pbits (p : ip_prefix) : list bool := bit_at (octets p) <$> seq 0 (plen p).

(** A length inside the storage and octets that are octets. *)
Definition prefix_ok (p : ip_prefix) : Prop :=
  0 <= prefixlen p <= 8 * zlen (octets p) /\ Forall is_u8 (octets p).

#[export] Instance prefix_ok_dec p : Decision (prefix_ok p).
Proof. unfold prefix_ok. apply _. Defined.

Lemma length_pbits p : length (pbits p) = plen p.
Proof. unfold pbits. by rewrite length_fmap, length_seq. Qed.

Lemma pbits_lookup p i : (i < plen p)%nat -> pbits p !! i = Some (bit_at (octets p) i).
Proof. intros Hi. unfold pbits. by rewrite list_lookup_fmap, lookup_seq_lt. Qed.

Lemma bits_fmap_prefix f g n m :
  (n <= m)%nat ->
  (f <$> seq 0 n) `prefix_of` (g <$> seq 0 m) <-> (forall i, (i < n)%nat -> f i = g i :> bool).
Proof.
  intros Hnm. split.
  - intros [k Hk] i Hi.
    assert (E : (g <$> seq 0 m) !! i = Some (f i)).
    { rewrite Hk, lookup_app_l by (by rewrite length_fmap, length_seq).
      by rewrite list_lookup_fmap, lookup_seq_lt. }
    rewrite list_lookup_fmap, lookup_seq_lt in E by lia. by injection E.
  - intros H. exists (g <$> seq n (m - n)).
    replace m with (n + (m - n))%nat at 1 by lia. rewrite seq_app, fmap_app. f_equal.
    apply list_fmap_ext. intros i x Hx. apply lookup_seq in Hx as [-> Hi]. symmetry. by apply H.
Qed.

Lemma pbits_prefix n p :
  (plen n <= plen p)%nat ->
  pbits n `prefix_of` pbits p <->
  (forall i, (i < plen n)%nat -> bit_at (octets n) i = bit_at (octets p) i).
Proof. apply bits_fmap_prefix. Qed.

Lemma pbits_prefix_len n p : pbits n `prefix_of` pbits p -> (plen n <= plen p)%nat.
Proof. intros H. apply prefix_length in H. by rewrite !length_pbits in H. Qed.

(** ** Octets and bits *)
Lemma u8_testbit_high x j : is_u8 x -> 8 <= j -> Z.testbit x j = false.
Proof.
  intros Hx Hj. destruct (Z.eq_dec x 0) as [->|]; [apply Z.bits_0|].
  apply Z.bits_above_log2; [unfold is_u8 in Hx; lia|].
  unfold is_u8 in Hx. enough (Z.log2 x < 8) by lia. apply Z.log2_lt_pow2; lia.
Qed.

Lemma u8_ext x y :
  is_u8 x -> is_u8 y ->
  (forall j, (j < 8)%nat -> Z.testbit x (7 - Z.of_nat j) = Z.testbit y (7 - Z.of_nat j)) -> x = y.
Proof.
  intros Hx Hy H. apply Z.bits_inj'. intros j Hj. destruct (Z.lt_ge_cases j 8).
  - specialize (H (Z.to_nat (7 - j)) ltac:(lia)). rewrite Z2Nat.id in H by lia.
    by replace (7 - (7 - j)) with j in H by lia.
  - by rewrite !u8_testbit_high.
Qed.

Lemma land_u8 x y : is_u8 x -> is_u8 (Z.land x y).
Proof.
  intros Hx. assert (E : Z.land x y = u8 (Z.land x y)); [|rewrite E; apply u8_range].
  unfold u8. rewrite <- Z.land_ones, <- Z.land_assoc, (Z.land_comm y), Z.land_assoc by lia.
  rewrite (Z.land_ones x) by lia. by rewrite (Z.mod_small x).
Qed.

(** Entry [k] of [maskbit] has its [k] high bits set. *)
Lemma maskbit_spec k :
  0 <= k <= 8 -> exists m, maskbit k = Ret m /\ is_u8 m /\
    forall j, 0 <= j < 8 -> Z.testbit m j = (8 - k <=? j).
Proof.
  intros Hk.
  assert (E : Forall (fun k => Forall (fun j =>
      Z.testbit (default 0 (maskbit_table !! k)) (Z.of_nat j) = (8 - Z.of_nat k <=? Z.of_nat j))
    (seq 0 8)) (seq 0 9)) by by_eval.
  destruct (zget_ok maskbit_table k) as (m & Hm & Hl); [unfold zlen; simpl; lia|].
  exists m. split; [done|]. split.
  - assert (Hu : Forall is_u8 maskbit_table) by by_eval. by apply (Forall_lookup_1 _ _ _ _ Hu Hl).
  - intros j Hj. rewrite Forall_forall in E.
    specialize (E (Z.to_nat k) ltac:(apply elem_of_seq; lia)). rewrite Forall_forall in E.
    specialize (E (Z.to_nat j) ltac:(apply elem_of_seq; lia)).
    rewrite Hl, !Z2Nat.id in E by lia. exact E.
Qed.

Definition oct (o : list Z) (k : nat) : Z := default 0 (o !! k).

Lemma zget_oct o k : (k < length o)%nat -> zget o (Z.of_nat k) = Ret (oct o k).
Proof.
  intros Hk. destruct (lookup_lt_is_Some_2 o k Hk) as [x Hx].
  unfold oct. rewrite Hx. by apply zget_lookup.
Qed.

Lemma oct_u8 o k : Forall is_u8 o -> is_u8 (oct o k).
Proof.
  intros Ho. unfold oct. destruct (o !! k) eqn:E; [|by_eval]. by apply (Forall_lookup_1 _ _ _ _ Ho E).
Qed.

Lemma bit_at_oct o k j :
  (j < 8)%nat -> bit_at o (8 * k + j) = Z.testbit (oct o k) (7 - Z.of_nat j).
Proof.
  intros Hj. unfold bit_at, oct. replace ((8 * k + j) / 8)%nat with k by ndiv_lia.
  by replace ((8 * k + j) mod 8)%nat with j by ndiv_lia.
Qed.

Lemma oct_bits_eq a b k :
  Forall is_u8 a -> Forall is_u8 b ->
  oct a k = oct b k <-> (forall j, (j < 8)%nat -> bit_at a (8 * k + j) = bit_at b (8 * k + j)).
Proof.
  intros Ha Hb. split.
  - intros E j Hj. rewrite !bit_at_oct by done. by rewrite E.
  - intros H. apply u8_ext; auto using oct_u8.
    intros j Hj. specialize (H j Hj). by rewrite !bit_at_oct in H.
Qed.

(** Masking the difference of two octets compares their high bits. *)
Lemma mask_differ s m x y :
  0 <= s <= 8 -> maskbit s = Ret m -> is_u8 x -> is_u8 y ->
  Z.land m (Z.lxor x y) = 0 <->
  (forall j, (j < Z.to_nat s)%nat -> Z.testbit x (7 - Z.of_nat j) = Z.testbit y (7 - Z.of_nat j)).
Proof.
  intros Hs Hm Hx Hy. destruct (maskbit_spec s Hs) as (m' & Hm' & Hm8 & Hbits).
  assert (m' = m) as -> by congruence. split.
  - intros E j Hj. assert (Et : Z.testbit (Z.land m (Z.lxor x y)) (7 - Z.of_nat j) = false)
      by (rewrite E; apply Z.bits_0).
    rewrite Z.land_spec, Z.lxor_spec, Hbits in Et by lia.
    replace (8 - s <=? 7 - Z.of_nat j) with true in Et by (symmetry; apply Z.leb_le; lia).
    destruct (Z.testbit x _), (Z.testbit y _); simpl in Et; congruence.
  - intros H. apply Z.bits_inj'. intros j Hj. rewrite Z.bits_0, Z.land_spec, Z.lxor_spec.
    destruct (Z.lt_ge_cases j 8); [|by rewrite u8_testbit_high].
    rewrite Hbits by lia. destruct (8 - s <=? j) eqn:Ej; [|done]. zify_bool.
    specialize (H (Z.to_nat (7 - j)) ltac:(lia)). rewrite Z2Nat.id in H by lia.
    replace (7 - (7 - j)) with j in H by lia. by rewrite H, xorb_nilpotent.
Qed.

Lemma same_octets_ok a b m :
  (m <= length a)%nat -> (m <= length b)%nat ->
  exists r, same_octets a b m = Ret r /\
    (r = true <-> forall k, (k < m)%nat -> oct a k = oct b k).
Proof.
  induction m as [|m IH]; intros Ha Hb; cbn [same_octets].
  - exists true. split; [done|]. split; [lia|done].
  - rewrite !zget_oct by lia. cbn [mbind res_bind].
    destruct (oct a m =? oct b m) eqn:E; zify_bool.
    + destruct IH as (r & Hr & Hiff); [lia..|]. exists r. split; [done|]. rewrite Hiff.
      split; intros H k Hk; [|apply H; lia].
      destruct (decide (k = m)) as [->|]; [done|]. apply H. lia.
    + exists false. split; [done|]. split; [done|]. intros H. destruct E. apply H. lia.
Qed.

Lemma bits_by_octets (a b : list Z) q s :
  Forall is_u8 a -> Forall is_u8 b -> (s < 8)%nat ->
  (forall i, (i < 8 * q + s)%nat -> bit_at a i = bit_at b i) <->
  ((forall j, (j < s)%nat -> bit_at a (8 * q + j) = bit_at b (8 * q + j)) /\
   (forall k, (k < q)%nat -> oct a k = oct b k)).
Proof.
  intros Ha Hb Hs. split.
  - intros H. split; [intros j Hj; apply H; lia|]. intros k Hk. apply oct_bits_eq; [done..|].
    intros j Hj. apply H. lia.
  - intros [Hj Hk] i Hi. destruct (decide (8 * q <= i)%nat).
    + replace i with (8 * q + (i - 8 * q))%nat by lia. apply Hj. lia.
    + rewrite (Nat.div_mod i 8) by lia. apply (oct_bits_eq a b (i / 8)); [done..| |ndiv_lia].
      apply Hk. ndiv_lia.
Qed.

(** The shared test compares the first [n] bits. *)
Lemma same_bits_ok a b n :
  Forall is_u8 a -> Forall is_u8 b -> 0 <= n <= 8 * zlen a -> n <= 8 * zlen b ->
  exists r, same_bits a b n = Ret r /\
    (r = true <-> forall i, (i < Z.to_nat n)%nat -> bit_at a i = bit_at b i).
Proof.
  intros Ha Hb Hn Hnb. unfold same_bits, zlen in *.
  set (q := Z.to_nat (n / 8)). set (s := Z.to_nat (n mod 8)).
  assert (Hs : (s < 8)%nat) by (unfold s; mod_lia).
  assert (En : Z.to_nat n = (8 * q + s)%nat) by (unfold q, s; mod_lia).
  assert (Eq : n / 8 = Z.of_nat q) by (unfold q; mod_lia).
  assert (Es : n mod 8 = Z.of_nat s) by (unfold s; mod_lia).
  rewrite En, Eq, Es.
  destruct (same_octets_ok a b q) as (r & Hr & Hiff); [lia..|].
  pose proof (bits_by_octets a b q s Ha Hb Hs) as Hsplit.
  destruct (Z.of_nat s =? 0) eqn:E0; zify_bool; cbn [negb].
  - cbn [mbind res_bind]. exists r. split; [done|]. rewrite Hiff, Hsplit.
    split; [intros H; split; [lia|done] | by intros [_ H]].
  - destruct (maskbit_spec (Z.of_nat s)) as (m & Hm & _); [lia|].
    rewrite Hm, !zget_oct by lia. cbn [mbind res_bind].
    pose proof (mask_differ (Z.of_nat s) m (oct a q) (oct b q) ltac:(lia) Hm
      (oct_u8 _ _ Ha) (oct_u8 _ _ Hb)) as Hd. rewrite Nat2Z.id in Hd.
    assert (Hd' : Z.land m (Z.lxor (oct a q) (oct b q)) = 0 <->
      (forall j, (j < s)%nat -> bit_at a (8 * q + j) = bit_at b (8 * q + j))).
    { rewrite Hd. split; intros H j Hj; specialize (H j Hj); [rewrite !bit_at_oct by lia; done|].
      by rewrite !bit_at_oct in H by lia. }
    destruct (Z.land m (Z.lxor (oct a q) (oct b q)) =? 0) eqn:El; zify_bool; cbn [negb].
    + exists r. split; [done|]. rewrite Hiff, Hsplit, <- Hd'. tauto.
    + exists false. split; [done|]. rewrite Hsplit, <- Hd'. split; [done|]. tauto.
Qed.

Lemma prefix_match_ok n p :
  prefix_ok n -> prefix_ok p ->
  prefix_match n p = Ret (bool_decide (pbits n `prefix_of` pbits p)).
Proof.
  intros [Hn Un] [Hp Up]. unfold prefix_match. case_test.
  - rewrite bool_decide_eq_false_2; [done|]. intros H%pbits_prefix_len. unfold plen in H. lia.
  - destruct (same_bits_ok (octets n) (octets p) (prefixlen n)) as (r & Hr & Hiff); [done..|lia|].
    rewrite Hr. f_equal. apply eq_true_iff_eq. rewrite Hiff, bool_decide_eq_true.
    symmetry. apply pbits_prefix. unfold plen. lia.
Qed.

(** Bits determine a length. *)
Lemma pbits_eq n p :
  plen n = plen p ->
  pbits n = pbits p <-> (forall i, (i < plen n)%nat -> bit_at (octets n) i = bit_at (octets p) i).
Proof.
  intros E. rewrite <- pbits_prefix by lia. split; [by intros ->|].
  intros [k Hk]. rewrite Hk. assert (length (pbits p) = length (pbits n)) as El by (rewrite !length_pbits; lia).
  rewrite Hk, length_app in El. destruct k; [by rewrite app_nil_r|simpl in El; lia].
Qed.

Lemma prefix_cmp_ok p1 p2 :
  prefix_ok p1 -> prefix_ok p2 ->
  prefix_cmp p1 p2 =
    Ret (if bool_decide (family p1 = family p2 /\ pbits p1 = pbits p2) then 0 else 1).
Proof.
  intros [H1 U1] [H2 U2]. unfold prefix_cmp.
  destruct (negb (family p1 =? family p2) || negb (prefixlen p1 =? prefixlen p2)) eqn:E.
  - rewrite bool_decide_eq_false_2; [done|]. intros [Hf Hb].
    apply (f_equal length) in Hb. rewrite !length_pbits in Hb. unfold plen in Hb.
    apply orb_true_iff in E as [E|E]; unneg; zify_bool; lia.
  - zify_bool. unneg. zify_bool.
    destruct (same_bits_ok (octets p1) (octets p2) (prefixlen p1)) as (r & Hr & Hiff); [done..|lia|].
    rewrite Hr. cbn [mbind res_bind].
    assert (Hb : r = true <-> family p1 = family p2 /\ pbits p1 = pbits p2).
    { rewrite Hiff. rewrite pbits_eq by (unfold plen; lia). tauto. }
    destruct r.
    + rewrite bool_decide_eq_true_2 by tauto. done.
    + rewrite bool_decide_eq_false_2; [done|]. intros Hc%Hb. done.
Qed.

(** [prefix_bit] reads one bit, and faults past the storage. *)
Lemma prefix_bit_ok o i :
  (i < 8 * length o)%nat -> prefix_bit o (Z.of_nat i) = Ret (if bit_at o i then 1 else 0).
Proof.
  intros Hi. unfold prefix_bit.
  replace (Z.of_nat i / 8) with (Z.of_nat (i / 8)) by ndiv_lia.
  rewrite zget_oct by ndiv_lia. cbn [mbind res_bind]. f_equal. unfold bit_at, oct.
  replace (Z.of_nat i mod 8) with (Z.of_nat (i mod 8)) by ndiv_lia.
  change 1 with (Z.ones 1) at 1. rewrite Z.land_ones by lia.
  assert (0 <= 7 - Z.of_nat (i mod 8)) by ndiv_lia.
  generalize (7 - Z.of_nat (i mod 8)), (default 0 (o !! (i / 8)%nat)). intros j x.
  change (2 ^ 1) with 2. rewrite Zmod_odd, <- Z.bit0_odd, Z.shiftr_spec, Z.add_0_l by lia.
  done.
Qed.

(** ** Masking *)
Lemma clear_from_ok o k n :
  (k + n <= length o)%nat ->
  exists o', clear_from o (Z.of_nat k) n = Ret o' /\ length o' = length o /\
    forall i, o' !! i = if decide (k <= i < k + n)%nat then Some 0 else o !! i.
Proof.
  revert o k. induction n as [|n IH]; intros o k Hk; cbn [clear_from].
  - exists o. split; [done|]. split; [done|]. intros i. case_decide; [lia|done].
  - rewrite zput_ok by lia. cbn [mbind res_bind]. replace (Z.of_nat k + 1) with (Z.of_nat (S k)) by lia.
    destruct (IH (<[k:=0]> o) (S k)) as (o' & Ho & Hlen & Hl); [rewrite length_insert; lia|].
    exists o'. rewrite length_insert in Hlen. split; [done|]. split; [done|]. intros i. rewrite Hl.
    destruct (decide (i = k)) as [->|].
    + rewrite decide_False by lia. rewrite decide_True by lia. apply list_lookup_insert_eq. lia.
    + rewrite list_lookup_insert_ne by done. repeat case_decide; try lia; done.
Qed.

Lemma mask_octets_ok size p :
  prefix_ok p -> zlen (octets p) = size ->
  exists o, mask_octets size p = Ret (IpPrefix (family p) (prefixlen p) o) /\
    length o = length (octets p) /\ Forall is_u8 o /\
    forall i, (i < 8 * length o)%nat ->
      bit_at o i = bool_decide (i < plen p)%nat && bit_at (octets p) i.
Proof.
  intros [Hp Up] Hz. unfold mask_octets, zlen, plen in *.
  set (q := Z.to_nat (prefixlen p / 8)). set (s := prefixlen p mod 8).
  assert (Eq : prefixlen p / 8 = Z.of_nat q) by (unfold q; mod_lia).
  assert (En : Z.to_nat (prefixlen p) = (8 * q + Z.to_nat s)%nat) by (unfold q, s; mod_lia).
  assert (Hs : 0 <= s < 8) by (unfold s; mod_lia).
  rewrite Eq, En. case_test.
  - destruct (maskbit_spec s) as (m & Hm & Um & Hbits); [lia|].
    rewrite zget_oct, Hm by lia. cbn [mbind res_bind]. rewrite zput_ok by lia. cbn [mbind res_bind]. cbn [mbind res_bind]. set (o1 := <[q:=_]> (octets p)).
    replace (Z.of_nat q + 1) with (Z.of_nat (S q)) by lia.
    destruct (clear_from_ok o1 (S q) (Z.to_nat (size - Z.of_nat (S q)))) as (o & Ho & Hlen & Hl);
      [unfold o1; rewrite length_insert; lia|].
    rewrite Ho. cbn [mbind res_bind]. unfold o1 in Hlen, Hl. rewrite length_insert in Hlen.
    exists o. split; [done|]. split; [done|].
    assert (Hoct : forall k, oct o k = if decide (k < q)%nat then oct (octets p) k else
                                       if decide (k = q) then Z.land (oct (octets p) q) m else 0).
    { intros k. unfold oct at 1. rewrite Hl.
      destruct (decide (k < q)%nat); [by rewrite decide_False, list_lookup_insert_ne by lia|].
      destruct (decide (k = q)) as [->|]; [by rewrite decide_False, list_lookup_insert_eq by lia|].
      case_decide; [done|]. by rewrite list_lookup_insert_ne, lookup_ge_None_2 by lia. }
    split.
    + apply Forall_lookup_2. intros k x Hk.
      assert (x = oct o k) as -> by (unfold oct; by rewrite Hk). rewrite Hoct.
      repeat case_decide; [by apply oct_u8| |by_eval].
      apply land_u8, oct_u8, Up.
    + intros i Hi. rewrite (Nat.div_mod i 8) by lia.
      rewrite !bit_at_oct by ndiv_lia. rewrite Hoct.
      destruct (decide (i / 8 < q)%nat); [by rewrite bool_decide_eq_true_2 by ndiv_lia|].
      destruct (decide (i / 8 = q)%nat).
      * assert (Hj : (i mod 8 < 8)%nat) by ndiv_lia.
        assert (Ei : (8 * (i / 8) + i mod 8 < 8 * q + Z.to_nat s)%nat <-> (8 - s <=? 7 - Z.of_nat (i mod 8)) = true)
          by (rewrite Z.leb_le; lia).
        rewrite Z.land_spec, Hbits, andb_comm by lia. f_equal; [|congruence].
        apply eq_true_iff_eq. by rewrite <- Ei, bool_decide_eq_true.
      * rewrite Z.bits_0, bool_decide_eq_false_2 by ndiv_lia. done.
  - exists (octets p). split; [by destruct p|]. split; [done|]. split; [done|].
    intros i Hi. rewrite bool_decide_eq_true_2 by lia. done.
Qed.

(** An address of a known family with its whole storage. *)
Definition address_ok (p : ip_prefix) : Prop :=
  prefix_ok p /\ (family p = AF_INET /\ zlen (octets p) = 4 \/
                  family p = AF_INET6 /\ zlen (octets p) = 16).

#[export] Instance address_ok_dec p : Decision (address_ok p).
Proof. unfold address_ok. apply _. Defined.

(** [q] is [p] with the bits after its length cleared. *)
Definition masked (p q : ip_prefix) : Prop :=
  address_ok q /\ family q = family p /\ prefixlen q = prefixlen p /\
  length (octets q) = length (octets p) /\
  forall i, (i < 8 * length (octets q))%nat ->
    bit_at (octets q) i = bool_decide (i < plen p)%nat && bit_at (octets p) i.

Lemma masked_explicit p q : masked p q ->
  family q = family p /\ prefixlen q = prefixlen p /\ length (octets q) = length (octets p) /\
  forall i, (i < 8 * length (octets p))%nat ->
    bit_at (octets q) i = if decide (i < plen p)%nat then bit_at (octets p) i else false.
Proof.
  intros (_ & Hf & Hl & Hlen & Hb). do 3 (split; [done|]). intros i Hi. rewrite Hb by lia.
  destruct (decide (i < plen p)%nat); [by rewrite bool_decide_true|by rewrite bool_decide_false].
Qed.

Lemma apply_mask_ok p : address_ok p -> exists q, apply_mask p = Ret q /\ masked p q.
Proof.
  intros [Hp Hf]. unfold apply_mask.
  assert (E : (if family p =? AF_INET then apply_mask_ipv4 p
               else if family p =? AF_INET6 then apply_mask_ipv6 p else Ret p)
              = mask_octets (zlen (octets p)) p).
  { destruct Hf as [[-> ->] | [-> ->]]; done. }
  rewrite E. destruct (mask_octets_ok _ p Hp eq_refl) as (o & Ho & Hlen & Uo & Hb).
  exists (IpPrefix (family p) (prefixlen p) o). unfold masked, address_ok, prefix_ok, zlen in *. simpl.
  rewrite Hlen in *. split; [done|]. tauto.
Qed.

Lemma octets_ext a b :
  Forall is_u8 a -> Forall is_u8 b -> length a = length b ->
  (forall i, (i < 8 * length a)%nat -> bit_at a i = bit_at b i) -> a = b.
Proof.
  intros Ha Hb Hlen H. apply list_eq_same_length with (length a); [done..|].
  intros k x y Hk Hx Hy.
  assert (E : oct a k = oct b k) by (apply oct_bits_eq; [done..|]; intros j Hj; apply H; lia).
  unfold oct in E. by rewrite Hx, Hy in E.
Qed.

Lemma masked_bits p q : address_ok p -> masked p q -> pbits q = pbits p.
Proof.
  intros [[Hp _] _] (_ & _ & El & Hlen & Hb).
  apply pbits_eq; [unfold plen; congruence|]. intros i Hi.
  unfold zlen, plen in *. rewrite Hb by lia. by rewrite bool_decide_eq_true_2 by lia.
Qed.

(** The cleared form depends on the family and the bits only. *)
Lemma masked_unique x y mx my :
  address_ok x -> address_ok y -> masked x mx -> masked y my ->
  family x = family y -> pbits x = pbits y -> mx = my.
Proof.
  intros Ox Oy ([[_ Ux] _] & F1 & L1 & N1 & B1) ([[_ Uy] _] & F2 & L2 & N2 & B2) HF HP.
  pose proof (f_equal length HP) as HL. rewrite !length_pbits in HL.
  assert (HN : length (octets x) = length (octets y)).
  { unfold address_ok, zlen, AF_INET, AF_INET6 in *. lia. }
  assert (HB := proj1 (pbits_eq x y HL) HP).
  assert (octets mx = octets my).
  { apply octets_ext; [done..|congruence|]. intros i Hi. rewrite B1, B2 by congruence.
    rewrite <- HL. destruct (bool_decide (i < plen x)%nat) eqn:E; [|done].
    apply bool_decide_eq_true in E. by rewrite HB. }
  assert (prefixlen x = prefixlen y).
  { destruct Ox as [[? _] _], Oy as [[? _] _]. unfold plen in HL. lia. }
  destruct mx, my; simpl in *. congruence.
Qed.

(** ** Properties *)

(** C36. [prefix_match] returns true exactly when the bits of its first argument
    start those of its second: a network contains another or an address.  On
    well-formed prefixes it never reads outside the addresses. *)
Theorem prefix_match_spec n p :
  prefix_ok n -> prefix_ok p ->
  prefix_match n p = Ret (bool_decide (pbits n `prefix_of` pbits p)).
Proof. apply prefix_match_ok. Qed.

(** C37. [apply_mask] computes a canonical form: family and length stay, every bit
    of the address before the prefix length is kept and every bit from it on is
    zero; so masking is idempotent, and two prefixes compare equal with
    [prefix_cmp] exactly when masking makes them the same structure. *)
Theorem apply_mask_canonical p q :
  address_ok p -> address_ok q ->
  exists mp mq, apply_mask p = Ret mp /\ apply_mask q = Ret mq /\
    (family mp = family p /\ prefixlen mp = prefixlen p /\
     length (octets mp) = length (octets p) /\
     forall i, (i < 8 * length (octets p))%nat ->
       bit_at (octets mp) i = if decide (i < plen p)%nat then bit_at (octets p) i else false) /\
    pbits mp = pbits p /\ apply_mask mp = Ret mp /\ (prefix_cmp p q = Ret 0 <-> mp = mq).
Proof.
  intros Hp Hq.
  destruct (apply_mask_ok p Hp) as (mp & Ep & Mp). destruct (apply_mask_ok q Hq) as (mq & Eq & Mq).
  pose proof (masked_bits p mp Hp Mp) as Pp. pose proof (masked_bits q mq Hq Mq) as Pq.
  exists mp, mq. split; [done|]. split; [done|].
  split; [by apply masked_explicit|]. split; [done|]. split.
  - destruct (apply_mask_ok mp) as (mmp & Emm & Mm); [apply Mp|]. rewrite Emm. f_equal.
    eapply (masked_unique mp p); eauto; apply Mp.
  - rewrite prefix_cmp_ok by (apply Hp || apply Hq).
    destruct (bool_decide _) eqn:E.
    + apply bool_decide_eq_true in E as [? ?]. split; [|done]. intros _.
      by apply (masked_unique p q).
    + apply bool_decide_eq_false in E. split; [done|]. intros ->. destruct E.
      destruct Mp as (_ & <- & _), Mq as (_ & <- & _). split; congruence.
Qed.

(** [masklen2ip] and [ip_masklen] convert a length to a netmask and back without
    loss, for every length an IPv4 prefix can have. *)
Theorem masklen_roundtrip n :
  0 <= n <= 32 -> exists m, masklen2ip n = Ret m /\ Forall is_u8 m /\ ip_masklen m = n.
Proof.
  intros Hn.
  assert (E : Forall (fun k => exists m, masklen2ip (Z.of_nat k) = Ret m /\ Forall is_u8 m /\
                              ip_masklen m = Z.of_nat k) (seq 0 33)).
  { repeat constructor; eexists; (split; [vm_compute; reflexivity|]); split; by_eval. }
  rewrite Forall_forall in E. specialize (E (Z.to_nat n) ltac:(apply elem_of_seq; lia)).
  by rewrite Z2Nat.id in E by lia.
Qed.

(** [ip6_masklen] tests the octet before the length: the mask of a host route,
    which [masklen2ip6] produces, makes it read the octet after the address. *)
Theorem ip6_masklen_host_overread :
  masklen2ip6 128 = Ret (replicate 16 255) /\ ip6_masklen (replicate 16 255) = Fault.
Proof. split; vm_compute; reflexivity. Qed.

(** ** Sample prefixes *)
Definition net10 : ip_prefix := IpPrefix AF_INET 8 [10; 0; 0; 0].
Definition host10 : ip_prefix := IpPrefix AF_INET 32 [10; 1; 2; 3].
Definition net10_unmasked : ip_prefix := IpPrefix AF_INET 8 [10; 9; 8; 7].

Lemma prefix_match_spec_witness : prefix_match net10 host10 = Ret true.
Proof. rewrite (prefix_match_spec net10 host10) by by_eval. vm_compute. reflexivity. Defined.

Lemma apply_mask_canonical_witness :
  exists mp, apply_mask net10_unmasked = Ret mp /\ bit_at (octets mp) 15 = false /\
    (exists mq, apply_mask net10 = Ret mq /\ (prefix_cmp net10_unmasked net10 = Ret 0 <-> mp = mq)).
Proof.
  destruct (apply_mask_canonical net10_unmasked net10 ltac:(by_eval) ltac:(by_eval))
    as (mp & mq & E1 & E2 & (_ & _ & _ & Hb) & _ & _ & Hc).
  exists mp. split; [exact E1|]. split; [|by exists mq].
  rewrite Hb by (vm_compute; lia). reflexivity.
Defined.

Lemma masklen_roundtrip_witness : exists m, masklen2ip 20 = Ret m /\ Forall is_u8 m /\ ip_masklen m = 20.
Proof. apply (masklen_roundtrip 20). lia. Defined.
