(* ===== verification/Radix.v ===== *)
(** * The shape of a routing table's tree

    lib/table.c and bgpd/bgp_table.c keep their nodes in a binary tree with parent
    pointers.  This file states what the pointers have to say, independently of how
    nodes are stored: every node has a bit string, and each slot of the tree (the
    top of the table, or a link of a node) holds the one node whose bits are least,
    in the prefix order, among those the slot covers.  The tree is thereby a
    function of the set of bit strings.  The two changes the code makes, putting a
    node into a slot and taking out a node with at most one child, preserve it. *)
From stdpp Require Import base option list numbers.
From Stdlib Require Import Lia.

(** ** Prefixes of bit strings *)
Lemma prefix_cases {A} (k p : list A) :
  k `prefix_of` p -> k = p \/ exists b, k ++ [b] `prefix_of` p.
Proof.
  intros [[|b r] ->]; [left; by rewrite app_nil_r|right].
  exists b, r. by rewrite <- app_assoc.
Qed.

Lemma prefix_snoc_inv {A} (k p : list A) b :
  k `prefix_of` p ++ [b] -> k = p ++ [b] \/ k `prefix_of` p.
Proof.
  intros [r Hr]. destruct r as [|y r _] using rev_ind; [left; by rewrite app_nil_r in Hr|right].
  rewrite app_assoc in Hr. apply app_inj_tail in Hr as [-> _]. by apply prefix_app_r.
Qed.

Lemma prefix_snoc_l {A} (k p : list A) b : k ++ [b] `prefix_of` p -> k `prefix_of` p.
Proof. intros H. etrans; [|exact H]. by apply prefix_app_r. Qed.

Lemma prefix_snoc_agree {A} (k p : list A) b c :
  k ++ [b] `prefix_of` p -> k ++ [c] `prefix_of` p -> b = c.
Proof.
  intros [r ->] [s Hs]. rewrite <- !app_assoc in Hs. by apply app_inv_head in Hs as [= ->].
Qed.

Lemma prefix_snoc_irrefl {A} (k : list A) b : ~ k ++ [b] `prefix_of` k.
Proof. intros H%prefix_length. rewrite length_app in H. simpl in H. lia. Qed.

Lemma prefix_antisym {A} (k p : list A) : k `prefix_of` p -> p `prefix_of` k -> k = p.
Proof. intros H1 H2. by apply (anti_symm prefix). Qed.

(** ** Trees *)
Record tree := Tree {
  tkey : positive -> option (list bool);     (** bits of a node, [None] when not in the tree *)
  tparent : positive -> option positive;
  tchild : positive -> bool -> option positive;
  ttop : option positive }.

(** Where a pointer to a node is stored. *)
Inductive position := Top | Under (a : positive) (b : bool).

#[export] Instance position_eq_dec : EqDecision position.
Proof. solve_decision. Defined.

Definition owner (pos : position) : option positive :=
  match pos with Top => None | Under a _ => Some a end.

(** [slot T pos k v]: the slot covers the extensions of [k] and holds [v]. *)
Inductive slot (T : tree) : position -> list bool -> option positive -> Prop :=
| slot_top : slot T Top [] (ttop T)
| slot_under a k b : tkey T a = Some k -> slot T (Under a b) (k ++ [b]) (tchild T a b).

Record shape (T : tree) : Prop := {
  shape_inj : forall a b k, tkey T a = Some k -> tkey T b = Some k -> a = b;
  shape_some : forall pos k c, slot T pos k (Some c) ->
    exists kc, tkey T c = Some kc /\ tparent T c = owner pos /\ k `prefix_of` kc /\
      forall d kd, tkey T d = Some kd -> k `prefix_of` kd -> kc `prefix_of` kd;
  shape_none : forall pos k, slot T pos k None ->
    forall d kd, tkey T d = Some kd -> ~ k `prefix_of` kd;
  shape_back : forall c kc, tkey T c = Some kc -> exists pos k, slot T pos k (Some c) }.

(** Trees that agree wherever a node is. *)
Record tree_equiv (T U : tree) : Prop := {
  equiv_key : forall a, tkey T a = tkey U a;
  equiv_parent : forall a k, tkey T a = Some k -> tparent T a = tparent U a;
  equiv_child : forall a k b, tkey T a = Some k -> tchild T a b = tchild U a b;
  equiv_top : ttop T = ttop U }.

Lemma slot_equiv T U pos k v : tree_equiv T U -> slot U pos k v -> slot T pos k v.
Proof.
  intros E H. inversion H as [|a k' b Hk]; subst.
  - rewrite <- (equiv_top _ _ E). constructor.
  - rewrite <- (equiv_key _ _ E) in Hk. rewrite <- (equiv_child _ _ E _ _ _ Hk). by constructor.
Qed.

Lemma tree_equiv_sym T U : tree_equiv T U -> tree_equiv U T.
Proof.
  intros [Hk Hp Hc Ht]. split; intros; symmetry; eauto.
  - eapply Hp. by rewrite Hk.
  - eapply Hc. by rewrite Hk.
Qed.

Lemma shape_equiv T U : tree_equiv T U -> shape T -> shape U.
Proof.
  intros E [Hinj Hs Hn Hb]. pose proof (equiv_key _ _ E) as Hk. split.
  - intros a b k. rewrite <- !Hk. apply Hinj.
  - intros pos k c Hsl. apply (slot_equiv T U _ _ _ E) in Hsl.
    destruct (Hs _ _ _ Hsl) as (kc & Hc & Hp & Hle & Hmin). exists kc.
    rewrite <- Hk, <- (equiv_parent _ _ E c kc Hc). repeat split; [done..|].
    intros d kd. rewrite <- Hk. apply Hmin.
  - intros pos k Hsl d kd. rewrite <- Hk. eapply Hn, slot_equiv; eauto.
  - intros c kc. rewrite <- Hk. intros Hc. destruct (Hb c kc Hc) as (pos & k & Hsl).
    exists pos, k. eapply slot_equiv; [by apply tree_equiv_sym|done].
Qed.

Section Shape.
Context (T : tree) (HT : shape T).

Lemma slot_key_det pos k v k' v' : slot T pos k v -> slot T pos k' v' -> k = k' /\ v = v'.
Proof. intros H1 H2. inversion H1; subst; inversion H2; subst; [done|split; congruence]. Qed.

(** A slot is known by its bits. *)
Lemma slot_pos_det pos k v pos' v' : slot T pos k v -> slot T pos' k v' -> pos = pos'.
Proof.
  intros H1 H2. inversion H1 as [|a ka b Ha]; subst; inversion H2 as [|a' ka' b' Ha']; subst.
  - done.
  - by destruct ka'.
  - by destruct ka.
  - assert (ka' = ka /\ b' = b) as [-> ->] by by apply app_inj_tail.
    f_equal. by apply (shape_inj _ HT _ _ ka).
Qed.

(** A node is in one slot. *)
Lemma slot_node_det pos k pos' k' c : slot T pos k (Some c) -> slot T pos' k' (Some c) -> pos = pos'.
Proof.
  intros H1 H2.
  destruct (shape_some _ HT _ _ _ H1) as (kc & Hc & Hp & Hle & _).
  destruct (shape_some _ HT _ _ _ H2) as (kc' & Hc' & Hp' & Hle' & _).
  assert (kc' = kc) as -> by congruence. rewrite Hp in Hp'.
  inversion H1 as [|a ka b Ha]; subst; inversion H2 as [|a' ka' b' Ha']; subst; simpl in *; try done.
  assert (a' = a) as -> by congruence. assert (ka' = ka) as -> by congruence.
  f_equal. eapply prefix_snoc_agree; eauto.
Qed.

(** Of two slots on the same path, the owner of the lower one lies in the upper. *)
Lemma slot_nested pos k v pos2 k2 v2 p :
  slot T pos k v -> slot T pos2 k2 v2 -> k `prefix_of` p -> k2 `prefix_of` p -> pos <> pos2 ->
  (exists a ka, owner pos = Some a /\ tkey T a = Some ka /\ ka `prefix_of` k /\ k2 `prefix_of` ka) \/
  (exists a ka, owner pos2 = Some a /\ tkey T a = Some ka /\ ka `prefix_of` k2 /\ k `prefix_of` ka).
Proof.
  intros H1 H2 Hk Hk2 Hne.
  assert (Below : forall qos q w ros r z, slot T qos q w -> slot T ros r z -> qos <> ros ->
    r `prefix_of` q ->
    exists a ka, owner qos = Some a /\ tkey T a = Some ka /\ ka `prefix_of` q /\ r `prefix_of` ka).
  { intros qos q w ros r z Hq Hr Hqr Hle. inversion Hq as [|a ka b Ha]; subst.
    - apply prefix_nil_inv in Hle as ->. destruct Hqr. by eapply slot_pos_det.
    - apply prefix_snoc_inv in Hle as [-> | Hle]; [destruct Hqr; by eapply slot_pos_det|].
      exists a, ka. repeat split; [done|by apply prefix_app_r|done]. }
  destruct (prefix_weak_total _ _ _ Hk Hk2) as [Hle | Hle]; [right | left]; eauto.
Qed.

End Shape.

(** ** Putting a node into a slot *)
Definition graft (T : tree) (pos : position) (x : positive) (p : list bool) (b : bool) (v : option positive) : tree :=
  Tree (fun a => if decide (a = x) then Some p else tkey T a)
       (fun a => if decide (a = x) then owner pos
                 else if decide (v = Some a) then Some x else tparent T a)
       (fun a c => if decide (a = x) then (if decide (c = b) then v else None)
                   else if decide (pos = Under a c) then Some x else tchild T a c)
       (if decide (pos = Top) then Some x else ttop T).

(** [graft]: the new node [x] takes slot [pos]; what was there goes below it. *)
Section Graft.
Context (T : tree) (HT : shape T) (pos : position) (k : list bool) (v : option positive).
Context (x : positive) (p : list bool) (b : bool).
Hypothesis Hslot : slot T pos k v.
Hypothesis Hfresh : tkey T x = None.
Hypothesis Hk : k `prefix_of` p.
Hypothesis Hnew : forall a, tkey T a <> Some p.
Hypothesis Hbelow : forall c kc, v = Some c -> tkey T c = Some kc -> p ++ [b] `prefix_of` kc.

Let U := graft T pos x p b v.
Ltac open_tree := unfold U, graft; cbn [tkey tparent tchild ttop owner].

Lemma graft_key a ka : tkey T a = Some ka -> tkey U a = Some ka.
Proof. intros Ha. open_tree. rewrite decide_False; [done|congruence]. Qed.

Lemma graft_key_x : tkey U x = Some p.
Proof. open_tree. by rewrite decide_True. Qed.

Lemma graft_key_inv a ka : tkey U a = Some ka -> a = x /\ ka = p \/ a <> x /\ tkey T a = Some ka.
Proof. open_tree. case_decide; [|by right]. intros [= ->]. by left. Qed.

Lemma pos_not_x c : pos <> Under x c.
Proof. intros ->. inversion Hslot. congruence. Qed.

Lemma graft_slot_same : slot U pos k (Some x).
Proof.
  inversion Hslot as [E1 E2 E3|a ka c Ha E1 E2 E3].
  - assert (E : ttop U = Some x) by (open_tree; by rewrite decide_True). rewrite <- E. constructor.
  - assert (E : tchild U a c = Some x).
    { open_tree. rewrite decide_False by congruence. by rewrite decide_True. }
    rewrite <- E. constructor. by apply graft_key.
Qed.

Lemma graft_slot_other pos2 k2 v2 : pos2 <> pos -> slot T pos2 k2 v2 -> slot U pos2 k2 v2.
Proof.
  intros Hne H. inversion H as [|a ka c Ha]; subst.
  - assert (E : ttop U = ttop T) by (open_tree; by rewrite decide_False). rewrite <- E. constructor.
  - assert (E : tchild U a c = tchild T a c).
    { open_tree. rewrite decide_False by congruence. by rewrite decide_False. }
    rewrite <- E. constructor. by apply graft_key.
Qed.

Lemma graft_slot_x c : slot U (Under x c) (p ++ [c]) (if decide (c = b) then v else None).
Proof.
  assert (E : tchild U x c = if decide (c = b) then v else None) by (open_tree; by rewrite decide_True).
  rewrite <- E. constructor. apply graft_key_x.
Qed.

Lemma graft_slot_inv pos2 k2 v2 :
  slot U pos2 k2 v2 ->
  (pos2 = pos /\ k2 = k /\ v2 = Some x) \/
  (exists c, pos2 = Under x c /\ k2 = p ++ [c] /\ v2 = if decide (c = b) then v else None) \/
  (pos2 <> pos /\ slot T pos2 k2 v2).
Proof.
  intros H. destruct (decide (pos2 = pos)) as [->|Hne].
  { left. destruct (slot_key_det U _ _ _ _ _ H graft_slot_same). done. }
  right. inversion H as [|a ka c Ha]; subst.
  - right. split; [done|]. open_tree. rewrite decide_False by done. constructor.
  - apply graft_key_inv in Ha as [[-> ->] | [Hax Ha]]; [left|right].
    + exists c. open_tree. by rewrite decide_True.
    + split; [done|]. open_tree. rewrite decide_False, decide_False by done. by constructor.
Qed.

(** Nodes the slot covered are below the one it held, hence below the new node. *)
Lemma covered_below d kd :
  tkey T d = Some kd -> k `prefix_of` kd ->
  exists c kc, v = Some c /\ tkey T c = Some kc /\ kc `prefix_of` kd /\ p ++ [b] `prefix_of` kd.
Proof.
  intros Hd Hkd. destruct v as [c|]; [|by destruct (shape_none _ HT _ _ Hslot _ _ Hd)].
  destruct (shape_some _ HT _ _ _ Hslot) as (kc & Hc & _ & _ & Hmin).
  exists c, kc. repeat split; [done|eauto|]. etrans; [by eapply Hbelow|eauto].
Qed.

(** Another slot that covers the new bits already held a shorter node. *)
Lemma other_slot_covers pos2 k2 v2 :
  pos2 <> pos -> slot T pos2 k2 v2 -> k2 `prefix_of` p ->
  exists e ke, v2 = Some e /\ tkey T e = Some ke /\ ke `prefix_of` p.
Proof.
  intros Hne H2 Hle.
  destruct (slot_nested T HT _ _ _ _ _ _ p Hslot H2 Hk Hle) as [H|H]; [done|..];
    destruct H as (a & ka & _ & Ha & Hka & Hcov).
  - destruct v2 as [e|]; [|by destruct (shape_none _ HT _ _ H2 _ _ Ha)].
    destruct (shape_some _ HT _ _ _ H2) as (ke & He & _ & _ & Hmin).
    exists e, ke. split; [done|]. split; [done|]. etrans; [exact (Hmin _ _ Ha Hcov)|]. by etrans.
  - destruct (covered_below a ka Ha Hcov) as (_ & _ & _ & _ & _ & Hp).
    destruct (prefix_snoc_irrefl p b). etrans; [exact Hp|]. by etrans.
Qed.

Lemma graft_parent_other pos2 k2 e ke :
  pos2 <> pos -> slot T pos2 k2 (Some e) -> tkey T e = Some ke -> tparent U e = tparent T e.
Proof.
  intros Hne H2 He. open_tree. rewrite decide_False by congruence.
  rewrite decide_False; [done|]. intros ->. destruct Hne. by eapply slot_node_det.
Qed.

Lemma graft_shape : shape U.
Proof.
  split.
  - intros a c ka Ha Hc.
    apply graft_key_inv in Ha as [[-> ->] | [Hax Ha]], Hc as [[-> E] | [Hcx Hc]]; subst; try done.
    + by destruct (Hnew c).
    + by destruct (Hnew a).
    + by apply (shape_inj _ HT _ _ ka).
  - intros pos2 k2 c H. apply graft_slot_inv in H as [(-> & -> & [= ->]) | [(d & -> & -> & Hv) | [Hne H]]].
    + exists p. split; [apply graft_key_x|]. split; [open_tree; by rewrite decide_True|]. split; [done|].
      intros d kd [[-> ->] | [Hdx Hd]]%graft_key_inv Hle; [done|].
      destruct (covered_below d kd Hd Hle) as (_ & _ & _ & _ & _ & ?). by eapply prefix_snoc_l.
    + destruct (decide (d = b)) as [->|]; [|done]. pose proof Hslot as Hs. rewrite <- Hv in Hs.
      destruct (shape_some _ HT _ _ _ Hs) as (kc & Hc & _ & _ & Hmin). exists kc.
      split; [by apply graft_key|]. split; [open_tree; rewrite decide_False by congruence; by rewrite decide_True|].
      split; [by eapply Hbelow|]. intros e ke [[-> ->] | [Hex He]]%graft_key_inv Hle.
      * by destruct (prefix_snoc_irrefl p b).
      * apply (Hmin e ke He). etrans; [exact Hk|]. by eapply prefix_snoc_l.
    + destruct (shape_some _ HT _ _ _ H) as (kc & Hc & Hp & Hle & Hmin). exists kc.
      split; [by apply graft_key|]. split; [by rewrite (graft_parent_other _ _ _ _ Hne H Hc)|].
      split; [done|]. intros d kd [[-> ->] | [Hdx Hd]]%graft_key_inv Hled; [|eauto].
      destruct (other_slot_covers _ _ _ Hne H Hled) as (e & ke & [= <-] & He & ?).
      by assert (ke = kc) as -> by congruence.
  - intros pos2 k2 H d kd Hd Hle. apply graft_slot_inv in H as [(_ & _ & [=]) | [(c & -> & -> & Hv) | [Hne H]]].
    + apply graft_key_inv in Hd as [[-> ->] | [Hdx Hd]]; [by destruct (prefix_snoc_irrefl p c)|].
      assert (Hkd : k `prefix_of` kd) by (etrans; [exact Hk|]; by eapply prefix_snoc_l).
      destruct (covered_below d kd Hd Hkd) as (e & ke & Hve & _ & _ & Hb).
      assert (E : c = b) by by eapply prefix_snoc_agree. rewrite decide_True in Hv by done. congruence.
    + apply graft_key_inv in Hd as [[-> ->] | [Hdx Hd]].
      * destruct (other_slot_covers _ _ _ Hne H Hle) as (e & ke & [=] & _).
      * by destruct (shape_none _ HT _ _ H _ _ Hd).
  - intros c kc [[-> ->] | [Hcx Hc]]%graft_key_inv; [exists pos, k; apply graft_slot_same|].
    destruct (shape_back _ HT c kc Hc) as (pos2 & k2 & H). destruct (decide (pos2 = pos)) as [->|Hne].
    + destruct (slot_key_det T _ _ _ _ _ H Hslot) as [_ E].
      exists (Under x b), (p ++ [b]). rewrite E. pose proof (graft_slot_x b) as Hx.
      by rewrite decide_True in Hx.
    + exists pos2, k2. by apply graft_slot_other.
Qed.

End Graft.

(** ** Taking a node out *)
Definition prune (T : tree) (pos : position) (x : positive) (v : option positive) : tree :=
  Tree (fun a => if decide (a = x) then None else tkey T a)
       (fun a => if decide (v = Some a) then owner pos else tparent T a)
       (fun a c => if decide (pos = Under a c) then v else tchild T a c)
       (if decide (pos = Top) then v else ttop T).

(** [prune]: node [x] leaves slot [pos] to its only child [v], if it has one. *)
Section Prune.
Context (T : tree) (HT : shape T) (pos : position) (k : list bool) (v : option positive).
Context (x : positive) (p : list bool) (b : bool).
Hypothesis Hslot : slot T pos k (Some x).
Hypothesis Hx : tkey T x = Some p.
Hypothesis Hchild : tchild T x b = v.
Hypothesis Hno : tchild T x (negb b) = None.

Let U := prune T pos x v.
Ltac open_tree := unfold U, prune; cbn [tkey tparent tchild ttop owner].

Lemma prune_key_inv a ka : tkey U a = Some ka -> a <> x /\ tkey T a = Some ka.
Proof. open_tree. case_decide; [done|]. by split. Qed.

Lemma prune_key a ka : a <> x -> tkey T a = Some ka -> tkey U a = Some ka.
Proof. intros Hne Ha. open_tree. by rewrite decide_False. Qed.

Lemma pos_not_own c : pos <> Under x c.
Proof.
  intros E. pose proof Hslot as Hs. rewrite E in Hs. inversion Hs as [|a ka c' Ha E1 E2 E3].
  destruct (shape_some _ HT _ _ _ Hslot) as (kx & Hkx & _ & Hle & _).
  rewrite <- E2 in Hle. assert (kx = ka) as -> by congruence.
  by destruct (prefix_snoc_irrefl ka c).
Qed.

Lemma prune_slot_same : slot U pos k v.
Proof.
  inversion Hslot as [E1 E2 E3|a ka c Ha E1 E2 E3].
  - assert (E : ttop U = v) by (open_tree; by rewrite decide_True). rewrite <- E. constructor.
  - assert (E : tchild U a c = v) by (open_tree; by rewrite decide_True).
    rewrite <- E. constructor. apply prune_key; [|done]. intros ->. by apply (pos_not_own c).
Qed.

Lemma prune_slot_other pos2 k2 v2 :
  pos2 <> pos -> owner pos2 <> Some x -> slot T pos2 k2 v2 -> slot U pos2 k2 v2.
Proof.
  intros Hne Hnx H. inversion H as [|a ka c Ha]; subst pos2 k2 v2.
  - assert (E : ttop U = ttop T) by (open_tree; by rewrite decide_False). rewrite <- E. constructor.
  - assert (E : tchild U a c = tchild T a c) by (open_tree; by rewrite decide_False).
    rewrite <- E. constructor. apply prune_key; [|done]. intros ->. by destruct Hnx.
Qed.

Lemma prune_slot_inv pos2 k2 v2 :
  slot U pos2 k2 v2 ->
  (pos2 = pos /\ k2 = k /\ v2 = v) \/ (pos2 <> pos /\ owner pos2 <> Some x /\ slot T pos2 k2 v2).
Proof.
  intros H. destruct (decide (pos2 = pos)) as [->|Hne].
  { left. destruct (slot_key_det U _ _ _ _ _ H prune_slot_same). done. }
  right. split; [done|]. inversion H as [|a ka c Ha]; subst pos2 k2 v2.
  - split; [done|]. open_tree. rewrite decide_False by done. constructor.
  - apply prune_key_inv in Ha as [Hax Ha]. split; [simpl; congruence|].
    open_tree. rewrite decide_False by done. by constructor.
Qed.

(** What is left of the nodes the slot covers is below the child. *)
Lemma left_below d kd :
  d <> x -> tkey T d = Some kd -> k `prefix_of` kd -> p ++ [b] `prefix_of` kd.
Proof.
  intros Hdx Hd Hle. destruct (shape_some _ HT _ _ _ Hslot) as (kx & Hkx & _ & _ & Hmin).
  assert (kx = p) as -> by congruence.
  destruct (prefix_cases p kd (Hmin _ _ Hd Hle)) as [<- | [c Hc]].
  - destruct Hdx. by eapply (shape_inj _ HT).
  - destruct (decide (c = b)) as [->|Hcb]; [done|]. assert (c = negb b) as -> by (by destruct c, b).
    pose proof (slot_under T x p (negb b) Hx) as Hs. rewrite Hno in Hs.
    by destruct (shape_none _ HT _ _ Hs _ _ Hd).
Qed.

Lemma prune_shape : shape U.
Proof.
  pose proof (slot_under T x p b Hx) as Hxs. rewrite Hchild in Hxs. split.
  - intros a c ka [_ Ha]%prune_key_inv [_ Hc]%prune_key_inv. by apply (shape_inj _ HT _ _ ka).
  - intros pos2 k2 c [(-> & -> & Hv) | (Hne & Hnx & H)]%prune_slot_inv.
    + rewrite <- Hv in Hxs. destruct (shape_some _ HT _ _ _ Hxs) as (kc & Hc & _ & Hle & Hmin). exists kc.
      destruct (shape_some _ HT _ _ _ Hslot) as (kx & Hkx & _ & Hlex & _).
      assert (kx = p) as -> by congruence.
      assert (Hcx : c <> x). { intros ->. assert (kc = p) as -> by congruence. by destruct (prefix_snoc_irrefl p b). }
      split; [by apply prune_key|]. split; [open_tree; by rewrite decide_True by done|].
      split; [etrans; [exact Hlex|]; by eapply prefix_snoc_l|].
      intros d kd [Hdx Hd]%prune_key_inv Hled. apply (Hmin d kd Hd). by apply (left_below d).
    + destruct (shape_some _ HT _ _ _ H) as (kc & Hc & Hp & Hle & Hmin). exists kc.
      assert (Hcx : c <> x) by (intros ->; destruct Hne; by eapply slot_node_det).
      split; [by apply prune_key|]. split.
      * open_tree. rewrite decide_False; [done|]. intros Hv. rewrite Hv in Hxs. destruct Hnx.
        by rewrite (slot_node_det T HT _ _ _ _ _ H Hxs).
      * split; [done|]. intros d kd [_ Hd]%prune_key_inv. eauto.
  - intros pos2 k2 [(-> & -> & Hv) | (Hne & Hnx & H)]%prune_slot_inv d kd [Hdx Hd]%prune_key_inv Hle.
    + rewrite <- Hv in Hxs. apply (shape_none _ HT _ _ Hxs _ _ Hd). by apply (left_below d).
    + by apply (shape_none _ HT _ _ H _ _ Hd).
  - intros c kc [Hcx Hc]%prune_key_inv. destruct (shape_back _ HT c kc Hc) as (pos2 & k2 & H).
    assert (Hne : pos2 <> pos).
    { intros ->. destruct (slot_key_det T _ _ _ _ _ H Hslot) as [_ [= ->]]. done. }
    destruct (decide (owner pos2 = Some x)) as [Ho|Ho]; [|exists pos2, k2; by apply prune_slot_other].
    destruct pos2 as [|a c']; [done|]. injection Ho as ->. inversion H as [|a ka e Ha E1 E2 E3].
    destruct (decide (c' = b)) as [->|Hb].
    + exists pos, k. rewrite Hchild. apply prune_slot_same.
    + assert (c' = negb b) as -> by (by destruct c', b). congruence.
Qed.

End Prune.

(** ** Order of a traversal

    Bit strings in dictionary order: a string before its extensions, 0 before 1. *)
Fixpoint bits_ltb (k l : list bool) : bool :=
  match k, l with
  | _, [] => false
  | [], _ :: _ => true
  | b :: k, c :: l => if eqb b c then bits_ltb k l else negb b
  end.
Definition bits_lt (k l : list bool) : Prop := bits_ltb k l = true.

#[export] Instance bits_lt_dec k l : Decision (bits_lt k l).
Proof. unfold bits_lt. apply _. Defined.

Lemma bits_lt_iff k l :
  bits_lt k l <-> (exists b, k ++ [b] `prefix_of` l) \/
                  (exists c, c ++ [false] `prefix_of` k /\ c ++ [true] `prefix_of` l).
Proof.
  unfold bits_lt. revert l. induction k as [|b k IH]; intros [|c l]; simpl.
  - split; [done|]. intros [[b H%prefix_length] | (c & H%prefix_length & _)];
      rewrite ?length_app in H; simpl in H; lia.
  - split; [|done]. intros _. left. exists c. by apply prefix_cons, prefix_nil.
  - split; [done|]. intros [[d H%prefix_length] | (c & _ & H%prefix_length)];
      rewrite ?length_app in H; simpl in H; lia.
  - destruct (eqb b c) eqn:E.
    + apply eqb_prop in E as ->. rewrite IH. split.
      * intros [[d H] | (e & H1 & H2)]; [left; exists d | right; exists (c :: e); split]; by apply prefix_cons.
      * intros [[d H%prefix_cons_inv_2] | (e & H1 & H2)]; [left; by exists d|right].
        destruct e as [|x e]; simpl in *.
        { apply prefix_cons_inv_1 in H1. apply prefix_cons_inv_1 in H2. congruence. }
        exists e. by apply prefix_cons_inv_2 in H1, H2.
    + apply eqb_false_iff in E. split.
      * intros Hb. right. exists []. destruct b, c; try done.
        split; simpl; apply prefix_cons, prefix_nil.
      * intros [[d H%prefix_cons_inv_1] | (e & H1 & H2)]; [done|].
        destruct e as [|x e]; simpl in *; apply prefix_cons_inv_1 in H1, H2; by subst.
Qed.

Lemma bits_lt_asym k l : bits_lt k l -> ~ bits_lt l k.
Proof.
  unfold bits_lt. revert l. induction k as [|b k IH]; intros [|c l]; simpl; try done.
  destruct b, c; simpl; try done; apply IH.
Qed.

Lemma bits_lt_irrefl k : ~ bits_lt k k.
Proof. intros H. by apply (bits_lt_asym k k). Qed.

Lemma bits_lt_trans k l m : bits_lt k l -> bits_lt l m -> bits_lt k m.
Proof.
  unfold bits_lt. revert l m. induction k as [|b k IH]; intros [|c l] [|d m]; simpl; try done.
  destruct b, c, d; simpl; try done; apply IH.
Qed.

Lemma bits_lt_total k l : bits_lt k l \/ k = l \/ bits_lt l k.
Proof.
  unfold bits_lt. revert l. induction k as [|b k IH]; intros [|c l]; simpl; auto.
  destruct (IH l) as [H|[->|H]]; destruct b, c; simpl; auto.
Qed.

Lemma bits_lt_ext k b l : k ++ [b] `prefix_of` l -> bits_lt k l.
Proof. intros H. apply bits_lt_iff. left. by exists b. Qed.

Lemma bits_lt_fork c k l : c ++ [false] `prefix_of` k -> c ++ [true] `prefix_of` l -> bits_lt k l.
Proof. intros H1 H2. apply bits_lt_iff. right. by exists c. Qed.

(** What comes after [k] is below [k] or forks off above it; in the latter case it
    comes after everything below [k]. *)
Lemma bits_lt_cases k l :
  bits_lt k l -> (exists b, k ++ [b] `prefix_of` l) \/
                 (forall q, k `prefix_of` q -> bits_lt q l).
Proof.
  intros [[b H] | (c & H1 & H2)]%bits_lt_iff; [left; by exists b|right].
  intros q Hq. eapply bits_lt_fork; [|exact H2]. by etrans.
Qed.

Section Order.
Context (T : tree) (HT : shape T).

(** [o] is the node after the bits [k], if there is one. *)
Definition is_next (k : list bool) (o : option positive) : Prop :=
  match o with
  | Some n => exists kn, tkey T n = Some kn /\ bits_lt k kn /\
      forall d kd, tkey T d = Some kd -> bits_lt k kd -> d = n \/ bits_lt kn kd
  | None => forall d kd, tkey T d = Some kd -> ~ bits_lt k kd
  end.

(** Nothing below [q], which starts [k], comes after [k]. *)
Definition passed (k q : list bool) : Prop :=
  q `prefix_of` k /\ forall d kd, tkey T d = Some kd -> q `prefix_of` kd -> ~ bits_lt k kd.

Lemma below_or_same n kn d kd :
  tkey T n = Some kn -> tkey T d = Some kd -> kn `prefix_of` kd -> d = n \/ bits_lt kn kd.
Proof.
  intros Hn Hd [<- | [b Hb]]%prefix_cases; [left|right; by eapply bits_lt_ext].
  by eapply (shape_inj _ HT).
Qed.

Lemma next_left a k c : tkey T a = Some k -> tchild T a false = Some c -> is_next k (Some c).
Proof.
  intros Ha Hc. pose proof (slot_under T a k false Ha) as Hs. rewrite Hc in Hs.
  destruct (shape_some _ HT _ _ _ Hs) as (kc & Hkc & _ & Hle & Hmin). exists kc.
  split; [done|]. split; [by eapply bits_lt_ext|]. intros d kd Hd Hlt.
  destruct (bits_lt_cases _ _ Hlt) as [[[] Hb] | Hall].
  - right. by eapply bits_lt_fork.
  - eapply below_or_same; eauto.
  - right. apply Hall. by eapply prefix_snoc_l.
Qed.

Lemma next_right a k c :
  tkey T a = Some k -> tchild T a false = None -> tchild T a true = Some c -> is_next k (Some c).
Proof.
  intros Ha Hf Hc. pose proof (slot_under T a k true Ha) as Hs. rewrite Hc in Hs.
  pose proof (slot_under T a k false Ha) as Hsf. rewrite Hf in Hsf.
  destruct (shape_some _ HT _ _ _ Hs) as (kc & Hkc & _ & Hle & Hmin). exists kc.
  split; [done|]. split; [by eapply bits_lt_ext|]. intros d kd Hd Hlt.
  destruct (bits_lt_cases _ _ Hlt) as [[[] Hb] | Hall].
  - eapply below_or_same; eauto.
  - by destruct (shape_none _ HT _ _ Hsf _ _ Hd).
  - right. apply Hall. by eapply prefix_snoc_l.
Qed.

Lemma leaf_passed a k :
  tkey T a = Some k -> tchild T a false = None -> tchild T a true = None -> passed k k.
Proof.
  intros Ha Hf Ht. split; [done|]. intros d kd Hd Hle Hlt.
  apply prefix_cases in Hle as [-> | [b Hb]]; [by apply (bits_lt_irrefl kd)|].
  pose proof (slot_under T a k b Ha) as Hs.
  replace (tchild T a b) with (@None positive) in Hs by (by destruct b).
  by apply (shape_none _ HT _ _ Hs _ _ Hd).
Qed.

(** One step up: from [n], in slot [b] of [q]. *)
Section Up.
Context (k : list bool) (n q : positive) (kn kq : list bool) (b : bool).
Hypothesis Hn : tkey T n = Some kn.
Hypothesis Hq : tkey T q = Some kq.
Hypothesis Hb : tchild T q b = Some n.
Hypothesis Hpass : passed k kn.

Lemma up_below : kq ++ [b] `prefix_of` kn /\ kq ++ [b] `prefix_of` k /\
  forall d kd, tkey T d = Some kd -> kq ++ [b] `prefix_of` kd -> ~ bits_lt k kd.
Proof.
  pose proof (slot_under T q kq b Hq) as Hs. rewrite Hb in Hs.
  destruct (shape_some _ HT _ _ _ Hs) as (kn' & Hn' & _ & Hle & Hmin).
  assert (kn' = kn) as -> by congruence. destruct Hpass as [Hk Hnone].
  split; [done|]. split; [by etrans|]. intros d kd Hd Hled. eapply Hnone; eauto.
Qed.

Lemma up_right r : b = false -> tchild T q true = Some r -> is_next k (Some r).
Proof.
  intros Eb Hr. destruct up_below as (Hkn & Hk & Hnone). rewrite Eb in Hkn, Hk, Hnone.
  pose proof (slot_under T q kq true Hq) as Hs. rewrite Hr in Hs.
  destruct (shape_some _ HT _ _ _ Hs) as (kr & Hkr & _ & Hle & Hmin). exists kr.
  split; [done|]. split; [by eapply bits_lt_fork|]. intros d kd Hd Hlt.
  destruct (prefix_cases _ _ (prefix_snoc_l _ _ _ Hle)) as [-> | _];
    [by destruct (prefix_snoc_irrefl kr true)|].
  apply bits_lt_iff in Hlt as Hcase.
  assert (Under : kq `prefix_of` kd -> d = r \/ bits_lt kr kd).
  { intros [-> | [[] Hx]]%prefix_cases.
    - destruct (bits_lt_asym k kd Hlt). by eapply bits_lt_ext.
    - eapply below_or_same; eauto.
    - by destruct (Hnone d kd Hd Hx). }
  destruct Hcase as [[c Hc] | (c & H1 & H2)].
  - apply Under. exact (transitivity (prefix_snoc_l _ _ _ Hk) (prefix_snoc_l _ _ _ Hc)).
  - destruct (prefix_weak_total _ _ _ H1 (prefix_snoc_l _ _ _ Hk)) as [Hx | Hx].
    + right. eapply bits_lt_fork; [|exact H2]. exact (transitivity Hx (prefix_snoc_l _ _ _ Hle)).
    + apply prefix_snoc_inv in Hx as [-> | Hx].
      * right. eapply bits_lt_fork; [|exact H2]. exact (prefix_snoc_l _ _ _ Hle).
      * apply Under. exact (transitivity Hx (prefix_snoc_l _ _ _ H2)).
Qed.

Lemma up_passed : b = true \/ tchild T q true = None -> passed k kq.
Proof.
  intros Hor. destruct up_below as (Hkn & Hk & Hnone).
  split; [by eapply prefix_snoc_l|]. intros d kd Hd [-> | [c Hc]]%prefix_cases Hlt.
  - apply (bits_lt_asym k kd Hlt). by eapply bits_lt_ext.
  - destruct (decide (c = b)) as [->|Hcb]; [by apply (Hnone d kd)|]. destruct Hor as [Eb | Hr].
    + rewrite Eb in Hk, Hcb. destruct c; [done|]. apply (bits_lt_asym k kd Hlt). by eapply bits_lt_fork.
    + destruct c; [|assert (Eb : b = true) by (by destruct b); rewrite Eb in Hb; congruence].
      pose proof (slot_under T q kq true Hq) as Hs. rewrite Hr in Hs.
      by apply (shape_none _ HT _ _ Hs _ _ Hd).
Qed.
End Up.

Lemma top_passed k n kn : tkey T n = Some kn -> ttop T = Some n -> passed k kn -> is_next k None.
Proof.
  intros Hn Ht [_ Hnone] d kd Hd. apply (Hnone d kd Hd).
  pose proof (slot_top T) as Hs. rewrite Ht in Hs.
  destruct (shape_some _ HT _ _ _ Hs) as (kn' & Hn' & _ & _ & Hmin).
  assert (kn' = kn) as -> by congruence. eapply Hmin; [done|apply prefix_nil].
Qed.

End Order.
