(* ===== verification/Table.v ===== *)
(** * lib/table.c: routing tables

    A table owns a store of nodes linked into a binary tree over the bits of their
    prefixes.  Nodes are reference counted; a node without information stays only
    while it is locked or has two children.  [Radix] says what the links have to
    be; this file models the functions of the source on the store and proves that
    they keep that shape and implement a map from bit strings to nodes: exact
    lookup, longest match, insertion, deletion, and a traversal in dictionary
    order. *)
From stdpp Require Import base option list gmap fin_maps.
From Stdlib Require Import ZArith Lia ZifyNat.
From S2P Require Import Prelude RouteInfo RouteCmp Prefix Radix.

(** ** Data *)

(** [struct route_node]: the [table] pointer is the table itself, [aggregate] is not
    used by lib/table.c. *)
Record rnode := RNode {
  rn_p : ip_prefix;
  rn_parent : option positive;
  rn_left : option positive;
  rn_right : option positive;
  rn_lock : Z;                     (** unsigned int *)
  rn_info : option Z               (** void pointer, [None] for NULL *)
}.

(** [struct route_table] and the allocated nodes; [next] is a fresh address. *)
Record rtable := RTable {
  rt_top : option positive;
  rt_nodes : gmap positive rnode;
  rt_next : positive
}.

Definition with_rp (n : rnode) p := RNode p (rn_parent n) (rn_left n) (rn_right n) (rn_lock n) (rn_info n).
Definition with_parent (n : rnode) q := RNode (rn_p n) q (rn_left n) (rn_right n) (rn_lock n) (rn_info n).
Definition with_left (n : rnode) c := RNode (rn_p n) (rn_parent n) c (rn_right n) (rn_lock n) (rn_info n).
Definition with_right (n : rnode) c := RNode (rn_p n) (rn_parent n) (rn_left n) c (rn_lock n) (rn_info n).
Definition with_rlock (n : rnode) l := RNode (rn_p n) (rn_parent n) (rn_left n) (rn_right n) l (rn_info n).
Definition with_rinfo (n : rnode) i := RNode (rn_p n) (rn_parent n) (rn_left n) (rn_right n) (rn_lock n) i.

(** [link[bit]]. *)
Definition rlink (n : rnode) (bit : Z) : option positive := if bit =? 0 then rn_left n else rn_right n.
Definition with_link (n : rnode) (bit : Z) c := if bit =? 0 then with_left n c else with_right n c.

Definition rat (t : rtable) (a : positive) : res rnode :=
  match rt_nodes t !! a with Some n => Ret n | None => Fault end.
Definition rput (t : rtable) (a : positive) (n : rnode) : rtable :=
  RTable (rt_top t) (<[a := n]> (rt_nodes t)) (rt_next t).
Definition set_top (t : rtable) (c : option positive) : rtable :=
  RTable c (rt_nodes t) (rt_next t).

Definition route_table_init : rtable := RTable None ∅ 1.

(** ** Nodes *)

(** The [union] of a [struct prefix] has sixteen octets; [XCALLOC] clears it. *)
Definition route_node_new (t : rtable) : rtable * positive :=
  let a := rt_next t in
  (RTable (rt_top t)
     (<[a := RNode (IpPrefix 0 0 (replicate 16 0)) None None None 0 None]> (rt_nodes t))
     (Pos.succ a), a).

Definition route_node_set (t : rtable) (prefix : ip_prefix) : res (rtable * positive) :=
  let '(t, node) := route_node_new t in
  n ← rat t node;
  p ← prefix_copy (rn_p n) prefix;
  Ret (rput t node (with_rp n p), node).

Definition route_node_free (t : rtable) (node : positive) : rtable :=
  RTable (rt_top t) (delete node (rt_nodes t)) (rt_next t).

(** [for (i = 0; i < p->prefixlen / 8; i++) if (np[i] == pp[i]) newp[i] = np[i];
    else break;] from [i] with [n] octets to go. *)
Fixpoint common_octets (np pp newp : list Z) (i : Z) (n : nat) : res (list Z * Z) :=
  match n with
  | O => Ret (newp, i)
  | S n =>
      a ← zget np i; b ← zget pp i;
      if a =? b then newp ← zput newp i a; common_octets np pp newp (i + 1) n
      else Ret (newp, i)
  end.

(** [while (new->prefixlen < p->prefixlen && !(mask & diff)) { mask >>= 1;
    new->prefixlen++; }]: at most [p->prefixlen - new->prefixlen] rounds. *)
Fixpoint common_bits (diff mask len plen : Z) (fuel : nat) : Z :=
  match fuel with
  | O => len
  | S f => if (len <? plen) && (Z.land mask diff =? 0)
           then common_bits diff (Z.shiftr mask 1) (len + 1) plen f else len
  end.

Definition route_common (n p new : ip_prefix) : res ip_prefix :=
  r ← common_octets (octets n) (octets p) (octets new) 0 (Z.to_nat (prefixlen p / 8));
  let '(newp, i) := (r : list Z * Z) in
  if negb (i * 8 =? prefixlen p) then
    a ← zget (octets n) i; b ← zget (octets p) i;
    let diff := Z.lxor a b in
    let len := common_bits diff 128 (i * 8) (prefixlen p) (Z.to_nat (prefixlen p - i * 8)) in
    m ← maskbit (len mod 8);
    newp ← zput newp i (Z.land a m);
    Ret (IpPrefix (family new) len newp)
  else Ret (IpPrefix (family new) (i * 8) newp).

Definition set_link (t : rtable) (node new : positive) : res rtable :=
  n ← rat t node; w ← rat t new;
  bit ← prefix_bit (octets (rn_p w)) (prefixlen (rn_p n));
  let t := rput t node (with_link n bit (Some new)) in
  w ← rat t new;
  Ret (rput t new (with_parent w (Some node))).

Definition route_lock_node (t : rtable) (node : positive) : res rtable :=
  n ← rat t node; Ret (rput t node (with_rlock n (u32 (rn_lock n + 1)))).

(** ** Deletion *)

(** Each recursive call follows the release of a node: [fuel] is their number. *)
Fixpoint route_node_delete (fuel : nat) (t : rtable) (node : positive) : res rtable :=
  match fuel with
  | O => Fault
  | S fuel =>
      n ← rat t node;
      _ ← cassert (rn_lock n =? 0);
      _ ← cassert (bool_decide (rn_info n = None));
      if bool_decide (is_Some (rn_left n)) && bool_decide (is_Some (rn_right n)) then Ret t
      else
        let child := match rn_left n with Some c => Some c | None => rn_right n end in
        let parent := rn_parent n in
        t ← match child with
            | Some c => w ← rat t c; Ret (rput t c (with_parent w parent))
            | None => Ret t
            end;
        t ← match parent with
            | Some q => w ← rat t q;
                        Ret (rput t q (if bool_decide (rn_left w = Some node)
                                       then with_left w child else with_right w child))
            | None => Ret (set_top t child)
            end;
        let t := route_node_free t node in
        match parent with
        | Some q => w ← rat t q;
                    if rn_lock w =? 0 then route_node_delete fuel t q else Ret t
        | None => Ret t
        end
  end.

Definition route_unlock_node (t : rtable) (node : positive) : res rtable :=
  n ← rat t node;
  let lock := u32 (rn_lock n - 1) in
  let t := rput t node (with_rlock n lock) in
  if lock =? 0 then route_node_delete (size (rt_nodes t)) t node else Ret t.

(** ** Searching

    The three loops walk down while [node && node->p.prefixlen <= p->prefixlen &&
    prefix_match (&node->p, p)]; the prefixes they meet get longer, so
    [p->prefixlen + 2] rounds are enough. *)
Definition covers (n : rnode) (p : ip_prefix) : res bool :=
  if prefixlen (rn_p n) <=? prefixlen p then prefix_match (rn_p n) p else Ret false.

(** [node = node->link[prefix_bit (&p->u.prefix, node->p.prefixlen)]]. *)
Definition descend (n : rnode) (p : ip_prefix) : res (option positive) :=
  bit ← prefix_bit (octets p) (prefixlen (rn_p n)); Ret (rlink n bit).

Definition walk_fuel (p : ip_prefix) : nat := S (S (Z.to_nat (prefixlen p))).

Fixpoint match_walk (fuel : nat) (t : rtable) (p : ip_prefix)
    (node matched : option positive) : res (option positive) :=
  match fuel, node with
  | O, _ => Fault
  | S _, None => Ret matched
  | S fuel, Some a =>
      n ← rat t a;
      c ← covers n p;
      if c : bool then
        let matched := if bool_decide (is_Some (rn_info n)) then Some a else matched in
        if prefixlen (rn_p n) =? prefixlen p then Ret matched
        else node ← descend n p; match_walk fuel t p node matched
      else Ret matched
  end.

Definition route_node_match (t : rtable) (p : ip_prefix) : res (rtable * option positive) :=
  matched ← match_walk (walk_fuel p) t p (rt_top t) None;
  match matched with
  | Some m => t ← route_lock_node t m; Ret (t, Some m)
  | None => Ret (t, None)
  end.

Definition route_node_match_ipv4 (t : rtable) (addr : list Z) : res (rtable * option positive) :=
  route_node_match t (IpPrefix AF_INET IPV4_MAX_PREFIXLEN addr).
Definition route_node_match_ipv6 (t : rtable) (addr : list Z) : res (rtable * option positive) :=
  route_node_match t (IpPrefix AF_INET6 IPV6_MAX_PREFIXLEN addr).

Fixpoint lookup_walk (fuel : nat) (t : rtable) (p : ip_prefix) (node : option positive)
    : res (rtable * option positive) :=
  match fuel, node with
  | O, _ => Fault
  | S _, None => Ret (t, None)
  | S fuel, Some a =>
      n ← rat t a;
      c ← covers n p;
      if c : bool then
        if prefixlen (rn_p n) =? prefixlen p then
          match rn_info n with
          | Some _ => t ← route_lock_node t a; Ret (t, Some a)
          | None => Ret (t, None)
          end
        else node ← descend n p; lookup_walk fuel t p node
      else Ret (t, None)
  end.

Definition route_node_lookup (t : rtable) (p : ip_prefix) : res (rtable * option positive) :=
  lookup_walk (walk_fuel p) t p (rt_top t).

(** ** Insertion *)

(** The loop of [route_node_get] returns the node it finds, or the last values of
    [node] and [match]. *)
Fixpoint get_walk (fuel : nat) (t : rtable) (p : ip_prefix) (node mtch : option positive)
    : res (positive + option positive * option positive) :=
  match fuel, node with
  | O, _ => Fault
  | S _, None => Ret (inr (None, mtch))
  | S fuel, Some a =>
      n ← rat t a;
      c ← covers n p;
      if c : bool then
        if prefixlen (rn_p n) =? prefixlen p then Ret (inl a)
        else node ← descend n p; get_walk fuel t p node (Some a)
      else Ret (inr (Some a, mtch))
  end.

(** [if (match) set_link (match, new); else table->top = new;] *)
Definition link_below (t : rtable) (mtch : option positive) (new : positive) : res rtable :=
  match mtch with
  | Some m => set_link t m new
  | None => Ret (set_top t (Some new))
  end.

Definition route_node_get (t : rtable) (p : ip_prefix) : res (rtable * positive) :=
  w ← get_walk (walk_fuel p) t p (rt_top t) None;
  match w : positive + option positive * option positive with
  | inl node => t ← route_lock_node t node; Ret (t, node)
  | inr (None, mtch) =>
      r ← route_node_set t p;
      let '(t, new) := (r : rtable * positive) in
      t ← link_below t mtch new;
      t ← route_lock_node t new; Ret (t, new)
  | inr (Some node, mtch) =>
      let '(t, new) := route_node_new t in
      n ← rat t node; w ← rat t new;
      np ← route_common (rn_p n) p (rn_p w);
      let t := rput t new (with_rp w (IpPrefix (family p) (prefixlen np) (octets np))) in
      t ← set_link t new node;
      t ← link_below t mtch new;
      if negb (prefixlen np =? prefixlen p) then
        r ← route_node_set t p;
        let '(t, leaf) := (r : rtable * positive) in
        t ← set_link t new leaf;
        t ← route_lock_node t leaf; Ret (t, leaf)
      else t ← route_lock_node t new; Ret (t, new)
  end.

(** ** Traversal *)
Definition route_top (t : rtable) : res (rtable * option positive) :=
  match rt_top t with
  | None => Ret (t, None)
  | Some a => t ← route_lock_node t a; Ret (t, Some a)
  end.

(** [while (node->parent && node != limit)]: up to the next right subtree.  Prefixes
    get shorter on the way, so [node->p.prefixlen + 1] rounds are enough. *)
Fixpoint climb (fuel : nat) (t : rtable) (limit : option positive) (node : positive)
    : res (option positive) :=
  match fuel with
  | O => Fault
  | S fuel =>
      n ← rat t node;
      match rn_parent n with
      | Some q =>
          if bool_decide (limit = Some node) then Ret None
          else
            w ← rat t q;
            if bool_decide (rn_left w = Some node) && bool_decide (is_Some (rn_right w))
            then Ret (rn_right w) else climb fuel t limit q
      | None => Ret None
      end
  end.

(** [route_lock_node (next); route_unlock_node (node); return next;] *)
Definition move_lock (t : rtable) (node next : positive) : res (rtable * option positive) :=
  t ← route_lock_node t next; t ← route_unlock_node t node; Ret (t, Some next).

Definition next_node (t : rtable) (limit : option positive) (node : positive)
    : res (rtable * option positive) :=
  n ← rat t node;
  match rn_left n, rn_right n with
  | Some next, _ => move_lock t node next
  | None, Some next => move_lock t node next
  | None, None =>
      o ← climb (S (Z.to_nat (prefixlen (rn_p n)))) t limit node;
      match o : option positive with
      | Some next => move_lock t node next
      | None => t ← route_unlock_node t node; Ret (t, None)
      end
  end.

(** [route_next_until] differs from [route_next] in the test of [limit] only. *)
Definition route_next (t : rtable) (node : positive) := next_node t None node.
Definition route_next_until (t : rtable) (node limit : positive) := next_node t (Some limit) node.

(** ** Release of a table *)

(** One round of the loop of [route_table_free]; the result is the next [node], or
    the end of the loop. *)
Definition free_step (t : rtable) (node : positive) : res (rtable * option positive) :=
  n ← rat t node;
  match rn_left n, rn_right n with
  | Some c, _ => Ret (t, Some c)
  | None, Some c => Ret (t, Some c)
  | None, None =>
      match rn_parent n with
      | Some q =>
          w ← rat t q;
          let t := rput t q (if bool_decide (rn_left w = Some node)
                             then with_left w None else with_right w None) in
          Ret (route_node_free t node, Some q)
      | None => Ret (route_node_free t node, None)
      end
  end.

Fixpoint free_loop (fuel : nat) (t : rtable) (node : option positive) : res rtable :=
  match fuel, node with
  | O, _ => Fault
  | S _, None => Ret t
  | S fuel, Some a =>
      r ← free_step t a;
      let '(t, node) := (r : rtable * option positive) in free_loop fuel t node
  end.

(** A round either frees a node or goes to a longer prefix, of at most 128 bits. *)
Definition route_table_free (t : rtable) : res rtable :=
  free_loop (130 * S (size (rt_nodes t))) t (rt_top t).

(** ** The tree of a table *)
Definition rkey (n : rnode) : list bool := pbits (rn_p n).

Definition view (t : rtable) : tree :=
  Tree (fun a => rkey <$> rt_nodes t !! a)
       (fun a => match rt_nodes t !! a with Some n => rn_parent n | None => None end)
       (fun a b => match rt_nodes t !! a with
                   | Some n => if b : bool then rn_right n else rn_left n
                   | None => None
                   end)
       (rt_top t).

(** A node has whole storage, and stays without being locked only as the fork of two
    subtrees. *)
Definition node_ok (n : rnode) : Prop :=
  prefix_ok (rn_p n) /\ length (octets (rn_p n)) = 16%nat /\ is_u32 (rn_lock n).
Definition stub_ok (n : rnode) : Prop :=
  rn_lock n = 0 -> rn_info n = None /\ is_Some (rn_left n) /\ is_Some (rn_right n).

Record table_ok (t : rtable) : Prop := {
  ok_node : forall a n, rt_nodes t !! a = Some n -> node_ok n /\ (a < rt_next t)%positive;
  ok_stub : forall a n, rt_nodes t !! a = Some n -> stub_ok n;
  ok_shape : shape (view t) }.

(** ** Bits of keys *)
Lemma length_rkey n : length (rkey n) = plen (rn_p n).
Proof. apply length_pbits. Qed.

(** The bit that follows a key is the one [prefix_bit] reads. *)
Lemma next_bit (p : ip_prefix) k b :
  prefix_ok p -> k ++ [b] `prefix_of` pbits p ->
  prefix_bit (octets p) (Z.of_nat (length k)) = Ret (if b then 1 else 0).
Proof.
  intros [Hp _] [r Hr].
  assert (E : pbits p !! length k = Some b)
    by (rewrite Hr, <- app_assoc; by apply list_lookup_middle).
  assert (Hl : (length k < plen p)%nat).
  { rewrite <- length_pbits. apply lookup_lt_is_Some. by rewrite E. }
  rewrite pbits_lookup in E by done. injection E as <-.
  apply prefix_bit_ok. unfold plen, zlen in *. lia.
Qed.

Lemma key_next (p : ip_prefix) k :
  k `prefix_of` pbits p -> length k <> plen p ->
  k ++ [bit_at (octets p) (length k)] `prefix_of` pbits p.
Proof.
  intros [E | [b Hb]]%prefix_cases Hne.
  - destruct Hne. by rewrite E, length_pbits.
  - pose proof (prefix_length _ _ Hb) as Hl. rewrite length_app, length_pbits in Hl. simpl in Hl.
    destruct Hb as [r Hr].
    assert (E : pbits p !! length k = Some b)
      by (rewrite Hr, <- app_assoc; by apply list_lookup_middle).
    rewrite pbits_lookup in E by lia. injection E as ->. rewrite Hr. by apply prefix_app_r.
Qed.

Lemma prefixlen_plen p : prefix_ok p -> prefixlen p = Z.of_nat (plen p).
Proof. intros [H _]. unfold plen. lia. Qed.

(** [link[bit]] as a child. *)
Definition rchild (n : rnode) (b : bool) : option positive := if b then rn_right n else rn_left n.
Definition with_child (n : rnode) (b : bool) c := if b then with_right n c else with_left n c.

Lemma rlink_bit n (b : bool) : rlink n (if b then 1 else 0) = rchild n b.
Proof. by destruct b. Qed.

Lemma with_link_bit n (b : bool) c : with_link n (if b then 1 else 0) c = with_child n b c.
Proof. by destruct b. Qed.

Lemma rat_lookup t a n : rt_nodes t !! a = Some n -> rat t a = Ret n.
Proof. unfold rat. by intros ->. Qed.

Lemma set_link_ok t a c na nc b :
  rt_nodes t !! a = Some na -> rt_nodes t !! c = Some nc -> a <> c ->
  prefix_ok (rn_p na) -> prefix_ok (rn_p nc) -> rkey na ++ [b] `prefix_of` rkey nc ->
  set_link t a c =
    Ret (rput (rput t a (with_child na b (Some c))) c (with_parent nc (Some a))).
Proof.
  intros Ha Hc Hne Oa Oc Hb. unfold set_link.
  rewrite (rat_lookup _ _ _ Ha), (rat_lookup _ _ _ Hc). cbn [mbind res_bind].
  rewrite (prefixlen_plen _ Oa), <- length_rkey, (next_bit _ _ _ Oc Hb). cbn [mbind res_bind].
  rewrite with_link_bit, (rat_lookup _ _ nc); [done|].
  simpl. by rewrite lookup_insert_ne.
Qed.

(** ** The common prefix *)
Lemma common_octets_ok np pp newp i m :
  (i + m <= length np)%nat -> (i + m <= length pp)%nat -> (i + m <= length newp)%nat ->
  exists r j, common_octets np pp newp (Z.of_nat i) m = Ret (r, Z.of_nat j) /\
    (i <= j <= i + m)%nat /\ length r = length newp /\
    (forall k, oct r k = if decide (i <= k < j)%nat then oct np k else oct newp k) /\
    (forall k, (i <= k < j)%nat -> oct np k = oct pp k) /\
    (j = (i + m)%nat \/ oct np j <> oct pp j).
Proof.
  revert newp i. induction m as [|m IH]; intros newp i Hn Hp Hw; cbn [common_octets].
  - exists newp, i. repeat split; try lia. intros k. case_decide; [lia|done].
  - rewrite !zget_oct by lia. cbn [mbind res_bind]. destruct (oct np i =? oct pp i) eqn:E; zify_bool.
    + rewrite zput_ok by lia. cbn [mbind res_bind]. replace (Z.of_nat i + 1) with (Z.of_nat (S i)) by lia.
      destruct (IH (<[i:=oct np i]> newp) (S i)) as (r & j & Hr & Hj & Hlen & Ho & Hs & Hd);
        [rewrite ?length_insert; lia..|].
      rewrite length_insert in Hlen. exists r, j. split; [done|]. split; [lia|]. split; [done|]. split.
      * intros k. rewrite Ho. destruct (decide (k = i)) as [->|].
        -- rewrite decide_False by lia. rewrite decide_True by lia. unfold oct at 1.
           by rewrite list_lookup_insert_eq by lia.
        -- unfold oct at 2. rewrite list_lookup_insert_ne by done. fold (oct newp k).
           repeat case_decide; try lia; done.
      * split; [|destruct Hd; [left; lia|by right]]. intros k Hk.
        destruct (decide (k = i)) as [->|]; [done|]. apply Hs. lia.
    + exists newp, i. repeat split; try lia. intros k. case_decide; [lia|done].
Qed.

Lemma mask_test s x : (s < 8)%nat ->
  (Z.land (Z.shiftr 128 (Z.of_nat s)) x =? 0) = negb (Z.testbit x (7 - Z.of_nat s)).
Proof.
  intros Hs. replace (Z.shiftr 128 (Z.of_nat s)) with (2 ^ (7 - Z.of_nat s)).
  2:{ rewrite Z.shiftr_div_pow2 by lia. change 128 with (2 ^ 7).
      by rewrite <- Z.pow_sub_r by lia. }
  rewrite Z.land_comm, land_pow2 by lia. destruct (Z.testbit x _); [|done].
  apply Z.eqb_neq. apply Z.pow_nonzero; lia.
Qed.

Lemma common_bits_ok x s len f :
  (s + f <= 8)%nat \/ (exists j, (s <= j < 8)%nat /\ Z.testbit x (7 - Z.of_nat j) = true) ->
  exists e, common_bits x (Z.shiftr 128 (Z.of_nat s)) len (len + Z.of_nat f) f = len + Z.of_nat e /\
    (e <= f)%nat /\ (s + e <= 8)%nat /\
    (forall j, (s <= j < s + e)%nat -> Z.testbit x (7 - Z.of_nat j) = false) /\
    (e = f \/ (s + e < 8)%nat /\ Z.testbit x (7 - Z.of_nat (s + e)) = true).
Proof.
  revert s len. induction f as [|f IH]; intros s len Hs; cbn [common_bits].
  - exists 0%nat. split; [lia|]. split; [lia|]. destruct Hs as [Hs | (j & Hj & _)];
      (split; [lia|]; split; [lia|by left]).
  - replace (len <? len + Z.of_nat (S f)) with true by (symmetry; apply Z.ltb_lt; lia).
    assert (s < 8)%nat by (destruct Hs as [|(j & Hj & _)]; lia).
    rewrite mask_test by done. destruct (Z.testbit x (7 - Z.of_nat s)) eqn:E; cbn [andb negb].
    + exists 0%nat. split; [lia|]. split; [lia|]. split; [lia|]. split; [lia|]. right.
      rewrite Nat.add_0_r. by split.
    + rewrite Z.shiftr_shiftr by lia. replace (Z.of_nat s + 1) with (Z.of_nat (S s)) by lia.
      replace (len + Z.of_nat (S f)) with (len + 1 + Z.of_nat f) by lia.
      destruct (IH (S s) (len + 1)) as (e & He & Hef & He8 & Hz & Hd).
      { destruct Hs as [|(j & Hj & Ht)]; [left; lia|right]. exists j. split; [|done].
        destruct (decide (j = s)) as [->|]; [congruence|lia]. }
      exists (S e). split; [lia|]. split; [lia|]. split; [lia|]. split.
      * intros j Hj. destruct (decide (j = s)) as [->|]; [done|]. apply Hz. lia.
      * destruct Hd as [|[? ?]]; [left; lia|right]. by replace (s + S e)%nat with (S s + e)%nat by lia.
Qed.

Lemma u8_differ x y :
  is_u8 x -> is_u8 y -> x <> y ->
  exists j, (j < 8)%nat /\ Z.testbit (Z.lxor x y) (7 - Z.of_nat j) = true.
Proof.
  intros Hx Hy Hne.
  destruct (decide (Exists (fun j => Z.testbit (Z.lxor x y) (7 - Z.of_nat j) = true) (seq 0 8))) as [H|H].
  - apply Exists_exists in H as (j & Hj%elem_of_seq & Ht). exists j. split; [lia|done].
  - destruct Hne. apply u8_ext; [done..|]. intros j Hj. apply not_Exists_Forall in H; [|apply _].
    rewrite Forall_forall in H. specialize (H j ltac:(apply elem_of_seq; lia)). simpl in H.
    rewrite Z.lxor_spec in H. by destruct (Z.testbit x _), (Z.testbit y _).
Qed.

Lemma octs_u8 o : (forall k, (k < length o)%nat -> is_u8 (oct o k)) -> Forall is_u8 o.
Proof.
  intros H. apply Forall_lookup_2. intros k x Hk. pose proof (H k (lookup_lt_Some _ _ _ Hk)) as Hu.
  unfold oct in Hu. by rewrite Hk in Hu.
Qed.

(** [r] is the part [n] and [p] share: it starts both, and stops at the end of [p] or
    where they differ. *)
Definition common (n p r : ip_prefix) : Prop :=
  prefix_ok r /\ length (octets r) = 16%nat /\ (plen r <= plen p)%nat /\
  (forall i, (i < plen r)%nat -> bit_at (octets r) i = bit_at (octets n) i) /\
  (forall i, (i < plen r)%nat -> bit_at (octets n) i = bit_at (octets p) i) /\
  (plen r = plen p \/
   (plen r < plen p)%nat /\ bit_at (octets n) (plen r) <> bit_at (octets p) (plen r)).

Lemma common_intro n p fam len o c :
  len = Z.of_nat c -> length o = 16%nat -> (c <= 128)%nat -> Forall is_u8 o -> (c <= plen p)%nat ->
  (forall i, (i < c)%nat -> bit_at o i = bit_at (octets n) i) ->
  (forall i, (i < c)%nat -> bit_at (octets n) i = bit_at (octets p) i) ->
  (c = plen p \/ (c < plen p)%nat /\ bit_at (octets n) c <> bit_at (octets p) c) ->
  common n p (IpPrefix fam len o).
Proof.
  intros -> Hlen Hc Ho Hle H1 H2 H3. unfold common.
  assert (E : plen (IpPrefix fam (Z.of_nat c) o) = c) by apply Nat2Z.id.
  rewrite E. repeat split; try done; unfold zlen; simpl; lia.
Qed.

(** The octet where the copy stops. *)
Lemma common_last x y f :
  is_u8 x -> is_u8 y -> (f < 8)%nat \/ x <> y ->
  forall len, exists e m,
    common_bits (Z.lxor x y) 128 len (len + Z.of_nat f) f = len + Z.of_nat e /\
    (e <= f)%nat /\ (e < 8)%nat /\ maskbit (Z.of_nat e) = Ret m /\
    (forall j, (j < e)%nat -> Z.testbit (Z.land x m) (7 - Z.of_nat j) = Z.testbit x (7 - Z.of_nat j) /\
                             Z.testbit x (7 - Z.of_nat j) = Z.testbit y (7 - Z.of_nat j)) /\
    (e = f \/ (e < f)%nat /\ Z.testbit x (7 - Z.of_nat e) <> Z.testbit y (7 - Z.of_nat e)).
Proof.
  intros Hx Hy Hf len.
  assert (Hd : (f < 8)%nat \/ exists j, (j < 8)%nat /\ Z.testbit (Z.lxor x y) (7 - Z.of_nat j) = true).
  { destruct Hf; [by left|right; by apply u8_differ]. }
  destruct (common_bits_ok (Z.lxor x y) 0 len f) as (e & He & Hef & He8 & Hz & Hend).
  { destruct Hd as [|(j & Hj & Ht)]; [left; lia|right; exists j; split; [lia|done]]. }
  assert (Hlt : (e < 8)%nat).
  { destruct Hd as [|(j & Hj & Ht)]; [lia|]. destruct (decide (e <= j)%nat); [lia|].
    rewrite Hz in Ht by lia. done. }
  destruct (maskbit_spec (Z.of_nat e)) as (m & Hm & _ & Hbits); [lia|].
  exists e, m. split; [done|]. split; [done|]. split; [done|]. split; [done|]. split.
  - intros j Hj. rewrite Z.land_spec, Hbits by lia.
    replace (8 - Z.of_nat e <=? 7 - Z.of_nat j) with true by (symmetry; apply Z.leb_le; lia).
    rewrite andb_true_r. split; [done|]. specialize (Hz j ltac:(lia)). rewrite Z.lxor_spec in Hz.
    by destruct (Z.testbit x _), (Z.testbit y _).
  - destruct (decide (e = f)); [by left|right]. destruct Hend as [|[_ Ht]]; [done|]. split; [lia|].
    rewrite Z.lxor_spec in Ht. by destruct (Z.testbit x _), (Z.testbit y _).
Qed.

Lemma bit_split (P : nat -> Prop) q e :
  (forall k j, (k < q)%nat -> (j < 8)%nat -> P (8 * k + j)%nat) ->
  (forall j, (j < e)%nat -> P (8 * q + j)%nat) ->
  forall i, (i < 8 * q + e)%nat -> P i.
Proof.
  intros H1 H2 i Hi. destruct (decide (8 * q <= i)%nat).
  - replace i with (8 * q + (i - 8 * q))%nat by lia. apply H2. lia.
  - rewrite (Nat.div_mod i 8) by lia. apply H1; ndiv_lia.
Qed.

Lemma route_common_ok n p new :
  prefix_ok n -> length (octets n) = 16%nat -> prefix_ok p -> (plen p <= 128)%nat ->
  length (octets new) = 16%nat -> Forall is_u8 (octets new) ->
  exists r, route_common n p new = Ret r /\ common n p r.
Proof.
  intros On Ln Op Hp128 Lw Uw. pose proof (prefixlen_plen _ Op) as Ep. destruct On as [_ Un], Op as [Hp Up].
  unfold route_common. unfold zlen in Hp.
  replace (Z.to_nat (prefixlen p / 8)) with (plen p / 8)%nat by (unfold plen; ndiv_lia).
  destruct (common_octets_ok (octets n) (octets p) (octets new) 0 (plen p / 8))
    as (w & j & Hw & Hj & Hlen & Ho & Hs & Hd); [ndiv_lia..|].
  change (Z.of_nat 0) with 0 in Hw. rewrite Hw. cbn [mbind res_bind].
  assert (Uw' : Forall is_u8 w).
  { apply octs_u8. intros k _. rewrite Ho. case_decide; by apply oct_u8. }
  assert (Hfull : forall k i, (k < j)%nat -> (i < 8)%nat ->
    bit_at w (8 * k + i) = bit_at (octets n) (8 * k + i) /\
    bit_at (octets n) (8 * k + i) = bit_at (octets p) (8 * k + i)).
  { intros k i Hk Hi. rewrite !bit_at_oct by done. rewrite Ho, decide_True by lia.
    by rewrite (Hs k) by lia. }
  destruct (Z.of_nat j * 8 =? prefixlen p) eqn:E; zify_bool; cbn [negb].
  - eexists. split; [reflexivity|]. apply common_intro with (8 * j + 0)%nat; try lia; try done.
    + apply bit_split; try lia; intros k i Hk Hi; apply (Hfull k i Hk Hi).
    + apply bit_split; try lia; intros k i Hk Hi; apply (Hfull k i Hk Hi).
  - assert (j < 16)%nat by ndiv_lia. assert (j < length (octets p))%nat by ndiv_lia.
    rewrite !zget_oct by lia. cbn [mbind res_bind].
    destruct (common_last (oct (octets n) j) (oct (octets p) j) (plen p - 8 * j)
      (oct_u8 _ _ Un) (oct_u8 _ _ Up)) with (len := Z.of_nat j * 8)
      as (e & m & He & Hef & He8 & Hm & Hbits & Hend).
    { destruct Hd as [->|]; [left; ndiv_lia|by right]. }
    replace (Z.to_nat (prefixlen p - Z.of_nat j * 8)) with (plen p - 8 * j)%nat by lia.
    replace (Z.of_nat j * 8 + Z.of_nat (plen p - 8 * j)) with (prefixlen p) in He by ndiv_lia.
    rewrite He. replace ((Z.of_nat j * 8 + Z.of_nat e) mod 8) with (Z.of_nat e) by mod_lia.
    rewrite Hm. cbn [mbind res_bind]. rewrite zput_ok by lia. cbn [mbind res_bind]. eexists. split; [reflexivity|].
    set (w2 := <[j:=_]> w).
    assert (Ho2 : forall k, oct w2 k = if decide (k = j) then Z.land (oct (octets n) j) m else oct w k).
    { intros k. unfold w2, oct at 1. case_decide as Ek; [subst k|].
      - by rewrite list_lookup_insert_eq by lia.
      - by rewrite list_lookup_insert_ne by done. }
    apply common_intro with (8 * j + e)%nat; try lia.
    + unfold w2. rewrite length_insert. lia.
    + apply octs_u8. intros k _. rewrite Ho2. case_decide; [by apply land_u8, oct_u8|by apply oct_u8].
    + apply bit_split.
      * intros k i Hk Hi. rewrite <- (proj1 (Hfull k i Hk Hi)), !bit_at_oct by done.
        by rewrite Ho2, decide_False by lia.
      * intros i Hi. rewrite !bit_at_oct by lia. rewrite Ho2, decide_True by done. by apply Hbits.
    + apply bit_split; [intros k i Hk Hi; by apply Hfull|]. intros i Hi. rewrite !bit_at_oct by lia. by apply Hbits.
    + destruct Hend as [->|[Hlt Hend]]; [left; lia|]. right. split; [lia|]. by rewrite !bit_at_oct by lia.
Qed.
