(* ===== verification/TableFind.v ===== *)
(** * lib/table.c: searching

    The loops of [route_node_lookup], [route_node_match] and [route_node_get] follow
    the slots that cover the bits they look for; each round makes the covered bits
    longer, which bounds the rounds.  Lookup is exact and match is the longest. *)
From stdpp Require Import base option list gmap fin_maps.
From Stdlib Require Import ZArith Lia ZifyNat.
From S2P Require Import Prelude RouteInfo RouteCmp Prefix Radix Table.

(** Node [a] of the table has the bits [k] and the information [v]. *)
Definition has_key (t : rtable) (a : positive) (k : list bool) : Prop :=
  exists n, rt_nodes t !! a = Some n /\ rkey n = k.
Definition entry (t : rtable) (k : list bool) (a : positive) (v : Z) : Prop :=
  exists n, rt_nodes t !! a = Some n /\ rkey n = k /\ rn_info n = Some v.

Definition nodes_ok (t : rtable) : Prop :=
  forall a n, rt_nodes t !! a = Some n -> node_ok n /\ (a < rt_next t)%positive.

Lemma view_key t a k : tkey (view t) a = Some k <-> has_key t a k.
Proof.
  unfold has_key. simpl. rewrite fmap_Some. split; intros (n & Hn & Hk); exists n; by split.
Qed.

Lemma view_child t a n b : rt_nodes t !! a = Some n -> tchild (view t) a b = rchild n b.
Proof. intros Hn. simpl. rewrite Hn. by destruct b. Qed.

Lemma view_parent t a n : rt_nodes t !! a = Some n -> tparent (view t) a = rn_parent n.
Proof. intros Hn. simpl. by rewrite Hn. Qed.

Lemma node_key t a n : rt_nodes t !! a = Some n -> tkey (view t) a = Some (rkey n).
Proof. intros Hn. apply view_key. by exists n. Qed.

Lemma node_slot t a n b :
  rt_nodes t !! a = Some n -> slot (view t) (Under a b) (rkey n ++ [b]) (rchild n b).
Proof.
  intros Hn. rewrite <- (view_child t a n b Hn). apply slot_under. by apply node_key.
Qed.

Lemma slot_under_inv t a b k v :
  slot (view t) (Under a b) k v ->
  exists n, rt_nodes t !! a = Some n /\ k = rkey n ++ [b] /\ rchild n b = v.
Proof.
  intros Hs. remember (Under a b) as pos eqn:E. destruct Hs as [|a' k' b' Hk]; [done|].
  injection E as -> ->. apply view_key in Hk as (n & Hn & <-). exists n.
  by rewrite (view_child t a n b Hn).
Qed.

Lemma slot_top_inv t k v : slot (view t) Top k v -> k = [] /\ rt_top t = v.
Proof. intros Hs. by destruct (slot_key_det _ _ _ _ _ _ Hs (slot_top (view t))) as [-> ->]. Qed.

Lemma covers_ok n p :
  node_ok n -> prefix_ok p -> covers n p = Ret (bool_decide (rkey n `prefix_of` pbits p)).
Proof.
  intros (On & _) Op. unfold covers. case_test.
  - by apply prefix_match_ok.
  - rewrite bool_decide_eq_false_2; [done|]. intros H%prefix_length.
    rewrite length_rkey, length_pbits in H. rewrite (prefixlen_plen _ On), (prefixlen_plen _ Op) in *. lia.
Qed.

Lemma same_prefixlen n p :
  node_ok n -> prefix_ok p ->
  (prefixlen (rn_p n) =? prefixlen p) = bool_decide (length (rkey n) = plen p).
Proof.
  intros (On & _) Op. rewrite (prefixlen_plen _ On), (prefixlen_plen _ Op), length_rkey.
  case_bool_decide as E; [rewrite E; apply Z.eqb_refl|]. apply Z.eqb_neq. lia.
Qed.

Lemma descend_ok n p :
  node_ok n -> prefix_ok p -> rkey n `prefix_of` pbits p -> length (rkey n) <> plen p ->
  exists b, descend n p = Ret (rchild n b) /\ rkey n ++ [b] `prefix_of` pbits p.
Proof.
  intros (On & _) Op Hle Hne. exists (bit_at (octets p) (length (rkey n))).
  pose proof (key_next p (rkey n) Hle Hne) as Hb. split; [|done].
  unfold descend. rewrite (prefixlen_plen _ On), <- length_rkey, (next_bit _ _ _ Op Hb).
  cbn [mbind res_bind]. by rewrite rlink_bit.
Qed.

Section Find.
Context (t : rtable) (p : ip_prefix).
Hypothesis Hnodes : nodes_ok t.
Hypothesis Hshape : shape (view t).
Hypothesis Hp : prefix_ok p.

(** The state of a search: a slot on the path to [p]. *)
Definition on_path (pos : position) (k : list bool) (node : option positive) : Prop :=
  slot (view t) pos k node /\ k `prefix_of` pbits p.

Lemma start_path : on_path Top [] (rt_top t).
Proof. split; [apply (slot_top (view t))|apply prefix_nil]. Qed.

Lemma path_node pos k a :
  on_path pos k (Some a) -> exists n, rt_nodes t !! a = Some n /\ node_ok n /\ k `prefix_of` rkey n.
Proof.
  intros [Hs _]. destruct (shape_some _ Hshape _ _ _ Hs) as (ka & Ha & _ & Hle & _).
  apply view_key in Ha as (n & Hn & <-). exists n. split; [done|]. split; [|done]. by apply (Hnodes a).
Qed.

(** A node with the bits of [p] is below the slot, and above it nothing is left to find. *)
Lemma path_end pos k d kd :
  on_path pos k None -> has_key t d kd -> k `prefix_of` kd -> False.
Proof. intros [Hs _] Hd%view_key Hle. by apply (shape_none _ Hshape _ _ Hs _ _ Hd). Qed.

Lemma path_least pos k a n d kd :
  on_path pos k (Some a) -> rt_nodes t !! a = Some n -> has_key t d kd -> k `prefix_of` kd ->
  rkey n `prefix_of` kd.
Proof.
  intros [Hs _] Hn Hd%view_key Hle. destruct (shape_some _ Hshape _ _ _ Hs) as (ka & Ha & _ & _ & Hmin).
  rewrite (node_key _ _ _ Hn) in Ha. injection Ha as <-. eauto.
Qed.

Lemma path_step pos k a n :
  on_path pos k (Some a) -> rt_nodes t !! a = Some n -> rkey n `prefix_of` pbits p ->
  length (rkey n) <> plen p ->
  exists b, descend n p = Ret (rchild n b) /\ on_path (Under a b) (rkey n ++ [b]) (rchild n b) /\
    (length k < length (rkey n ++ [b]) <= plen p)%nat.
Proof.
  intros Hpath Hn Hle Hne. destruct (path_node _ _ _ Hpath) as (n' & Hn' & On & Hk).
  assert (n' = n) as -> by congruence.
  destruct (descend_ok n p On Hp Hle Hne) as (b & Hd & Hb). exists b. split; [done|].
  split; [split; [by apply node_slot|done]|].
  apply prefix_length in Hk, Hb. rewrite length_app in *. rewrite length_pbits in Hb. simpl in *. lia.
Qed.

Lemma has_key_inj a b k : has_key t a k -> has_key t b k -> a = b.
Proof. intros Ha%view_key Hb%view_key. by apply (shape_inj _ Hshape _ _ k). Qed.

Lemma full_key n : rkey n `prefix_of` pbits p -> length (rkey n) = plen p -> rkey n = pbits p.
Proof.
  intros [E | [b Hb]]%prefix_cases Hl; [done|]. apply prefix_length in Hb.
  rewrite length_app, length_pbits in Hb. simpl in Hb. lia.
Qed.

(** *** Insertion point *)
Lemma get_walk_ok fuel pos k node :
  on_path pos k node -> (plen p - length k < fuel)%nat -> (length k <= plen p)%nat ->
  exists w, get_walk fuel t p node (owner pos) = Ret w /\
    match w with
    | inl a => has_key t a (pbits p)
    | inr (node, mtch) => (forall a, ~ has_key t a (pbits p)) /\
        exists pos k, on_path pos k node /\ mtch = owner pos /\
          forall a n, node = Some a -> rt_nodes t !! a = Some n -> ~ rkey n `prefix_of` pbits p
    end.
Proof.
  revert pos k node. induction fuel as [|fuel IH]; intros pos k node Hpath Hf Hk; [lia|].
  cbn [get_walk]. destruct node as [a|].
  - destruct (path_node _ _ _ Hpath) as (n & Hn & On & Hle).
    rewrite (rat_lookup _ _ _ Hn). cbn [mbind res_bind]. rewrite (covers_ok _ _ On Hp). cbn [mbind res_bind].
    case_bool_decide as Hc.
    + rewrite (same_prefixlen _ _ On Hp). case_bool_decide as Hl.
      * exists (inl a). split; [done|]. exists n. split; [done|]. by apply full_key.
      * destruct (path_step _ _ _ _ Hpath Hn Hc Hl) as (b & Hd & Hnext & Hlen).
        rewrite Hd. cbn [mbind res_bind]. apply (IH (Under a b) _ _ Hnext); lia.
    + eexists. split; [reflexivity|]. split.
      * intros d Hd. apply Hc. eapply path_least; eauto. apply Hpath.
      * exists pos, k. split; [done|]. split; [done|]. intros a' n' [= <-] Hn'. congruence.
  - eexists. split; [reflexivity|]. split.
    + intros d Hd. eapply path_end; eauto. apply Hpath.
    + exists pos, k. split; [done|]. split; done.
Qed.

(** *** Exact lookup *)
Definition locked (a : positive) (n : rnode) : rtable := rput t a (with_rlock n (u32 (rn_lock n + 1))).

Lemma route_lock_node_ok a n : rt_nodes t !! a = Some n -> route_lock_node t a = Ret (locked a n).
Proof. intros Hn. unfold route_lock_node. by rewrite (rat_lookup _ _ _ Hn). Qed.

Definition lookup_result (r : res (rtable * option positive)) : Prop :=
  (exists a n v, rt_nodes t !! a = Some n /\ rkey n = pbits p /\ rn_info n = Some v /\
                 r = Ret (locked a n, Some a)) \/
  ((forall a v, ~ entry t (pbits p) a v) /\ r = Ret (t, None)).

Lemma no_entry : (forall a, ~ has_key t a (pbits p)) -> forall a v, ~ entry t (pbits p) a v.
Proof. intros H a v (n & Hn & Hk & _). apply (H a). by exists n. Qed.

Lemma lookup_walk_ok fuel pos k node :
  on_path pos k node -> (plen p - length k < fuel)%nat -> (length k <= plen p)%nat ->
  lookup_result (lookup_walk fuel t p node).
Proof.
  revert pos k node. induction fuel as [|fuel IH]; intros pos k node Hpath Hf Hk; [lia|].
  cbn [lookup_walk]. destruct node as [a|].
  - destruct (path_node _ _ _ Hpath) as (n & Hn & On & Hle).
    rewrite (rat_lookup _ _ _ Hn). cbn [mbind res_bind]. rewrite (covers_ok _ _ On Hp). cbn [mbind res_bind].
    case_bool_decide as Hc.
    + rewrite (same_prefixlen _ _ On Hp). case_bool_decide as Hl.
      * pose proof (full_key n Hc Hl) as Hkey. destruct (rn_info n) as [v|] eqn:Hi.
        -- left. exists a, n, v. rewrite (route_lock_node_ok _ _ Hn). done.
        -- right. split; [|done]. intros d v (n' & Hn' & Hk' & Hi').
           assert (d = a) as -> by (apply (has_key_inj _ _ (pbits p)); [by exists n'|by exists n]).
           congruence.
      * destruct (path_step _ _ _ _ Hpath Hn Hc Hl) as (b & Hd & Hnext & Hlen).
        rewrite Hd. cbn [mbind res_bind]. apply (IH (Under a b) _ _ Hnext); lia.
    + right. split; [|done]. apply no_entry. intros d Hd. apply Hc. eapply path_least; eauto. apply Hpath.
  - right. split; [|done]. apply no_entry. intros d Hd. eapply path_end; eauto. apply Hpath.
Qed.

(** *** Longest match *)

(** [m] is the longest entry that starts [p] among those the slot [k] does not cover. *)
Definition longest (k : list bool) (m : option positive) : Prop :=
  match m with
  | Some a => exists ka v, entry t ka a v /\ ka `prefix_of` pbits p /\
      forall d kd w, entry t kd d w -> kd `prefix_of` pbits p -> ~ k `prefix_of` kd -> kd `prefix_of` ka
  | None => forall d kd w, entry t kd d w -> kd `prefix_of` pbits p -> k `prefix_of` kd
  end.

(** [m] is the longest entry that starts [p]. *)
Definition best (m : option positive) : Prop :=
  match m with
  | Some a => exists ka v, entry t ka a v /\ ka `prefix_of` pbits p /\
      forall d kd w, entry t kd d w -> kd `prefix_of` pbits p -> kd `prefix_of` ka
  | None => forall d kd w, entry t kd d w -> ~ kd `prefix_of` pbits p
  end.

Lemma entry_key k a v : entry t k a v -> has_key t a k.
Proof. intros (n & Hn & Hk & _). by exists n. Qed.

Lemma longest_best k m :
  longest k m -> (forall d kd, has_key t d kd -> kd `prefix_of` pbits p -> ~ k `prefix_of` kd) -> best m.
Proof.
  intros Hm Hno. destruct m as [a|].
  - destruct Hm as (ka & v & He & Hle & Hmax). exists ka, v. split; [done|]. split; [done|].
    intros d kd w Hd Hled. apply (Hmax d kd w Hd Hled). apply (Hno d); [by eapply entry_key|done].
  - intros d kd w Hd Hled. apply (Hno d kd); [by eapply entry_key|done|]. by apply (Hm d kd w).
Qed.

(** Passing node [a]: it replaces the candidate when it has information. *)
Lemma longest_step pos k a n m k' :
  on_path pos k (Some a) -> rt_nodes t !! a = Some n -> rkey n `prefix_of` pbits p -> longest k m ->
  (forall kd, rkey n `prefix_of` kd -> kd `prefix_of` pbits p -> ~ k' `prefix_of` kd -> kd = rkey n) ->
  longest k' (if bool_decide (is_Some (rn_info n)) then Some a else m).
Proof.
  intros Hpath Hn Hle Hm Hk'.
  assert (Hcase : forall d kd w, entry t kd d w -> kd `prefix_of` pbits p -> ~ k' `prefix_of` kd ->
    ~ k `prefix_of` kd \/ d = a /\ kd = rkey n).
  { intros d kd w He Hled Hno. destruct (decide (k `prefix_of` kd)) as [Hkd|]; [right|by left].
    pose proof (path_least _ _ _ _ _ _ Hpath Hn (entry_key _ _ _ He) Hkd) as Hnd.
    pose proof (Hk' kd Hnd Hled Hno) as ->. split; [|done].
    apply (has_key_inj _ _ (rkey n)); [by eapply entry_key|by exists n]. }
  case_bool_decide as Hi.
  - destruct Hi as [v Hv]. exists (rkey n), v. split; [by exists n|]. split; [done|].
    intros d kd w He Hled Hno. destruct (Hcase _ _ _ He Hled Hno) as [Hkd | [-> ->]]; [|done].
    destruct (path_node _ _ _ Hpath) as (n' & Hn' & _ & Hkn). assert (n' = n) as -> by congruence.
    etrans; [|exact Hkn]. destruct Hpath as [_ Hkp].
    by destruct (prefix_weak_total _ _ _ Hled Hkp).
  - destruct m as [c|].
    + destruct Hm as (kc & v & He & Hlec & Hmax). exists kc, v. split; [done|]. split; [done|].
      intros d kd w Hd Hled Hno. destruct (Hcase _ _ _ Hd Hled Hno) as [Hkd | [-> ->]]; [by apply (Hmax d kd w)|].
      destruct Hd as (n' & Hn' & _ & Hw). destruct Hi. assert (n' = n) as -> by congruence. by exists w.
    + intros d kd w Hd Hled. destruct (decide (k' `prefix_of` kd)) as [|Hno]; [done|].
      destruct (Hcase _ _ _ Hd Hled Hno) as [Hkd | [-> ->]]; [by destruct Hkd; apply (Hm d kd w)|].
      destruct Hd as (n' & Hn' & _ & Hw). destruct Hi. assert (n' = n) as -> by congruence. by exists w.
Qed.

Lemma match_walk_ok fuel pos k node m :
  on_path pos k node -> (plen p - length k < fuel)%nat -> (length k <= plen p)%nat -> longest k m ->
  exists m', match_walk fuel t p node m = Ret m' /\ best m'.
Proof.
  revert pos k node m. induction fuel as [|fuel IH]; intros pos k node m Hpath Hf Hk Hm; [lia|].
  cbn [match_walk]. destruct node as [a|].
  - destruct (path_node _ _ _ Hpath) as (n & Hn & On & Hle).
    rewrite (rat_lookup _ _ _ Hn). cbn [mbind res_bind]. rewrite (covers_ok _ _ On Hp). cbn [mbind res_bind].
    case_bool_decide as Hc.
    + rewrite (same_prefixlen _ _ On Hp). destruct (bool_decide (length (rkey n) = plen p)) eqn:Hl.
      * apply bool_decide_eq_true in Hl. eexists. split; [reflexivity|].
        apply (longest_best (pbits p ++ [false])).
        -- eapply longest_step; eauto. intros kd Hnd Hled _. rewrite (full_key n Hc Hl) in *.
           symmetry. by apply prefix_antisym.
        -- intros d kd _ Hled Hx. apply (prefix_snoc_irrefl (pbits p) false). by etrans.
      * apply bool_decide_eq_false in Hl.
        destruct (path_step _ _ _ _ Hpath Hn Hc Hl) as (b & Hd & Hnext & Hlen).
        rewrite Hd. cbn [mbind res_bind]. apply (IH (Under a b) _ _ _ Hnext); [lia..|].
        eapply longest_step; eauto. intros kd [E | [c Hcd]]%prefix_cases Hled Hno; [done|].
        destruct Hno. destruct Hnext as [_ Hbp].
        by rewrite (prefix_snoc_agree (rkey n) (pbits p) b c Hbp) by (by etrans).
    + eexists. split; [reflexivity|]. apply (longest_best k); [done|]. intros d kd Hd Hled Hkd.
      apply Hc. etrans; [|exact Hled]. by eapply path_least.
  - eexists. split; [reflexivity|]. apply (longest_best k); [done|]. intros d kd Hd Hled Hkd.
    by eapply path_end.
Qed.

Lemma longest_start : longest [] None.
Proof. intros d kd w _ _. apply prefix_nil. Qed.

Lemma route_node_match_ok :
  exists m, match_walk (walk_fuel p) t p (rt_top t) None = Ret m /\ best m.
Proof.
  apply (match_walk_ok _ Top []); [apply start_path|unfold walk_fuel, plen; simpl; lia..|].
  apply longest_start.
Qed.
End Find.
