(* ===== verification/TableEdit.v ===== *)
(** * lib/table.c: insertion and deletion

    [route_node_get] puts one node into a slot, or two when it needs a fork; the
    result is the [graft] of [Radix].  Deletion is its [prune].  Both keep
    [table_ok]. *)
From stdpp Require Import base option list gmap fin_maps.
From Stdlib Require Import ZArith Lia ZifyNat.
From S2P Require Import Prelude RouteInfo RouteCmp Prefix Radix Table TableFind.

(** ** Copies of prefixes *)

(** A prefix as callers pass it: its family's octets are there and hold the length. *)
Definition key_ok (p : ip_prefix) : Prop :=
  prefix_ok p /\ (family p = AF_INET /\ prefixlen p <= 32 /\ 4 <= zlen (octets p) \/
                  family p = AF_INET6 /\ prefixlen p <= 128 /\ 16 <= zlen (octets p)).

#[export] Instance key_ok_dec p : Decision (key_ok p).
Proof. unfold key_ok. apply _. Defined.

Lemma key_ok_len p : key_ok p -> (plen p <= 128)%nat.
Proof. intros [_ H]. unfold plen. lia. Qed.

Lemma copy_bits m (o rest : list Z) i :
  (m <= length o)%nat -> (i < 8 * m)%nat -> bit_at (take m o ++ rest) i = bit_at o i.
Proof.
  intros Hm Hi. unfold bit_at.
  rewrite lookup_app_l by (rewrite length_take; ndiv_lia). by rewrite lookup_take_lt by ndiv_lia.
Qed.

Lemma copy_octets m (o : list Z) :
  (m <= length o)%nat -> (m <= 16)%nat ->
  zload o 0 (Z.of_nat m) = Ret (take m o) /\
  zstore (replicate 16 0) 0 (take m o) = Ret (take m o ++ replicate (16 - m) 0).
Proof.
  intros Hm H16. unfold zload, zstore, zlen. rewrite length_take, length_replicate, Nat.min_l by lia.
  replace (_ && _ && _) with true by (symmetry; rewrite !andb_true_iff, !Z.leb_le; lia).
  replace (_ && _) with true by (symmetry; rewrite !andb_true_iff, !Z.leb_le; lia).
  rewrite Nat2Z.id, Z.add_0_l, Nat2Z.id. split; [done|]. simpl (Z.to_nat 0). cbn [take app].
  by rewrite drop_replicate.
Qed.

Lemma prefix_copy_ok p d :
  key_ok p -> octets d = replicate 16 0 ->
  exists q, prefix_copy d p = Ret q /\ prefix_ok q /\ length (octets q) = 16%nat /\
    prefixlen q = prefixlen p /\ pbits q = pbits p.
Proof.
  intros [[Hl Hu] Hf] Hd.
  assert (Hcopy : exists m : nat, (m <= length (octets p))%nat /\ (m <= 16)%nat /\ (plen p <= 8 * m)%nat /\
    prefix_copy d p = (x ← zload (octets p) 0 (Z.of_nat m); o ← zstore (octets d) 0 x;
                       Ret (IpPrefix (family p) (prefixlen p) o))).
  { unfold prefix_copy, zlen, plen in *.
    destruct Hf as [(-> & ? & ?) | (-> & ? & ?)]; [exists 4%nat|exists 16%nat]; repeat split; lia. }
  destruct Hcopy as (m & Hm & H16 & Hbits & ->). destruct (copy_octets m (octets p) Hm H16) as [-> Hst].
  cbn [mbind res_bind]. rewrite Hd, Hst. cbn [mbind res_bind]. eexists. split; [reflexivity|].
  unfold prefix_ok. cbn [octets prefixlen].
  assert (El : length (take m (octets p) ++ replicate (16 - m) 0) = 16%nat).
  { rewrite length_app, length_take, length_replicate. lia. }
  split. { split; [unfold zlen, plen in *; rewrite El; lia|].
           apply Forall_app. split; [by apply Forall_take|]. apply Forall_replicate. by_eval. }
  split; [done|]. split; [done|]. unfold pbits, plen. cbn [octets prefixlen].
  apply list_fmap_ext. intros i j Hj. apply lookup_seq in Hj as [-> Hj]. apply copy_bits; unfold plen in *; lia.
Qed.

(** ** Filling a slot *)
Definition attach (t : rtable) (pos : position) (x : positive) (nx : rnode) (b : bool)
    (v : option positive) : rtable :=
  let m1 := <[x := with_parent (match v with Some c => with_child nx b (Some c) | None => nx end)
                      (owner pos)]> (rt_nodes t) in
  let m2 := match v with
            | Some c => alter (fun n => with_parent n (Some x)) c m1
            | None => m1
            end in
  let m3 := match pos with
            | Under a d => alter (fun n => with_child n d (Some x)) a m2
            | Top => m2
            end in
  RTable (match pos with Top => Some x | Under _ _ => rt_top t end) m3 (Pos.succ x).

Lemma child_parent_comm n b c q : with_parent (with_child n b c) q = with_child (with_parent n q) b c.
Proof. by destruct b. Qed.

Lemma rkey_with_parent n q : rkey (with_parent n q) = rkey n.
Proof. done. Qed.
Lemma rkey_with_child n b c : rkey (with_child n b c) = rkey n.
Proof. by destruct b. Qed.
Lemma rchild_with_parent n q b : rchild (with_parent n q) b = rchild n b.
Proof. done. Qed.
Lemma rchild_with_child n b c d : rchild (with_child n b c) d = if decide (d = b) then c else rchild n d.
Proof. by destruct b, d. Qed.
Lemma rn_parent_with_child n b c : rn_parent (with_child n b c) = rn_parent n.
Proof. by destruct b. Qed.

(** The parts of a node that the links do not concern. *)
Definition same_data (n n' : rnode) : Prop :=
  rn_p n' = rn_p n /\ rn_lock n' = rn_lock n /\ rn_info n' = rn_info n.

Section Attach.
Context (t : rtable) (pos : position) (k : list bool) (v : option positive).
Context (x : positive) (nx : rnode) (b : bool).
Hypothesis Hnodes : nodes_ok t.
Hypothesis Hshape : shape (view t).
Hypothesis Hslot : slot (view t) pos k v.
Hypothesis Hx : x = rt_next t.
Hypothesis Hnx : node_ok nx.
Hypothesis Hlinks : rn_left nx = None /\ rn_right nx = None /\ rn_parent nx = None.
Hypothesis Hk : k `prefix_of` rkey nx.
Hypothesis Hnew : forall a, ~ has_key t a (rkey nx).
Hypothesis Hbelow : forall c nc, v = Some c -> rt_nodes t !! c = Some nc -> rkey nx ++ [b] `prefix_of` rkey nc.

Let t' := attach t pos x nx b v.

Lemma x_fresh : rt_nodes t !! x = None.
Proof.
  destruct (rt_nodes t !! x) as [n|] eqn:E; [|done]. apply Hnodes in E as [_ E]. lia.
Qed.

(** What the slot holds, and its owner. *)
Lemma held_node c : v = Some c -> exists nc, rt_nodes t !! c = Some nc /\ c <> x.
Proof.
  intros Hv. pose proof Hslot as Hs. rewrite Hv in Hs.
  destruct (shape_some _ Hshape _ _ _ Hs) as (kc & Hc & _). apply view_key in Hc as (nc & Hnc & _).
  exists nc. split; [done|]. intros ->. by rewrite x_fresh in Hnc.
Qed.

Lemma owner_node a d : pos = Under a d -> exists na, rt_nodes t !! a = Some na /\ k = rkey na ++ [d] /\ a <> x.
Proof.
  intros E. pose proof Hslot as Hs. rewrite E in Hs. inversion Hs as [|a' ka d' Ha E1 E2 E3].
  apply view_key in Ha as (na & Hna & <-). exists na. split; [done|]. split; [done|].
  intros ->. by rewrite x_fresh in Hna.
Qed.

Lemma owner_not_held a d c : pos = Under a d -> v = Some c -> a <> c.
Proof.
  intros E Hv ->. destruct (owner_node _ _ E) as (na & Hna & Ek & _).
  pose proof Hslot as Hs. rewrite Hv in Hs.
  destruct (shape_some _ Hshape _ _ _ Hs) as (kc & Hc & _ & Hle & _).
  rewrite (node_key _ _ _ Hna) in Hc. injection Hc as <-. rewrite Ek in Hle.
  by apply (prefix_snoc_irrefl (rkey na) d).
Qed.

Lemma attach_lookup a :
  rt_nodes t' !! a =
    if decide (a = x)
    then Some (with_parent (match v with Some c => with_child nx b (Some c) | None => nx end) (owner pos))
    else (fun n => match pos with
                   | Under q d => if decide (a = q) then with_child n d (Some x) else n
                   | Top => n
                   end) <$>
         ((fun n => if decide (v = Some a) then with_parent n (Some x) else n) <$> rt_nodes t !! a).
Proof.
  pose proof held_node as Hh. pose proof owner_node as Ho. unfold t', attach. cbn [rt_nodes].
  assert (H2 : forall i, match v with
     | Some c => alter (fun n => with_parent n (Some x)) c
         (<[x := with_parent (match v with Some c => with_child nx b (Some c) | None => nx end) (owner pos)]> (rt_nodes t))
     | None => <[x := with_parent (match v with Some c => with_child nx b (Some c) | None => nx end) (owner pos)]> (rt_nodes t)
     end !! i = if decide (i = x)
       then Some (with_parent (match v with Some c => with_child nx b (Some c) | None => nx end) (owner pos))
       else (fun n => if decide (v = Some i) then with_parent n (Some x) else n) <$> rt_nodes t !! i).
  { intros i. destruct v as [c|] eqn:Ev.
    - destruct (Hh c eq_refl) as (nc & Hnc & Hcx). case_decide as Ei; [subst i|].
      + by rewrite lookup_alter_ne, lookup_insert_eq by done.
      + destruct (decide (i = c)) as [->|Hic].
        * rewrite lookup_alter_eq, lookup_insert_ne, Hnc by done. simpl. by rewrite decide_True.
        * rewrite lookup_alter_ne, lookup_insert_ne by done.
          destruct (rt_nodes t !! i); [|done]. simpl. rewrite decide_False by congruence. done.
    - case_decide as Ei; [subst i; by rewrite lookup_insert_eq|]. rewrite lookup_insert_ne by done.
      by destruct (rt_nodes t !! i). }
  destruct pos as [|q d] eqn:Ep; [rewrite H2; case_decide; [done|]; by rewrite option_fmap_id|].
  destruct (Ho q d eq_refl) as (nq & Hnq & _ & Hqx). destruct (decide (a = q)) as [->|Haq].
  - rewrite lookup_alter_eq, H2, Hnq. by destruct (decide (q = x)).
  - rewrite lookup_alter_ne, H2 by done. case_decide; [done|].
    by destruct (rt_nodes t !! a).
Qed.

Definition new_node : rnode :=
  with_parent (match v with Some c => with_child nx b (Some c) | None => nx end) (owner pos).

(** Every old node keeps its data, and no link becomes empty. *)
Definition kept (n n' : rnode) : Prop :=
  same_data n n' /\ forall d, is_Some (rchild n d) -> is_Some (rchild n' d).

Lemma kept_refl n : kept n n.
Proof. done. Qed.

Lemma attach_x : rt_nodes t' !! x = Some new_node.
Proof. by rewrite attach_lookup, decide_True. Qed.

Lemma attach_old a n :
  rt_nodes t !! a = Some n -> exists n', rt_nodes t' !! a = Some n' /\ kept n n' /\
    rn_parent n' = (if decide (v = Some a) then Some x else rn_parent n) /\
    forall d, rchild n' d = if decide (pos = Under a d) then Some x else rchild n d.
Proof.
  intros Hn. rewrite attach_lookup, decide_False by (intros ->; by rewrite x_fresh in Hn). rewrite Hn.
  cbn [fmap option_fmap option_map]. eexists. split; [reflexivity|].
  set (n1 := if decide (v = Some a) then with_parent n (Some x) else n).
  assert (H1 : same_data n n1 /\ rn_parent n1 = (if decide (v = Some a) then Some x else rn_parent n) /\
               forall d, rchild n1 d = rchild n d) by (unfold n1; case_decide; done).
  destruct H1 as (D1 & P1 & C1). clearbody n1. destruct (decide (owner pos = Some a)) as [Ho|Ho].
  - destruct pos as [|q e]; [done|]. injection Ho as ->. rewrite decide_True by done.
    assert (C2 : forall d, rchild (with_child n1 e (Some x)) d =
              if decide (Under a e = Under a d) then Some x else rchild n d).
    { intros d. rewrite rchild_with_child, C1. repeat case_decide; congruence. }
    split; [|split; [by rewrite rn_parent_with_child|done]]. split; [by destruct e|].
    intros d Hd. rewrite C2. destruct (decide (Under a e = Under a d)); [eauto|done].
  - assert (E : match pos with Top => n1 | Under q d => if decide (a = q) then with_child n1 d (Some x) else n1 end = n1).
    { destruct pos; [done|]. rewrite decide_False; [done|]. intros ->. by destruct Ho. }
    rewrite E. assert (C2 : forall d, rchild n1 d = if decide (pos = Under a d) then Some x else rchild n d).
    { intros d. rewrite C1, decide_False; [done|]. intros Hpos. destruct Ho. by rewrite Hpos. }
    split; [|done]. split; [done|]. intros d Hd. by rewrite C1.
Qed.

Lemma attach_inv a n' :
  rt_nodes t' !! a = Some n' -> a = x \/ exists n, rt_nodes t !! a = Some n /\ a <> x.
Proof.
  rewrite attach_lookup. case_decide; [by left|]. intros (n1 & (n & Hn & _)%fmap_Some & _)%fmap_Some.
  right. by exists n.
Qed.

Lemma rkey_new_node : rkey new_node = rkey nx.
Proof. unfold new_node. destruct v; [|done]. by destruct b. Qed.

Lemma rchild_new_node d : rchild new_node d = if decide (d = b) then v else None.
Proof.
  destruct Hlinks as (L & R & _). assert (N : rchild nx d = None) by (by destruct d).
  unfold new_node. rewrite rchild_with_parent. destruct v as [c|].
  - by rewrite rchild_with_child, N.
  - rewrite N. by case_decide.
Qed.

Lemma attach_view : tree_equiv (graft (view t) pos x (rkey nx) b v) (view t').
Proof.
  split; unfold graft; cbn [tkey tparent tchild ttop].
  - intros a. destruct (decide (a = x)) as [->|Ha].
    + by rewrite (node_key _ _ _ attach_x), rkey_new_node.
    + destruct (rt_nodes t !! a) as [n|] eqn:Hn.
      * destruct (attach_old a n Hn) as (n' & Hn' & [(Ep & _) _] & _).
        rewrite (node_key _ _ _ Hn), (node_key _ _ _ Hn'). unfold rkey. by rewrite Ep.
      * unfold view; cbn [tkey]. rewrite Hn. destruct (rt_nodes t' !! a) as [n'|] eqn:Hn'; [|done].
        apply attach_inv in Hn' as [?|(n & ? & _)]; congruence.
  - intros a ka. destruct (decide (a = x)) as [->|Ha].
    + intros _. by rewrite (view_parent _ _ _ attach_x).
    + intros Hka%view_key. destruct Hka as (n & Hn & _).
      destruct (attach_old a n Hn) as (n' & Hn' & _ & Hp & _).
      by rewrite (view_parent _ _ _ Hn), (view_parent _ _ _ Hn').
  - intros a ka d. destruct (decide (a = x)) as [->|Ha].
    + intros _. by rewrite (view_child _ _ _ _ attach_x), rchild_new_node.
    + intros Hka%view_key. destruct Hka as (n & Hn & _).
      destruct (attach_old a n Hn) as (n' & Hn' & _ & _ & Hc).
      by rewrite (view_child _ _ _ _ Hn), (view_child _ _ _ _ Hn'), Hc.
  - unfold t', attach. cbn [view ttop rt_top]. by destruct pos.
Qed.

Lemma attach_shape : shape (view t').
Proof.
  eapply shape_equiv; [apply attach_view|]. eapply graft_shape; [done|exact Hslot| |exact Hk| |].
  - simpl. by rewrite x_fresh.
  - intros a Ha%view_key. by apply (Hnew a).
  - intros c kc Hv Hc%view_key. destruct Hc as (nc & Hnc & <-). by apply (Hbelow c).
Qed.

Lemma kept_node_ok n n' : node_ok n -> kept n n' -> node_ok n'.
Proof. intros (O & L & K) [(E1 & E2 & _) _]. unfold node_ok. by rewrite E1, E2. Qed.

Lemma attach_nodes_ok : nodes_ok t'.
Proof.
  intros a n' Hn'. destruct (attach_inv a n' Hn') as [-> | (n & Hn & _)].
  - rewrite attach_x in Hn'. injection Hn' as <-. split; [|unfold t'; simpl; lia].
    unfold new_node. destruct v; [|done]. by destruct b.
  - destruct (attach_old a n Hn) as (n1 & Hn1 & Hkept & _). assert (n1 = n') as -> by congruence.
    destruct (Hnodes a n Hn). split; [by eapply kept_node_ok|]. unfold t'. simpl. lia.
Qed.

(** The store after the allocation of the new node. *)
Definition allocated : rtable := RTable (rt_top t) (<[x := nx]> (rt_nodes t)) (Pos.succ x).

Lemma with_parent_id n q : rn_parent n = q -> with_parent n q = n.
Proof. intros <-. by destruct n. Qed.

Lemma alter_insert (f : rnode -> rnode) (m : gmap positive rnode) a n :
  m !! a = Some n -> alter f a m = <[a := f n]> m.
Proof.
  intros Hn. apply map_eq. intros i. destruct (decide (i = a)) as [->|].
  - by rewrite lookup_alter_eq, lookup_insert_eq, Hn.
  - by rewrite lookup_alter_ne, lookup_insert_ne.
Qed.

Lemma held_below c nc : v = Some c -> rt_nodes t !! c = Some nc -> rkey nx ++ [b] `prefix_of` rkey nc.
Proof. apply Hbelow. Qed.

Lemma link_leaf : v = None -> link_below allocated (owner pos) x = Ret t'.
Proof.
  pose proof owner_node as Ho. intros Hv. unfold t', attach. rewrite Hv. destruct Hlinks as (_ & _ & Hpar).
  destruct pos as [|a d]; cbn [link_below owner].
  - unfold allocated, set_top. cbn. by rewrite with_parent_id.
  - destruct (Ho a d eq_refl) as (na & Hna & Ek & Hax).
    rewrite (set_link_ok _ a x na nx d); cbn; [|by rewrite lookup_insert_ne|apply lookup_insert_eq|done| | |].
    2: by destruct (Hnodes a na Hna) as [[? _] _]. 2: apply Hnx. 2: by rewrite <- Ek.
    unfold rput. cbn. f_equal. f_equal.
    rewrite (alter_insert _ _ a na) by (by rewrite lookup_insert_ne).
    rewrite !(insert_insert_ne _ a x) by done. by rewrite insert_insert_eq.
Qed.

Lemma link_fork c :
  v = Some c -> exists t1, set_link allocated x c = Ret t1 /\ link_below t1 (owner pos) x = Ret t'.
Proof.
  pose proof owner_node as Ho. pose proof owner_not_held as Hnh. intros Hv.
  destruct (held_node c Hv) as (nc & Hnc & Hcx). pose proof (held_below c nc Hv Hnc) as Hb.
  rewrite (set_link_ok _ x c nx nc b); cbn;
    [|apply lookup_insert_eq|by rewrite lookup_insert_ne|done|apply Hnx|by destruct (Hnodes c nc Hnc) as [[? _] _]|done].
  eexists. split; [reflexivity|]. unfold t', attach, allocated, rput. rewrite Hv. destruct Hlinks as (_ & _ & Hpar).
  cbn [rt_top rt_nodes rt_next].
  assert (Halt : forall m : gmap positive rnode, m !! c = Some nc ->
    alter (fun n => with_parent n (Some x)) c m = <[c := with_parent nc (Some x)]> m)
    by (intros m Hm; by apply (alter_insert (fun n => with_parent n (Some x)))).
  destruct pos as [|a d]; cbn [link_below owner].
  - rewrite Halt by (by rewrite lookup_insert_ne). unfold set_top. cbn. f_equal. f_equal.
    rewrite insert_insert_eq. by rewrite (with_parent_id (with_child nx b (Some c))) by (by rewrite rn_parent_with_child).
  - destruct (Ho a d eq_refl) as (na & Hna & Ek & Hax). pose proof (Hnh a d c eq_refl Hv) as Hac.
    rewrite insert_insert_eq.
    rewrite (set_link_ok _ a x na (with_child nx b (Some c)) d); cbn;
      [|by rewrite !lookup_insert_ne by done|rewrite lookup_insert_ne by done; apply lookup_insert_eq|done| | |].
    2: by destruct (Hnodes a na Hna) as [[? _] _]. 2: by destruct b; apply Hnx.
    2: by rewrite rkey_with_child, <- Ek.
    unfold rput. cbn. f_equal. f_equal. rewrite Halt by (by rewrite lookup_insert_ne).
    rewrite (alter_insert _ _ a na) by (by rewrite !lookup_insert_ne).
    rewrite (insert_insert_ne _ x a), (insert_insert_ne _ x c) by done. by rewrite insert_insert_eq.
Qed.
End Attach.

(** ** The common prefix as bits *)
Lemma common_lcp n p r :
  common n p r -> ~ pbits n `prefix_of` pbits p ->
  pbits r `prefix_of` pbits p /\ (exists b, pbits r ++ [b] `prefix_of` pbits n) /\
  (forall k, k `prefix_of` pbits n -> k `prefix_of` pbits p -> k `prefix_of` pbits r) /\
  (plen r = plen p -> pbits r = pbits p) /\
  (plen r <> plen p -> forall b, pbits r ++ [b] `prefix_of` pbits p -> ~ pbits r ++ [b] `prefix_of` pbits n).
Proof.
  intros (_ & _ & Hle & H1 & H2 & Hend) Hno.
  assert (Hlt : (plen r < plen n)%nat).
  { destruct (decide (plen r < plen n)%nat); [done|]. destruct Hno. apply pbits_prefix; [lia|].
    intros i Hi. apply H2. lia. }
  assert (Hrp : pbits r `prefix_of` pbits p).
  { apply pbits_prefix; [done|]. intros i Hi. by rewrite H1, H2. }
  assert (Hrn : pbits r `prefix_of` pbits n) by (apply pbits_prefix; [lia|done]).
  assert (Hbit : forall q b, (plen r < plen q)%nat -> pbits r ++ [b] `prefix_of` pbits q ->
                             b = bit_at (octets q) (plen r)).
  { intros q b Hq [s Hs]. assert (E : pbits q !! plen r = Some b).
    { rewrite Hs, <- app_assoc, <- (length_pbits r). by apply list_lookup_middle. }
    rewrite pbits_lookup in E by done. congruence. }
  split; [done|]. split; [|split; [|split]].
  - apply prefix_cases in Hrn as [E|]; [|done]. apply (f_equal length) in E. rewrite !length_pbits in E. lia.
  - intros k Hkn Hkp. destruct (prefix_weak_total _ _ _ Hkp Hrp) as [|[E | [b Hb]]%prefix_cases]; [done|by rewrite E|].
    destruct Hend as [E | [Hlt' Hd]].
    + apply prefix_length in Hb, Hkp. rewrite length_app, !length_pbits in *. simpl in Hb. lia.
    + destruct Hd. rewrite <- (Hbit n b), <- (Hbit p b); [done|done| |lia|]; by etrans.
  - intros E. apply pbits_eq; [done|]. intros i Hi. by rewrite H1, H2.
  - intros Hne b Hbp Hbn. destruct Hend as [|[Hlt' Hd]]; [done|].
    destruct Hd. by rewrite <- (Hbit n b), <- (Hbit p b).
Qed.

(** ** Stores that grow *)
Definition extends (t t' : rtable) : Prop :=
  forall a n, rt_nodes t !! a = Some n -> exists n', rt_nodes t' !! a = Some n' /\ kept n n'.

Lemma kept_trans n n' n'' : kept n n' -> kept n' n'' -> kept n n''.
Proof. intros [(?&?&?) K1] [(?&?&?) K2]. split; [repeat split; congruence|]. eauto. Qed.

#[export] Instance extends_preorder : PreOrder extends.
Proof.
  split.
  - intros t a n Hn. exists n. split; [done|apply kept_refl].
  - intros t1 t2 t3 H1 H2 a n Hn. destruct (H1 a n Hn) as (n' & Hn' & K').
    destruct (H2 a n' Hn') as (n'' & Hn'' & K''). exists n''. split; [done|by eapply kept_trans].
Qed.

Lemma kept_stub n n' : stub_ok n -> kept n n' -> stub_ok n'.
Proof.
  intros Hs [(_ & El & Ei) Hc] Hl. rewrite El in Hl. destruct (Hs Hl) as (Hi & Hleft & Hright).
  rewrite Ei. split; [done|]. split; [by apply (Hc false)|by apply (Hc true)].
Qed.

Lemma kept_rkey n n' : kept n n' -> rkey n' = rkey n.
Proof. intros [(E & _) _]. unfold rkey. by rewrite E. Qed.

(** Changing the lock of a node does not change the tree. *)
Definition set_lock (t : rtable) (a : positive) (n : rnode) (l : Z) : rtable := rput t a (with_rlock n l).

Lemma set_lock_view t a n l : rt_nodes t !! a = Some n -> tree_equiv (view t) (view (set_lock t a n l)).
Proof.
  intros Hn. unfold set_lock, rput. split; unfold view; cbn [tkey tparent tchild ttop rt_nodes rt_top]; [| | |done];
    intros i; intros; destruct (decide (i = a)) as [->|];
    rewrite ?lookup_insert_eq, ?Hn, ?lookup_insert_ne by done; done.
Qed.

Lemma set_lock_lookup t a n l i :
  rt_nodes (set_lock t a n l) !! i = if decide (i = a) then Some (with_rlock n l) else rt_nodes t !! i.
Proof.
  unfold set_lock, rput. cbn. case_decide as E; [subst|by rewrite lookup_insert_ne]. apply lookup_insert_eq.
Qed.

Lemma set_lock_nodes_ok t a n l :
  nodes_ok t -> rt_nodes t !! a = Some n -> is_u32 l -> nodes_ok (set_lock t a n l).
Proof.
  intros Ht Hn Hl i n'. rewrite set_lock_lookup. case_decide as E; [|apply Ht]. subst i. intros [= <-].
  destruct (Ht a n Hn) as [(? & ? & _) ?]. split; [|done]. split; [done|]. by split.
Qed.

Lemma set_lock_shape t a n l : rt_nodes t !! a = Some n -> shape (view t) -> shape (view (set_lock t a n l)).
Proof. intros Hn. by apply shape_equiv, set_lock_view. Qed.

Lemma u32_succ l : is_u32 l -> l <> 2 ^ 32 - 1 -> u32 (l + 1) = l + 1.
Proof. unfold is_u32. intros. apply u32_id. unfold is_u32. lia. Qed.

(** ** Insertion *)
Definition fresh_node (q : ip_prefix) : rnode := RNode q None None None 0 None.

Lemma fresh_node_ok q : prefix_ok q -> length (octets q) = 16%nat -> node_ok (fresh_node q).
Proof. intros Hq Hl. split; [done|]. split; [done|]. by_eval. Qed.

Lemma route_node_set_ok t p :
  key_ok p -> exists q, route_node_set t p = Ret (allocated t (rt_next t) (fresh_node q), rt_next t) /\
    node_ok (fresh_node q) /\ rkey (fresh_node q) = pbits p.
Proof.
  intros Hp. unfold route_node_set, route_node_new, rat. cbn [rt_nodes]. rewrite lookup_insert_eq.
  cbn [mbind res_bind rn_p].
  destruct (prefix_copy_ok p (IpPrefix 0 0 (replicate 16 0)) Hp eq_refl) as (q & -> & Oq & Lq & _ & Bq).
  cbn [mbind res_bind]. exists q. split; [|split; [by apply fresh_node_ok|done]].
  unfold rput, allocated. cbn [rt_nodes rt_top rt_next]. by rewrite insert_insert_eq.
Qed.

(** The table [t'] has the nodes of [t], the new node [a] with the bits [k], not yet
    locked, and possibly a fork: [c] nodes more in all. *)
Record grown (t t' : rtable) (k : list bool) (a : positive) (c : nat) : Prop := {
  grown_size : size (rt_nodes t') = (size (rt_nodes t) + c)%nat;
  grown_nodes : nodes_ok t';
  grown_shape : shape (view t');
  grown_extends : extends t t';
  grown_fresh : rt_nodes t !! a = None;
  grown_node : exists n, rt_nodes t' !! a = Some n /\ rkey n = k /\ rn_lock n = 0 /\ rn_info n = None;
  grown_fork : forall d n', rt_nodes t' !! d = Some n' -> rt_nodes t !! d = None -> d <> a ->
    stub_ok n' /\ rn_info n' = None }.

Lemma new_node_data pos v nx b : same_data nx (new_node pos v nx b).
Proof. unfold new_node. destruct v; [|done]. by destruct b. Qed.

Section Get.
Context (t : rtable) (p : ip_prefix).
Hypothesis Hn : nodes_ok t.
Hypothesis Hsh : shape (view t).
Hypothesis Hp : key_ok p.

(** A node that is put into a slot alone. *)
Lemma attach_grown pos k v x nx b :
  slot (view t) pos k v -> x = rt_next t -> node_ok nx ->
  rn_left nx = None /\ rn_right nx = None /\ rn_parent nx = None -> k `prefix_of` rkey nx ->
  (forall a, ~ has_key t a (rkey nx)) ->
  (forall c nc, v = Some c -> rt_nodes t !! c = Some nc -> rkey nx ++ [b] `prefix_of` rkey nc) ->
  rn_lock nx = 0 -> rn_info nx = None ->
  grown t (attach t pos x nx b v) (rkey nx) x 1.
Proof.
  intros Hs Hx Hnx Hl Hk Hnew Hb Hlock Hinfo. split.
  - assert (E : dom (rt_nodes (attach t pos x nx b v)) = {[x]} ∪ dom (rt_nodes t)).
    { apply set_eq. intros d. rewrite elem_of_union, elem_of_singleton, !elem_of_dom. split.
      - intros [nd Hd]. destruct (attach_inv t pos k v x nx b Hn Hsh Hs Hx Hb d nd Hd) as [|(n & ? & _)]; eauto.
      - intros [-> | [n Hd]]; [eexists; by eapply attach_x|].
        destruct (attach_old t pos k v x nx b Hn Hsh Hs Hx Hb d n Hd) as (n' & ? & _). eauto. }
    rewrite <- !size_dom, E, size_union, size_singleton; [lia|].
    apply disjoint_singleton_l, not_elem_of_dom. by apply (x_fresh t x).
  - by eapply attach_nodes_ok.
  - by eapply attach_shape.
  - intros a n Ha. destruct (attach_old t pos k v x nx b Hn Hsh Hs Hx Hb a n Ha) as (n' & Hn' & Hkept & _). eauto.
  - by apply (x_fresh t x).
  - exists (new_node pos v nx b). split; [by eapply attach_x|].
    destruct (new_node_data pos v nx b) as (E1 & -> & ->). split; [unfold rkey; by rewrite E1|done].
  - intros d n' Hd Hno Hdx.
    destruct (attach_inv t pos k v x nx b Hn Hsh Hs Hx Hb d n' Hd) as [|(n & ? & _)]; congruence.
Qed.

Lemma get_leaf pos k :
  on_path t p pos k None -> (forall a, ~ has_key t a (pbits p)) ->
  exists t1 t' x, route_node_set t p = Ret (t1, x) /\ link_below t1 (owner pos) x = Ret t' /\
    grown t t' (pbits p) x 1.
Proof.
  intros [Hs Hle] Hnew. destruct (route_node_set_ok t p Hp) as (q & Hset & Oq & Kq).
  rewrite <- Kq in *.
  eexists _, _, _. split; [exact Hset|].
  split; [eapply (link_leaf t pos k None _ _ false); eauto; done|].
  eapply attach_grown; eauto; done.
Qed.

(** The fork above node [c]. *)
Lemma get_fork pos k c n :
  on_path t p pos k (Some c) -> rt_nodes t !! c = Some n -> ~ rkey n `prefix_of` pbits p ->
  exists r b t1 t' x, route_common (rn_p n) p (IpPrefix 0 0 (replicate 16 0)) = Ret r /\
    common (rn_p n) p r /\ pbits r ++ [b] `prefix_of` rkey n /\ x = rt_next t /\
    set_link (allocated t x (fresh_node (IpPrefix (family p) (prefixlen r) (octets r)))) x c = Ret t1 /\
    link_below t1 (owner pos) x = Ret t' /\ grown t t' (pbits r) x 1 /\
    (forall d, is_Some (rt_nodes t' !! d) -> d = x \/ is_Some (rt_nodes t !! d)) /\
    slot (view t') (Under x (negb b)) (pbits r ++ [negb b]) None.
Proof.
  intros [Hs Hle] Hc Hno. destruct (Hn c n Hc) as [(On & Ln & _) _]. pose proof Hp as [Op _].
  destruct (route_common_ok (rn_p n) p (IpPrefix 0 0 (replicate 16 0))) as (r & Hr & Hcom);
    try done; [by apply key_ok_len|by_eval|].
  destruct (common_lcp _ _ _ Hcom Hno) as (Hrp & [b Hb] & Hgreat & _).
  set (nx := fresh_node (IpPrefix (family p) (prefixlen r) (octets r))).
  assert (Knx : rkey nx = pbits r) by done.
  assert (Onx : node_ok nx) by (destruct Hcom as (? & ? & _); by apply fresh_node_ok).
  destruct (shape_some _ Hsh _ _ _ Hs) as (kc & Hkc & _ & Hkle & Hmin).
  rewrite (node_key _ _ _ Hc) in Hkc. injection Hkc as <-.
  assert (Hkr : k `prefix_of` rkey nx) by (rewrite Knx; by apply Hgreat).
  assert (Hnew : forall a, ~ has_key t a (rkey nx)).
  { intros a Ha%view_key. apply Hno. etrans; [by apply (Hmin a _ Ha)|done]. }
  assert (Hbelow : forall d nd, Some c = Some d -> rt_nodes t !! d = Some nd -> rkey nx ++ [b] `prefix_of` rkey nd).
  { intros d nd [= <-] Hd. by assert (nd = n) as -> by congruence. }
  destruct (link_fork t pos k (Some c) (rt_next t) nx b) with (c := c) as (t1 & Hl & Ha); try done.
  exists r, b, t1, (attach t pos (rt_next t) nx b (Some c)), (rt_next t).
  repeat (split; [done|]). rewrite <- Knx. split; [by eapply attach_grown|]. split.
  - intros d [nd Hd]. edestruct attach_inv as [|(n0 & Hn0 & _)]; eauto.
  - assert (Hx : rt_nodes (attach t pos (rt_next t) nx b (Some c)) !! rt_next t = Some (new_node pos (Some c) nx b))
      by (by eapply attach_x).
    pose proof (node_slot _ _ _ (negb b) Hx) as Hsl.
    assert (E : rchild (new_node pos (Some c) nx b) (negb b) = None).
    { rewrite (rchild_new_node t pos k (Some c) 1%positive nx b Hs ltac:(done) Hbelow).
      rewrite decide_False; [done|]. by destruct b. }
    rewrite E in Hsl. unfold rkey in Hsl at 1. by rewrite (proj1 (new_node_data pos (Some c) nx b)) in Hsl.
Qed.
End Get.

(** A node with nodes below both its bits has both links. *)
Lemma fork_links t a n d1 k1 d2 k2 b :
  shape (view t) -> rt_nodes t !! a = Some n -> has_key t d1 k1 -> has_key t d2 k2 ->
  rkey n ++ [b] `prefix_of` k1 -> rkey n ++ [negb b] `prefix_of` k2 ->
  is_Some (rn_left n) /\ is_Some (rn_right n).
Proof.
  intros Hsh Hn H1%view_key H2%view_key L1 L2.
  assert (Hc : forall c, is_Some (rchild n c)).
  { intros c. destruct (rchild n c) eqn:E; [eauto|].
    pose proof (node_slot t a n c Hn) as Hs. rewrite E in Hs.
    destruct (decide (c = b)) as [->|Hb]; [by destruct (shape_none _ Hsh _ _ Hs _ _ H1)|].
    assert (c = negb b) as -> by (by destruct c, b). by destruct (shape_none _ Hsh _ _ Hs _ _ H2). }
  split; [apply (Hc false)|apply (Hc true)].
Qed.

Lemma has_key_extends t t' a k : extends t t' -> has_key t a k -> has_key t' a k.
Proof.
  intros He (n & Hn & <-). destruct (He a n Hn) as (n' & Hn' & Hk). exists n'.
  split; [done|by apply kept_rkey].
Qed.

(** A fork with its second subtree. *)
Lemma grown_twice t t1 t2 kq k x y c nc b c1 c2 :
  grown t t1 kq x c1 -> grown t1 t2 k y c2 -> rt_nodes t !! c = Some nc ->
  kq ++ [b] `prefix_of` rkey nc -> kq ++ [negb b] `prefix_of` k -> grown t t2 k y (c1 + c2).
Proof.
  intros G1 G2 Hc Hb Hnb. split.
  - rewrite (grown_size _ _ _ _ _ G2), (grown_size _ _ _ _ _ G1). lia.
  - apply G2.
  - apply G2.
  - etrans; [apply G1|apply G2].
  - pose proof (grown_fresh _ _ _ _ _ G2) as Hy. destruct (rt_nodes t !! y) as [n|] eqn:E; [|done].
    destruct (grown_extends _ _ _ _ _ G1 y n E) as (? & ? & _). congruence.
  - apply G2.
  - intros d n2 Hd Hno Hdy. destruct (rt_nodes t1 !! d) as [n1|] eqn:E1;
      [|by apply (grown_fork _ _ _ _ _ G2 d)].
    destruct (grown_extends _ _ _ _ _ G2 d n1 E1) as (n2' & Hn2' & Hk2). assert (n2' = n2) as -> by congruence.
    destruct (decide (d = x)) as [->|Hdx].
    + destruct (grown_node _ _ _ _ _ G1) as (n1' & Hn1' & Kx & Lx & Ix).
      assert (n1' = n1) as -> by congruence. destruct Hk2 as [(Ep & El & Ei) Hk2].
      split; [|congruence]. intros _. split; [congruence|].
      destruct (grown_node _ _ _ _ _ G2) as (ny & Hny & Ky & _).
      eapply (fork_links t2 x n2 c (rkey nc) y k b); [apply G2|done| |by exists ny| |].
      * eapply has_key_extends; [by etrans; [apply G1|apply G2]|by exists nc].
      * unfold rkey in *. by rewrite Ep, Kx.
      * unfold rkey in *. by rewrite Ep, Kx.
    + destruct (grown_fork _ _ _ _ _ G1 d n1 E1 Hno Hdx) as [Hst Hi].
      split; [by eapply kept_stub|]. destruct Hk2 as [(_ & _ & ->) _]. done.
Qed.

Lemma ok_nodes_ok t : table_ok t -> nodes_ok t.
Proof. intros Hok a n. apply (ok_node _ Hok). Qed.

Lemma allocated_rput t q w :
  rput (allocated t (rt_next t) w) (rt_next t) q = allocated t (rt_next t) q.
Proof. unfold rput, allocated. cbn. by rewrite insert_insert_eq. Qed.

Lemma allocated_x t n : rt_nodes (allocated t (rt_next t) n) !! rt_next t = Some n.
Proof. apply lookup_insert_eq. Qed.

Lemma allocated_old t x w a n :
  nodes_ok t -> x = rt_next t -> rt_nodes t !! a = Some n -> rt_nodes (allocated t x w) !! a = Some n.
Proof.
  intros Hn -> Ha. cbn. rewrite lookup_insert_ne; [done|]. intros E. rewrite <- E in Ha. destruct (Hn _ _ Ha). lia.
Qed.

(** [route_node_get] up to its last lock, with the number of nodes it made. *)
Definition get_steps (t : rtable) (p : ip_prefix) : res (rtable * positive * nat) :=
  w ← get_walk (walk_fuel p) t p (rt_top t) None;
  match w : positive + option positive * option positive with
  | inl node => Ret (t, node, 0%nat)
  | inr (None, mtch) =>
      r ← route_node_set t p;
      let '(t, new) := (r : rtable * positive) in
      t ← link_below t mtch new; Ret (t, new, 1%nat)
  | inr (Some node, mtch) =>
      let '(t, new) := route_node_new t in
      n ← rat t node; w ← rat t new;
      np ← route_common (rn_p n) p (rn_p w);
      let t := rput t new (with_rp w (IpPrefix (family p) (prefixlen np) (octets np))) in
      t ← set_link t new node;
      t ← link_below t mtch new;
      if negb (prefixlen np =? prefixlen p) then
        r ← route_node_set t p;
        let '(t, leaf) := (r : rtable * positive) in
        t ← set_link t new leaf; Ret (t, leaf, 2%nat)
      else Ret (t, new, 1%nat)
  end.

(** Split the next step of a computation in the goal. *)
Ltac split_step :=
  match goal with
  | |- context [ (?m ≫= _) ] => destruct m as [?| |]; cbn [mbind res_bind]; [|reflexivity..]
  end;
  try match goal with x : (rtable * positive)%type |- _ => destruct x end.

Lemma route_node_get_steps t p :
  route_node_get t p =
    (s ← get_steps t p; let '(t0, a, _) := (s : rtable * positive * nat) in
     t1 ← route_lock_node t0 a; Ret (t1, a)).
Proof.
  unfold route_node_get, get_steps. split_step. destruct a as [a | [[c|] mtch]]; [done|..].
  - destruct (route_node_new t) as [t0 x]. do 5 split_step. case_test; [|done].
    split_step. by split_step.
  - split_step. by split_step.
Qed.

Lemma get_steps_ok t p :
  nodes_ok t -> shape (view t) -> key_ok p ->
  exists t0 a c, get_steps t p = Ret (t0, a, c) /\ (c <= 2)%nat /\
    (t0 = t /\ c = 0%nat /\ has_key t a (pbits p) \/ grown t t0 (pbits p) a c).
Proof.
  intros Hn Hsh Hp. pose proof Hp as [Op _]. unfold get_steps.
  destruct (get_walk_ok t p Hn Hsh Op (walk_fuel p) Top [] (rt_top t)) as (w & Hw & Hres);
    [apply start_path|unfold walk_fuel, plen; simpl; lia..|].
  cbn [owner] in Hw. rewrite Hw. cbn [mbind res_bind]. destruct w as [a | [[c|] mtch]].
  - exists t, a, 0%nat. split; [done|]. split; [lia|by left].
  - destruct Hres as (Hnew & pos & k & Hpath & -> & Hstop).
    destruct (path_node t p Hn Hsh _ _ _ Hpath) as (n & Hc & _).
    destruct (get_fork t p Hn Hsh Hp pos k c n Hpath Hc (Hstop c n eq_refl Hc))
      as (r & b & t1 & t' & x & Hr & Hcom & Hb & Hx & Hl1 & Hl2 & G & Hold & Hempty).
    pose proof (common_lcp _ _ _ Hcom (Hstop c n eq_refl Hc)) as (Hrp & _ & _ & Hsame & Hdiff).
    unfold route_node_new. change (RNode _ None None None 0 None) with (fresh_node (IpPrefix 0 0 (replicate 16 0))).
    fold (allocated t (rt_next t) (fresh_node (IpPrefix 0 0 (replicate 16 0)))).
    rewrite (rat_lookup _ c n) by (by apply allocated_old). cbn [mbind res_bind].
    rewrite (rat_lookup _ _ _ (allocated_x t _)). cbn [mbind res_bind]. cbn [fresh_node rn_p].
    rewrite Hr. cbn [mbind res_bind]. rewrite allocated_rput.
    change (with_rp _ ?q) with (fresh_node q). rewrite <- Hx, Hl1. cbn [mbind res_bind].
    rewrite Hl2. cbn [mbind res_bind].
    assert (Er : prefixlen r = Z.of_nat (plen r)) by (apply prefixlen_plen, Hcom).
    rewrite Er, (prefixlen_plen p Op). destruct (Z.of_nat (plen r) =? Z.of_nat (plen p)) eqn:E; zify_bool; cbn [negb].
    + exists t', x, 1%nat. split; [done|]. split; [lia|right]. rewrite <- Hsame by lia. done.
    + destruct (prefix_cases _ _ Hrp) as [Eq | [b2 Hb2]].
      { apply (f_equal length) in Eq. rewrite !length_pbits in Eq. lia. }
      assert (Hb2n : b2 = negb b).
      { pose proof (Hdiff ltac:(lia) b2 Hb2) as Hx2. destruct b, b2; try done; by destruct Hx2. }
      subst b2. destruct (grown_node _ _ _ _ _ G) as (nx & Hnx & Kx & _).
      destruct (get_leaf t' p (grown_nodes _ _ _ _ _ G) (grown_shape _ _ _ _ _ G) Hp (Under x (negb b)) (pbits r ++ [negb b]))
        as (t2 & t3 & y & Hset & Hlink & G2).
      { by split. }
      { intros d (nd & Hd & Kd). destruct (Hold d) as [-> | [n0 Hn0]]; [eauto|..].
        - assert (nd = nx) as -> by congruence. apply (f_equal length) in Kd.
          rewrite Kx, !length_pbits in Kd. lia.
        - apply (Hnew d). exists n0. split; [done|].
          destruct (grown_extends _ _ _ _ _ G d n0 Hn0) as (nd' & Hd' & Hk). rewrite <- Kd, <- (kept_rkey _ _ Hk). congruence. }
      rewrite Hset. cbn [mbind res_bind]. cbn [link_below owner] in Hlink. rewrite Hlink. cbn [mbind res_bind].
      exists t3, y, 2%nat. split; [done|]. split; [lia|right]. by eapply (grown_twice _ _ _ _ _ _ _ _ _ _ 1 1).
  - destruct Hres as (Hnew & pos & k & Hpath & -> & _).
    destruct (get_leaf t p Hn Hsh Hp pos k Hpath Hnew) as (t1 & t' & x & Hset & Hlink & G).
    rewrite Hset. cbn [mbind res_bind]. rewrite Hlink. cbn [mbind res_bind].
    exists t', x, 1%nat. split; [done|]. split; [lia|by right].
Qed.
