(* ===== verification/TableDelete.v ===== *)
(** * lib/table.c: locks and deletion

    [route_unlock_node] drops a node when nothing locks it; forks that lose a
    subtree go with it.  Nothing that is locked or carries information is lost. *)
From stdpp Require Import base option list gmap fin_maps.
From Stdlib Require Import ZArith Lia ZifyNat.
From S2P Require Import Prelude RouteInfo RouteCmp Prefix Radix Table TableFind TableEdit.

(** All of [table_ok], except that node [a] may be unlocked. *)
Record ok_except (t : rtable) (a : positive) : Prop := {
  except_nodes : nodes_ok t;
  except_shape : shape (view t);
  except_stub : forall d n, rt_nodes t !! d = Some n -> d <> a -> stub_ok n }.

Lemma ok_ok_except t a : table_ok t -> ok_except t a.
Proof.
  intros Hok. split; [by apply ok_nodes_ok|apply Hok|]. intros d n Hd _. by apply (ok_stub _ Hok d).
Qed.

Lemma ok_except_ok t a n : ok_except t a -> rt_nodes t !! a = Some n -> stub_ok n -> table_ok t.
Proof.
  intros [Hn Hs He] Ha Hst. split; [apply Hn| |done]. intros d nd Hd.
  destruct (decide (d = a)) as [->|]; [by assert (nd = n) as -> by congruence|by apply (He d)].
Qed.

Lemma set_lock_except t a n l :
  ok_except t a -> rt_nodes t !! a = Some n -> is_u32 l -> ok_except (set_lock t a n l) a.
Proof.
  intros [Hn Hs He] Ha Hl. split; [by apply set_lock_nodes_ok|by apply set_lock_shape|].
  intros d nd. rewrite set_lock_lookup. intros Hd Hne. rewrite decide_False in Hd by done. by apply (He d).
Qed.

Lemma set_lock_self t a n l : rt_nodes (set_lock t a n l) !! a = Some (with_rlock n l).
Proof. by rewrite set_lock_lookup, decide_True. Qed.

(** A positive lock keeps the invariant whatever the node holds. *)
Lemma set_lock_ok t a n l :
  ok_except t a -> rt_nodes t !! a = Some n -> is_u32 l -> l <> 0 -> table_ok (set_lock t a n l).
Proof.
  intros He Ha Hl Hl0. eapply (ok_except_ok _ a); [by apply set_lock_except|apply set_lock_self|].
  by intros [=].
Qed.

Lemma route_lock_node_set t a n :
  nodes_ok t -> rt_nodes t !! a = Some n -> rn_lock n <> 2 ^ 32 - 1 ->
  route_lock_node t a = Ret (set_lock t a n (rn_lock n + 1)) /\ is_u32 (rn_lock n + 1) /\ rn_lock n + 1 <> 0.
Proof.
  intros Hn Ha Hl. unfold route_lock_node. rewrite (rat_lookup _ _ _ Ha). cbn [mbind res_bind].
  destruct (Hn a n Ha) as [(_ & _ & Hu) _]. rewrite u32_succ by done.
  split; [done|]. unfold is_u32 in *. lia.
Qed.

(** ** Taking a node out of the store *)
Definition detach (t : rtable) (pos : position) (a : positive) (v : option positive) : rtable :=
  let m1 := match v with
            | Some c => alter (fun n => with_parent n (owner pos)) c (rt_nodes t)
            | None => rt_nodes t
            end in
  let m2 := match pos with
            | Under q d => alter (fun n => with_child n d v) q m1
            | Top => m1
            end in
  RTable (match pos with Top => v | Under _ _ => rt_top t end) (delete a m2) (rt_next t).

Lemma detach_lookup t pos a v i :
  rt_nodes (detach t pos a v) !! i =
    if decide (i = a) then None
    else (fun n => let n := if decide (v = Some i) then with_parent n (owner pos) else n in
                   match pos with
                   | Under q d => if decide (i = q) then with_child n d v else n
                   | Top => n
                   end) <$> rt_nodes t !! i.
Proof.
  unfold detach. cbn [rt_nodes]. case_decide as Ei; [subst i; apply lookup_delete_eq|].
  rewrite lookup_delete_ne by done.
  assert (H1 : forall j, match v with
      | Some c => alter (fun n => with_parent n (owner pos)) c (rt_nodes t) | None => rt_nodes t end !! j
      = (fun n => if decide (v = Some j) then with_parent n (owner pos) else n) <$> rt_nodes t !! j).
  { intros j. destruct v as [c|]; [|by destruct (rt_nodes t !! j)]. destruct (decide (j = c)) as [->|Hj].
    - rewrite lookup_alter_eq. destruct (rt_nodes t !! c); simpl; [by rewrite decide_True|done].
    - rewrite lookup_alter_ne by congruence. destruct (rt_nodes t !! j); simpl; [|done].
      by rewrite decide_False by congruence. }
  destruct pos as [|q d].
  - rewrite H1. by destruct (rt_nodes t !! i).
  - destruct (decide (i = q)) as [->|Hq].
    + rewrite lookup_alter_eq, H1. by destruct (rt_nodes t !! q).
    + rewrite lookup_alter_ne, H1 by done. by destruct (rt_nodes t !! i).
Qed.

(** What a deletion keeps and what it may drop. *)
Record shrinks (t t' : rtable) : Prop := {
  shrinks_kept : forall d n', rt_nodes t' !! d = Some n' -> exists n, rt_nodes t !! d = Some n /\ same_data n n';
  shrinks_gone : forall d n, rt_nodes t !! d = Some n -> rt_nodes t' !! d = None ->
    rn_lock n = 0 /\ rn_info n = None }.

#[export] Instance shrinks_preorder : PreOrder shrinks.
Proof.
  split.
  - intros t. split; [intros d n Hn; exists n; by repeat split|]. intros d n Hn Hno. congruence.
  - intros t1 t2 t3 S12 S23. split.
    + intros d n3 Hn3. destruct (shrinks_kept _ _ S23 d n3 Hn3) as (n2 & Hn2 & (?&?&?)).
      destruct (shrinks_kept _ _ S12 d n2 Hn2) as (n1 & Hn1 & (?&?&?)). exists n1. split; [done|].
      repeat split; congruence.
    + intros d n1 Hn1 Hno. destruct (rt_nodes t2 !! d) as [n2|] eqn:E; [|by apply (shrinks_gone _ _ S12 d)].
      destruct (shrinks_kept _ _ S12 d n2 E) as (n1' & Hn1' & (_ & El & Ei)).
      assert (n1' = n1) as -> by congruence. rewrite <- El, <- Ei. by apply (shrinks_gone _ _ S23 d).
Qed.

Section Detach.
Context (t : rtable) (pos : position) (k : list bool) (a : positive) (n : rnode) (b : bool) (v : option positive).
Hypothesis Hnodes : nodes_ok t.
Hypothesis Hshape : shape (view t).
Hypothesis Hslot : slot (view t) pos k (Some a).
Hypothesis Hn : rt_nodes t !! a = Some n.
Hypothesis Hv : rchild n b = v.
Hypothesis Hno : rchild n (negb b) = None.

Let t' := detach t pos a v.

Lemma detach_old d nd :
  rt_nodes t !! d = Some nd -> d <> a -> exists nd', rt_nodes t' !! d = Some nd' /\ same_data nd nd' /\
    rn_parent nd' = (if decide (v = Some d) then owner pos else rn_parent nd) /\
    forall e, rchild nd' e = if decide (pos = Under d e) then v else rchild nd e.
Proof.
  intros Hd Hda. unfold t'. rewrite detach_lookup, decide_False, Hd by done.
  cbn [fmap option_fmap option_map]. eexists. split; [reflexivity|]. cbv zeta.
  set (n1 := if decide (v = Some d) then with_parent nd (owner pos) else nd).
  assert (H1 : same_data nd n1 /\ rn_parent n1 = (if decide (v = Some d) then owner pos else rn_parent nd) /\
               forall e, rchild n1 e = rchild nd e) by (unfold n1; case_decide; done).
  destruct H1 as (D1 & P1 & C1). clearbody n1. destruct (decide (owner pos = Some d)) as [Ho|Ho].
  - destruct pos as [|q e]; [done|]. injection Ho as ->. rewrite decide_True by done.
    split; [by destruct e|]. split; [by rewrite rn_parent_with_child|]. intros e'.
    rewrite rchild_with_child, C1. destruct (decide (e' = e)), (decide (Under d e = Under d e')); congruence.
  - assert (E : match pos with Top => n1 | Under q e => if decide (d = q) then with_child n1 e v else n1 end = n1).
    { destruct pos; [done|]. rewrite decide_False; [done|]. intros ->. by destruct Ho. }
    rewrite E. split; [done|]. split; [done|]. intros e.
    rewrite C1, decide_False; [done|]. intros Hpos. destruct Ho. by rewrite Hpos.
Qed.

Lemma detach_inv d nd' : rt_nodes t' !! d = Some nd' -> d <> a /\ exists nd, rt_nodes t !! d = Some nd.
Proof.
  unfold t'. rewrite detach_lookup. case_decide; [done|]. intros (nd & Hd & _)%fmap_Some. eauto.
Qed.

Lemma detach_view : tree_equiv (prune (view t) pos a v) (view t').
Proof.
  split; unfold prune; cbn [tkey tparent tchild ttop].
  - intros d. case_decide as Eda; [subst d|].
    + unfold view. cbn [tkey]. unfold t'. rewrite detach_lookup. by rewrite decide_True.
    + destruct (rt_nodes t !! d) as [nd|] eqn:Hd.
      * destruct (detach_old d nd Hd Eda) as (nd' & Hd' & (Ep & _) & _).
        rewrite (node_key _ _ _ Hd), (node_key _ _ _ Hd'). unfold rkey. by rewrite Ep.
      * unfold view. cbn [tkey]. rewrite Hd. destruct (rt_nodes t' !! d) eqn:Hd'; [|done].
        apply detach_inv in Hd' as [_ [? ?]]. congruence.
  - intros d kd. case_decide as Eda; [done|]. intros (nd & Hd & _)%view_key.
    destruct (detach_old d nd Hd Eda) as (nd' & Hd' & _ & Hp & _).
    by rewrite (view_parent _ _ _ Hd), (view_parent _ _ _ Hd').
  - intros d kd e. case_decide as Eda; [done|]. intros (nd & Hd & _)%view_key.
    destruct (detach_old d nd Hd Eda) as (nd' & Hd' & _ & _ & Hc).
    by rewrite (view_child _ _ _ _ Hd), (view_child _ _ _ _ Hd'), Hc.
  - unfold t', detach. cbn [view ttop rt_top]. by destruct pos.
Qed.

Lemma detach_shape : shape (view t').
Proof.
  eapply shape_equiv; [apply detach_view|].
  eapply (prune_shape (view t) Hshape pos k v a (rkey n) b); [done|by apply node_key|..].
  - by rewrite (view_child _ _ _ _ Hn).
  - by rewrite (view_child _ _ _ _ Hn).
Qed.

Lemma same_data_ok nd nd' : same_data nd nd' -> node_ok nd -> node_ok nd'.
Proof. intros (E1 & E2 & _) (O & L & K). unfold node_ok. by rewrite E1, E2. Qed.

Lemma detach_nodes_ok : nodes_ok t'.
Proof.
  intros d nd' Hd'. destruct (detach_inv d nd' Hd') as (Hda & nd & Hd).
  destruct (detach_old d nd Hd Hda) as (nd1 & Hd1 & Hs & _). assert (nd1 = nd') as -> by congruence.
  destruct (Hnodes d nd Hd). split; [by eapply same_data_ok|done].
Qed.

(** Only the owner of the slot can lose a link. *)
Lemma detach_except :
  (forall d nd, rt_nodes t !! d = Some nd -> d <> a -> stub_ok nd) ->
  match pos, v with
  | Under q _, None => ok_except t' q
  | _, _ => table_ok t'
  end.
Proof.
  intros Hst.
  assert (Hkeep : forall d nd', rt_nodes t' !! d = Some nd' -> owner pos <> Some d \/ is_Some v -> stub_ok nd').
  { intros d nd' Hd' Hor. destruct (detach_inv d nd' Hd') as (Hda & nd & Hd).
    destruct (detach_old d nd Hd Hda) as (nd1 & Hd1 & Hs & _ & Hc). assert (nd1 = nd') as -> by congruence.
    apply (kept_stub nd); [by apply (Hst d)|]. split; [done|]. intros e He. rewrite Hc.
    case_decide as Ep; [|done]. destruct Hor as [Ho|]; [|done]. destruct Ho. by rewrite Ep. }
  assert (Hok : is_Some v \/ pos = Top -> table_ok t').
  { intros Hor. split; [apply detach_nodes_ok| |apply detach_shape]. intros d nd' Hd'.
    apply (Hkeep d nd' Hd'). destruct Hor as [ | ->]; [by right|by left]. }
  pose proof detach_nodes_ok as Hn'. pose proof detach_shape as Hs'.
  destruct pos as [|q e]; [by apply Hok; right|]. destruct v as [c|]; [apply Hok; left; eauto|].
  split; [exact Hn'|exact Hs'|]. intros d nd' Hd' Hdq. apply (Hkeep d nd' Hd').
  left. intros [= ->]. done.
Qed.

Lemma detach_shrinks : rn_lock n = 0 -> rn_info n = None -> shrinks t t'.
Proof.
  intros Hl Hi. split.
  - intros d nd' Hd'. destruct (detach_inv d nd' Hd') as (Hda & nd & Hd).
    destruct (detach_old d nd Hd Hda) as (nd1 & Hd1 & Hs & _). exists nd. split; [done|].
    by assert (nd1 = nd') as -> by congruence.
  - intros d nd Hd Hgone. destruct (decide (d = a)) as [->|Hda]; [by assert (nd = n) as -> by congruence|].
    destruct (detach_old d nd Hd Hda) as (nd1 & Hd1 & _). congruence.
Qed.

Lemma detach_size : (size (rt_nodes t') < size (rt_nodes t))%nat.
Proof.
  assert (E : dom (rt_nodes t') = dom (rt_nodes t) ∖ {[a]}).
  { apply set_eq. intros d. rewrite elem_of_difference, elem_of_singleton, !elem_of_dom. split.
    - intros [nd' Hd']. apply detach_inv in Hd' as [? [nd Hd]]. split; [by exists nd|done].
    - intros [[nd Hd] Hda]. destruct (detach_old d nd Hd Hda) as (nd' & ? & _). by exists nd'. }
  rewrite <- !size_dom, E, size_difference by (apply singleton_subseteq_l, elem_of_dom; by exists n).
  rewrite size_singleton. enough (size (dom (rt_nodes t)) <> 0)%nat by lia.
  rewrite size_dom. intros H0%map_size_empty_inv. rewrite H0 in Hn. by rewrite lookup_empty in Hn.
Qed.
End Detach.

(** The statements of [route_node_delete] that unlink a node compute [detach]. *)
Lemma unlink_detach t pos k a n b :
  nodes_ok t -> shape (view t) -> slot (view t) pos k (Some a) -> rt_nodes t !! a = Some n ->
  (t1 ← match rchild n b with
        | Some c => w ← rat t c; Ret (rput t c (with_parent w (owner pos)))
        | None => Ret t
        end;
   match owner pos with
   | Some q => w ← rat t1 q;
               Ret (rput t1 q (if bool_decide (rn_left w = Some a)
                               then with_left w (rchild n b) else with_right w (rchild n b)))
   | None => Ret (set_top t1 (rchild n b))
   end ≫= fun t2 => Ret (route_node_free t2 a))
  = Ret (detach t pos a (rchild n b)).
Proof.
  intros Hn Hsh Hs Ha.
  destruct (shape_some _ Hsh _ _ _ Hs) as (ka & Hka & _ & Hle & _).
  rewrite (node_key _ _ _ Ha) in Hka. injection Hka as <-.
  assert (Hchild : forall c, rchild n b = Some c -> exists nc, rt_nodes t !! c = Some nc /\ rkey n ++ [b] `prefix_of` rkey nc).
  { intros c Hc. pose proof (node_slot t a n b Ha) as Hsc. rewrite Hc in Hsc.
    destruct (shape_some _ Hsh _ _ _ Hsc) as (kc & (nc & Hnc & <-)%view_key & _ & Hlec & _). eauto. }
  set (m1 := match rchild n b with
             | Some c => alter (fun w => with_parent w (owner pos)) c (rt_nodes t) | None => rt_nodes t end).
  assert (E1 : match rchild n b with
               | Some c => w ← rat t c; Ret (rput t c (with_parent w (owner pos)))
               | None => Ret t end = Ret (RTable (rt_top t) m1 (rt_next t))).
  { unfold m1. destruct (rchild n b) as [c|]; [|by destruct t]. destruct (Hchild c eq_refl) as (nc & Hnc & _).
    rewrite (rat_lookup _ _ _ Hnc). cbn [mbind res_bind]. unfold rput.
    by rewrite (alter_insert (fun w => with_parent w (owner pos)) _ c nc). }
  rewrite E1. cbn [mbind res_bind]. unfold detach. fold m1. destruct pos as [|q e]; cbn [owner]; [done|].
  destruct (slot_under_inv t q e k _ Hs) as (nq & Hq & Ek & Ec).
  assert (Hm1 : m1 !! q = Some nq).
  { unfold m1. destruct (rchild n b) as [c|]; [|done]. rewrite lookup_alter_ne; [done|]. intros ->.
    destruct (Hchild q eq_refl) as (nc & Hnc & Hlec). assert (nc = nq) as -> by congruence.
    rewrite Ek in Hle. apply (prefix_snoc_irrefl (rkey n) b). etrans; [exact Hlec|]. by eapply prefix_snoc_l. }
  rewrite (rat_lookup _ q nq) by done. cbn [mbind res_bind].
  assert (Ew : (if bool_decide (rn_left nq = Some a) then with_left nq (rchild n b) else with_right nq (rchild n b))
               = with_child nq e (rchild n b)).
  { destruct e; [|by rewrite bool_decide_eq_true_2]. rewrite bool_decide_eq_false_2; [done|]. intros Hl.
    pose proof (node_slot t q nq false Hq) as Hsl. cbn [rchild] in Hsl. rewrite Hl in Hsl.
    pose proof (slot_node_det _ Hsh _ _ _ _ _ Hs Hsl). congruence. }
  rewrite Ew. unfold route_node_free, rput. cbn [rt_top rt_nodes rt_next].
  by rewrite (alter_insert (fun w => with_child w e (rchild n b)) _ q nq).
Qed.

(** A node that joins two subtrees stays when it is unlocked, any other goes. *)
Definition is_fork (n : rnode) : bool :=
  bool_decide (is_Some (rn_left n)) && bool_decide (is_Some (rn_right n)).
Definition released (t t' : rtable) (a : positive) (n : rnode) : Prop :=
  if is_fork n then t' = t else rt_nodes t' !! a = None.

Lemma shrinks_absent t t' a : shrinks t t' -> rt_nodes t !! a = None -> rt_nodes t' !! a = None.
Proof.
  intros Hs Ha. destruct (rt_nodes t' !! a) as [n'|] eqn:E; [|done].
  destruct (shrinks_kept _ _ Hs a n' E) as (n & Hn & _). congruence.
Qed.

Lemma route_node_delete_ok fuel t a n :
  ok_except t a -> rt_nodes t !! a = Some n -> rn_lock n = 0 -> rn_info n = None ->
  (size (rt_nodes t) <= fuel)%nat ->
  exists t', route_node_delete fuel t a = Ret t' /\ table_ok t' /\ shrinks t t' /\ released t t' a n.
Proof.
  revert t a n. induction fuel as [|fuel IH]; intros t a n He Ha Hl Hi Hf.
  { assert (H0 : size (rt_nodes t) = 0%nat) by lia. apply map_size_empty_inv in H0. rewrite H0 in Ha.
    by rewrite lookup_empty in Ha. }
  cbn [route_node_delete]. rewrite (rat_lookup _ _ _ Ha). cbn [mbind res_bind].
  rewrite Hl, Hi, Z.eqb_refl. cbn [cassert mbind res_bind]. rewrite ?(bool_decide_eq_true_2 (@None Z = None) eq_refl).
  cbn [cassert mbind res_bind].
  unfold released. fold (is_fork n). destruct (is_fork n) eqn:Eb; unfold is_fork in Eb.
  { exists t. split; [done|]. split; [|split; [reflexivity|done]]. apply andb_true_iff in Eb as [L R].
    apply bool_decide_eq_true in L, R. eapply ok_except_ok; [done..|]. by intros _. }
  set (b := match rn_left n with Some _ => false | None => true end).
  assert (Ech : match rn_left n with Some c => Some c | None => rn_right n end = rchild n b)
    by (unfold b, rchild; by destruct (rn_left n)).
  assert (Hno : rchild n (negb b) = None).
  { unfold b, rchild in *. destruct (rn_left n) eqn:L; [|done]. simpl. destruct (rn_right n) eqn:R; [|done]. done. }
  rewrite Ech. destruct He as [Hn Hsh Hst].
  destruct (shape_back _ Hsh a (rkey n) (node_key _ _ _ Ha)) as (pos & k & Hs).
  destruct (shape_some _ Hsh _ _ _ Hs) as (ka & _ & Hpar & _). rewrite (view_parent _ _ _ Ha) in Hpar.
  rewrite Hpar. pose proof (unlink_detach t pos k a n b Hn Hsh Hs Ha) as Hun.
  pose proof (detach_except t pos k a n b _ Hn Hsh Hs Ha eq_refl Hno Hst) as Hex.
  assert (Hshr : shrinks t (detach t pos a (rchild n b))) by (by eapply detach_shrinks).
  assert (Hsz : (size (rt_nodes (detach t pos a (rchild n b))) < size (rt_nodes t))%nat) by (by eapply detach_size).
  destruct (match rchild n b with
            | Some c => w ← rat t c; Ret (rput t c (with_parent w (owner pos)))
            | None => Ret t end) as [t1| |]; cbn [mbind res_bind] in Hun |- *; [|done..].
  destruct (match owner pos with
            | Some q => w ← rat t1 q; Ret (rput t1 q (if bool_decide (rn_left w = Some a)
                               then with_left w (rchild n b) else with_right w (rchild n b)))
            | None => Ret (set_top t1 (rchild n b)) end) as [t2| |];
    cbn [mbind res_bind] in Hun |- *; [|done..].
  assert (Et : route_node_free t2 a = detach t pos a (rchild n b)) by congruence. rewrite Et.
  set (t' := detach t pos a (rchild n b)) in *.
  assert (Hgone : rt_nodes t' !! a = None) by (unfold t'; by rewrite detach_lookup, decide_True).
  destruct pos as [|q e]; cbn [owner]; [by exists t'|].
  destruct (slot_under_inv t q e k _ Hs) as (nq & Hq & Ek & _).
  assert (Hqa : q <> a) by (intros E; rewrite E in Hs; by eapply (pos_not_own (view t))).
  destruct (detach_old t (Under q e) k a (rchild n b) Hs q nq Hq Hqa) as (nq' & Hq' & (Ep & El & Ei) & _).
  fold t' in Hq'. rewrite (rat_lookup _ _ _ Hq'). cbn [mbind res_bind].
  destruct (rn_lock nq' =? 0) eqn:Elk; zify_bool.
  - assert (Hx : ok_except t' q) by (destruct (rchild n b); [by apply ok_ok_except|done]).
    destruct (IH t' q nq' Hx Hq' Elk) as (t3 & Ht3 & Hok3 & Hsh3 & _); [| lia |].
    { rewrite Ei. apply (Hst q nq Hq Hqa). congruence. }
    exists t3. split; [done|]. split; [done|]. split; [by etrans|]. by apply (shrinks_absent t').
  - exists t'. split; [done|]. split; [|done]. destruct (rchild n b); [done|].
    eapply ok_except_ok; [exact Hex|exact Hq'|]. done.
Qed.

Lemma route_unlock_node_ok t a n :
  ok_except t a -> rt_nodes t !! a = Some n -> 0 < rn_lock n -> (rn_lock n = 1 -> rn_info n = None) ->
  exists t', route_unlock_node t a = Ret t' /\ table_ok t' /\ shrinks (set_lock t a n (rn_lock n - 1)) t' /\
    (rn_lock n <> 1 -> t' = set_lock t a n (rn_lock n - 1)) /\
    (rn_lock n = 1 -> released (set_lock t a n 0) t' a n).
Proof.
  intros He Ha Hl Hi. destruct (except_nodes _ _ He a n Ha) as [(_ & _ & Hu) _].
  assert (Hu' : is_u32 (rn_lock n - 1)) by (unfold is_u32 in *; lia).
  unfold route_unlock_node. rewrite (rat_lookup _ _ _ Ha). cbn [mbind res_bind].
  rewrite (u32_id _ Hu'). fold (set_lock t a n (rn_lock n - 1)).
  destruct (rn_lock n - 1 =? 0) eqn:E; zify_bool.
  - destruct (route_node_delete_ok (size (rt_nodes (set_lock t a n (rn_lock n - 1))))
      (set_lock t a n (rn_lock n - 1)) a (with_rlock n (rn_lock n - 1))) as (t' & Ht' & Hok & Hs & Hr).
    + by apply set_lock_except.
    + apply set_lock_self.
    + done.
    + apply Hi. lia.
    + done.
    + exists t'. do 3 (split; [done|]). split; [intros; lia|]. intros _.
      rewrite E in Hr. exact Hr.
  - eexists. split; [reflexivity|]. split; [|split; [reflexivity|split; [done|intros; lia]]].
    apply set_lock_ok; [done..|lia].
Qed.

(** ** Traversal *)
Lemma climb_ok t fuel k a n :
  nodes_ok t -> shape (view t) -> rt_nodes t !! a = Some n -> passed (view t) k (rkey n) ->
  (length (rkey n) < fuel)%nat ->
  exists o, climb fuel t None a = Ret o /\ is_next (view t) k o.
Proof.
  intros Hn Hsh. revert a n. induction fuel as [|fuel IH]; intros a n Ha Hpass Hf; [lia|].
  cbn [climb]. rewrite (rat_lookup _ _ _ Ha). cbn [mbind res_bind].
  destruct (shape_back _ Hsh a (rkey n) (node_key _ _ _ Ha)) as (pos & s & Hs).
  destruct (shape_some _ Hsh _ _ _ Hs) as (ka & Hka & Hpar & Hle & _).
  rewrite (node_key _ _ _ Ha) in Hka. injection Hka as <-.
  rewrite (view_parent _ _ _ Ha) in Hpar. rewrite Hpar. destruct pos as [|q b]; cbn [owner].
  - exists None. split; [done|]. eapply top_passed; [done|by apply node_key| |done].
    by apply slot_top_inv in Hs as [_ ?].
  - destruct (slot_under_inv t q b s _ Hs) as (nq & Hq & Es & Ec).
    rewrite (bool_decide_eq_false_2 (None = Some a)) by done. rewrite (rat_lookup _ _ _ Hq). cbn [mbind res_bind].
    assert (Hc : forall c, tchild (view t) q c = rchild nq c) by (intros; by apply view_child).
    destruct (bool_decide (rn_left nq = Some a) && bool_decide (is_Some (rn_right nq))) eqn:Eb.
    + apply andb_true_iff in Eb as [L R]. apply bool_decide_eq_true in L, R. destruct R as [r Hr].
      assert (b = false) as ->.
      { pose proof (node_slot t q nq false Hq) as Hsl. cbn [rchild] in Hsl. rewrite L in Hsl.
        pose proof (slot_node_det _ Hsh _ _ _ _ _ Hs Hsl). congruence. }
      exists (rn_right nq). split; [done|]. rewrite Hr.
      eapply (up_right _ Hsh k a q (rkey n) (rkey nq) false); eauto using node_key; by rewrite Hc.
    + assert (Hlt : (length (rkey nq) < length (rkey n))%nat).
      { rewrite Es in Hle. apply prefix_length in Hle. rewrite length_app in Hle. simpl in Hle. lia. }
      apply (IH q nq Hq); [|lia].
      eapply (up_passed _ Hsh k a q (rkey n) (rkey nq) b); eauto using node_key; [by rewrite Hc|].
      rewrite Hc. destruct b; [by left|right]. cbn [rchild] in *.
      rewrite (bool_decide_eq_true_2 _ Ec) in Eb. cbn [andb] in Eb. apply bool_decide_eq_false in Eb.
      destruct (rn_right nq); [by destruct Eb; eauto|done].
Qed.

(** The node [route_next] goes to. *)
Lemma next_found t a n :
  nodes_ok t -> shape (view t) -> rt_nodes t !! a = Some n ->
  exists o, is_next (view t) (rkey n) o /\
    next_node t None a = match o with
                         | Some next => move_lock t a next
                         | None => t ← route_unlock_node t a; Ret (t, None)
                         end.
Proof.
  intros Hn Hsh Ha. unfold next_node. rewrite (rat_lookup _ _ _ Ha). cbn [mbind res_bind].
  assert (Hc : forall c, tchild (view t) a c = rchild n c) by (intros; by apply view_child).
  pose proof (node_key _ _ _ Ha) as Hk.
  destruct (rn_left n) as [c|] eqn:L.
  - exists (Some c). split; [|done]. eapply next_left; eauto. by rewrite Hc.
  - destruct (rn_right n) as [c|] eqn:R.
    + exists (Some c). split; [|done]. eapply next_right; eauto; by rewrite Hc.
    + destruct (climb_ok t (S (Z.to_nat (prefixlen (rn_p n)))) (rkey n) a n Hn Hsh Ha) as (o & Ho & Hnext).
      * eapply leaf_passed; eauto; by rewrite Hc.
      * rewrite length_rkey. unfold plen. lia.
      * exists o. rewrite Ho. split; [done|]. by destruct o.
Qed.
