(* ===== verification/TableSpec.v ===== *)
(** * lib/table.c: what a routing table promises

    A table is a map from bit strings to information: [info_at].  The theorems say
    what each function does to that map and to the locks, that all of them keep
    [table_ok], and that the loop every client writes, from [route_top] through
    [route_next], visits each node once in dictionary order and leaves the table as
    it found it. *)
From stdpp Require Import base option list gmap fin_maps sorting.
From Stdlib Require Import ZArith Lia ZifyNat.
From S2P Require Import Prelude RouteInfo RouteCmp Prefix Radix Table TableFind TableEdit TableDelete.

(** [node->info = v]. *)
Definition set_info (t : rtable) (a : positive) (v : option Z) : res rtable :=
  n ← rat t a; Ret (rput t a (with_rinfo n v)).

(** [for (node = route_top (table); node; node = route_next (node))], collecting the
    nodes. *)
Fixpoint visit (fuel : nat) (t : rtable) (node : option positive) : res (rtable * list positive) :=
  match fuel, node with
  | O, _ => Fault
  | S _, None => Ret (t, [])
  | S fuel, Some a =>
      r ← route_next t a;
      let '(t, node) := (r : rtable * option positive) in
      s ← visit fuel t node;
      let '(t, l) := (s : rtable * list positive) in Ret (t, a :: l)
  end.
Definition walk_table (t : rtable) : res (rtable * list positive) :=
  r ← route_top t;
  let '(t, node) := (r : rtable * option positive) in
  visit (S (S (size (rt_nodes t)))) t node.

(** No lock is at its maximum. *)
Definition locks_low (t : rtable) : Prop :=
  forall a n, rt_nodes t !! a = Some n -> rn_lock n <> 2 ^ 32 - 1.

(** ** Traversal *)
Section Walk.
Context (t : rtable).
Hypothesis Hok : table_ok t.
Hypothesis Hlow : locks_low t.

(** The table while the loop stands on [a]. *)
Definition standing (a : positive) (n : rnode) : rtable := set_lock t a n (rn_lock n + 1).

Lemma standing_except a n : rt_nodes t !! a = Some n -> table_ok (standing a n).
Proof.
  intros Ha. destruct (route_lock_node_set t a n (ok_nodes_ok _ Hok) Ha (Hlow a n Ha)) as (_ & Hu & Hne).
  apply set_lock_ok; [by apply ok_ok_except|done..].
Qed.

Lemma is_next_equiv T U k o : tree_equiv T U -> is_next T k o -> is_next U k o.
Proof.
  intros E. pose proof (equiv_key _ _ E) as Hk. destruct o as [b|]; simpl.
  - intros (kb & Hb & Hlt & Hmin). exists kb. rewrite <- Hk. split; [done|]. split; [done|].
    intros d kd. rewrite <- Hk. apply Hmin.
  - intros Hno d kd. rewrite <- Hk. apply Hno.
Qed.

(** Giving back the lock on [a] restores the table [t1] it was taken on. *)
Lemma unlock_restores t1 a n :
  rt_nodes t1 !! a = Some n -> is_u32 (rn_lock n) -> rn_lock n <> 2 ^ 32 - 1 -> stub_ok n ->
  route_unlock_node (set_lock t1 a n (rn_lock n + 1)) a = Ret t1.
Proof.
  intros Ha Hu Hne Hst. unfold route_unlock_node. rewrite (rat_lookup _ _ _ (set_lock_self t1 a n _)).
  cbn [mbind res_bind with_rlock rn_lock]. replace (rn_lock n + 1 - 1) with (rn_lock n) by lia.
  rewrite (u32_id _ Hu).
  assert (E : rput (set_lock t1 a n (rn_lock n + 1)) a
      (with_rlock (with_rlock n (rn_lock n + 1)) (rn_lock n)) = t1).
  { unfold rput, set_lock, rput. cbn [rt_top rt_nodes rt_next]. rewrite insert_insert_eq.
    replace (with_rlock (with_rlock n _) (rn_lock n)) with n by (by destruct n).
    rewrite insert_id by done. by destruct t1. }
  rewrite E. destruct (rn_lock n =? 0) eqn:E0; zify_bool; [|done].
  destruct (Hst E0) as (Hi & [l Hl] & [r Hr]).
  destruct (size (rt_nodes t1)) as [|f] eqn:Hsz.
  { apply map_size_empty_inv in Hsz. rewrite Hsz in Ha. by rewrite lookup_empty in Ha. }
  cbn [route_node_delete]. rewrite (rat_lookup _ _ _ Ha). cbn [mbind res_bind].
  rewrite E0, Hi, Hl, Hr. done.
Qed.

Lemma route_next_ok a n :
  rt_nodes t !! a = Some n ->
  (exists b nb, is_next (view t) (rkey n) (Some b) /\ rt_nodes t !! b = Some nb /\
     route_next (standing a n) a = Ret (standing b nb, Some b)) \/
  (is_next (view t) (rkey n) None /\ route_next (standing a n) a = Ret (t, None)).
Proof.
  intros Ha. pose proof (ok_nodes_ok _ Hok) as Hn. pose proof (standing_except a n Ha) as Hs.
  destruct (Hn a n Ha) as [(_ & _ & Hu) _].
  destruct (next_found (standing a n) a (with_rlock n (rn_lock n + 1)))
    as (o & Hnext & Hcode); [by apply ok_nodes_ok|apply Hs|apply set_lock_self|].
  apply (is_next_equiv _ (view t)) in Hnext; [|by apply tree_equiv_sym, set_lock_view].
  unfold route_next. rewrite Hcode. destruct o as [b|].
  - left. destruct Hnext as (kb & (nb & Hb & <-)%view_key & Hlt & Hmin).
    assert (Hab : b <> a) by (intros ->; assert (nb = n) as -> by congruence; by apply (bits_lt_irrefl (rkey n))).
    exists b, nb. split; [exists (rkey nb); split; [by apply node_key|done]|]. split; [done|].
    unfold move_lock.
    assert (Hb' : rt_nodes (standing a n) !! b = Some nb).
    { unfold standing. by rewrite set_lock_lookup, decide_False. }
    destruct (route_lock_node_set (standing a n) b nb (ok_nodes_ok _ Hs) Hb' (Hlow b nb Hb)) as (-> & _).
    cbn [mbind res_bind].
    assert (Ecomm : set_lock (standing a n) b nb (rn_lock nb + 1)
                    = set_lock (standing b nb) a n (rn_lock n + 1)).
    { unfold standing, set_lock, rput. cbn [rt_top rt_nodes rt_next]. f_equal. by apply insert_insert_ne. }
    rewrite Ecomm, unlock_restores; [done| |done|by apply (Hlow a)|by apply (ok_stub _ Hok a)].
    unfold standing. by rewrite set_lock_lookup, decide_False.
  - right. split; [done|]. unfold standing.
    rewrite unlock_restores; [done|done|done|by apply (Hlow a)|by apply (ok_stub _ Hok a)].
Qed.

(** Nodes that come after the bits [k]. *)
Definition remaining (k : list bool) : nat :=
  length (filter (fun x : positive * rnode => bits_lt k (rkey x.2)) (map_to_list (rt_nodes t))).

Lemma remaining_next k b nb :
  is_next (view t) k (Some b) -> rt_nodes t !! b = Some nb -> (remaining (rkey nb) < remaining k)%nat.
Proof.
  intros (kb & Hkb & Hlt & _) Hb. rewrite (node_key _ _ _ Hb) in Hkb. injection Hkb as <-.
  apply (filter_length_lt _ _ _ (b, nb)); simpl.
  - intros [d nd] Hd. simpl in *. by eapply bits_lt_trans.
  - by apply elem_of_map_to_list.
  - done.
  - apply bits_lt_irrefl.
Qed.

(** Node [d] comes before node [e]. *)
Definition before (d e : positive) : Prop :=
  exists nd ne, rt_nodes t !! d = Some nd /\ rt_nodes t !! e = Some ne /\ bits_lt (rkey nd) (rkey ne).

Lemma visit_ok fuel a n :
  rt_nodes t !! a = Some n -> (S (remaining (rkey n)) < fuel)%nat ->
  exists l, visit fuel (standing a n) (Some a) = Ret (t, a :: l) /\ StronglySorted before (a :: l) /\
    forall d nd, rt_nodes t !! d = Some nd -> (d ∈ l <-> bits_lt (rkey n) (rkey nd)).
Proof.
  revert a n. induction fuel as [|fuel IH]; intros a n Ha Hf; [lia|]. cbn [visit].
  destruct (route_next_ok a n Ha) as [(b & nb & Hnext & Hb & Hr) | [Hnone Hr]];
    rewrite Hr; cbn [mbind res_bind].
  - pose proof (remaining_next _ _ _ Hnext Hb) as Hdec.
    destruct (IH b nb Hb ltac:(lia)) as (l & Hv & Hsorted & Hl). rewrite Hv. cbn [mbind res_bind].
    exists (b :: l). split; [done|]. destruct Hnext as (kb & Hkb & Hlt & Hmin).
    rewrite (node_key _ _ _ Hb) in Hkb. injection Hkb as <-.
    assert (Hmem : forall d nd, rt_nodes t !! d = Some nd -> (d ∈ b :: l <-> bits_lt (rkey n) (rkey nd))).
    { intros d nd Hd. rewrite elem_of_cons, (Hl d nd Hd). split.
      - intros [-> | Hbd]; [by assert (nd = nb) as -> by congruence|by eapply bits_lt_trans].
      - intros Hnd. by apply (Hmin d (rkey nd) (node_key _ _ _ Hd)). }
    split; [|done]. constructor; [done|]. apply Forall_forall. intros d Hd.
    assert (Hin : is_Some (rt_nodes t !! d)).
    { apply elem_of_cons in Hd as [-> | Hd]; [eauto|]. inversion Hsorted as [|? ? _ Hall]. subst.
      rewrite Forall_forall in Hall. destruct (Hall d Hd) as (? & ? & _ & ? & _). eauto. }
    destruct Hin as [nd Hin]. exists n, nd. split; [done|]. split; [done|]. by apply (Hmem d nd).
  - destruct fuel as [|fuel]; [lia|]. cbn [visit mbind res_bind]. exists []. split; [done|].
    split; [repeat constructor|]. intros d nd Hd. split; [by intros ?%elem_of_nil|].
    intros Hlt. by destruct (Hnone d (rkey nd) (node_key _ _ _ Hd)).
Qed.

Lemma remaining_size k : (remaining k <= size (rt_nodes t))%nat.
Proof.
  unfold remaining. etrans; [apply length_filter|]. by rewrite length_map_to_list.
Qed.

Lemma walk_table_ok :
  exists l, walk_table t = Ret (t, l) /\ StronglySorted before l /\
    forall d, d ∈ l <-> is_Some (rt_nodes t !! d).
Proof.
  unfold walk_table, route_top. pose proof (ok_shape _ Hok) as Hsh. pose proof (slot_top (view t)) as Hs.
  cbn [view ttop] in Hs. destruct (rt_top t) as [a|] eqn:Et.
  - destruct (shape_some _ Hsh _ _ _ Hs) as (ka & (n & Ha & <-)%view_key & _ & _ & Hmin).
    destruct (route_lock_node_set t a n (ok_nodes_ok _ Hok) Ha (Hlow a n Ha)) as (-> & _).
    cbn [mbind res_bind]. fold (standing a n).
    destruct (visit_ok (S (S (size (rt_nodes (standing a n))))) a n Ha) as (l & Hv & Hsorted & Hl).
    { assert (E : size (rt_nodes (standing a n)) = size (rt_nodes t)).
      { unfold standing, set_lock, rput. cbn. by rewrite map_size_insert_Some by eauto. }
      rewrite E. pose proof (remaining_size (rkey n)) as Hle. lia. }
    exists (a :: l). split; [done|]. split; [done|]. intros d. rewrite elem_of_cons. split.
    + intros [-> | Hd]; [eauto|]. inversion Hsorted as [|? ? _ Hall]. subst.
      rewrite Forall_forall in Hall. destruct (Hall d Hd) as (? & ? & _ & ? & _). eauto.
    + intros [nd Hd]. destruct (below_or_same _ Hsh a (rkey n) d (rkey nd)) as [-> | Hlt];
        [by apply node_key..|eapply Hmin; [by apply node_key|apply prefix_nil]|by left|right].
      by apply (Hl d nd).
  - exists []. split; [done|]. split; [constructor|]. intros d. split; [by intros ?%elem_of_nil|].
    intros [nd Hd]. by destruct (shape_none _ Hsh _ _ Hs _ _ (node_key _ _ _ Hd)); apply prefix_nil.
Qed.
End Walk.

(** ** The map of a table *)
Definition info_at (t : rtable) (k : list bool) : option Z :=
  match filter (fun x : positive * rnode => rkey x.2 = k) (map_to_list (rt_nodes t)) with
  | (_, n) :: _ => rn_info n
  | [] => None
  end.

Lemma info_at_entry t k v : shape (view t) -> info_at t k = Some v <-> exists a, entry t k a v.
Proof.
  intros Hsh. unfold info_at.
  assert (Hf : forall a n, (a, n) ∈ filter (fun x : positive * rnode => rkey x.2 = k) (map_to_list (rt_nodes t))
                           <-> rt_nodes t !! a = Some n /\ rkey n = k).
  { intros a n. rewrite list_elem_of_filter, elem_of_map_to_list. simpl. tauto. }
  destruct (filter _ _) as [|[a n] l] eqn:E.
  - split; [done|]. intros (a & n & Hn & Hk & _). assert (Hin : (a, n) ∈ @nil (positive * rnode)) by (by apply Hf).
    by apply elem_of_nil in Hin.
  - destruct (Hf a n) as [Hin _]. specialize (Hin (list_elem_of_here _ _)). destruct Hin as [Ha Hk]. split.
    + intros Hi. exists a, n. done.
    + intros (b & nb & Hb & Hkb & Hi).
      assert (b = a) as -> by (apply (shape_inj _ Hsh _ _ k); apply view_key; [by exists nb|by exists n]).
      congruence.
Qed.

Lemma info_at_ext t t' k :
  shape (view t) -> shape (view t') -> (forall a v, entry t k a v <-> entry t' k a v) ->
  info_at t k = info_at t' k.
Proof.
  intros H1 H2 He. apply option_eq. intros v. rewrite !info_at_entry by done.
  split; intros [a Ha]; exists a; by apply He.
Qed.

Lemma info_at_node t a n : shape (view t) -> rt_nodes t !! a = Some n -> info_at t (rkey n) = rn_info n.
Proof.
  intros Hsh Ha. apply option_eq. intros v. rewrite info_at_entry by done. split.
  - intros (b & nb & Hb & Hk & Hi).
    assert (b = a) as -> by (apply (shape_inj _ Hsh _ _ (rkey n)); apply view_key; [by exists nb|by exists n]).
    congruence.
  - intros Hi. by exists a, n.
Qed.

(** Only the information of nodes matters. *)
Lemma entry_set_lock t a n l k d v :
  rt_nodes t !! a = Some n -> entry (set_lock t a n l) k d v <-> entry t k d v.
Proof.
  intros Ha. unfold entry. rewrite set_lock_lookup. case_decide as E; [subst d|done].
  split; intros (nd & Hd & Hk & Hi).
  - injection Hd as <-. exists n. done.
  - exists (with_rlock n l). by assert (nd = n) as -> by congruence.
Qed.

Lemma entry_grown t t' k x c k' d v : grown t t' k x c -> entry t k' d v <-> entry t' k' d v.
Proof.
  intros G. split; intros (nd & Hd & Hk & Hi).
  - destruct (grown_extends _ _ _ _ _ G d nd Hd) as (nd' & Hd' & Hkept). exists nd'.
    rewrite (kept_rkey _ _ Hkept). destruct Hkept as [(_ & _ & ->) _]. done.
  - destruct (rt_nodes t !! d) as [n0|] eqn:E.
    + destruct (grown_extends _ _ _ _ _ G d n0 E) as (nd' & Hd' & Hkept). assert (nd' = nd) as -> by congruence.
      exists n0. rewrite <- (kept_rkey _ _ Hkept). destruct Hkept as [(_ & _ & <-) _]. done.
    + destruct (decide (d = x)) as [->|Hdx].
      * destruct (grown_node _ _ _ _ _ G) as (n & Hn & _ & _ & Hno). congruence.
      * destruct (grown_fork _ _ _ _ _ G d nd Hd E Hdx) as [_ Hno]. congruence.
Qed.

Lemma entry_shrinks t t' k d v : shrinks t t' -> entry t k d v <-> entry t' k d v.
Proof.
  intros S. split; intros (nd & Hd & Hk & Hi).
  - destruct (rt_nodes t' !! d) as [nd'|] eqn:E.
    + destruct (shrinks_kept _ _ S d nd' E) as (n & Hn & (Ep & _ & Ei)).
      assert (n = nd) as -> by congruence. exists nd'. unfold rkey in *. by rewrite Ep, Ei.
    + destruct (shrinks_gone _ _ S d nd Hd E) as [_ Hno]. congruence.
  - destruct (shrinks_kept _ _ S d nd Hd) as (n & Hn & (Ep & _ & Ei)). exists n.
    unfold rkey in *. by rewrite <- Ep, <- Ei.
Qed.

(** Setting the information of a locked node. *)
Lemma set_info_ok t a n v :
  table_ok t -> rt_nodes t !! a = Some n -> rn_lock n <> 0 ->
  exists t', set_info t a v = Ret t' /\ table_ok t' /\
    forall k, info_at t' k = if decide (k = rkey n) then v else info_at t k.
Proof.
  intros Hok Ha Hl. unfold set_info. rewrite (rat_lookup _ _ _ Ha). cbn [mbind res_bind].
  eexists. split; [reflexivity|].
  assert (Hlook : forall d, rt_nodes (rput t a (with_rinfo n v)) !! d =
                            if decide (d = a) then Some (with_rinfo n v) else rt_nodes t !! d).
  { intros d. cbn. case_decide as E; [subst d; apply lookup_insert_eq|by rewrite lookup_insert_ne]. }
  assert (Hsh : shape (view (rput t a (with_rinfo n v)))).
  { eapply shape_equiv; [|apply Hok]. split; unfold view; cbn [tkey tparent tchild ttop]; [| | |done];
      intros d; intros; rewrite Hlook; case_decide as E; try done; subst d; by rewrite Ha. }
  split.
  - split; [..|exact Hsh].
    + intros d nd. rewrite Hlook. case_decide as E; [|apply Hok]. subst d. intros [= <-]. exact (ok_node _ Hok a n Ha).
    + intros d nd. rewrite Hlook. case_decide as E; [|apply Hok]. by intros [= <-].
  - intros k. case_decide as Ek; [subst k|].
    + apply (info_at_node _ a (with_rinfo n v) Hsh). by rewrite Hlook, decide_True.
    + apply info_at_ext; [done|apply Hok|]. intros d w. unfold entry. rewrite Hlook. case_decide as E; [|done].
      subst d. split; intros (nd & Hd & Hk & Hi).
      * injection Hd as <-. by destruct Ek.
      * assert (nd = n) as -> by congruence. by destruct Ek.
Qed.

(** ** Release *)
Lemma key_bound n : node_ok n -> (length (rkey n) <= 128)%nat.
Proof. intros ([Hp _] & Hl & _). rewrite length_rkey. unfold plen, zlen in *. lia. Qed.

Lemma child_node t a n b c :
  shape (view t) -> rt_nodes t !! a = Some n -> rchild n b = Some c ->
  exists nc, rt_nodes t !! c = Some nc /\ (length (rkey n) < length (rkey nc))%nat.
Proof.
  intros Hsh Ha Hc. pose proof (node_slot t a n b Ha) as Hs. rewrite Hc in Hs.
  destruct (shape_some _ Hsh _ _ _ Hs) as (kc & (nc & Hnc & <-)%view_key & _ & Hle & _).
  exists nc. split; [done|]. apply prefix_length in Hle. rewrite length_app in Hle. simpl in Hle. lia.
Qed.

(** A node at the top without children is the only one. *)
Lemma lone_top t k a n :
  shape (view t) -> slot (view t) Top k (Some a) -> rt_nodes t !! a = Some n ->
  rn_left n = None -> rn_right n = None -> delete a (rt_nodes t) = ∅.
Proof.
  intros Hsh Hs Ha L R. destruct (shape_some _ Hsh _ _ _ Hs) as (ka & Hkey & _ & _ & Hmin).
  rewrite (node_key _ _ _ Ha) in Hkey. injection Hkey as <-. apply slot_top_inv in Hs as [-> _].
  apply map_eq. intros d. rewrite lookup_empty.
  destruct (decide (d = a)) as [->|Hda]; [apply lookup_delete_eq|]. rewrite lookup_delete_ne by done.
  destruct (rt_nodes t !! d) as [nd|] eqn:Hd; [|done]. destruct Hda.
  pose proof (Hmin d (rkey nd) (node_key _ _ _ Hd) (prefix_nil _)) as [Heq | [b Hb]]%prefix_cases.
  - apply (shape_inj _ Hsh _ _ (rkey n)); [rewrite Heq|]; by apply node_key.
  - pose proof (node_slot t a n b Ha) as Hsl. replace (rchild n b) with (@None positive) in Hsl by (by destruct b).
    by destruct (shape_none _ Hsh _ _ Hsl _ _ (node_key _ _ _ Hd)).
Qed.

Lemma free_loop_ok fuel t a n :
  nodes_ok t -> shape (view t) -> rt_nodes t !! a = Some n ->
  (130 * size (rt_nodes t) + 128 - length (rkey n) + 2 <= fuel)%nat ->
  exists t', free_loop fuel t (Some a) = Ret t' /\ rt_nodes t' = ∅.
Proof.
  revert t a n. induction fuel as [|fuel IH]; intros t a n Hn Hsh Ha Hf; [lia|].
  cbn [free_loop]. unfold free_step. rewrite (rat_lookup _ _ _ Ha). cbn [mbind res_bind].
  pose proof (key_bound n (proj1 (Hn a n Ha))) as Hka.
  destruct (rn_left n) as [c|] eqn:L; [|destruct (rn_right n) as [c|] eqn:R]; cbn [mbind res_bind].
  - destruct (child_node t a n false c Hsh Ha L) as (nc & Hc & Hlen). apply (IH t c nc Hn Hsh Hc).
    pose proof (key_bound nc (proj1 (Hn c nc Hc))). lia.
  - destruct (child_node t a n true c Hsh Ha R) as (nc & Hc & Hlen). apply (IH t c nc Hn Hsh Hc).
    pose proof (key_bound nc (proj1 (Hn c nc Hc))). lia.
  - destruct (shape_back _ Hsh a (rkey n) (node_key _ _ _ Ha)) as (pos & k & Hs).
    destruct (shape_some _ Hsh _ _ _ Hs) as (ka & Hkey & Hpar & Hle & Hmin).
    rewrite (node_key _ _ _ Ha) in Hkey. injection Hkey as <-.
    rewrite (view_parent _ _ _ Ha) in Hpar. rewrite Hpar.
    pose proof (unlink_detach t pos k a n false Hn Hsh Hs Ha) as Hun. cbn [rchild] in Hun. rewrite L in Hun.
    destruct pos as [|q e]; cbn [owner] in *.
    + cbn [mbind res_bind]. destruct fuel as [|fuel]; [lia|]. cbn [free_loop].
      eexists. split; [reflexivity|]. by eapply lone_top.
    + destruct (slot_under_inv t q e k _ Hs) as (nq & Hq & Ek & _).
      cbn [mbind res_bind] in Hun. rewrite (rat_lookup _ _ _ Hq) in *. cbn [mbind res_bind] in *.
      assert (Et : route_node_free (rput t q (if bool_decide (rn_left nq = Some a)
          then with_left nq None else with_right nq None)) a = detach t (Under q e) a None) by congruence.
      rewrite Et. assert (Hqa : q <> a).
      { intros ->. assert (nq = n) as -> by congruence. rewrite Ek in Hle. by apply (prefix_snoc_irrefl (rkey n) e). }
      destruct (detach_old t (Under q e) k a None Hs q nq Hq Hqa) as (nq' & Hq' & (Ep & _) & _).
      apply (IH _ q nq').
      * by eapply detach_nodes_ok.
      * by eapply (detach_shape t (Under q e) k a n false).
      * done.
      * assert (Hsz : (size (rt_nodes (detach t (Under q e) a None)) < size (rt_nodes t))%nat) by (by eapply detach_size).
        lia.
Qed.

(** [route_node_get] locks a node [a] of a table [t0] with the same map. *)
Lemma get_steps_table t p :
  table_ok t -> key_ok p ->
  exists t0 a c n, get_steps t p = Ret (t0, a, c) /\ (c <= 2)%nat /\
    size (rt_nodes t0) = (size (rt_nodes t) + c)%nat /\
    rt_nodes t0 !! a = Some n /\ rkey n = pbits p /\ (rn_lock n = 0 \/ rt_nodes t !! a = Some n) /\
    ok_except t0 a /\ forall k, info_at t0 k = info_at t k.
Proof.
  intros Hok Hp.
  destruct (get_steps_ok t p (ok_nodes_ok _ Hok) (ok_shape _ Hok) Hp) as (t0 & a & c & Hget & Hc2 & Hcase).
  exists t0, a, c. destruct Hcase as [(-> & -> & n & Ha & Hk) | G].
  - exists n. repeat (split; [by eauto using ok_ok_except|]). done.
  - destruct (grown_node _ _ _ _ _ G) as (n & Ha & Hk & Hl & Hi). exists n.
    do 2 (split; [done|]). split; [apply G|]. do 2 (split; [done|]). split; [by left|]. split.
    + split; [apply G|apply G|]. intros d nd Hd Hda. destruct (rt_nodes t !! d) as [n0|] eqn:E.
      * destruct (grown_extends _ _ _ _ _ G d n0 E) as (nd' & Hd' & Hkept). assert (nd' = nd) as -> by congruence.
        eapply kept_stub; [|exact Hkept]. by apply (ok_stub _ Hok d).
      * by apply (grown_fork _ _ _ _ _ G d).
    + intros k. apply info_at_ext; [apply G|apply Hok|]. intros d w. symmetry. by eapply entry_grown.
Qed.

Lemma table_insert_ok t p v :
  table_ok t -> locks_low t -> key_ok p ->
  exists t1 a t2, route_node_get t p = Ret (t1, a) /\ table_ok t1 /\ has_key t1 a (pbits p) /\
    (forall k, info_at t1 k = info_at t k) /\
    set_info t1 a v = Ret t2 /\ table_ok t2 /\
    (forall k, info_at t2 k = if decide (k = pbits p) then v else info_at t k).
Proof.
  intros Hok Hlow Hp.
  destruct (get_steps_table t p Hok Hp) as (t0 & a & c & n & Hget & _ & _ & Ha & Hk & Hlk & Hex & Hinfo).
  assert (Hl : rn_lock n <> 2 ^ 32 - 1) by (destruct Hlk as [-> | Hold]; [done|by apply (Hlow a)]).
  destruct (route_lock_node_set t0 a n (except_nodes _ _ Hex) Ha Hl) as (Hlock & Hu & Hne).
  pose proof (set_lock_ok t0 a n _ Hex Ha Hu Hne) as Hok1.
  assert (Hinfo1 : forall k, info_at (set_lock t0 a n (rn_lock n + 1)) k = info_at t k).
  { intros k. rewrite <- Hinfo. apply info_at_ext; [apply Hok1|apply Hex|]. intros d w. by apply entry_set_lock. }
  destruct (set_info_ok _ a _ v Hok1 (set_lock_self t0 a n _)) as (t2 & Hset & Hok2 & Hinfo2); [done|].
  exists (set_lock t0 a n (rn_lock n + 1)), a, t2. rewrite route_node_get_steps, Hget. cbn [mbind res_bind].
  rewrite Hlock. cbn [mbind res_bind].
  split; [done|]. split; [done|]. split; [exists (with_rlock n (rn_lock n + 1)); split; [apply set_lock_self|done]|].
  split; [done|]. split; [done|]. split; [done|]. intros k. rewrite Hinfo2. change (rkey (with_rlock n _)) with (rkey n).
  rewrite Hk. case_decide; [done|]. apply Hinfo1.
Qed.

Lemma route_table_init_ok : table_ok route_table_init.
Proof.
  split; [by intros a n Ha|by intros a n Ha|]. split; simpl; try done.
  intros pos k c Hs. by inversion Hs.
Qed.

Lemma route_table_free_ok t :
  table_ok t -> exists t', route_table_free t = Ret t' /\ rt_nodes t' = ∅.
Proof.
  intros Hok. unfold route_table_free. pose proof (slot_top (view t)) as Hs. cbn [view ttop] in Hs.
  pose proof (ok_shape _ Hok) as Hsh. destruct (rt_top t) as [a|].
  - destruct (shape_some _ Hsh _ _ _ Hs) as (ka & (n & Ha & _)%view_key & _).
    apply (free_loop_ok _ t a n); [by apply ok_nodes_ok|done|done|lia].
  - cbn [Nat.mul free_loop]. exists t. split; [done|]. apply map_eq. intros d. rewrite lookup_empty.
    destruct (rt_nodes t !! d) as [nd|] eqn:Hd; [|done].
    by destruct (shape_none _ Hsh _ _ Hs _ _ (node_key _ _ _ Hd) (prefix_nil _)).
Qed.

(** ** Properties *)

(** C31. Inserting: [route_node_get] returns the node for the bits of the prefix, made
    when it was missing, keeps the invariant and the map; storing information there
    changes the map at these bits only. *)
Theorem route_node_get_spec t p v :
  table_ok t -> locks_low t -> key_ok p ->
  exists t1 a t2, route_node_get t p = Ret (t1, a) /\ table_ok t1 /\ has_key t1 a (pbits p) /\
    (forall k, info_at t1 k = info_at t k) /\
    set_info t1 a v = Ret t2 /\ table_ok t2 /\
    (forall k, info_at t2 k = if decide (k = pbits p) then v else info_at t k).
Proof. apply table_insert_ok. Qed.

(** Exact lookup: [route_node_lookup] returns, locked, the node that holds the
    information at the bits of the prefix, and NULL without touching the table when
    the map has none. *)
Theorem route_node_lookup_spec t p :
  table_ok t -> locks_low t -> prefix_ok p ->
  match info_at t (pbits p) with
  | Some v => exists a n, rt_nodes t !! a = Some n /\ rkey n = pbits p /\ rn_info n = Some v /\
      route_node_lookup t p = Ret (set_lock t a n (rn_lock n + 1), Some a) /\
      table_ok (set_lock t a n (rn_lock n + 1))
  | None => route_node_lookup t p = Ret (t, None)
  end.
Proof.
  intros Hok Hlow Hp. pose proof (ok_nodes_ok _ Hok) as Hn. pose proof (ok_shape _ Hok) as Hsh.
  destruct (lookup_walk_ok t p Hn Hsh Hp (walk_fuel p) Top [] (rt_top t))
    as [(a & n & v & Ha & Hk & Hi & Hr) | [Hno Hr]];
    [apply start_path|unfold walk_fuel, plen; simpl; lia..| |]; unfold route_node_lookup; rewrite Hr.
  - rewrite <- Hk, (info_at_node _ a n Hsh Ha), Hi. exists a, n.
    destruct (route_lock_node_set t a n Hn Ha (Hlow a n Ha)) as (Hlock & Hu & Hne).
    rewrite (route_lock_node_ok t a n Ha) in Hlock.
    assert (locked t a n = set_lock t a n (rn_lock n + 1)) as -> by congruence.
    do 4 (split; [done|]). apply set_lock_ok; [by apply ok_ok_except|done..].
  - destruct (info_at t (pbits p)) as [v|] eqn:E; [|done].
    apply info_at_entry in E as [a Ha]; [|done]. by destruct (Hno a v).
Qed.

(** C32. Longest match: [route_node_match] returns the entry with the longest bits
    among those that start the given address, and NULL when there is none. *)
Theorem route_node_match_longest t p :
  table_ok t -> prefix_ok p ->
  exists m, best t p m /\
    route_node_match t p = match m with
                           | Some a => t ← route_lock_node t a; Ret (t, Some a)
                           | None => Ret (t, None)
                           end.
Proof.
  intros Hok Hp. destruct (route_node_match_ok t p (ok_nodes_ok _ Hok) (ok_shape _ Hok) Hp) as (m & Hm & Hbest).
  exists m. split; [done|]. unfold route_node_match. rewrite Hm. by destruct m.
Qed.

(** C33. Unlocking gives back one lock.  If it was not the last, the node's lock
    goes down by one and nothing else changes.  If it was, the node stays, with
    lock 0, when it joins two subtrees, and is taken out of the tree otherwise;
    in the tree that is left every node without a lock joins two subtrees, so the
    stubs above it that lost a subtree are gone too; every other node that is
    left is as before, every node that went had no lock and no information, and
    the map of the entries is the same. *)
Theorem route_unlock_node_spec t a n :
  table_ok t -> rt_nodes t !! a = Some n -> 0 < rn_lock n -> (rn_lock n = 1 -> rn_info n = None) ->
  exists t', route_unlock_node t a = Ret t' /\ table_ok t' /\
    (rn_lock n <> 1 -> t' = rput t a (with_rlock n (rn_lock n - 1))) /\
    (rn_lock n = 1 ->
       if is_fork n then t' = rput t a (with_rlock n 0) else rt_nodes t' !! a = None) /\
    (forall d nd', rt_nodes t' !! d = Some nd' -> rn_lock nd' = 0 -> is_fork nd' = true) /\
    (forall d nd, rt_nodes t !! d = Some nd -> d <> a ->
       match rt_nodes t' !! d with
       | Some nd' => rn_p nd' = rn_p nd /\ rn_lock nd' = rn_lock nd /\ rn_info nd' = rn_info nd
       | None => rn_lock nd = 0 /\ rn_info nd = None
       end) /\
    (forall k, info_at t' k = info_at t k).
Proof.
  intros Hok Ha Hl Hi.
  destruct (route_unlock_node_ok t a n (ok_ok_except _ a Hok) Ha Hl Hi) as (t' & Hun & Hok' & Hs & H1 & H2).
  exists t'. split; [done|]. split; [done|]. split; [exact H1|]. split; [exact H2|]. split; [|split].
  - intros d nd' Hd Hl0. destruct (ok_stub _ Hok' d nd' Hd Hl0) as (_ & L & R). unfold is_fork.
    by rewrite !bool_decide_true.
  - intros d nd Hd Hda. assert (Hd1 : rt_nodes (set_lock t a n (rn_lock n - 1)) !! d = Some nd)
      by (by rewrite set_lock_lookup, decide_False).
    destruct (rt_nodes t' !! d) as [nd'|] eqn:E; [|by apply (shrinks_gone _ _ Hs d nd)].
    destruct (shrinks_kept _ _ Hs d nd' E) as (nd1 & E1 & Hsame). by assert (nd1 = nd) as <- by congruence.
  - intros k. apply info_at_ext; [apply Hok'|apply Hok|]. intros d v.
    rewrite <- (entry_set_lock t a n (rn_lock n - 1) k d v Ha). symmetry. by apply entry_shrinks.
Qed.

(** Dropping the last lock of a node that still holds information stops the
    daemon at the [assert] of [route_node_delete]. *)
Theorem route_unlock_node_info_aborts t a n v :
  rt_nodes t !! a = Some n -> rn_lock n = 1 -> rn_info n = Some v -> route_unlock_node t a = Abort.
Proof.
  intros Ha Hl Hi. unfold route_unlock_node. rewrite (rat_lookup _ _ _ Ha). cbn [mbind res_bind].
  rewrite Hl. fold (set_lock t a n (u32 (1 - 1))). change (u32 (1 - 1) =? 0) with true. cbn iota.
  destruct (size (rt_nodes (set_lock t a n (u32 (1 - 1))))) as [|f] eqn:E.
  { apply map_size_empty_inv in E. pose proof (set_lock_self t a n (u32 (1 - 1))) as H.
    rewrite E in H. by rewrite lookup_empty in H. }
  cbn [route_node_delete]. rewrite (rat_lookup _ _ _ (set_lock_self t a n _)). cbn. by rewrite Hi.
Qed.

(** C34. The loop [for (node = route_top (t); node; node = route_next (node))] ends,
    visits every node once, shorter prefixes before longer ones and 0 before 1, and
    leaves the table as it was. *)
Theorem walk_table_spec t :
  table_ok t -> locks_low t ->
  exists l, walk_table t = Ret (t, l) /\ StronglySorted (before t) l /\
    forall d, d ∈ l <-> is_Some (rt_nodes t !! d).
Proof. apply walk_table_ok. Qed.

(** [route_table_free] ends and releases every node of the table. *)
Theorem route_table_free_all t :
  table_ok t -> exists t', route_table_free t = Ret t' /\ rt_nodes t' = ∅.
Proof. apply route_table_free_ok. Qed.

(** ** A sample table *)
Definition insert_route (t : rtable) (x : ip_prefix * Z) : res rtable :=
  g ← route_node_get t x.1; let '(t, a) := (g : rtable * positive) in set_info t a (Some x.2).
Fixpoint insert_all (l : list (ip_prefix * Z)) (t : rtable) : res rtable :=
  match l with
  | [] => Ret t
  | x :: l => t ← insert_route t x; insert_all l t
  end.

Definition lows (t : rtable) : bool := forallb (fun x => negb (rn_lock x.2 =? 2 ^ 32 - 1)) (map_to_list (rt_nodes t)).

Lemma lows_ok t : lows t = true -> locks_low t.
Proof.
  intros H a n Ha. apply elem_of_map_to_list, list_elem_of_In in Ha.
  unfold lows in H. rewrite forallb_forall in H. specialize (H _ Ha). simpl in H. unneg. zify_bool. done.
Qed.

(** The hypotheses of each insertion, evaluated along the way. *)
Fixpoint insert_checks (l : list (ip_prefix * Z)) (t : rtable) : bool :=
  match l with
  | [] => true
  | x :: l => lows t && bool_decide (key_ok x.1) &&
              match insert_route t x with Ret t => insert_checks l t | _ => false end
  end.

Lemma insert_all_ok l t :
  table_ok t -> insert_checks l t = true -> exists t', insert_all l t = Ret t' /\ table_ok t'.
Proof.
  revert t. induction l as [|x l IH]; intros t Hok Hc; cbn [insert_all insert_checks] in *; [eauto|].
  rewrite !andb_true_iff in Hc. destruct Hc as [[Hlow Hp] Hc]. apply lows_ok in Hlow.
  apply bool_decide_eq_true in Hp. unfold insert_route in *.
  destruct (table_insert_ok t x.1 (Some x.2) Hok Hlow Hp) as (t1 & a & t2 & Hg & _ & _ & _ & Hs & Hok2 & _).
  rewrite Hg in *. cbn [mbind res_bind] in *. rewrite Hs in *. cbn [mbind res_bind]. by apply IH.
Qed.

Definition sample_routes : list (ip_prefix * Z) :=
  [(IpPrefix AF_INET 8 [10; 0; 0; 0], 1); (IpPrefix AF_INET 16 [10; 1; 0; 0], 2);
   (IpPrefix AF_INET 16 [10; 2; 0; 0], 3); (IpPrefix AF_INET 24 [192; 168; 1; 0], 4)].
Definition sample_table : rtable :=
  match insert_all sample_routes route_table_init with Ret t => t | _ => route_table_init end.

Lemma sample_table_ok : table_ok sample_table.
Proof.
  destruct (insert_all_ok sample_routes route_table_init route_table_init_ok) as (t & E & Ht);
    [vm_compute; reflexivity|]. unfold sample_table. by rewrite E.
Qed.

Lemma sample_table_low : locks_low sample_table.
Proof. apply lows_ok. vm_compute. reflexivity. Qed.

(** Node 1 is 10.0.0.0/8. *)
Definition sample_node : rnode := default (fresh_node net10) (rt_nodes sample_table !! 1%positive).

Lemma sample_node_eq : rt_nodes sample_table !! 1%positive = Some sample_node.
Proof. vm_compute. reflexivity. Qed.

Definition sample_locked : rtable := set_lock sample_table 1 sample_node 2.

Lemma sample_locked_ok : table_ok sample_locked.
Proof.
  apply set_lock_ok; [apply ok_ok_except, sample_table_ok|apply sample_node_eq|by_eval|done].
Qed.

Lemma route_node_get_spec_witness :
  exists t1 a t2, route_node_get sample_table host10 = Ret (t1, a) /\ table_ok t1 /\ has_key t1 a (pbits host10) /\
    (forall k, info_at t1 k = info_at sample_table k) /\
    set_info t1 a (Some 9) = Ret t2 /\ table_ok t2 /\
    (forall k, info_at t2 k = if decide (k = pbits host10) then Some 9 else info_at sample_table k).
Proof.
  apply (route_node_get_spec sample_table host10 (Some 9)); [apply sample_table_ok|apply sample_table_low|by_eval].
Defined.

Lemma route_node_lookup_spec_witness :
  exists a n, rt_nodes sample_table !! a = Some n /\ rkey n = pbits net10 /\ rn_info n = Some 1 /\
    route_node_lookup sample_table net10 = Ret (set_lock sample_table a n (rn_lock n + 1), Some a) /\
    table_ok (set_lock sample_table a n (rn_lock n + 1)).
Proof.
  assert (E : info_at sample_table (pbits net10) = Some 1) by (vm_compute; reflexivity).
  pose proof (route_node_lookup_spec sample_table net10 sample_table_ok sample_table_low ltac:(by_eval)) as H.
  rewrite E in H. exact H.
Defined.

Lemma route_node_match_longest_witness :
  exists m, best sample_table host10 m /\
    route_node_match sample_table host10 = match m with
      | Some a => t ← route_lock_node sample_table a; Ret (t, Some a)
      | None => Ret (sample_table, None)
      end.
Proof. apply (route_node_match_longest sample_table host10); [apply sample_table_ok|by_eval]. Defined.

Lemma route_unlock_node_spec_witness :
  route_unlock_node sample_locked 1 = Ret (rput sample_locked 1 (with_rlock sample_node 1)).
Proof.
  destruct (route_unlock_node_spec sample_locked 1 (with_rlock sample_node 2))
    as (t' & E & _ & Hd & _); [apply sample_locked_ok|apply set_lock_self|simpl; lia|simpl; lia|].
  rewrite E. f_equal. apply Hd. simpl. lia.
Defined.

Lemma route_unlock_node_info_aborts_witness : route_unlock_node sample_table 1 = Abort.
Proof.
  apply (route_unlock_node_info_aborts sample_table 1 sample_node 1); [apply sample_node_eq|vm_compute; reflexivity..].
Defined.

Lemma walk_table_spec_witness :
  exists l, walk_table sample_table = Ret (sample_table, l) /\ StronglySorted (before sample_table) l /\
    forall d, d ∈ l <-> is_Some (rt_nodes sample_table !! d).
Proof. apply (walk_table_spec sample_table); [apply sample_table_ok|apply sample_table_low]. Defined.

Lemma route_table_free_all_witness : exists t', route_table_free sample_table = Ret t' /\ rt_nodes t' = ∅.
Proof. apply (route_table_free_all sample_table). apply sample_table_ok. Defined.
