(* ===== verification/BgpTable.v ===== *)
(** * bgpd/bgp_table.c: BGP tables

    A copy of lib/table.c with signed locks, a lock on the table and a count of the
    nodes.  [set_link], [route_common] and the loops that insert are the same text
    and are taken from [Table].  [bgp_node_match] and [bgp_node_lookup] lack the test
    that stops at a node as long as the prefix searched for: they go on to read the
    bit after the prefix. *)
From stdpp Require Import base option list gmap fin_maps.
From Stdlib Require Import ZArith Lia ZifyNat.
From S2P Require Import Prelude RouteInfo RouteCmp Prefix Radix Table TableFind TableEdit TableDelete TableSpec.

(** ** Data *)

(** [struct bgp_table]; [b_tree] holds [top] and the nodes. *)
Record btable := BTable {
  b_afi : Z;
  b_safi : Z;
  b_lock : Z;                       (** int *)
  b_owner : option positive;        (** peer *)
  b_tree : rtable;
  b_count : Z                       (** unsigned long *)
}.

Definition with_tree (b : btable) t c := BTable (b_afi b) (b_safi b) (b_lock b) (b_owner b) t c.
Definition with_block (b : btable) l := BTable (b_afi b) (b_safi b) l (b_owner b) (b_tree b) (b_count b).

(** [x++] on an [int]: overflow is undefined. *)
Definition int_incr (x : Z) : res Z := if x =? 2 ^ 31 - 1 then Fault else Ret (x + 1).

Definition bgp_table_lock (b : btable) : res btable :=
  l ← int_incr (b_lock b); Ret (with_block b l).

Definition bgp_table_init (afi safi : Z) : res btable :=
  b ← bgp_table_lock (BTable 0 0 0 None route_table_init 0);
  Ret (BTable afi safi (b_lock b) (b_owner b) (b_tree b) (b_count b)).

(** ** Nodes *)
Definition bgp_node_set (t : rtable) (prefix : ip_prefix) : res (rtable * positive) :=
  let '(t, node) := route_node_new t in
  n ← rat t node;
  p ← prefix_copy (rn_p n) prefix;
  Ret (rput t node (with_rp n p), node).

Definition bgp_lock_node (t : rtable) (node : positive) : res rtable :=
  n ← rat t node; l ← int_incr (rn_lock n); Ret (rput t node (with_rlock n l)).

Fixpoint bgp_node_delete (fuel : nat) (t : rtable) (count : Z) (node : positive) : res (rtable * Z) :=
  match fuel with
  | O => Fault
  | S fuel =>
      n ← rat t node;
      _ ← cassert (rn_lock n =? 0);
      _ ← cassert (bool_decide (rn_info n = None));
      if bool_decide (is_Some (rn_left n)) && bool_decide (is_Some (rn_right n)) then Ret (t, count)
      else
        let child := match rn_left n with Some c => Some c | None => rn_right n end in
        let parent := rn_parent n in
        t ← match child with
            | Some c => w ← rat t c; Ret (rput t c (with_parent w parent))
            | None => Ret t
            end;
        t ← match parent with
            | Some q => w ← rat t q;
                        Ret (rput t q (if bool_decide (rn_left w = Some node)
                                       then with_left w child else with_right w child))
            | None => Ret (set_top t child)
            end;
        let count := u64 (count - 1) in
        let t := route_node_free t node in
        match parent with
        | Some q => w ← rat t q;
                    if rn_lock w =? 0 then bgp_node_delete fuel t count q else Ret (t, count)
        | None => Ret (t, count)
        end
  end.

Definition bgp_unlock_node (b : btable) (node : positive) : res btable :=
  n ← rat (b_tree b) node;
  _ ← cassert (0 <? rn_lock n);
  let lock := rn_lock n - 1 in
  let t := rput (b_tree b) node (with_rlock n lock) in
  if lock =? 0 then
    r ← bgp_node_delete (size (rt_nodes t)) t (b_count b) node;
    let '(t, count) := (r : rtable * Z) in Ret (with_tree b t count)
  else Ret (with_tree b t (b_count b)).

(** ** Searching *)
Fixpoint bgp_match_walk (fuel : nat) (t : rtable) (p : ip_prefix)
    (node matched : option positive) : res (option positive) :=
  match fuel, node with
  | O, _ => Fault
  | S _, None => Ret matched
  | S fuel, Some a =>
      n ← rat t a;
      c ← covers n p;
      if c : bool then
        let matched := if bool_decide (is_Some (rn_info n)) then Some a else matched in
        node ← descend n p; bgp_match_walk fuel t p node matched
      else Ret matched
  end.

Definition bgp_node_match (b : btable) (p : ip_prefix) : res (btable * option positive) :=
  matched ← bgp_match_walk (S (walk_fuel p)) (b_tree b) p (rt_top (b_tree b)) None;
  match matched with
  | Some m => t ← bgp_lock_node (b_tree b) m; Ret (with_tree b t (b_count b), Some m)
  | None => Ret (b, None)
  end.

Definition bgp_node_match_ipv4 (b : btable) (addr : list Z) : res (btable * option positive) :=
  bgp_node_match b (IpPrefix AF_INET IPV4_MAX_PREFIXLEN addr).
Definition bgp_node_match_ipv6 (b : btable) (addr : list Z) : res (btable * option positive) :=
  bgp_node_match b (IpPrefix AF_INET6 IPV6_MAX_PREFIXLEN addr).

Fixpoint bgp_lookup_walk (fuel : nat) (t : rtable) (p : ip_prefix) (node : option positive)
    : res (rtable * option positive) :=
  match fuel, node with
  | O, _ => Fault
  | S _, None => Ret (t, None)
  | S fuel, Some a =>
      n ← rat t a;
      c ← covers n p;
      if c : bool then
        if (prefixlen (rn_p n) =? prefixlen p) && bool_decide (is_Some (rn_info n)) then
          t ← bgp_lock_node t a; Ret (t, Some a)
        else node ← descend n p; bgp_lookup_walk fuel t p node
      else Ret (t, None)
  end.

Definition bgp_node_lookup (b : btable) (p : ip_prefix) : res (btable * option positive) :=
  r ← bgp_lookup_walk (S (walk_fuel p)) (b_tree b) p (rt_top (b_tree b));
  let '(t, o) := (r : rtable * option positive) in Ret (with_tree b t (b_count b), o).

(** ** Insertion *)
Definition bgp_node_get (b : btable) (p : ip_prefix) : res (btable * positive) :=
  let t := b_tree b in
  w ← get_walk (walk_fuel p) t p (rt_top t) None;
  match w : positive + option positive * option positive with
  | inl node => t ← bgp_lock_node t node; Ret (with_tree b t (b_count b), node)
  | inr (None, mtch) =>
      r ← bgp_node_set t p;
      let '(t, new) := (r : rtable * positive) in
      t ← link_below t mtch new;
      let count := u64 (b_count b + 1) in
      t ← bgp_lock_node t new; Ret (with_tree b t count, new)
  | inr (Some node, mtch) =>
      let '(t, new) := route_node_new t in
      n ← rat t node; w ← rat t new;
      np ← route_common (rn_p n) p (rn_p w);
      let t := rput t new (with_rp w (IpPrefix (family p) (prefixlen np) (octets np))) in
      t ← set_link t new node;
      t ← link_below t mtch new;
      if negb (prefixlen np =? prefixlen p) then
        r ← bgp_node_set t p;
        let '(t, leaf) := (r : rtable * positive) in
        t ← set_link t new leaf;
        let count := u64 (u64 (b_count b + 1) + 1) in
        t ← bgp_lock_node t leaf; Ret (with_tree b t count, leaf)
      else
        let count := u64 (b_count b + 1) in
        t ← bgp_lock_node t new; Ret (with_tree b t count, new)
  end.

(** ** Traversal *)
Definition bgp_table_top (b : btable) : res (btable * option positive) :=
  match rt_top (b_tree b) with
  | None => Ret (b, None)
  | Some a => t ← bgp_lock_node (b_tree b) a; Ret (with_tree b t (b_count b), Some a)
  end.

Definition bgp_move_lock (b : btable) (node next : positive) : res (btable * option positive) :=
  t ← bgp_lock_node (b_tree b) next;
  b ← bgp_unlock_node (with_tree b t (b_count b)) node; Ret (b, Some next).

Definition bgp_next_node (b : btable) (limit : option positive) (node : positive)
    : res (btable * option positive) :=
  n ← rat (b_tree b) node;
  match rn_left n, rn_right n with
  | Some next, _ => bgp_move_lock b node next
  | None, Some next => bgp_move_lock b node next
  | None, None =>
      o ← climb (S (Z.to_nat (prefixlen (rn_p n)))) (b_tree b) limit node;
      match o : option positive with
      | Some next => bgp_move_lock b node next
      | None => b ← bgp_unlock_node b node; Ret (b, None)
      end
  end.
Definition bgp_route_next (b : btable) (node : positive) := bgp_next_node b None node.
Definition bgp_route_next_until (b : btable) (node limit : positive) := bgp_next_node b (Some limit) node.

Definition bgp_table_count (b : btable) : Z := b_count b.

(** ** Release *)
Definition bgp_free_step (t : rtable) (count : Z) (node : positive)
    : res (rtable * Z * option positive) :=
  n ← rat t node;
  match rn_left n, rn_right n with
  | Some c, _ => Ret (t, count, Some c)
  | None, Some c => Ret (t, count, Some c)
  | None, None =>
      let count := u64 (count - 1) in
      let t := route_node_free t node in
      match rn_parent n with
      | Some q =>
          w ← rat t q;
          Ret (rput t q (if bool_decide (rn_left w = Some node)
                         then with_left w None else with_right w None), count, Some q)
      | None => Ret (t, count, None)
      end
  end.

Fixpoint bgp_free_loop (fuel : nat) (t : rtable) (count : Z) (node : option positive) : res (rtable * Z) :=
  match fuel, node with
  | O, _ => Fault
  | S _, None => Ret (t, count)
  | S fuel, Some a =>
      r ← bgp_free_step t count a;
      let '(t, count, node) := (r : rtable * Z * option positive) in bgp_free_loop fuel t count node
  end.

(** The result is the peer whose lock the table held; [bgp_table_free] releases it
    with [peer_unlock] and then frees the table. *)
Definition bgp_table_free (b : btable) : res (option positive) :=
  let t := b_tree b in
  r ← bgp_free_loop (130 * S (size (rt_nodes t))) t (b_count b) (rt_top t);
  let '(t, count) := (r : rtable * Z) in
  _ ← cassert (count =? 0);
  Ret (b_owner b).

(** [bgp_table_unlock]: [None] when the table is gone. *)
Definition bgp_table_unlock (b : btable) : res (option btable * option positive) :=
  _ ← cassert (0 <? b_lock b);
  let b := with_block b (b_lock b - 1) in
  if b_lock b =? 0 then o ← bgp_table_free b; Ret (None, o) else Ret (Some b, None).

(** The caller's pointer is NULL afterwards; the result is that of the unlock. *)
Definition bgp_table_finish (b : option btable) : res (option btable * option positive) :=
  match b with Some b => bgp_table_unlock b | None => Ret (None, None) end.

(** ** The count of nodes *)
Fixpoint add_count (c : nat) (count : Z) : Z :=
  match c with O => count | S c => u64 (add_count c count + 1) end.

Lemma bgp_node_get_steps b p :
  bgp_node_get b p =
    (s ← get_steps (b_tree b) p; let '(t0, a, c) := (s : rtable * positive * nat) in
     t1 ← bgp_lock_node t0 a; Ret (with_tree b t1 (add_count c (b_count b)), a)).
Proof.
  unfold bgp_node_get, get_steps. change bgp_node_set with route_node_set.
  split_step. destruct a as [a | [[c|] mtch]]; [done|..].
  - destruct (route_node_new (b_tree b)) as [t0 x]. do 5 split_step. case_test; [|done].
    split_step. by split_step.
  - split_step. by split_step.
Qed.

Lemma rput_size t a n n' : rat t a = Ret n -> size (rt_nodes (rput t a n')) = size (rt_nodes t).
Proof.
  unfold rat. destruct (rt_nodes t !! a) eqn:E; [|done]. intros _. cbn. rewrite map_size_insert_Some; eauto.
Qed.

Lemma rat_is_Some t a n : rat t a = Ret n -> is_Some (rt_nodes t !! a).
Proof. unfold rat. destruct (rt_nodes t !! a); eauto. done. Qed.

Lemma rput_is_Some t a n d : is_Some (rt_nodes t !! d) -> is_Some (rt_nodes (rput t a n) !! d).
Proof. cbn. intros Hd. destruct (decide (a = d)) as [->|]; [rewrite lookup_insert_eq|rewrite lookup_insert_ne]; eauto. Qed.

Lemma free_size t a : is_Some (rt_nodes t !! a) -> S (size (rt_nodes (route_node_free t a))) = size (rt_nodes t).
Proof.
  intros [n Hn]. cbn. rewrite map_size_delete_Some by eauto.
  enough (size (rt_nodes t) <> 0)%nat by lia. intros H0%map_size_empty_inv. rewrite H0 in Hn. by rewrite lookup_empty in Hn.
Qed.

(** [bgp_node_delete] is [route_node_delete], and counts what it frees. *)
Lemma bgp_node_delete_count fuel t a t' count :
  route_node_delete fuel t a = Ret t' ->
  (size (rt_nodes t') <= size (rt_nodes t))%nat /\
  (Z.of_nat (size (rt_nodes t)) <= count < 2 ^ 64 ->
   bgp_node_delete fuel t count a =
     Ret (t', count - Z.of_nat (size (rt_nodes t) - size (rt_nodes t')))).
Proof.
  revert t a count. induction fuel as [|fuel IH]; intros t a count; cbn [route_node_delete bgp_node_delete]; [done|].
  destruct (rat t a) as [n| |] eqn:Ha; cbn [mbind res_bind]; [|done..].
  destruct (cassert (rn_lock n =? 0)) as [[]| |]; cbn [mbind res_bind]; [|done..].
  destruct (cassert (bool_decide (rn_info n = None))) as [[]| |]; cbn [mbind res_bind]; [|done..].
  case_test. { intros [= <-]. split; [done|]. intros _. do 2 f_equal. lia. }
  set (child := match rn_left n with Some c => Some c | None => rn_right n end).
  pose proof (rat_is_Some _ _ _ Ha) as Hin.
  destruct (match child with Some c => w ← rat t c; Ret (rput t c (with_parent w (rn_parent n))) | None => Ret t end)
    as [t1| |] eqn:E1; cbn [mbind res_bind]; [|done..].
  assert (H1 : size (rt_nodes t1) = size (rt_nodes t) /\ is_Some (rt_nodes t1 !! a)).
  { destruct child as [c|]; [|by injection E1 as <-].
    destruct (rat t c) as [w| |] eqn:Hc; cbn [mbind res_bind] in E1; [|done..]. injection E1 as <-.
    split; [by eapply rput_size|by apply rput_is_Some]. }
  destruct (match rn_parent n with
            | Some q => w ← rat t1 q; Ret (rput t1 q (if bool_decide (rn_left w = Some a)
                                       then with_left w child else with_right w child))
            | None => Ret (set_top t1 child) end) as [t2| |] eqn:E2; cbn [mbind res_bind]; [|done..].
  assert (H2 : size (rt_nodes t2) = size (rt_nodes t) /\ is_Some (rt_nodes t2 !! a)).
  { destruct H1 as [S1 I1]. destruct (rn_parent n) as [q|]; [|by injection E2 as <-].
    destruct (rat t1 q) as [w| |] eqn:Hc; cbn [mbind res_bind] in E2; [|done..]. injection E2 as <-.
    split; [rewrite <- S1; by eapply rput_size|by apply rput_is_Some]. }
  destruct H2 as [S2 I2]. pose proof (free_size t2 a I2) as S3.
  assert (Eu : Z.of_nat (size (rt_nodes t)) <= count < 2 ^ 64 -> u64 (count - 1) = count - 1)
    by (intros; apply u64_id; lia).
  destruct (rn_parent n) as [q|]; [|intros Hd; assert (route_node_free t2 a = t') as <- by congruence; split; [lia|];
     intros Hc; rewrite Eu by done; do 2 f_equal; lia].
  destruct (rat (route_node_free t2 a) q) as [w| |]; cbn [mbind res_bind]; [|done..].
  case_test; [|intros Hd; assert (route_node_free t2 a = t') as <- by congruence; split; [lia|];
     intros Hc; rewrite Eu by done; do 2 f_equal; lia].
  intros Hdel. split; [destruct (IH _ _ count Hdel); lia|]. intros Hc. rewrite Eu by done.
  destruct (IH _ _ (count - 1) Hdel) as [Hle Heq]. rewrite Heq by lia. do 2 f_equal. lia.
Qed.

(** ** Release *)
Definition no_self (t : rtable) : Prop := forall a n, rt_nodes t !! a = Some n -> rn_parent n <> Some a.

Lemma shape_no_self t : shape (view t) -> no_self t.
Proof.
  intros Hsh a n Ha Hp. destruct (shape_back _ Hsh a (rkey n) (node_key _ _ _ Ha)) as (pos & k & Hs).
  destruct (shape_some _ Hsh _ _ _ Hs) as (ka & Hka & Hpar & Hle & _).
  rewrite (view_parent _ _ _ Ha), Hp in Hpar. destruct pos as [|q e]; [done|]. injection Hpar as <-.
  eapply (pos_not_own (view t) Hsh _ _ _ Hs e). done.
Qed.

Lemma no_self_link t q w v :
  no_self t -> rat t q = Ret w -> rn_parent v = rn_parent w -> no_self (rput t q v).
Proof.
  intros Hns Hq Hv a n. cbn. destruct (decide (q = a)) as [->|Hne].
  - rewrite lookup_insert_eq. intros [= <-]. rewrite Hv. unfold rat in Hq.
    destruct (rt_nodes t !! a) eqn:E; [|done]. injection Hq as ->. by apply (Hns a).
  - rewrite lookup_insert_ne by done. apply Hns.
Qed.

Lemma no_self_free t a : no_self t -> no_self (route_node_free t a).
Proof. intros Hns d n. cbn. rewrite lookup_delete_Some. intros [_ Hd]. by apply (Hns d). Qed.

(** One round: the same tree, and the count follows the size. *)
Lemma bgp_free_step_ok t a t' o count :
  no_self t -> free_step t a = Ret (t', o) -> Z.of_nat (size (rt_nodes t)) <= count < 2 ^ 64 ->
  no_self t' /\ (size (rt_nodes t') <= size (rt_nodes t))%nat /\
  bgp_free_step t count a = Ret (t', count - Z.of_nat (size (rt_nodes t) - size (rt_nodes t')), o).
Proof.
  intros Hns. unfold free_step, bgp_free_step.
  destruct (rat t a) as [n| |] eqn:Ha; cbn [mbind res_bind]; [|done..].
  assert (Hstay : forall c, Ret (t, Some c) = Ret (t', o) -> no_self t' /\
    (size (rt_nodes t') <= size (rt_nodes t))%nat /\
    Ret (t, count, Some c) = Ret (t', count - Z.of_nat (size (rt_nodes t) - size (rt_nodes t')), o)).
  { intros c E. assert (t' = t) as -> by congruence. assert (o = Some c) as -> by congruence.
    split; [done|]. split; [done|]. do 3 f_equal. lia. }
  destruct (rn_left n) as [c|]; [intros E _; by apply Hstay|].
  destruct (rn_right n) as [c|]; [intros E _; by apply Hstay|].
  pose proof (rat_is_Some _ _ _ Ha) as Hin.
  destruct (rn_parent n) as [q|] eqn:Hpar.
  - destruct (rat t q) as [w| |] eqn:Hq; cbn [mbind res_bind]; [|done..].
    set (w' := if bool_decide (rn_left w = Some a) then with_left w None else with_right w None).
    intros E Hc. assert (t' = route_node_free (rput t q w') a) as -> by congruence.
    assert (o = Some q) as -> by congruence.
    assert (Hqa : q <> a).
    { intros ->. unfold rat in Ha. destruct (rt_nodes t !! a) eqn:E'; [|done]. injection Ha as ->.
      by apply (Hns a n E'). }
    assert (Hq' : rat (route_node_free t a) q = Ret w).
    { unfold rat in *. cbn. by rewrite lookup_delete_ne. }
    rewrite Hq'. cbn [mbind res_bind]. fold w'.
    assert (Ecomm : rput (route_node_free t a) q w' = route_node_free (rput t q w') a).
    { unfold rput, route_node_free. cbn. by rewrite delete_insert_ne. }
    rewrite Ecomm. pose proof (rput_size t q w w' Hq) as S1.
    pose proof (free_size (rput t q w') a (rput_is_Some _ _ _ _ Hin)) as S2.
    split; [|split; [lia|]].
    + apply no_self_free. eapply no_self_link; [done..|]. unfold w'. by case_bool_decide.
    + rewrite u64_id by lia. do 3 f_equal. lia.
  - intros E Hc. assert (t' = route_node_free t a) as -> by congruence. assert (o = None) as -> by congruence.
    pose proof (free_size t a Hin) as S2. split; [by apply no_self_free|]. split; [lia|].
    rewrite u64_id by lia. do 3 f_equal. lia.
Qed.

Lemma bgp_free_loop_ok fuel t o t' count :
  no_self t -> free_loop fuel t o = Ret t' -> Z.of_nat (size (rt_nodes t)) <= count < 2 ^ 64 ->
  (size (rt_nodes t') <= size (rt_nodes t))%nat /\
  bgp_free_loop fuel t count o = Ret (t', count - Z.of_nat (size (rt_nodes t) - size (rt_nodes t'))).
Proof.
  revert t o count. induction fuel as [|fuel IH]; intros t o count Hns; [done|].
  cbn [free_loop bgp_free_loop]. destruct o as [a|].
  - destruct (free_step t a) as [[t1 o1]| |] eqn:E; cbn [mbind res_bind]; [|done..]. intros Hloop Hc.
    destruct (bgp_free_step_ok t a t1 o1 count Hns E Hc) as (Hns1 & Hle & ->). cbn [mbind res_bind].
    destruct (IH t1 o1 (count - Z.of_nat (size (rt_nodes t) - size (rt_nodes t1))) Hns1 Hloop) as [Hle1 ->]; [lia|].
    split; [lia|]. do 2 f_equal. lia.
  - intros E Hc. assert (t' = t) as -> by congruence. split; [done|]. do 2 f_equal. lia.
Qed.

(** ** Invariant *)

(** The tree is well formed and [count] is the number of its nodes. *)
Definition bgp_ok (b : btable) : Prop :=
  table_ok (b_tree b) /\ b_count b = Z.of_nat (size (rt_nodes (b_tree b))) /\ b_count b < 2 ^ 64 - 2.

(** No lock is about to overflow an [int]. *)
Definition int_low (t : rtable) : Prop :=
  forall a n, rt_nodes t !! a = Some n -> rn_lock n < 2 ^ 31 - 1.

Lemma int_low_locks t : int_low t -> locks_low t.
Proof. intros H a n Ha. specialize (H a n Ha). lia. Qed.

Lemma bgp_lock_node_ok t a n :
  nodes_ok t -> rt_nodes t !! a = Some n -> rn_lock n < 2 ^ 31 - 1 ->
  bgp_lock_node t a = Ret (set_lock t a n (rn_lock n + 1)) /\ bgp_lock_node t a = route_lock_node t a.
Proof.
  intros Hn Ha Hl. destruct (route_lock_node_set t a n Hn Ha) as (-> & _); [lia|].
  unfold bgp_lock_node, int_incr. rewrite (rat_lookup _ _ _ Ha). cbn [mbind res_bind].
  replace (rn_lock n =? 2 ^ 31 - 1) with false by (symmetry; apply Z.eqb_neq; lia). done.
Qed.

Lemma set_lock_size t a n l : rt_nodes t !! a = Some n -> size (rt_nodes (set_lock t a n l)) = size (rt_nodes t).
Proof. intros Ha. unfold set_lock. by eapply rput_size, rat_lookup. Qed.

Lemma add_count_ok c count : 0 <= count -> count + Z.of_nat c < 2 ^ 64 -> add_count c count = count + Z.of_nat c.
Proof.
  intros H0 Hc. induction c as [|c IH]; cbn [add_count]; [lia|].
  rewrite IH by lia. rewrite u64_id; lia.
Qed.

(** The search goes past a node of full length to one that is longer, and stops. *)
Section Past.
Context (t : rtable) (p : ip_prefix).
Hypothesis Hn : nodes_ok t.
Hypothesis Hsh : shape (view t).
Hypothesis Hp : prefix_ok p.
Hypothesis Hroom : (plen p < 8 * length (octets p))%nat.

Lemma descend_full n :
  node_ok n -> rkey n = pbits p -> exists b, descend n p = Ret (rchild n b).
Proof.
  intros (On & _) Hk. exists (bit_at (octets p) (plen p)). unfold descend.
  rewrite (prefixlen_plen _ On), <- length_rkey, Hk, length_pbits, prefix_bit_ok by done.
  cbn [mbind res_bind]. by rewrite rlink_bit.
Qed.

Lemma child_not_covering a n b c :
  rt_nodes t !! a = Some n -> rkey n = pbits p -> rchild n b = Some c ->
  exists nc, rt_nodes t !! c = Some nc /\ covers nc p = Ret false.
Proof.
  intros Ha Hk Hc. destruct (child_node t a n b c Hsh Ha Hc) as (nc & Hnc & Hlen).
  exists nc. split; [done|]. rewrite covers_ok by (done || by apply (Hn c)).
  rewrite bool_decide_eq_false_2; [done|]. intros Hle%prefix_length. rewrite length_pbits in Hle.
  rewrite Hk, length_pbits in Hlen. lia.
Qed.

Lemma match_past a n b m fuel :
  rt_nodes t !! a = Some n -> rkey n = pbits p -> bgp_match_walk (S fuel) t p (rchild n b) m = Ret m.
Proof.
  intros Ha Hk. cbn [bgp_match_walk]. destruct (rchild n b) as [c|] eqn:Hc; [|done].
  destruct (child_not_covering a n b c Ha Hk Hc) as (nc & Hnc & Hcov).
  rewrite (rat_lookup _ _ _ Hnc). cbn [mbind res_bind]. by rewrite Hcov.
Qed.

Lemma lookup_past a n b fuel :
  rt_nodes t !! a = Some n -> rkey n = pbits p -> bgp_lookup_walk (S fuel) t p (rchild n b) = Ret (t, None).
Proof.
  intros Ha Hk. cbn [bgp_lookup_walk]. destruct (rchild n b) as [c|] eqn:Hc; [|done].
  destruct (child_not_covering a n b c Ha Hk Hc) as (nc & Hnc & Hcov).
  rewrite (rat_lookup _ _ _ Hnc). cbn [mbind res_bind]. by rewrite Hcov.
Qed.

(** With room for one more bit the loop finds what that of lib/table.c finds. *)
Lemma bgp_match_walk_same fuel pos k node m :
  on_path t p pos k node -> (plen p - length k < fuel)%nat -> (length k <= plen p)%nat ->
  bgp_match_walk (S fuel) t p node m = match_walk fuel t p node m.
Proof.
  revert pos k node m. induction fuel as [|fuel IH]; intros pos k node m Hpath Hf Hk; [lia|].
  change (bgp_match_walk (S (S fuel)) t p node m) with
    (match node with
     | None => Ret m
     | Some a => n ← rat t a; c ← covers n p;
        if c : bool then
          let m := if bool_decide (is_Some (rn_info n)) then Some a else m in
          node ← descend n p; bgp_match_walk (S fuel) t p node m
        else Ret m
     end).
  cbn [match_walk]. destruct node as [a|]; [|done].
  destruct (path_node t p Hn Hsh _ _ _ Hpath) as (n & Ha & On & Hle).
  rewrite (rat_lookup _ _ _ Ha). cbn [mbind res_bind]. rewrite (covers_ok _ _ On Hp). cbn [mbind res_bind].
  case_bool_decide as Hc; [|done]. rewrite (same_prefixlen _ _ On Hp). cbv zeta.
  destruct (bool_decide (length (rkey n) = plen p)) eqn:Hl.
  - apply bool_decide_eq_true in Hl. pose proof (full_key p n Hc Hl) as Hkey.
    destruct (descend_full n On Hkey) as (b & ->). cbn [mbind res_bind].
    by rewrite (match_past a n b _ fuel Ha Hkey).
  - apply bool_decide_eq_false in Hl.
    destruct (path_step t p Hn Hsh Hp _ _ _ _ Hpath Ha Hc Hl) as (b & -> & Hnext & Hlen). cbn [mbind res_bind].
    apply (IH _ _ _ _ Hnext); lia.
Qed.

Lemma bgp_lookup_walk_same fuel pos k node :
  int_low t -> on_path t p pos k node -> (plen p - length k < fuel)%nat -> (length k <= plen p)%nat ->
  bgp_lookup_walk (S fuel) t p node = lookup_walk fuel t p node.
Proof.
  intros Hlow. revert pos k node. induction fuel as [|fuel IH]; intros pos k node Hpath Hf Hk; [lia|].
  change (bgp_lookup_walk (S (S fuel)) t p node) with
    (match node with
     | None => Ret (t, None)
     | Some a => n ← rat t a; c ← covers n p;
        if c : bool then
          if (prefixlen (rn_p n) =? prefixlen p) && bool_decide (is_Some (rn_info n)) then
            t ← bgp_lock_node t a; Ret (t, Some a)
          else node ← descend n p; bgp_lookup_walk (S fuel) t p node
        else Ret (t, None)
     end).
  cbn [lookup_walk]. destruct node as [a|]; [|done].
  destruct (path_node t p Hn Hsh _ _ _ Hpath) as (n & Ha & On & Hle).
  rewrite (rat_lookup _ _ _ Ha). cbn [mbind res_bind]. rewrite (covers_ok _ _ On Hp). cbn [mbind res_bind].
  case_bool_decide as Hc; [|done]. rewrite (same_prefixlen _ _ On Hp).
  destruct (bool_decide (length (rkey n) = plen p)) eqn:Hl; cbn [andb].
  - apply bool_decide_eq_true in Hl. pose proof (full_key p n Hc Hl) as Hkey.
    destruct (rn_info n) as [v|].
    + rewrite bool_decide_eq_true_2 by eauto. by destruct (bgp_lock_node_ok t a n Hn Ha (Hlow a n Ha)) as [_ ->].
    + rewrite bool_decide_eq_false_2 by (intros [? ?]; done).
      destruct (descend_full n On Hkey) as (b & ->). cbn [mbind res_bind].
      by rewrite (lookup_past a n b fuel Ha Hkey).
  - apply bool_decide_eq_false in Hl.
    destruct (path_step t p Hn Hsh Hp _ _ _ _ Hpath Ha Hc Hl) as (b & -> & Hnext & Hlen). cbn [mbind res_bind].
    apply (IH _ _ _ Hnext); lia.
Qed.
End Past.

(** Without room, the loop reaches the node and reads past the address. *)
Lemma bgp_match_walk_overread t p a fuel pos k node m :
  nodes_ok t -> shape (view t) -> prefix_ok p -> plen p = (8 * length (octets p))%nat ->
  has_key t a (pbits p) -> on_path t p pos k node -> (plen p - length k < fuel)%nat -> (length k <= plen p)%nat ->
  bgp_match_walk fuel t p node m = Fault.
Proof.
  intros Hn Hsh Hp Hfull Ha. revert pos k node m. induction fuel as [|fuel IH]; intros pos k node m Hpath Hf Hk; [lia|].
  cbn [bgp_match_walk]. destruct node as [c|].
  2:{ exfalso. eapply path_end; eauto. apply Hpath. }
  destruct (path_node t p Hn Hsh _ _ _ Hpath) as (n & Hc & On & Hle).
  rewrite (rat_lookup _ _ _ Hc). cbn [mbind res_bind]. rewrite (covers_ok _ _ On Hp). cbn [mbind res_bind].
  rewrite bool_decide_eq_true_2 by (eapply path_least; eauto; apply Hpath). cbv zeta.
  destruct (decide (length (rkey n) = plen p)) as [Hl|Hl].
  - unfold descend. destruct On as (On & _). rewrite (prefixlen_plen _ On), <- length_rkey, Hl, Hfull.
    unfold prefix_bit, zget. replace (Z.of_nat (8 * length (octets p)) / 8) with (Z.of_nat (length (octets p))) by mod_lia.
    replace (Z.of_nat (length (octets p)) <? 0) with false by (symmetry; apply Z.ltb_ge; lia).
    by rewrite Nat2Z.id, lookup_ge_None_2 by lia.
  - assert (Hcov : rkey n `prefix_of` pbits p) by (eapply path_least; eauto; apply Hpath).
    destruct (path_step t p Hn Hsh Hp _ _ _ _ Hpath Hc Hcov Hl) as (b & -> & Hnext & Hlen). cbn [mbind res_bind].
    apply (IH _ _ _ _ Hnext); lia.
Qed.

(** ** Properties *)

(** C35. [bgp_node_get] does to the tree what [route_node_get] does, and keeps [count]
    equal to the number of nodes. *)
Theorem bgp_node_get_counts b p :
  bgp_ok b -> int_low (b_tree b) -> key_ok p -> b_count b < 2 ^ 64 - 4 ->
  exists b' a, bgp_node_get b p = Ret (b', a) /\ bgp_ok b' /\ has_key (b_tree b') a (pbits p) /\
    route_node_get (b_tree b) p = Ret (b_tree b', a).
Proof.
  intros (Hok & Hcount & _) Hlow Hp Hmax.
  destruct (get_steps_table _ p Hok Hp) as (t0 & a & c & n & Hget & Hc2 & Hsz & Ha & Hk & Hlk & Hex & _).
  assert (Hl : rn_lock n < 2 ^ 31 - 1) by (destruct Hlk as [-> | Hold]; [done|by apply (Hlow a)]).
  rewrite bgp_node_get_steps, route_node_get_steps, Hget. cbn [mbind res_bind].
  destruct (bgp_lock_node_ok t0 a n (except_nodes _ _ Hex) Ha Hl) as [E1 E2]. rewrite <- E2, E1.
  cbn [mbind res_bind]. eexists _, a. split; [reflexivity|]. cbn [b_tree with_tree].
  destruct (route_lock_node_set t0 a n (except_nodes _ _ Hex) Ha) as (_ & Hu & Hne); [lia|].
  split; [|split; [|done]].
  - unfold bgp_ok. cbn [with_tree b_tree b_count]. rewrite set_lock_size by done. rewrite Hsz, Hcount, add_count_ok by lia.
    split; [by apply set_lock_ok|]. split; lia.
  - exists (with_rlock n (rn_lock n + 1)). split; [apply set_lock_self|done].
Qed.

(** [bgp_unlock_node] keeps the invariant, the count of nodes and the map. *)
Theorem bgp_unlock_node_counts b a n :
  bgp_ok b -> rt_nodes (b_tree b) !! a = Some n -> 0 < rn_lock n -> (rn_lock n = 1 -> rn_info n = None) ->
  exists b', bgp_unlock_node b a = Ret b' /\ bgp_ok b' /\
    forall k, info_at (b_tree b') k = info_at (b_tree b) k.
Proof.
  intros (Hok & Hcount & Hmax) Ha Hl Hi.
  destruct (route_unlock_node_ok _ a n (ok_ok_except _ a Hok) Ha Hl Hi) as (t' & Hun & Hok' & Hs & _).
  assert (Hinfo : forall k, info_at t' k = info_at (b_tree b) k).
  { intros k. apply info_at_ext; [apply Hok'|apply Hok|]. intros d v.
    rewrite <- (entry_set_lock _ a n (rn_lock n - 1) k d v Ha). symmetry. by apply entry_shrinks. }
  assert (Hlk : u32 (rn_lock n - 1) = rn_lock n - 1).
  { destruct (ok_nodes_ok _ Hok a n Ha) as [(_ & _ & Hu) _]. apply u32_id. unfold is_u32 in *. lia. }
  unfold route_unlock_node in Hun. unfold bgp_unlock_node. rewrite (rat_lookup _ _ _ Ha) in *.
  cbn [mbind res_bind] in *. rewrite Hlk in Hun. fold (set_lock (b_tree b) a n (rn_lock n - 1)) in *.
  replace (0 <? rn_lock n) with true by (symmetry; apply Z.ltb_lt; lia). cbn [cassert mbind res_bind].
  pose proof (set_lock_size _ a n (rn_lock n - 1) Ha) as Hsz.
  destruct (rn_lock n - 1 =? 0).
  - destruct (bgp_node_delete_count _ _ _ _ (b_count b) Hun) as [Hle Hdel]. rewrite Hdel by lia.
    cbn [mbind res_bind]. eexists. split; [reflexivity|]. unfold bgp_ok. cbn [with_tree b_tree b_count].
    split; [|done]. split; [done|]. lia.
  - assert (t' = set_lock (b_tree b) a n (rn_lock n - 1)) as -> by congruence.
    eexists. split; [reflexivity|]. unfold bgp_ok. cbn [with_tree b_tree b_count]. rewrite Hsz. done.
Qed.

(** [bgp_table_free] frees every node: its [assert (rt->count == 0)] holds. *)
Theorem bgp_table_free_count b : bgp_ok b -> bgp_table_free b = Ret (b_owner b).
Proof.
  intros (Hok & Hcount & Hmax). unfold bgp_table_free.
  destruct (route_table_free_ok (b_tree b) Hok) as (t' & Hfree & Hempty). unfold route_table_free in Hfree.
  destruct (bgp_free_loop_ok _ _ _ _ (b_count b) (shape_no_self _ (ok_shape _ Hok)) Hfree) as [_ ->]; [lia|].
  cbn [mbind res_bind]. rewrite Hempty, map_size_empty, Hcount.
  by replace (_ =? 0) with true by (symmetry; apply Z.eqb_eq; lia).
Qed.

(** [bgp_node_match] finds the longest match as long as the address is followed
    by at least one octet of storage: the loop reads the bit after the prefix. *)
Theorem bgp_node_match_longest b p :
  bgp_ok b -> prefix_ok p -> (plen p < 8 * length (octets p))%nat ->
  exists m, best (b_tree b) p m /\
    bgp_node_match b p = match m with
      | Some a => t ← bgp_lock_node (b_tree b) a; Ret (with_tree b t (b_count b), Some a)
      | None => Ret (b, None)
      end.
Proof.
  intros (Hok & _) Hp Hroom. pose proof (ok_nodes_ok _ Hok) as Hn. pose proof (ok_shape _ Hok) as Hsh.
  destruct (route_node_match_ok (b_tree b) p Hn Hsh Hp) as (m & Hm & Hbest).
  exists m. split; [done|]. unfold bgp_node_match.
  rewrite (bgp_match_walk_same (b_tree b) p Hn Hsh Hp Hroom (walk_fuel p) Top []), Hm;
    [by destruct m|apply start_path|unfold walk_fuel, plen; simpl; lia..].
Qed.

(** For a prefix that fills its storage, such as an IPv6 host address, and a table
    that has it, [bgp_node_match] reads past the end of the address. *)
Theorem bgp_node_match_overread b p a :
  bgp_ok b -> prefix_ok p -> plen p = (8 * length (octets p))%nat ->
  has_key (b_tree b) a (pbits p) -> bgp_node_match b p = Fault.
Proof.
  intros (Hok & _) Hp Hfull Ha. unfold bgp_node_match.
  rewrite (bgp_match_walk_overread (b_tree b) p a _ Top []); try done;
    [by apply ok_nodes_ok|apply Hok|apply start_path|unfold walk_fuel, plen; simpl; lia..].
Qed.

(** With storage after the prefix, [bgp_node_lookup] is [route_node_lookup]. *)
Theorem bgp_node_lookup_same b p :
  bgp_ok b -> int_low (b_tree b) -> prefix_ok p -> (plen p < 8 * length (octets p))%nat ->
  bgp_node_lookup b p =
    (r ← route_node_lookup (b_tree b) p; let '(t, o) := (r : rtable * option positive) in
     Ret (with_tree b t (b_count b), o)).
Proof.
  intros (Hok & _) Hlow Hp Hroom. unfold bgp_node_lookup, route_node_lookup.
  rewrite (bgp_lookup_walk_same (b_tree b) p (ok_nodes_ok _ Hok) (ok_shape _ Hok) Hp Hroom (walk_fuel p) Top []);
    [done|done|apply start_path|unfold walk_fuel, plen; simpl; lia..].
Qed.

(** ** Sample tables *)
Definition sample_bgp : btable :=
  BTable AFI_IP 1 1 None sample_table (Z.of_nat (size (rt_nodes sample_table))).

Lemma sample_bgp_ok : bgp_ok sample_bgp.
Proof. split; [apply sample_table_ok|]. split; [done|]. vm_compute. reflexivity. Qed.

Definition int_lows (t : rtable) : bool := forallb (fun x => rn_lock x.2 <? 2 ^ 31 - 1) (map_to_list (rt_nodes t)).

Lemma int_lows_ok t : int_lows t = true -> int_low t.
Proof.
  intros H a n Ha. apply elem_of_map_to_list, list_elem_of_In in Ha.
  unfold int_lows in H. rewrite forallb_forall in H. specialize (H _ Ha). simpl in H. by zify_bool.
Qed.

(** The address in a [struct prefix], which has room for sixteen octets. *)
Definition host10_wide : ip_prefix := IpPrefix AF_INET 32 ([10; 1; 2; 3] ++ replicate 12 0).

(** ::1/128 *)
Definition host6 : ip_prefix := IpPrefix AF_INET6 128 (replicate 15 0 ++ [1]).
Definition sample6 : rtable :=
  match insert_all [(host6, 1)] route_table_init with Ret t => t | _ => route_table_init end.
Definition sample_bgp6 : btable := BTable AFI_IP6 1 1 None sample6 1.

Lemma sample_bgp6_ok : bgp_ok sample_bgp6.
Proof.
  split; [|split; vm_compute; reflexivity].
  destruct (insert_all_ok [(host6, 1)] route_table_init route_table_init_ok) as (t & E & Ht);
    [vm_compute; reflexivity|]. unfold sample_bgp6, sample6. cbn [b_tree]. by rewrite E.
Qed.

Lemma bgp_node_get_counts_witness :
  exists b' a, bgp_node_get sample_bgp host10 = Ret (b', a) /\ bgp_ok b' /\ has_key (b_tree b') a (pbits host10) /\
    route_node_get (b_tree sample_bgp) host10 = Ret (b_tree b', a).
Proof.
  apply (bgp_node_get_counts sample_bgp host10);
    [apply sample_bgp_ok|apply int_lows_ok; vm_compute; reflexivity|by_eval|vm_compute; reflexivity].
Defined.

Lemma bgp_unlock_node_counts_witness :
  exists b', bgp_unlock_node (with_tree sample_bgp sample_locked (b_count sample_bgp)) 1 = Ret b' /\ bgp_ok b' /\
    forall k, info_at (b_tree b') k = info_at sample_locked k.
Proof.
  apply (bgp_unlock_node_counts (with_tree sample_bgp sample_locked (b_count sample_bgp)) 1 (with_rlock sample_node 2)).
  - split; [apply sample_locked_ok|split; vm_compute; reflexivity].
  - apply set_lock_self.
  - simpl. lia.
  - simpl. lia.
Defined.

Lemma bgp_table_free_count_witness : bgp_table_free sample_bgp = Ret None.
Proof. apply (bgp_table_free_count sample_bgp). apply sample_bgp_ok. Defined.

Lemma bgp_node_match_longest_witness :
  exists m, best (b_tree sample_bgp) host10_wide m /\
    bgp_node_match sample_bgp host10_wide = match m with
      | Some a => t ← bgp_lock_node (b_tree sample_bgp) a; Ret (with_tree sample_bgp t (b_count sample_bgp), Some a)
      | None => Ret (sample_bgp, None)
      end.
Proof. apply (bgp_node_match_longest sample_bgp host10_wide); [apply sample_bgp_ok|by_eval|by_eval]. Defined.

Lemma bgp_node_match_overread_witness : bgp_node_match sample_bgp6 host6 = Fault.
Proof.
  apply (bgp_node_match_overread sample_bgp6 host6 1); [apply sample_bgp6_ok|by_eval|vm_compute; reflexivity|].
  eexists. split; [vm_compute; reflexivity|]. vm_compute. reflexivity.
Defined.

Lemma bgp_node_lookup_same_witness :
  bgp_node_lookup sample_bgp host10_wide =
    (r ← route_node_lookup (b_tree sample_bgp) host10_wide; let '(t, o) := (r : rtable * option positive) in
     Ret (with_tree sample_bgp t (b_count sample_bgp), o)).
Proof.
  apply (bgp_node_lookup_same sample_bgp host10_wide);
    [apply sample_bgp_ok|apply int_lows_ok; vm_compute; reflexivity|by_eval|by_eval].
Defined.
