(* ===== verification/Checksum.v ===== *)
(** * lib/checksum.c: the Internet and Fletcher checksums

    [in_cksum] adds 16-bit words of a little-endian host in a 64-bit [long] and folds
    the carries; [fletcher_checksum] computes the two check octets of ISO 8473 in
    [int]s, reduced every [MODX] octets.  The theorems state what a receiver relies
    on: a packet with its checksum filled in verifies. *)
From stdpp Require Import base option list.
From Stdlib Require Import ZArith Lia Znumtheory.
From S2P Require Import Prelude.

(** ** Internet checksum *)

(** [while (nbytes > 1) { sum += *ptr++; nbytes -= 2; }] and the odd octet. *)
Fixpoint sum_words (bs : list Z) (sum : Z) : Z :=
  match bs with
  | b0 :: b1 :: r => sum_words r (sum + (b0 + 256 * b1))
  | [b] => sum + b
  | [] => sum
  end.

Definition in_cksum (parg : list Z) (nbytes : Z) : res Z :=
  bs ← zload parg 0 nbytes;
  let sum := sum_words bs 0 in
  let sum := Z.shiftr sum 16 + Z.land sum 65535 in
  let sum := sum + Z.shiftr sum 16 in
  Ret (u16 (Z.lnot sum)).

(** ** Fletcher checksum *)
Definition MODX : Z := 4102.

(** [for (i = 0; i < partial_len; i++) { c0 = c0 + *(p++); c1 += c0; }]; the [int]s
    [c0] and [c1] must not overflow. *)
Definition int_add (a b : Z) : res Z :=
  let s := a + b in if (- 2 ^ 31 <=? s) && (s <? 2 ^ 31) then Ret s else Fault.

Fixpoint fletcher_block (bs : list Z) (c0 c1 : Z) : res (Z * Z) :=
  match bs with
  | [] => Ret (c0, c1)
  | b :: r => c0 ← int_add c0 b; c1 ← int_add c1 c0; fletcher_block r c0 c1
  end.

(** [while (left != 0)], with at most one round per octet. *)
Fixpoint fletcher_sums (fuel : nat) (bs : list Z) (c0 c1 : Z) : res (Z * Z) :=
  match fuel, bs with
  | _, [] => Ret (c0, c1)
  | O, _ => Fault
  | S fuel, _ =>
      s ← fletcher_block (take (Z.to_nat MODX) bs) c0 c1;
      fletcher_sums fuel (drop (Z.to_nat MODX) bs) (Z.rem s.1 255) (Z.rem s.2 255)
  end.

(** [fletcher_checksum (buffer, len, offset)]: the buffer with the check octets and
    the value returned, before [htons]. *)
Definition fletcher_checksum (buffer : list Z) (len offset : Z) : res (list Z * Z) :=
  _ ← cassert (offset <? len);
  buffer ← zstore buffer offset [0; 0];
  bs ← zload buffer 0 len;
  s ← fletcher_sums (length bs) bs 0 0;
  let '(c0, c1) := (s : Z * Z) in
  let x := Z.rem (i32 (u64 ((len - offset - 1) * c0 - c1))) 255 in
  let x := if x <=? 0 then x + 255 else x in
  let y := 510 - c0 - x in
  let y := if 255 <? y then y - 255 else y in
  buffer ← zput buffer offset x;
  buffer ← zput buffer (offset + 1) y;
  Ret (buffer, Z.lor (Z.shiftl x 8) (Z.land y 255)).

(** ** Lemmas: carries *)
Lemma sum_words_acc bs s : sum_words bs s = s + sum_words bs 0.
Proof.
  revert bs s. fix IH 1. intros [|b0 [|b1 r]] s; cbn [sum_words]; [lia|lia|].
  rewrite (IH r (s + _)), (IH r (0 + _)). lia.
Qed.

Lemma sum_words_bound bs : Forall is_u8 bs -> 0 <= sum_words bs 0 <= 65535 * zlen bs.
Proof.
  revert bs. fix IH 1. intros [|b0 [|b1 r]] H; [done|..].
  - apply Forall_cons in H as [H _]. cbn [sum_words]. unfold is_u8, zlen in *. simpl. lia.
  - apply Forall_cons in H as [H0 H]. apply Forall_cons in H as [H1 H]. cbn [sum_words].
    rewrite sum_words_acc. specialize (IH r H). rewrite !zlen_cons. unfold is_u8 in *. lia.
Qed.

(** Sums split at an even place. *)
Lemma sum_words_app a b (n : nat) : length a = (2 * n)%nat -> sum_words (a ++ b) 0 = sum_words a 0 + sum_words b 0.
Proof.
  revert a. induction n as [|n IH]; intros a Ha.
  - by destruct a.
  - destruct a as [|a0 [|a1 a]]; [done|simpl in Ha; lia|]. cbn [app sum_words].
    rewrite sum_words_acc, (sum_words_acc a). simpl in Ha. rewrite IH by lia. lia.
Qed.

(** The folded sum is congruent modulo 65535, and 0 only for 0. *)
Lemma fold_spec s :
  0 <= s < 2 ^ 32 ->
  let s1 := Z.shiftr s 16 + Z.land s 65535 in
  let s2 := s1 + Z.shiftr s1 16 in
  let f := s2 mod 65536 in
  u16 (Z.lnot s2) = 65535 - f /\ 0 <= f <= 65535 /\ (s - f) mod 65535 = 0 /\ (f = 0 <-> s = 0).
Proof.
  intros Hs. cbv zeta. assert (El : Z.land s 65535 = s mod 65536) by apply (Z.land_ones s 16 ltac:(lia)).
  rewrite El, !Z.shiftr_div_pow2 by lia. change (2 ^ 16) with 65536. clear El.
  unfold Z.lnot, u16. change (2 ^ 16) with 65536.
  set (h := s / 65536). set (l := s mod 65536).
  assert (Es : s = 65536 * h + l) by (unfold h, l; mod_lia).
  assert (0 <= l < 65536) by (unfold l; mod_lia). assert (0 <= h < 65536) by (unfold h; mod_lia).
  clearbody h l. subst s.
  assert (Hf : (h + l + (h + l) / 65536) mod 65536 = if h + l <? 65536 then h + l else h + l - 65535).
  { case_test; mod_lia. }
  rewrite Hf. split; [|case_test; (split; [lia|split; [mod_lia|lia]])].
  rewrite <- Hf. set (v := h + l + (h + l) / 65536). clearbody v. mod_lia.
Qed.

Lemma in_cksum_value bs :
  Forall is_u8 bs -> zlen bs <= 65535 ->
  exists f, in_cksum bs (zlen bs) = Ret (65535 - f) /\ 0 <= f <= 65535 /\
    (sum_words bs 0 - f) mod 65535 = 0 /\ (f = 0 <-> sum_words bs 0 = 0).
Proof.
  intros Hu Hl. pose proof (sum_words_bound bs Hu) as Hb.
  destruct (fold_spec (sum_words bs 0)) as (Hv & Hf & Hmod & H0); [lia|].
  eexists. unfold in_cksum. rewrite zload_all. cbn [mbind res_bind]. cbv zeta. rewrite Hv. done.
Qed.

(** ** Lemmas: the two sums *)

(** The reference values: the sum of the octets and the sum weighted by their distance
    from the end. *)
Fixpoint sum0 (bs : list Z) : Z := match bs with [] => 0 | b :: r => b + sum0 r end.
Fixpoint sum1 (bs : list Z) : Z := match bs with [] => 0 | b :: r => (1 + zlen r) * b + sum1 r end.

Lemma sum0_app a b : sum0 (a ++ b) = sum0 a + sum0 b.
Proof. induction a as [|x a IH]; simpl; lia. Qed.

Lemma sum1_app a b : sum1 (a ++ b) = sum1 a + zlen b * sum0 a + sum1 b.
Proof.
  induction a as [|x a IH]; cbn [app sum0 sum1]; [lia|]. rewrite IH, zlen_app. ring.
Qed.

Lemma sum0_nonneg bs : Forall is_u8 bs -> 0 <= sum0 bs.
Proof. induction 1 as [|b r Hb _ IH]; simpl; unfold is_u8 in *; lia. Qed.

Lemma sum1_bound bs : Forall is_u8 bs -> 0 <= sum1 bs /\ 2 * sum1 bs <= 255 * (zlen bs * (zlen bs + 1)).
Proof.
  induction 1 as [|b r Hb _ IH]; [done|]. cbn [sum1]. rewrite zlen_cons. pose proof (zlen_nonneg r).
  unfold is_u8 in Hb. split; nia.
Qed.

Lemma int_add_ok a b : - 2 ^ 31 <= a + b < 2 ^ 31 -> int_add a b = Ret (a + b).
Proof.
  intros H. unfold int_add. cbv zeta.
  by replace (_ && _) with true by (symmetry; rewrite andb_true_iff, Z.leb_le, Z.ltb_lt; lia).
Qed.

(** A block computes the sums exactly while they fit an [int]. *)
Lemma fletcher_block_ok bs c0 c1 :
  Forall is_u8 bs -> 0 <= c0 -> 0 <= c1 -> c0 < 2 ^ 31 -> c1 + zlen bs * c0 + sum1 bs < 2 ^ 31 ->
  fletcher_block bs c0 c1 = Ret (c0 + sum0 bs, c1 + zlen bs * c0 + sum1 bs).
Proof.
  intros Hu. revert c0 c1. induction Hu as [|b r Hb Hr IH]; intros c0 c1 H0 H1 Hc Hmax; cbn [fletcher_block sum0 sum1].
  - unfold zlen. simpl length. do 2 f_equal; lia.
  - cbn [sum1] in Hmax. rewrite zlen_cons in *. pose proof (zlen_nonneg r). pose proof (proj1 (sum1_bound r Hr)).
    unfold is_u8 in Hb. assert (0 <= zlen r * c0) by nia. assert (0 <= zlen r * b) by nia.
    rewrite (int_add_ok c0 b) by lia. cbn [mbind res_bind]. rewrite (int_add_ok c1) by lia. cbn [mbind res_bind].
    rewrite IH by nia. do 2 f_equal; ring.
Qed.

(** [MODX] octets from reduced sums stay below [2^31]. *)
Lemma block_fits bs c0 c1 :
  Forall is_u8 bs -> (length bs <= Z.to_nat MODX)%nat -> 0 <= c0 < 255 -> 0 <= c1 < 255 ->
  c1 + zlen bs * c0 + sum1 bs < 2 ^ 31.
Proof.
  intros Hu Hl H0 H1. pose proof (sum1_bound bs Hu) as [_ Hs]. unfold zlen in *.
  assert (Z.of_nat (length bs) <= 4102) by (unfold MODX in Hl; lia).
  assert (Z.of_nat (length bs) * (Z.of_nat (length bs) + 1) <= 4102 * 4103) by nia. nia.
Qed.

Lemma fletcher_sums_ok fuel bs c0 c1 :
  Forall is_u8 bs -> (length bs <= fuel)%nat -> 0 <= c0 < 255 -> 0 <= c1 < 255 ->
  exists d0 d1, fletcher_sums fuel bs c0 c1 = Ret (d0, d1) /\ 0 <= d0 < 255 /\ 0 <= d1 < 255 /\
    (exists k, c0 + sum0 bs = d0 + 255 * k) /\ (exists k, c1 + zlen bs * c0 + sum1 bs = d1 + 255 * k).
Proof.
  revert bs c0 c1. induction fuel as [|fuel IH]; intros bs c0 c1 Hu Hl H0 H1.
  - destruct bs; [|simpl in Hl; lia]. exists c0, c1. do 3 (split; [done|]). split; exists 0; unfold zlen; simpl; lia.
  - destruct bs as [|b r] eqn:Eb.
    { exists c0, c1. do 3 (split; [done|]). split; exists 0; unfold zlen; simpl; lia. }
    cbn [fletcher_sums]. rewrite <- Eb in *. clear Eb b r.
    assert (Hut : Forall is_u8 (take (Z.to_nat MODX) bs)) by (by apply Forall_take).
    assert (Hud : Forall is_u8 (drop (Z.to_nat MODX) bs)) by (by apply Forall_drop).
    assert (Hlt : (length (take (Z.to_nat MODX) bs) <= Z.to_nat MODX)%nat) by (rewrite length_take; lia).
    pose proof (block_fits _ c0 c1 Hut Hlt H0 H1) as Hfit.
    rewrite (fletcher_block_ok _ _ _ Hut) by (lia || exact Hfit). cbn [mbind res_bind fst snd].
    pose proof (sum0_nonneg _ Hut). pose proof (sum1_bound _ Hut) as [? _]. pose proof (zlen_nonneg (take (Z.to_nat MODX) bs)).
    set (a := take (Z.to_nat MODX) bs) in *. set (d := drop (Z.to_nat MODX) bs) in *.
    assert (0 <= zlen a * c0) by nia.
    rewrite !Z.rem_mod_nonneg by lia.
    destruct (IH d ((c0 + sum0 a) mod 255) ((c1 + zlen a * c0 + sum1 a) mod 255)) as (d0 & d1 & Hd & R0 & R1 & [k0 K0] & [k1 K1]);
      [done|unfold d; rewrite length_drop; unfold MODX; lia|mod_lia..|].
    exists d0, d1. split; [done|]. split; [done|]. split; [done|].
    assert (Eapp : bs = a ++ d) by (symmetry; apply take_drop). rewrite Eapp, sum0_app, sum1_app, zlen_app.
    pose proof (Z.div_mod (c0 + sum0 a) 255 ltac:(lia)) as Q0.
    pose proof (Z.div_mod (c1 + zlen a * c0 + sum1 a) 255 ltac:(lia)) as Q1.
    set (m0 := (c0 + sum0 a) mod 255) in *. set (m1 := (c1 + zlen a * c0 + sum1 a) mod 255) in *.
    set (q0 := (c0 + sum0 a) / 255) in *. set (q1 := (c1 + zlen a * c0 + sum1 a) / 255) in *.
    split; [exists (k0 + q0); lia|]. exists (k1 + q1 + zlen d * q0).
    replace (c1 + (zlen a + zlen d) * c0 + (sum1 a + zlen d * sum0 a + sum1 d))
      with ((c1 + zlen a * c0 + sum1 a) + zlen d * (c0 + sum0 a) + sum1 d) by ring.
    rewrite Q0, Q1. replace (255 * q1 + m1 + zlen d * (255 * q0 + m0) + sum1 d)
      with (m1 + zlen d * m0 + sum1 d + 255 * (q1 + zlen d * q0)) by ring.
    rewrite K1. ring.
Qed.

(** ** Lemmas: the check octets *)
Lemma i32_u64 v : - 2 ^ 31 <= v < 2 ^ 31 -> i32 (u64 v) = v.
Proof. intros Hv. unfold i32, u64. mod_lia. Qed.

(** [x] and [y] are octets in 1..255 that cancel both sums. *)
Lemma check_octets v c0 :
  0 <= c0 < 255 -> - 2 ^ 31 <= v < 2 ^ 31 ->
  let x0 := Z.rem (i32 (u64 v)) 255 in
  let x := if x0 <=? 0 then x0 + 255 else x0 in
  let y0 := 510 - c0 - x in
  let y := if 255 <? y0 then y0 - 255 else y0 in
  1 <= x <= 255 /\ 1 <= y <= 255 /\ (exists k, v = x + 255 * k) /\ (exists k, c0 + x + y = 255 * k).
Proof.
  intros H0 Hv. cbv zeta. rewrite (i32_u64 v Hv).
  pose proof (Z.quot_rem' v 255) as Hq. pose proof (Z.rem_bound_abs v 255 ltac:(lia)) as Hr.
  set (r := Z.rem v 255) in *. set (q := Z.quot v 255) in *. clearbody r q.
  repeat case_test; (split; [lia|]; split; [lia|]; split).
  1: exists (q - 1); lia. 1: exists 1; lia. 1: exists (q - 1); lia. 1: exists 2; lia.
  1: exists q; lia. 1: exists 1; lia. 1: exists q; lia. exists 2; lia.
Qed.

(** Filling in two octets that were 0. *)
Lemma sums_filled pre post x y :
  sum0 (pre ++ [x; y] ++ post) = sum0 (pre ++ [0; 0] ++ post) + x + y /\
  sum1 (pre ++ [x; y] ++ post) = sum1 (pre ++ [0; 0] ++ post) + (2 + zlen post) * x + (1 + zlen post) * y.
Proof.
  rewrite !sum0_app, !sum1_app, !zlen_app. cbn [sum0 sum1].
  change (zlen [y]) with 1. change (zlen [0]) with 1. change (@zlen Z []) with 0.
  change (zlen [x; y]) with 2. change (zlen [0; 0]) with 2. split; ring.
Qed.

(** ** Properties *)

(** A header with its checksum verifies: [in_cksum] over the octets with the value
    it returned stored where zeros were is 0, at any even place. *)
Theorem in_cksum_verifies pre post (n : nat) :
  length pre = (2 * n)%nat -> Forall is_u8 pre -> Forall is_u8 post -> zlen (pre ++ [0; 0] ++ post) <= 65535 ->
  exists c, in_cksum (pre ++ [0; 0] ++ post) (zlen (pre ++ [0; 0] ++ post)) = Ret c /\ is_u16 c /\
    in_cksum (pre ++ [c mod 256; c / 256] ++ post) (zlen (pre ++ [c mod 256; c / 256] ++ post)) = Ret 0.
Proof.
  intros Hpre Upre Upost Hlen.
  assert (U0 : Forall is_u8 (pre ++ [0; 0] ++ post)) by (rewrite !Forall_app; repeat split; try done; by_eval).
  destruct (in_cksum_value _ U0 Hlen) as (f & Hc & Hf & Hmod & H0). exists (65535 - f).
  split; [done|]. split; [unfold is_u16; lia|]. set (c := 65535 - f) in *.
  assert (Hcc : c mod 256 + 256 * (c / 256) = c) by mod_lia.
  assert (U1 : Forall is_u8 (pre ++ [c mod 256; c / 256] ++ post)).
  { rewrite !Forall_app, !Forall_cons. unfold is_u8. repeat split; try done; mod_lia. }
  destruct (in_cksum_value _ U1) as (g & Hg & Hgf & Hgmod & Hg0); [rewrite !zlen_app in *; done|].
  rewrite Hg. f_equal. pose proof (sum_words_bound _ U0) as Hb.
  assert (Es : sum_words (pre ++ [c mod 256; c / 256] ++ post) 0 = sum_words (pre ++ [0; 0] ++ post) 0 + c).
  { rewrite !(sum_words_app pre _ n) by done. cbn [app sum_words].
    rewrite (sum_words_acc post), (sum_words_acc post (0 + (0 + 256 * 0))). lia. }
  rewrite Es in *. set (s := sum_words (pre ++ [0; 0] ++ post) 0) in *. clearbody s.
  destruct (decide (g = 0)) as [->|]; [lia|]. assert (g mod 65535 = 0) by (unfold c in *; mod_lia). mod_lia.
Qed.

(** C39. A packet that [fletcher_checksum] filled in verifies: the check octets are never
    0, and both sums over the packet are 0 modulo 255.  No [int] overflows on the way,
    since the sums are reduced every 4102 octets. *)
Theorem fletcher_verifies pre a b post :
  Forall is_u8 (pre ++ [a; b] ++ post) -> zlen (pre ++ [a; b] ++ post) <= 65536 ->
  exists x y,
    fletcher_checksum (pre ++ [a; b] ++ post) (zlen (pre ++ [a; b] ++ post)) (zlen pre)
      = Ret (pre ++ [x; y] ++ post, x * 256 + y) /\ 1 <= x <= 255 /\ 1 <= y <= 255 /\
    fletcher_sums (length (pre ++ [x; y] ++ post)) (pre ++ [x; y] ++ post) 0 0 = Ret (0, 0).
Proof.
  intros Hu Hlen. rewrite !Forall_app in Hu. destruct Hu as (Upre & _ & Upost).
  set (L := zlen (pre ++ [a; b] ++ post)) in *.
  assert (EL : L = zlen pre + 2 + zlen post) by (unfold L; rewrite !zlen_app; unfold zlen; simpl; lia).
  pose proof (zlen_nonneg pre). pose proof (zlen_nonneg post).
  assert (U0 : Forall is_u8 (pre ++ [0; 0] ++ post)) by (rewrite !Forall_app; repeat split; try done; by_eval).
  destruct (fletcher_sums_ok (length (pre ++ [0; 0] ++ post)) _ 0 0 U0) as (c0 & c1 & Hs & R0 & R1 & [k0 K0] & [k1 K1]);
    [lia..|].
  unfold fletcher_checksum. replace (zlen pre <? L) with true by (symmetry; apply Z.ltb_lt; lia).
  cbn [cassert mbind res_bind]. rewrite (zstore_app pre [a; b] post [0; 0]) by done. cbn [mbind res_bind].
  assert (Hz : zload (pre ++ [0; 0] ++ post) 0 L = Ret (pre ++ [0; 0] ++ post)).
  { rewrite <- zload_all. f_equal. rewrite EL, !zlen_app. unfold zlen. simpl. lia. }
  rewrite Hz. cbn [mbind res_bind]. rewrite Hs. cbn [mbind res_bind].
  set (v := (L - zlen pre - 1) * c0 - c1).
  assert (Hv : - 2 ^ 31 <= v < 2 ^ 31).
  { unfold v. assert (0 <= (L - zlen pre - 1) * c0 <= 65536 * 254) by nia. lia. }
  destruct (check_octets v c0 R0 Hv) as (Hx & Hy & [kx Kx] & [ky Ky]). cbv zeta in *.
  set (x := if Z.rem (i32 (u64 v)) 255 <=? 0 then _ else _) in *.
  set (y := if 255 <? 510 - c0 - x then _ else _) in *. clearbody x y.
  exists x, y. cbn [app]. rewrite (zput_app pre) by done. cbn [mbind res_bind].
  replace (pre ++ x :: 0 :: post) with ((pre ++ [x]) ++ 0 :: post) by (by rewrite <- app_assoc).
  rewrite (zput_app (pre ++ [x])) by (rewrite zlen_app; unfold zlen; simpl; lia). cbn [mbind res_bind].
  split; [|split; [done|split; [done|]]].
  - rewrite <- app_assoc. do 2 f_equal. change 255 with (Z.ones 8). rewrite Z.land_ones by lia.
    rewrite Z.mod_small by lia. rewrite lor_shiftl_add by lia. lia.
  - assert (U1 : Forall is_u8 (pre ++ x :: y :: post)).
    { apply Forall_app. split; [done|]. rewrite !Forall_cons. unfold is_u8. repeat split; try lia. done. }
    destruct (fletcher_sums_ok (length (pre ++ x :: y :: post)) _ 0 0 U1) as (d0 & d1 & Hd & D0 & D1 & [j0 J0] & [j1 J1]);
      [lia..|].
    rewrite Hd. destruct (sums_filled pre post x y) as [F0 F1]. cbn [app] in *. rewrite F0 in J0. rewrite F1 in J1.
    assert (E0 : d0 = 255 * (k0 + ky - j0)) by lia.
    assert (E1 : d1 = 255 * (k1 - j1 - kx + (1 + zlen post) * ky)).
    { unfold v in Kx. rewrite EL in Kx. nia. }
    do 2 f_equal; [lia|]. set (m := k1 - j1 - kx + (1 + zlen post) * ky) in *. lia.
Qed.

(** The assertion only asks that the first check octet is inside: at the last octet
    [fletcher_checksum] writes past the packet. *)
Theorem fletcher_last_octet_overrun buffer len :
  zlen buffer = len -> 0 < len -> fletcher_checksum buffer len (len - 1) = Fault.
Proof.
  intros Hl Hpos. unfold fletcher_checksum. replace (len - 1 <? len) with true by (symmetry; apply Z.ltb_lt; lia).
  cbn [cassert mbind res_bind]. unfold zstore.
  destruct (_ && _) eqn:E; [|done]. zify_bool. change (zlen [0; 0]) with 2 in *. lia.
Qed.

(** ** Sample packets *)
Lemma in_cksum_verifies_witness :
  exists c, in_cksum ([69; 0; 0; 28] ++ [0; 0] ++ [10; 0; 0; 1]) (zlen ([69; 0; 0; 28] ++ [0; 0] ++ [10; 0; 0; 1])) = Ret c /\ is_u16 c /\
    in_cksum ([69; 0; 0; 28] ++ [c mod 256; c / 256] ++ [10; 0; 0; 1])
      (zlen ([69; 0; 0; 28] ++ [c mod 256; c / 256] ++ [10; 0; 0; 1])) = Ret 0.
Proof. apply (in_cksum_verifies [69; 0; 0; 28] [10; 0; 0; 1] 2); [reflexivity|by_eval|by_eval|vm_compute; discriminate]. Defined.

Lemma fletcher_verifies_witness :
  exists x y,
    fletcher_checksum ([2; 1; 10] ++ [7; 9] ++ [200; 3]) (zlen ([2; 1; 10] ++ [7; 9] ++ [200; 3])) (zlen [2; 1; 10])
      = Ret ([2; 1; 10] ++ [x; y] ++ [200; 3], x * 256 + y) /\ 1 <= x <= 255 /\ 1 <= y <= 255 /\
    fletcher_sums (length ([2; 1; 10] ++ [x; y] ++ [200; 3])) ([2; 1; 10] ++ [x; y] ++ [200; 3]) 0 0 = Ret (0, 0).
Proof. apply (fletcher_verifies [2; 1; 10] 7 9 [200; 3]); [by_eval|vm_compute; discriminate]. Defined.

Lemma fletcher_last_octet_overrun_witness : fletcher_checksum [1; 2; 3] 3 2 = Fault.
Proof. apply (fletcher_last_octet_overrun [1; 2; 3] 3); [reflexivity|lia]. Defined.

(** The comment beside [MODX] says 5802 would do as well: not for an [int]. *)
Lemma modx_5802_overflows : fletcher_block (replicate (Z.to_nat 5802) 255) 0 0 = Fault.
Proof. vm_compute. reflexivity. Qed.
