(* ===== verification/Pqueue.v ===== *)
(** * lib/pqueue.c: priority queues

    A binary heap in an array of pointers, ordered by a comparison function; it feeds
    the SPF computation and the timers.  [null] is the content of unused cells.  Both
    sifting loops carry the moved element in a local variable and leave a hole in the
    array; the lemmas reason about the array with the hole filled. *)
From stdpp Require Import base option list sorting.
From Stdlib Require Import ZArith Lia ZifyNat.
From S2P Require Import Prelude.

Section Pqueue.
Context {A : Type} (cmp : A -> A -> Z) (null : A) (notify : bool).

(** [struct pqueue]; [array_size] is the length of the array.  [q_log] records the calls
    of [update], made when [notify] says the pointer is set. *)
Record pqueue := PQ { q_array : list A; q_size : Z; q_log : list (A * Z) }.

Definition PQUEUE_INIT_ARRAYSIZE : Z := 32.
Definition PARENT_OF (x : Z) : Z := Z.quot (x - 1) 2.
Definition LEFT_OF (x : Z) : Z := 2 * x + 1.
Definition RIGHT_OF (x : Z) : Z := 2 * x + 2.
Definition HAVE_CHILD (x : Z) (q : pqueue) : bool := x <? Z.quot (q_size q) 2.

Definition put (q : pqueue) (i : Z) (x : A) : res pqueue :=
  a ← zput (q_array q) i x; Ret (PQ a (q_size q) (q_log q)).
Definition update (q : pqueue) (x : A) (i : Z) : pqueue :=
  PQ (q_array q) (q_size q) (if notify then q_log q ++ [(x, i)] else q_log q).

(** [array[index] = x; if (update) update (x, index);] *)
Definition place (q : pqueue) (index : Z) (x : A) : res pqueue :=
  q ← put q index x; Ret (update q x index).

(** The loop of [trickle_up]; [index] shrinks. *)
Fixpoint up_loop (fuel : nat) (q : pqueue) (tmp : A) (index : Z) : res (pqueue * Z) :=
  match fuel with
  | O => Fault
  | S fuel =>
      if 0 <? index then
        p ← zget (q_array q) (PARENT_OF index);
        if cmp tmp p <? 0 then
          q ← place q index p; up_loop fuel q tmp (PARENT_OF index)
        else Ret (q, index)
      else Ret (q, index)
  end.

Definition trickle_up (index : Z) (q : pqueue) : res pqueue :=
  tmp ← zget (q_array q) index;
  r ← up_loop (S (Z.to_nat index)) q tmp index;
  let '(q, index) := (r : pqueue * Z) in place q index tmp.

(** The loop of [trickle_down]; [index] grows below [size / 2]. *)
Fixpoint down_loop (fuel : nat) (q : pqueue) (tmp : A) (index : Z) : res (pqueue * Z) :=
  match fuel with
  | O => Fault
  | S fuel =>
      if HAVE_CHILD index q then
        which ← (if RIGHT_OF index <? q_size q then
                   l ← zget (q_array q) (LEFT_OF index); r ← zget (q_array q) (RIGHT_OF index);
                   Ret (if 0 <? cmp l r then RIGHT_OF index else LEFT_OF index)
                 else Ret (LEFT_OF index));
        w ← zget (q_array q) which;
        if 0 <? cmp w tmp then Ret (q, index)
        else q ← place q index w; down_loop fuel q tmp which
      else Ret (q, index)
  end.

Definition trickle_down (index : Z) (q : pqueue) : res pqueue :=
  tmp ← zget (q_array q) index;
  r ← down_loop (S (Z.to_nat (q_size q))) q tmp index;
  let '(q, index) := (r : pqueue * Z) in place q index tmp.

Definition pqueue_create : pqueue := PQ (replicate (Z.to_nat PQUEUE_INIT_ARRAYSIZE) null) 0 [].

(** [XCALLOC] does not return NULL, so the expansion succeeds. *)
Definition pqueue_expand (q : pqueue) : pqueue :=
  PQ (q_array q ++ replicate (length (q_array q)) null) (q_size q) (q_log q).

Definition pqueue_enqueue (data : A) (q : pqueue) : res pqueue :=
  let q := if zlen (q_array q) <=? q_size q + 2 then pqueue_expand q else q in
  q ← place q (q_size q) data;
  q ← trickle_up (q_size q) q;
  Ret (PQ (q_array q) (q_size q + 1) (q_log q)).

Definition pqueue_dequeue (q : pqueue) : res (A * pqueue) :=
  data ← zget (q_array q) 0;
  let size := q_size q - 1 in
  last ← zget (q_array q) size;
  a ← zput (q_array q) 0 last;
  q ← trickle_down 0 (PQ a size (q_log q));
  Ret (data, q).

(** ** Heaps *)

(** [cmp] orders: it is antisymmetric in sign, and [<= 0] is transitive. *)
Class Ordering := {
  cmp_flip : forall x y, cmp x y < 0 <-> 0 < cmp y x;
  cmp_trans : forall x y z, cmp x y <= 0 -> cmp y z <= 0 -> cmp x z <= 0 }.
Context {HO : Ordering}.

Definition cle (x y : A) : Prop := cmp x y <= 0.

Lemma le_refl x : cle x x.
Proof. unfold cle. pose proof (cmp_flip x x). lia. Qed.

Lemma not_lt_le x y : ~ cmp x y < 0 -> cle y x.
Proof. unfold cle. pose proof (cmp_flip x y). lia. Qed.

Lemma not_gt_le x y : ~ 0 < cmp x y -> cle x y.
Proof. unfold cle. lia. Qed.

Lemma gt_le x y : 0 < cmp x y -> cle y x.
Proof. intros H. unfold cle. apply cmp_flip in H. lia. Qed.

Lemma lt_le x y : cmp x y < 0 -> cle x y.
Proof. unfold cle. lia. Qed.

Lemma le_trans x y z : cle x y -> cle y z -> cle x z.
Proof. apply cmp_trans. Qed.

Definition at_ (a : list A) (i : nat) : A := default null (a !! i).
Definition parent (i : nat) : nat := ((i - 1) / 2)%nat.

(** The first [n] cells are a heap. *)
Definition heap (n : nat) (a : list A) : Prop :=
  forall i, (0 < i < n)%nat -> cle (at_ a (parent i)) (at_ a i).

Lemma at_insert a h x i : (h < length a)%nat -> at_ (<[h := x]> a) i = if decide (i = h) then x else at_ a i.
Proof.
  intros Hh. unfold at_. case_decide as E; [subst; by rewrite list_lookup_insert_eq|].
  by rewrite list_lookup_insert_ne.
Qed.

Lemma zget_at a i : (i < length a)%nat -> zget a (Z.of_nat i) = Ret (at_ a i).
Proof.
  intros Hi. destruct (lookup_lt_is_Some_2 a i Hi) as [x Hx]. unfold at_. rewrite Hx. by apply zget_lookup.
Qed.

Lemma place_ok q i x :
  (i < length (q_array q))%nat ->
  exists log, place q (Z.of_nat i) x = Ret (PQ (<[i := x]> (q_array q)) (q_size q) log).
Proof. intros Hi. unfold place, put. rewrite zput_ok by done. eexists. reflexivity. Qed.

Lemma parent_of i : (0 < i)%nat -> PARENT_OF (Z.of_nat i) = Z.of_nat (parent i).
Proof. intros Hi. unfold PARENT_OF, parent. rewrite Z.quot_div_nonneg by lia. ndiv_lia. Qed.

Lemma parent_lt i : (0 < i)%nat -> (parent i < i)%nat.
Proof. unfold parent. ndiv_lia. Qed.

(** Exchanging two elements. *)
Lemma swap_perm (l : list A) i j x y :
  l !! i = Some x -> l !! j = Some y -> <[i := y]> (<[j := x]> l) ≡ₚ l.
Proof.
  intros Hi Hj. apply Permutation_inj. split; [by rewrite !length_insert|].
  exists (fun k => if decide (k = i) then j else if decide (k = j) then i else k). split.
  - intros k1 k2. repeat case_decide; congruence.
  - intros k. pose proof (lookup_lt_Some _ _ _ Hi). pose proof (lookup_lt_Some _ _ _ Hj).
    case_decide as E1; [subst k; rewrite list_lookup_insert_eq by (rewrite length_insert; lia); done|].
    rewrite list_lookup_insert_ne by done. case_decide as E2; [subst k; by rewrite list_lookup_insert_eq|].
    by rewrite list_lookup_insert_ne.
Qed.

(** Moving the hole from [h] to [p]. *)
Lemma move_perm (a : list A) h p tmp :
  (h < length a)%nat -> (p < length a)%nat -> h <> p ->
  <[p := tmp]> (<[h := at_ a p]> a) ≡ₚ <[h := tmp]> a.
Proof.
  intros Hh Hp Hne. destruct (lookup_lt_is_Some_2 a p Hp) as [y Hy].
  assert (Ey : at_ a p = y) by (unfold at_; by rewrite Hy). rewrite Ey.
  rewrite <- (swap_perm (<[h := tmp]> a) p h y tmp).
  - by rewrite list_insert_insert_eq.
  - by rewrite list_lookup_insert_ne.
  - by apply list_lookup_insert_eq.
Qed.

(** ** Sifting up *)

(** A heap but for the element at [h], which may be smaller than its parent. *)
Definition up_inv (n : nat) (v : list A) (h : nat) : Prop :=
  (forall i, (0 < i < n)%nat -> i <> h -> cle (at_ v (parent i)) (at_ v i)) /\
  (forall c, (0 < c < n)%nat -> (0 < h)%nat -> parent c = h -> cle (at_ v (parent h)) (at_ v c)).

(** What a loop leaves: the hole at [h'], the array [a'] a rearrangement of [a]. *)
Definition sifted (n : nat) (a a' : list A) (tmp : A) (h h' : nat) : Prop :=
  length a' = length a /\ (h' < n)%nat /\ <[h' := tmp]> a' ≡ₚ <[h := tmp]> a /\
  forall i, (n <= i)%nat -> a' !! i = a !! i.

Lemma sifted_refl n a tmp h : (h < n)%nat -> sifted n a a tmp h h.
Proof. done. Qed.

(** One move of the hole followed by others. *)
Lemma sifted_step n a a' tmp h p h' :
  (h < n)%nat -> (p < n)%nat -> (n <= length a)%nat -> h <> p ->
  sifted n (<[h := at_ a p]> a) a' tmp p h' -> sifted n a a' tmp h h'.
Proof.
  intros Hh Hp Hn Hne (Hl & Hh' & Hperm & Hrest). rewrite length_insert in Hl.
  split; [done|]. split; [done|]. split.
  - rewrite Hperm. apply move_perm; lia.
  - intros i Hi. rewrite Hrest by done. by rewrite list_lookup_insert_ne by lia.
Qed.

Lemma up_inv_step n a h tmp :
  (0 < h < n)%nat -> (n <= length a)%nat -> cmp tmp (at_ a (parent h)) < 0 ->
  up_inv n (<[h := tmp]> a) h ->
  up_inv n (<[parent h := tmp]> (<[h := at_ a (parent h)]> a)) (parent h).
Proof.
  intros Hh Hn Hlt [H1 H2]. pose proof (parent_lt h ltac:(lia)) as Hp. set (p := parent h) in *.
  assert (Hv : forall i, at_ (<[h := tmp]> a) i = if decide (i = h) then tmp else at_ a i)
    by (intros; apply at_insert; lia).
  assert (Hv' : forall i, at_ (<[p := tmp]> (<[h := at_ a p]> a)) i =
                          if decide (i = p) then tmp else if decide (i = h) then at_ a p else at_ a i).
  { intros i. rewrite at_insert by (rewrite length_insert; lia). case_decide; [done|]. apply at_insert. lia. }
  assert (Hsib : forall i, (0 < i < n)%nat -> i <> h -> parent i = p -> cle (at_ a p) (at_ a i)).
  { intros i Hi Hih Hpi. specialize (H1 i Hi Hih). rewrite !Hv, Hpi in H1. by rewrite !decide_False in H1 by lia. }
  assert (Hup : (0 < p)%nat -> cle (at_ a (parent p)) (at_ a p)).
  { intros H0. pose proof (parent_lt p H0). specialize (H1 p ltac:(lia) ltac:(lia)).
    rewrite !Hv in H1. by rewrite !decide_False in H1 by lia. }
  split.
  - intros i Hi Hip. rewrite !Hv'. rewrite (decide_False (P := i = p)) by done.
    destruct (decide (i = h)) as [->|Hih].
    + fold p. rewrite decide_True by done. by apply lt_le.
    + destruct (decide (parent i = p)) as [Epi|Hpi].
      * eapply le_trans; [by apply lt_le|]. by apply Hsib.
      * destruct (decide (parent i = h)) as [Eph|Hph].
        -- specialize (H2 i Hi ltac:(lia) Eph). fold p in H2. rewrite !Hv in H2. by rewrite !decide_False in H2 by lia.
        -- specialize (H1 i Hi Hih). rewrite !Hv in H1. by rewrite !decide_False in H1 by lia.
  - intros c Hc H0 Hpc. pose proof (parent_lt p H0). rewrite !Hv'.
    rewrite (decide_False (P := parent p = p)), (decide_False (P := parent p = h)) by lia.
    rewrite decide_False by (pose proof (parent_lt c ltac:(lia)); lia).
    case_decide as E; [by apply Hup|]. eapply le_trans; [by apply Hup|]. by apply Hsib.
Qed.

Lemma up_inv_heap n v h :
  up_inv n v h -> (h = 0%nat \/ cle (at_ v (parent h)) (at_ v h)) -> heap n v.
Proof.
  intros [H1 _] Hor i Hi. destruct (decide (i = h)) as [->|]; [|by apply H1]. destruct Hor; [lia|done].
Qed.

Lemma up_loop_ok n fuel q tmp h :
  (h < n)%nat -> (n <= length (q_array q))%nat -> (h < fuel)%nat -> up_inv n (<[h := tmp]> (q_array q)) h ->
  exists q' h', up_loop fuel q tmp (Z.of_nat h) = Ret (q', Z.of_nat h') /\ q_size q' = q_size q /\
    sifted n (q_array q) (q_array q') tmp h h' /\ heap n (<[h' := tmp]> (q_array q')).
Proof.
  revert q h. induction fuel as [|fuel IH]; intros q h Hh Hn Hf Hinv; [lia|]. cbn [up_loop].
  destruct (0 <? Z.of_nat h) eqn:E0; zify_bool.
  - pose proof (parent_lt h ltac:(lia)) as Hp. rewrite parent_of by lia. rewrite zget_at by lia. cbn [mbind res_bind].
    destruct (cmp tmp (at_ (q_array q) (parent h)) <? 0) eqn:Ec; zify_bool.
    + destruct (place_ok q h (at_ (q_array q) (parent h))) as [log ->]; [lia|]. cbn [mbind res_bind].
      destruct (IH (PQ (<[h := at_ (q_array q) (parent h)]> (q_array q)) (q_size q) log) (parent h))
        as (q' & h' & Hr & Hs & Hsift & Hheap); cbn [q_array]; [lia|rewrite length_insert; lia|lia|apply up_inv_step; [lia|lia|lia|done]|].
      exists q', h'. split; [done|]. split; [done|]. split; [|done]. by apply (sifted_step _ _ _ _ _ (parent h)); try lia.
    + exists q, h. split; [done|]. split; [done|]. split; [by apply sifted_refl|].
      eapply up_inv_heap; [exact Hinv|]. right. rewrite !at_insert by lia.
      rewrite decide_False, decide_True by lia. apply not_lt_le. lia.
  - exists q, h. split; [done|]. split; [done|]. split; [by apply sifted_refl|].
    eapply up_inv_heap; [exact Hinv|]. left. lia.
Qed.

(** Contents: the first [size] cells. *)
Definition contents (q : pqueue) : list A := take (Z.to_nat (q_size q)) (q_array q).
Definition pq_ok (q : pqueue) : Prop :=
  0 <= q_size q < zlen (q_array q) /\ heap (Z.to_nat (q_size q)) (q_array q).

Lemma trickle_up_ok q n h :
  (h < n)%nat -> (n <= length (q_array q))%nat -> up_inv n (q_array q) h ->
  exists q', trickle_up (Z.of_nat h) q = Ret q' /\ q_size q' = q_size q /\
    length (q_array q') = length (q_array q) /\ heap n (q_array q') /\ q_array q' ≡ₚ q_array q /\
    forall i, (n <= i)%nat -> q_array q' !! i = q_array q !! i.
Proof.
  intros Hh Hn Hinv. unfold trickle_up. rewrite zget_at by lia. cbn [mbind res_bind].
  assert (Eid : <[h := at_ (q_array q) h]> (q_array q) = q_array q).
  { apply list_insert_id. destruct (lookup_lt_is_Some_2 (q_array q) h ltac:(lia)) as [x Hx]. unfold at_. by rewrite Hx. }
  destruct (up_loop_ok n (S (Z.to_nat (Z.of_nat h))) q (at_ (q_array q) h) h)
    as (q1 & h' & -> & Hs & (Hl & Hh' & Hperm & Hrest) & Hheap); [done|done|lia|by rewrite Eid|].
  cbn [mbind res_bind]. destruct (place_ok q1 h' (at_ (q_array q) h)) as [log ->]; [lia|].
  rewrite Eid in Hperm. eexists. split; [reflexivity|]. cbn [q_size q_array].
  split; [done|]. split; [by rewrite length_insert|]. split; [done|]. split; [done|].
  intros i Hi. rewrite list_lookup_insert_ne by lia. by apply Hrest.
Qed.

(** Equal tails cancel. *)
Lemma take_perm n (a b : list A) :
  a ≡ₚ b -> (forall i, (n <= i)%nat -> a !! i = b !! i) -> take n a ≡ₚ take n b.
Proof.
  intros Hp Hi. assert (Ed : drop n a = drop n b).
  { apply list_eq. intros i. rewrite !lookup_drop. apply Hi. lia. }
  rewrite <- (take_drop n a), <- (take_drop n b), Ed in Hp. by apply (Permutation_app_inv_r (drop n b)).
Qed.

(** ** Sifting down *)

(** A heap but for the element at [h], which may be larger than its children. *)
Definition down_inv (n : nat) (v : list A) (h : nat) : Prop :=
  (forall i, (0 < i < n)%nat -> parent i <> h -> cle (at_ v (parent i)) (at_ v i)) /\
  (forall c, (0 < c < n)%nat -> (0 < h)%nat -> parent c = h -> cle (at_ v (parent h)) (at_ v c)).

Lemma children c h : (0 < c)%nat -> parent c = h -> c = (2 * h + 1)%nat \/ c = (2 * h + 2)%nat.
Proof. unfold parent. intros. ndiv_lia. Qed.

Lemma parent_left h : parent (2 * h + 1) = h.
Proof. unfold parent. ndiv_lia. Qed.
Lemma parent_right h : parent (2 * h + 2) = h.
Proof. unfold parent. ndiv_lia. Qed.

Lemma down_inv_step n a h w tmp :
  (h < n)%nat -> (0 < w < n)%nat -> (n <= length a)%nat -> parent w = h -> cle (at_ a w) tmp ->
  (forall c, (0 < c < n)%nat -> parent c = h -> cle (at_ a w) (at_ a c)) ->
  down_inv n (<[h := tmp]> a) h -> down_inv n (<[w := tmp]> (<[h := at_ a w]> a)) w.
Proof.
  intros Hh Hw Hn Hpw Hle Hmin [H1 H2]. pose proof (parent_lt w ltac:(lia)) as Hlt.
  assert (Hv : forall i, at_ (<[h := tmp]> a) i = if decide (i = h) then tmp else at_ a i)
    by (intros; apply at_insert; lia).
  assert (Hv' : forall i, at_ (<[w := tmp]> (<[h := at_ a w]> a)) i =
                          if decide (i = w) then tmp else if decide (i = h) then at_ a w else at_ a i).
  { intros i. rewrite at_insert by (rewrite length_insert; lia). case_decide; [done|]. apply at_insert. lia. }
  split.
  - intros i Hi Hpi. pose proof (parent_lt i ltac:(lia)) as Hli. rewrite !Hv'.
    rewrite (decide_False (P := parent i = w)) by done.
    destruct (decide (i = w)) as [->|Hiw]; [by rewrite decide_True|].
    destruct (decide (i = h)) as [->|Hih].
    + rewrite decide_False by lia. specialize (H2 w ltac:(lia) ltac:(lia) Hpw). rewrite !Hv in H2.
      by rewrite !decide_False in H2 by lia.
    + destruct (decide (parent i = h)) as [Eph|Hph]; [by apply Hmin|].
      specialize (H1 i Hi Hph). rewrite !Hv in H1. by rewrite !decide_False in H1 by lia.
  - intros c Hc _ Hpc. pose proof (parent_lt c ltac:(lia)) as Hlc. rewrite !Hv', Hpw.
    rewrite (decide_False (P := h = w)), (decide_True (P := h = h)) by (done || lia).
    rewrite !decide_False by lia. specialize (H1 c Hc ltac:(lia)). rewrite !Hv, Hpc in H1.
    by rewrite !decide_False in H1 by lia.
Qed.

Lemma down_inv_heap n v h :
  down_inv n v h -> (forall c, (0 < c < n)%nat -> parent c = h -> cle (at_ v h) (at_ v c)) -> heap n v.
Proof.
  intros [H1 _] Hc i Hi. destruct (decide (parent i = h)) as [E|]; [|by apply H1]. rewrite E. by apply Hc.
Qed.

(** The child the loop picks is the smallest. *)
Lemma pick_child (n h : nat) q :
  q_size q = Z.of_nat n -> (n <= length (q_array q))%nat -> (2 * h + 1 < n)%nat ->
  exists w, (if RIGHT_OF (Z.of_nat h) <? q_size q then
               l ← zget (q_array q) (LEFT_OF (Z.of_nat h)); r ← zget (q_array q) (RIGHT_OF (Z.of_nat h));
               Ret (if 0 <? cmp l r then RIGHT_OF (Z.of_nat h) else LEFT_OF (Z.of_nat h))
             else Ret (LEFT_OF (Z.of_nat h))) = Ret (Z.of_nat w) /\
    (0 < w < n)%nat /\ parent w = h /\
    forall c, (0 < c < n)%nat -> parent c = h -> cle (at_ (q_array q) w) (at_ (q_array q) c).
Proof.
  intros Hs Hn Hl. unfold LEFT_OF, RIGHT_OF. rewrite Hs.
  replace (2 * Z.of_nat h + 1) with (Z.of_nat (2 * h + 1)) by lia.
  replace (2 * Z.of_nat h + 2) with (Z.of_nat (2 * h + 2)) by lia.
  assert (Hcase : forall (w : nat) (P : nat -> Prop), P (2 * h + 1)%nat -> ((2 * h + 2 < n)%nat -> P (2 * h + 2)%nat) ->
    forall c, (0 < c < n)%nat -> parent c = h -> P c).
  { intros _ P PL PR c Hc Hpc. destruct (children c h ltac:(lia) Hpc) as [-> | ->]; [done|]. apply PR. lia. }
  destruct (Z.of_nat (2 * h + 2) <? Z.of_nat n) eqn:E; zify_bool.
  - rewrite !zget_at by lia. cbn [mbind res_bind].
    destruct (0 <? cmp (at_ (q_array q) (2 * h + 1)) (at_ (q_array q) (2 * h + 2))) eqn:Ec; zify_bool.
    + exists (2 * h + 2)%nat. split; [done|]. split; [lia|]. split; [apply parent_right|].
      apply (Hcase 0%nat); [by apply gt_le|intros; apply le_refl].
    + exists (2 * h + 1)%nat. split; [done|]. split; [lia|]. split; [apply parent_left|].
      apply (Hcase 0%nat); [apply le_refl|intros _; apply not_gt_le; lia].
  - exists (2 * h + 1)%nat. split; [done|]. split; [lia|]. split; [apply parent_left|].
    apply (Hcase 0%nat); [apply le_refl|lia].
Qed.

Lemma down_loop_ok n fuel q tmp h :
  q_size q = Z.of_nat n -> (h < n)%nat -> (n <= length (q_array q))%nat -> (n - h <= fuel)%nat ->
  down_inv n (<[h := tmp]> (q_array q)) h ->
  exists q' h', down_loop fuel q tmp (Z.of_nat h) = Ret (q', Z.of_nat h') /\ q_size q' = q_size q /\
    sifted n (q_array q) (q_array q') tmp h h' /\ heap n (<[h' := tmp]> (q_array q')).
Proof.
  revert q h. induction fuel as [|fuel IH]; intros q h Hs Hh Hn Hf Hinv; [lia|]. cbn [down_loop].
  assert (Hhave : HAVE_CHILD (Z.of_nat h) q = bool_decide (2 * h + 1 < n)%nat).
  { unfold HAVE_CHILD. rewrite Hs, Z.quot_div_nonneg by lia. apply eq_true_iff_eq.
    rewrite Z.ltb_lt, bool_decide_eq_true. mod_lia. }
  rewrite Hhave. case_bool_decide as Hl.
  - destruct (pick_child n h q Hs Hn Hl) as (w & -> & Hw & Hpw & Hmin). cbn [mbind res_bind].
    rewrite zget_at by lia. cbn [mbind res_bind].
    destruct (0 <? cmp (at_ (q_array q) w) tmp) eqn:Ec; zify_bool.
    + exists q, h. split; [done|]. split; [done|]. split; [by apply sifted_refl|].
      eapply down_inv_heap; [exact Hinv|]. intros c Hc Hpc. pose proof (parent_lt c ltac:(lia)).
      rewrite !at_insert by lia. rewrite decide_True, decide_False by lia.
      eapply le_trans; [by apply gt_le|]. by apply Hmin.
    + pose proof (parent_lt w ltac:(lia)). destruct (place_ok q h (at_ (q_array q) w)) as [log ->]; [lia|].
      cbn [mbind res_bind].
      destruct (IH (PQ (<[h := at_ (q_array q) w]> (q_array q)) (q_size q) log) w)
        as (q' & h' & Hr & Hs' & Hsift & Hheap); cbn [q_array q_size]; [done|lia|rewrite length_insert; lia|lia| |].
      { apply (down_inv_step n (q_array q) h w tmp); done. }
      exists q', h'. split; [done|]. split; [done|]. split; [|done].
      by apply (sifted_step _ _ _ _ _ w); try lia.
  - exists q, h. split; [done|]. split; [done|]. split; [by apply sifted_refl|].
    eapply down_inv_heap; [exact Hinv|]. intros c Hc Hpc. destruct (children c h ltac:(lia) Hpc); lia.
Qed.

(** The first element of a heap is the least. *)
Lemma heap_least n a : heap n a -> forall i, (i < n)%nat -> cle (at_ a 0) (at_ a i).
Proof.
  intros Hh i. induction i as [i IH] using lt_wf_ind. intros Hi. destruct (decide (i = 0)%nat) as [->|]; [apply le_refl|].
  eapply le_trans; [apply (IH (parent i))|apply Hh; lia]; pose proof (parent_lt i ltac:(lia)); lia.
Qed.

Lemma zget_first a : (0 < length a)%nat -> zget a 0 = Ret (at_ a 0).
Proof. apply (zget_at a 0). Qed.

Lemma trickle_down_ok q n :
  q_size q = Z.of_nat n -> (n < length (q_array q))%nat -> down_inv n (q_array q) 0 ->
  exists q', trickle_down 0 q = Ret q' /\ q_size q' = q_size q /\
    length (q_array q') = length (q_array q) /\ heap n (q_array q') /\
    take n (q_array q') ≡ₚ take n (q_array q).
Proof.
  intros Hs Hn Hinv. unfold trickle_down. rewrite zget_first by lia. cbn [mbind res_bind].
  assert (Eid : <[0%nat := at_ (q_array q) 0]> (q_array q) = q_array q).
  { apply list_insert_id. destruct (lookup_lt_is_Some_2 (q_array q) 0 ltac:(lia)) as [x Hx]. unfold at_. by rewrite Hx. }
  destruct n as [|m].
  - assert (E : HAVE_CHILD 0 q = false) by (unfold HAVE_CHILD; rewrite Hs; reflexivity).
    cbn [down_loop]. rewrite E. cbn [mbind res_bind].
    destruct (place_ok q 0 (at_ (q_array q) 0)) as [log Hlog]; [lia|]. change (Z.of_nat 0) with 0 in Hlog.
    rewrite Hlog, Eid. eexists. split; [reflexivity|]. cbn [q_size q_array]. split; [done|]. split; [done|].
    split; [intros i Hi; lia|done].
  - destruct (down_loop_ok (S m) (S (Z.to_nat (q_size q))) q (at_ (q_array q) 0) 0)
      as (q1 & h' & Hr & Hs1 & (Hl & Hh' & Hperm & Hrest) & Hheap); [done|lia|lia|lia|by rewrite Eid|].
    change (Z.of_nat 0) with 0 in Hr. rewrite Hr. cbn [mbind res_bind]. destruct (place_ok q1 h' (at_ (q_array q) 0)) as [log ->]; [lia|].
    rewrite Eid in Hperm. eexists. split; [reflexivity|]. cbn [q_size q_array].
    split; [done|]. split; [by rewrite length_insert|]. split; [done|]. apply take_perm; [done|].
    intros i Hi. rewrite list_lookup_insert_ne by lia. by apply Hrest.
Qed.

Lemma at_app a b i : (i < length a)%nat -> at_ (a ++ b) i = at_ a i.
Proof. intros Hi. unfold at_. by rewrite lookup_app_l. Qed.

(** Room for one more element. *)
Lemma expand_ok q :
  pq_ok q ->
  let q1 := if zlen (q_array q) <=? q_size q + 2 then pqueue_expand q else q in
  q_size q1 = q_size q /\ q_size q + 1 < zlen (q_array q1) /\
  heap (Z.to_nat (q_size q)) (q_array q1) /\ contents q1 = contents q.
Proof.
  intros [Hs Hh]. cbv zeta. destruct (zlen (q_array q) <=? q_size q + 2) eqn:E; zify_bool.
  - unfold pqueue_expand, contents. cbn [q_array q_size]. split; [done|]. split.
    { rewrite zlen_app, zlen_replicate. unfold zlen in *. lia. }
    unfold zlen in *. split.
    + intros i Hi. pose proof (parent_lt i ltac:(lia)). rewrite !at_app by lia. by apply Hh.
    + by rewrite take_app_le by lia.
  - repeat split; try done. lia.
Qed.

Lemma enqueue_ok data q :
  pq_ok q -> exists q', pqueue_enqueue data q = Ret q' /\ pq_ok q' /\ contents q' ≡ₚ data :: contents q.
Proof.
  intros Hok. unfold pqueue_enqueue. destruct (expand_ok q Hok) as (Es & Hroom & Hh & Ec). cbv zeta in *.
  set (q1 := if zlen (q_array q) <=? q_size q + 2 then pqueue_expand q else q) in *. clearbody q1.
  destruct Hok as [Hs _]. rewrite <- Es, <- Ec in *. set (n := Z.to_nat (q_size q1)) in *.
  assert (En : q_size q1 = Z.of_nat n) by (unfold n; lia). unfold zlen in *. rewrite En.
  destruct (place_ok q1 n data) as [log ->]; [lia|]. cbn [mbind res_bind q_size]. rewrite En.
  set (q2 := PQ (<[n := data]> (q_array q1)) (Z.of_nat n) log).
  assert (Hat : forall i, at_ (q_array q2) i = if decide (i = n) then data else at_ (q_array q1) i)
    by (intros; apply at_insert; lia).
  destruct (trickle_up_ok q2 (S n) n) as (q3 & -> & Hs3 & Hl3 & Hh3 & Hp3 & Hr3);
    [lia|unfold q2; cbn; rewrite length_insert; lia| |].
  { split.
    - intros i Hi Hin. pose proof (parent_lt i ltac:(lia)). rewrite !Hat, !decide_False by lia. apply Hh. lia.
    - intros c Hc _ Hpc. pose proof (parent_lt c ltac:(lia)). lia. }
  cbn [mbind res_bind]. eexists. split; [reflexivity|]. unfold pq_ok, contents. cbn [q_size q_array].
  rewrite Hs3. cbn [q_size q2]. replace (Z.to_nat (Z.of_nat n + 1)) with (S n) by lia.
  split; [split; [unfold zlen; rewrite Hl3; cbn [q_array q2]; rewrite length_insert; lia|done]|].
  rewrite (take_perm (S n) _ _ Hp3 Hr3). unfold q2. cbn [q_array].
  rewrite (take_S_r _ n data) by (apply list_lookup_insert_eq; lia).
  rewrite take_insert_ge by lia. fold n. symmetry. apply Permutation_cons_append.
Qed.

Lemma take_swap_first (a : list A) (m : nat) x0 xm :
  a !! 0%nat = Some x0 -> a !! m = Some xm -> (0 < m)%nat ->
  x0 :: take m (<[0%nat := xm]> a) ≡ₚ take (S m) a.
Proof.
  intros H0 Hm Hpos. destruct a as [|y r]; [done|]. injection H0 as ->. destruct m as [|m]; [lia|].
  simpl in Hm. cbn. rewrite (take_S_r r m xm) by done. constructor. apply Permutation_cons_append.
Qed.

Lemma dequeue_ok q :
  pq_ok q -> 0 < q_size q ->
  exists x q', pqueue_dequeue q = Ret (x, q') /\ pq_ok q' /\ contents q ≡ₚ x :: contents q' /\
    forall y, y ∈ contents q -> cle x y.
Proof.
  intros [Hs Hh] Hpos. unfold zlen in Hs. set (n := Z.to_nat (q_size q)) in *.
  destruct n as [|m] eqn:En; [lia|]. assert (Es : q_size q = Z.of_nat (S m)) by lia.
  unfold pqueue_dequeue. rewrite zget_first by lia. cbn [mbind res_bind]. rewrite Es.
  replace (Z.of_nat (S m) - 1) with (Z.of_nat m) by lia. rewrite zget_at by lia. cbn [mbind res_bind].
  pose proof (zput_ok (q_array q) 0 (at_ (q_array q) m) ltac:(lia)) as Hput. change (Z.of_nat 0) with 0 in Hput.
  rewrite Hput. cbn [mbind res_bind].
  set (x := at_ (q_array q) 0). set (last := at_ (q_array q) m).
  set (q1 := PQ (<[0%nat := last]> (q_array q)) (Z.of_nat m) (q_log q)).
  assert (Hat : forall i, at_ (q_array q1) i = if decide (i = 0)%nat then last else at_ (q_array q) i)
    by (intros; apply at_insert; lia).
  destruct (trickle_down_ok q1 m) as (q' & -> & Hs' & Hl' & Hh' & Hp'); [done|unfold q1; cbn; rewrite length_insert; lia| |].
  { split; [|lia]. intros i Hi Hpi. pose proof (parent_lt i ltac:(lia)). rewrite !Hat, !decide_False by lia.
    apply Hh. lia. }
  cbn [mbind res_bind]. exists x, q'. split; [done|]. cbn [q_array q_size q1] in *. rewrite length_insert in Hl'.
  assert (Hget : forall i, (i < length (q_array q))%nat -> q_array q !! i = Some (at_ (q_array q) i)).
  { intros i Hi. destruct (lookup_lt_is_Some_2 _ _ Hi) as [z Hz]. unfold at_. by rewrite Hz. }
  split; [|split].
  - unfold pq_ok. rewrite Hs', Nat2Z.id. split; [unfold zlen; lia|done].
  - unfold contents. rewrite Hs', Nat2Z.id, Es, Nat2Z.id, Hp'. destruct (decide (m = 0)%nat) as [->|].
    + rewrite take_0. rewrite (take_S_r _ 0 x) by (by apply Hget; lia). done.
    + symmetry. apply take_swap_first; [by apply Hget; lia|by apply Hget; lia|lia].
  - intros y Hy. unfold contents in Hy. rewrite Es, Nat2Z.id in Hy.
    apply list_elem_of_lookup in Hy as [i Hi]. apply lookup_take_Some in Hi as [Hi Hlt].
    assert (y = at_ (q_array q) i) as -> by (unfold at_; by rewrite Hi). by apply (heap_least (S m)).
Qed.

Lemma pqueue_create_ok : pq_ok pqueue_create.
Proof. split; [by vm_compute|]. intros i Hi. cbn in Hi. lia. Qed.

(** A client that inserts a list and takes everything out. *)
Fixpoint enqueue_all (l : list A) (q : pqueue) : res pqueue :=
  match l with [] => Ret q | x :: l => q ← pqueue_enqueue x q; enqueue_all l q end.
Fixpoint dequeue_all (n : nat) (q : pqueue) : res (list A) :=
  match n with
  | O => Ret []
  | S n => r ← pqueue_dequeue q; l ← dequeue_all n r.2; Ret (r.1 :: l)
  end.

Lemma enqueue_all_ok l q :
  pq_ok q -> exists q', enqueue_all l q = Ret q' /\ pq_ok q' /\ contents q' ≡ₚ l ++ contents q.
Proof.
  revert q. induction l as [|x l IH]; intros q Hok; cbn [enqueue_all]; [by exists q|].
  destruct (enqueue_ok x q Hok) as (q1 & -> & Hok1 & Hp1). cbn [mbind res_bind].
  destruct (IH q1 Hok1) as (q2 & -> & Hok2 & Hp2). exists q2. split; [done|]. split; [done|].
  rewrite Hp2, Hp1. cbn [app]. symmetry. apply Permutation_middle.
Qed.

Lemma contents_length q : pq_ok q -> length (contents q) = Z.to_nat (q_size q).
Proof. intros [Hs _]. unfold contents, zlen in *. rewrite length_take. lia. Qed.

Lemma dequeue_all_ok n q :
  pq_ok q -> q_size q = Z.of_nat n ->
  exists l, dequeue_all n q = Ret l /\ l ≡ₚ contents q /\ StronglySorted cle l.
Proof.
  revert q. induction n as [|n IH]; intros q Hok Hs; cbn [dequeue_all].
  - exists []. split; [done|]. split; [|constructor]. unfold contents. rewrite Hs. done.
  - destruct (dequeue_ok q Hok) as (x & q' & -> & Hok' & Hp & Hmin); [lia|]. cbn [mbind res_bind fst snd].
    assert (Hs' : q_size q' = Z.of_nat n).
    { pose proof (contents_length q Hok) as L. pose proof (contents_length q' Hok') as L'.
      apply Permutation_length in Hp. cbn in Hp. destruct Hok' as [? _]. lia. }
    destruct (IH q' Hok' Hs') as (l & -> & Hl & Hsorted). cbn [mbind res_bind]. exists (x :: l).
    split; [done|]. split; [by rewrite Hl, Hp|]. constructor; [done|]. apply Forall_forall. intros y Hy.
    apply Hmin. rewrite Hp, <- Hl. by right.
Qed.

(** ** Properties *)

(** C38. A queue is a multiset: [pqueue_enqueue] adds one element and keeps the heap;
    [pqueue_dequeue] of a non-empty queue removes an element that none of the others
    precedes. *)
Theorem pqueue_refines_multiset q :
  pq_ok q ->
  (forall data, exists q', pqueue_enqueue data q = Ret q' /\ pq_ok q' /\ contents q' ≡ₚ data :: contents q) /\
  (0 < q_size q -> exists x q', pqueue_dequeue q = Ret (x, q') /\ pq_ok q' /\
     contents q ≡ₚ x :: contents q' /\ forall y, y ∈ contents q -> cmp x y <= 0).
Proof. intros Hok. split; [intros; by apply enqueue_ok|]. by apply dequeue_ok. Qed.

(** Inserting any list into a new queue and taking all elements out returns them
    sorted: the loops of the queue end and lose nothing. *)
Theorem pqueue_sorts l :
  exists q s, enqueue_all l pqueue_create = Ret q /\ dequeue_all (length l) q = Ret s /\
    s ≡ₚ l /\ StronglySorted cle s.
Proof.
  destruct (enqueue_all_ok l pqueue_create pqueue_create_ok) as (q & Hq & Hok & Hp).
  change (contents pqueue_create) with (@nil A) in Hp. rewrite app_nil_r in Hp.
  assert (Hs : q_size q = Z.of_nat (length l)).
  { pose proof (contents_length q Hok) as L. apply Permutation_length in Hp.
    destruct Hok as [? _]. lia. }
  destruct (dequeue_all_ok (length l) q Hok Hs) as (s & Hd & Hps & Hsorted).
  exists q, s. split; [done|]. split; [done|]. split; [|done].
  by rewrite Hps, Hp.
Qed.

(** [pqueue_dequeue] does not test for an empty queue: it reads the cell before the
    array. *)
Theorem pqueue_dequeue_empty_overread q :
  q_size q = 0 -> 0 < zlen (q_array q) -> pqueue_dequeue q = Fault.
Proof.
  intros Hs Hl. unfold pqueue_dequeue. rewrite zget_first by (unfold zlen in Hl; lia). cbn [mbind res_bind].
  by rewrite Hs.
Qed.
End Pqueue.

(** ** Samples *)
#[export] Instance Z_ordering : Ordering Z.sub.
Proof. split; intros; lia. Qed.

Definition sample_queue : @pqueue Z :=
  match enqueue_all Z.sub 0 true [5; 3; 8; 1; 9; 2] (pqueue_create 0) with Ret q => q | _ => pqueue_create 0 end.

Lemma sample_queue_ok : pq_ok Z.sub 0 sample_queue.
Proof.
  destruct (enqueue_all_ok Z.sub 0 true [5; 3; 8; 1; 9; 2] (pqueue_create 0)) as (q & E & Hok & _);
    [apply pqueue_create_ok|]. unfold sample_queue. by rewrite E.
Qed.

Lemma pqueue_refines_multiset_witness :
  (forall data, exists q', pqueue_enqueue Z.sub 0 true data sample_queue = Ret q' /\ pq_ok Z.sub 0 q' /\
     contents q' ≡ₚ data :: contents sample_queue) /\
  (0 < q_size sample_queue -> exists x q', pqueue_dequeue Z.sub true sample_queue = Ret (x, q') /\ pq_ok Z.sub 0 q' /\
     contents sample_queue ≡ₚ x :: contents q' /\ forall y, y ∈ contents sample_queue -> x - y <= 0).
Proof. apply (pqueue_refines_multiset Z.sub 0 true sample_queue). apply sample_queue_ok. Defined.

Lemma pqueue_sorts_witness :
  exists q s, enqueue_all Z.sub 0 true [4; 4; 1] (pqueue_create 0) = Ret q /\
    dequeue_all Z.sub true (length [4; 4; 1]) q = Ret s /\ s ≡ₚ [4; 4; 1] /\ StronglySorted (cle Z.sub) s.
Proof. apply (pqueue_sorts Z.sub 0 true [4; 4; 1]). Defined.

Lemma pqueue_dequeue_empty_overread_witness : pqueue_dequeue Z.sub true (pqueue_create 0) = Fault.
Proof. apply (pqueue_dequeue_empty_overread Z.sub 0 true (pqueue_create 0)); reflexivity. Defined.
