(* ===== verification/AspathText.v ===== *)
(** * bgpd/bgp_aspath.c: AS paths as text

    [aspath_make_str_count] with its buffer estimate and reallocation,
    [aspath_gettoken] and [aspath_str2aspath], and the reference rendering
    they are compared with. *)
From stdpp Require Import base option list.
From Stdlib Require Import ZArith Lia.
From S2P Require Import Prelude Text Aspath.

(** [struct aspath]; [None] in [str] is the NULL pointer. *)
Record aspath := Aspath {
  refcnt : Z;
  path_segments : segments;
  str : option text }.

#[export] Instance aspath_eq_dec : EqDecision aspath.
Proof. solve_decision. Defined.

Definition aspath_new : aspath := Aspath 0 [] None.

(** ** Printing *)
Definition AS_SEG_START : Z := 0.
Definition AS_SEG_END : Z := 1.

(** The table and its search: unknown types and positions give a space. *)
Definition aspath_delimiter_char (type which : Z) : Z :=
  let pick start last :=
    if which =? AS_SEG_START then start
    else if which =? AS_SEG_END then last else ch_space in
  if type =? AS_SET then pick 123 125
  else if type =? AS_CONFED_SET then pick 91 93
  else if type =? AS_CONFED_SEQUENCE then pick 40 41
  else ch_space.

Definition ASPATH_STR_DEFAULT_LEN : Z := 32.
Definition ASN_STR_LEN : Z := 11.
Definition SEGMENT_STR_LEN (seg : assegment) : Z := seg_length seg * ASN_STR_LEN + 2 + 1 + 1.

(** [len += snprintf (str_buf + len, str_size - len, ...)]: a piece that does
    not fit with its final zero would be cut while [len] moves past it; that
    outcome is kept apart as [Fault]. *)
Definition emit (str_size : Z) (buf piece : text) : res text :=
  if zlen buf + zlen piece <? str_size then Ret (buf ++ piece) else Fault.

Fixpoint write_asns (str_size seperator : Z) (buf : text) (l : list Z) : res text :=
  match l with
  | [] => Ret buf
  | a :: r =>
      buf ← emit str_size buf (print_u a);
      match r with
      | [] => Ret buf
      | _ :: _ =>
          buf ← emit str_size buf [seperator];
          write_asns str_size seperator buf r
      end
  end.

(** The [switch (seg->type)]; [None] is its default case. *)
Definition seperator_of (type : Z) : option Z :=
  if (type =? AS_SET) || (type =? AS_CONFED_SET) then Some ch_comma
  else if (type =? AS_SEQUENCE) || (type =? AS_CONFED_SEQUENCE) then Some ch_space
  else None.

Definition emit_delimiter (str_size : Z) (buf : text) (type which : Z) : res text :=
  if negb (type =? AS_SEQUENCE)
  then emit str_size buf [aspath_delimiter_char type which] else Ret buf.

(** One segment between its delimiters. *)
Definition write_segment (str_size seperator : Z) (buf : text) (s : assegment) : res text :=
  buf ← emit_delimiter str_size buf (seg_type s) AS_SEG_START;
  buf ← write_asns str_size seperator buf (asns s);
  emit_delimiter str_size buf (seg_type s) AS_SEG_END.

(** The loop over the segments; the result is the buffer and its size. *)
Fixpoint write_segments (str_size : Z) (buf : text) (seg : segments) : res (option (text * Z)) :=
  match seg with
  | [] => Ret (Some (buf, str_size))
  | s :: next =>
      match seperator_of (seg_type s) with
      | None => Ret None
      | Some seperator =>
          let str_size :=
            if str_size <? zlen buf + SEGMENT_STR_LEN s
            then zlen buf + SEGMENT_STR_LEN s else str_size in
          buf ← write_segment str_size seperator buf s;
          buf ← match next with [] => Ret buf | _ :: _ => emit str_size buf [ch_space] end;
          write_segments str_size buf next
      end
  end.

Definition aspath_make_str_count (seg : segments) : res (option text) :=
  match seg with
  | [] => Ret (Some [])
  | _ :: _ =>
      let str_size := Z.max (assegment_count_asns seg 0 * ASN_STR_LEN + 2 + 1)
                            ASPATH_STR_DEFAULT_LEN in
      r ← write_segments str_size [] seg;
      match r with
      | None => Ret None
      | Some (buf, str_size) => _ ← cassert (zlen buf <? str_size); Ret (Some buf)
      end
  end.

Definition aspath_str_update (as_ : aspath) : res aspath :=
  s ← aspath_make_str_count (path_segments as_);
  Ret (Aspath (refcnt as_) (path_segments as_) s).

Definition aspath_dup (as_ : aspath) : res aspath :=
  s ← aspath_make_str_count (path_segments as_);
  Ret (Aspath 0 (assegment_dup_all (path_segments as_)) s).

Definition aspath_empty_get : res aspath := aspath_str_update aspath_new.

(** ** Parsing *)
Inductive as_token :=
| as_token_asval (asno : Z)
| as_token_set_start
| as_token_set_end
| as_token_confed_seq_start
| as_token_confed_seq_end
| as_token_confed_set_start
| as_token_confed_set_end
| as_token_unknown.

Fixpoint skip_seperators (p : text) : text :=
  match p with
  | c :: r => if isspace c || (c =? ch_comma) then skip_seperators r else p
  | [] => []
  end.

(** [None] is the NULL result at the end of the string. *)
Definition aspath_gettoken (buf : text) : option (text * as_token) :=
  match skip_seperators buf with
  | [] => None
  | c :: p =>
      if c =? 123 then Some (p, as_token_set_start)
      else if c =? 125 then Some (p, as_token_set_end)
      else if c =? 40 then Some (p, as_token_confed_seq_start)
      else if c =? 41 then Some (p, as_token_confed_seq_end)
      else if c =? 91 then Some (p, as_token_confed_set_start)
      else if c =? 93 then Some (p, as_token_confed_set_end)
      else if isdigit c
      then let '(asval, p) := read_digits (c - ch_0) p in Some (p, as_token_asval asval)
      else Some (c :: p, as_token_unknown)
  end.

(** Append to the last segment, if there is one. *)
Fixpoint aspath_as_add (seg : segments) (asno : Z) : segments :=
  match seg with
  | [] => []
  | [s] => [assegment_append_asns s [asno]]
  | s :: r => s :: aspath_as_add r asno
  end.

Definition aspath_segment_add (seg : segments) (type : Z) : segments :=
  seg ++ [assegment_new type 0].

(** The variables of the token loop. *)
Record scan := Scan { sc_segments : segments; as_type : Z; needtype : bool }.

(** One round of the [switch (token)]; [None] is the exit on an unknown token. *)
Definition token_step (st : scan) (token : as_token) : option scan :=
  let open type := Some (Scan (aspath_segment_add (sc_segments st) type) type false) in
  let close := Some (Scan (sc_segments st) AS_SEQUENCE true) in
  match token with
  | as_token_asval asno =>
      let seg := if needtype st then aspath_segment_add (sc_segments st) (as_type st)
                 else sc_segments st in
      Some (Scan (aspath_as_add seg asno) (as_type st) false)
  | as_token_set_start => open AS_SET
  | as_token_confed_seq_start => open AS_CONFED_SEQUENCE
  | as_token_confed_set_start => open AS_CONFED_SET
  | as_token_set_end | as_token_confed_seq_end | as_token_confed_set_end => close
  | as_token_unknown => None
  end.

(** The loop, with fuel: every token of a run takes a character, so one more
    than the length of the string is enough ([scan_tokens_fuel]).  The outer
    [None] is lack of fuel, the inner one the NULL result. *)
Fixpoint scan_tokens (fuel : nat) (p : text) (st : scan) : option (option segments) :=
  match fuel with
  | O => None
  | S fuel =>
      match aspath_gettoken p with
      | None => Some (Some (sc_segments st))
      | Some (p, token) =>
          match token_step st token with
          | None => Some None
          | Some st => scan_tokens fuel p st
          end
      end
  end.

Definition scan_string (p : text) (st : scan) : option (option segments) :=
  scan_tokens (S (length p)) p st.

(** [None] stands for lack of fuel, [Some (Ret None)] for the NULL result. *)
Definition aspath_str2aspath (s : text) : option (res (option aspath)) :=
  match scan_string s (Scan [] AS_SEQUENCE true) with
  | None => None
  | Some None => Some (Ret None)
  | Some (Some seg) =>
      Some (s ← aspath_make_str_count seg; Ret (Some (Aspath 0 seg s)))
  end.

(** ** Reference rendering *)
Fixpoint render_asns (sep : Z) (l : list Z) : text :=
  match l with
  | [] => []
  | [a] => print_u a
  | a :: r => print_u a ++ sep :: render_asns sep r
  end.

Definition render_seg (s : assegment) : text :=
  if seg_type s =? AS_SET then 123 :: render_asns ch_comma (asns s) ++ [125]
  else if seg_type s =? AS_CONFED_SET then 91 :: render_asns ch_comma (asns s) ++ [93]
  else if seg_type s =? AS_CONFED_SEQUENCE then 40 :: render_asns ch_space (asns s) ++ [41]
  else render_asns ch_space (asns s).

Fixpoint render (seg : segments) : text :=
  match seg with
  | [] => []
  | [s] => render_seg s
  | s :: r => render_seg s ++ ch_space :: render r
  end.

(** *** Printing is the reference rendering, within its buffer *)
Lemma emit_fits size buf piece :
  zlen buf + zlen piece < size -> emit size buf piece = Ret (buf ++ piece).
Proof. intros. unfold emit. case_test; [done|lia]. Qed.

Lemma render_asns_length sep l : zlen (render_asns sep l) <= ASN_STR_LEN * zlen l.
Proof.
  unfold ASN_STR_LEN. induction l as [|a [|b r] IH]; [done| |].
  - simpl. pose proof (print_u_length a). zlen.
  - change (render_asns sep (a :: b :: r)) with (print_u a ++ sep :: render_asns sep (b :: r)).
    pose proof (print_u_length a). zlen.
Qed.

Lemma write_asns_render size sep buf l :
  zlen buf + ASN_STR_LEN * zlen l < size ->
  write_asns size sep buf l = Ret (buf ++ render_asns sep l).
Proof.
  unfold ASN_STR_LEN. revert buf. induction l as [|a [|b r] IH]; intros buf H.
  - simpl. by rewrite app_nil_r.
  - simpl. pose proof (print_u_length a). by rewrite emit_fits by zlen.
  - pose proof (print_u_length a). pose proof (zlen_nonneg r).
    change (write_asns size sep buf (a :: b :: r)) with
      (buf ← emit size buf (print_u a); buf ← emit size buf [sep];
       write_asns size sep buf (b :: r)).
    rewrite emit_fits by zlen. cbn [mbind res_bind].
    rewrite emit_fits by zlen. cbn [mbind res_bind].
    rewrite IH by zlen. by rewrite <- !app_assoc.
Qed.

(** Room one segment takes, its trailing space included. *)
Lemma render_seg_length s : zlen (render_seg s) <= SEGMENT_STR_LEN s - 2.
Proof.
  unfold render_seg, SEGMENT_STR_LEN.
  pose proof (render_asns_length ch_comma (asns s)).
  pose proof (render_asns_length ch_space (asns s)).
  unfold ASN_STR_LEN in *. repeat case_test; zlen.
Qed.

Lemma write_segment_render size sep buf s :
  seperator_of (seg_type s) = Some sep -> zlen buf + SEGMENT_STR_LEN s <= size ->
  write_segment size sep buf s = Ret (buf ++ render_seg s).
Proof.
  intros Hsep Hsize. unfold write_segment, emit_delimiter, render_seg.
  unfold seperator_of, SEGMENT_STR_LEN, ASN_STR_LEN in *.
  pose proof (render_asns_length sep (asns s)). pose proof (seg_length_range s).
  assert (Hfit : forall b', zlen b' <= zlen buf + 1 ->
    write_asns size sep b' (asns s) = Ret (b' ++ render_asns sep (asns s))).
  { intros b' Hb'. apply write_asns_render. unfold ASN_STR_LEN in *. zlen. }
  unfold aspath_delimiter_char, AS_SEG_START, AS_SEG_END, AS_SET, AS_SEQUENCE,
    AS_CONFED_SET, AS_CONFED_SEQUENCE, ASN_STR_LEN in *.
  destruct (seg_type s =? 2) eqn:E2; zify_bool.
  - rewrite E2 in *. simpl in Hsep |- *. injection Hsep as <-.
    rewrite Hfit by lia. done.
  - simpl. rewrite emit_fits by zlen. cbn [mbind res_bind].
    rewrite Hfit by zlen. cbn [mbind res_bind].
    rewrite emit_fits by zlen. rewrite <- !app_assoc.
    repeat case_match; simplify_eq; zify_bool; try lia; simpl in *; try discriminate; done.
Qed.

Lemma seperator_of_valid s :
  match seperator_of (seg_type s) with
  | Some sep => valid_type s = true | None => valid_type s = false end.
Proof.
  unfold seperator_of, valid_type.
  by destruct (seg_type s =? AS_SET), (seg_type s =? AS_SEQUENCE),
    (seg_type s =? AS_CONFED_SEQUENCE), (seg_type s =? AS_CONFED_SET).
Qed.

Lemma write_segments_render size buf seg :
  zlen buf < size ->
  exists size',
    zlen (buf ++ render seg) < size' /\
    write_segments size buf seg
    = Ret (if forallb valid_type seg then Some (buf ++ render seg, size') else None).
Proof.
  revert size buf. induction seg as [|s r IH]; intros size buf Hb.
  - exists size. simpl. by rewrite app_nil_r.
  - cbn [write_segments forallb]. pose proof (seperator_of_valid s) as Hsep.
    destruct (seperator_of (seg_type s)) as [sep|] eqn:E; rewrite Hsep; [|by exists (1 + zlen (buf ++ render (s :: r))); split; [lia|]].
    set (size1 := if size <? _ then _ else _).
    assert (zlen buf + SEGMENT_STR_LEN s <= size1 /\ size <= size1) as [Hs1 Hs2]
      by (unfold size1; case_test; lia).
    pose proof (render_seg_length s).
    rewrite (write_segment_render _ _ _ _ E Hs1). cbn [mbind res_bind].
    destruct r as [|t r].
    + cbn [mbind res_bind write_segments forallb andb]. exists size1. split; [cbn [render]; zlen|done].
    + rewrite emit_fits by zlen. cbn [mbind res_bind].
      destruct (IH size1 ((buf ++ render_seg s) ++ [ch_space])) as (size' & Hl & ->); [zlen|].
      exists size'. change (render (s :: t :: r)) with (render_seg s ++ ch_space :: render (t :: r)).
      rewrite <- !app_assoc in *. done.
Qed.

(** [aspath_make_str_count] computes the reference rendering, its buffer
    always large enough. *)
Lemma make_str_render seg :
  aspath_make_str_count seg
  = Ret (if forallb valid_type seg then Some (render seg) else None).
Proof.
  destruct seg as [|s r]; [done|]. unfold aspath_make_str_count.
  set (size := Z.max _ _).
  destruct (write_segments_render size [] (s :: r)) as (size' & Hl & ->);
    [unfold size, ASPATH_STR_DEFAULT_LEN; zlen|].
  cbn [mbind res_bind]. destruct (forallb valid_type (s :: r)); [|done].
  unfold cassert. case_test; [done|]. simpl app in *. lia.
Qed.

(** *** Scanning *)
Lemma skip_seperators_length p : (length (skip_seperators p) <= length p)%nat.
Proof. induction p as [|c p IH]; simpl; [done|]. case_test; simpl; lia. Qed.

Lemma read_digits_length v p : (length (read_digits v p).2 <= length p)%nat.
Proof.
  revert v. induction p as [|c p IH]; intros v; simpl; [done|].
  case_test; simpl; [|done]. specialize (IH (digit_step v c)). lia.
Qed.

(** Every known token takes at least one character. *)
Lemma gettoken_progress p q token :
  aspath_gettoken p = Some (q, token) -> token <> as_token_unknown ->
  (length q < length p)%nat.
Proof.
  unfold aspath_gettoken. pose proof (skip_seperators_length p).
  destruct (skip_seperators p) as [|c r]; [done|]. simpl in *.
  destruct (read_digits (c - ch_0) r) as [v r'] eqn:E.
  pose proof (read_digits_length (c - ch_0) r) as Hr. rewrite E in Hr. simpl in Hr.
  intros Hq Hu. repeat case_match; simplify_eq; simpl in *; first [done | lia].
Qed.

(** Beyond the length of the string, the amount of fuel does not matter. *)
Lemma scan_tokens_fuel f g p st :
  (length p < f)%nat -> (length p < g)%nat -> scan_tokens f p st = scan_tokens g p st.
Proof.
  revert g p st. induction f as [|f IH]; intros [|g] p st Hf Hg; try lia.
  simpl. destruct (aspath_gettoken p) as [[q token]|] eqn:E; [|done].
  destruct (token_step st token) as [st'|] eqn:Et; [|done].
  assert (length q < length p)%nat
    by (eapply gettoken_progress; [exact E|]; intros ->; discriminate).
  apply IH; lia.
Qed.

Lemma scan_string_step p st :
  scan_string p st =
  match aspath_gettoken p with
  | None => Some (Some (sc_segments st))
  | Some (q, token) =>
      match token_step st token with None => Some None | Some st => scan_string q st end
  end.
Proof.
  unfold scan_string at 1. simpl.
  destruct (aspath_gettoken p) as [[q token]|] eqn:E; [|done].
  destruct (token_step st token) as [st'|] eqn:Et; [|done].
  assert (length q < length p)%nat
    by (eapply gettoken_progress; [exact E|]; intros ->; discriminate).
  apply scan_tokens_fuel; lia.
Qed.

(** The scanner never runs out of fuel. *)
Lemma scan_string_total p st : scan_string p st <> None.
Proof.
  remember (length p) as n eqn:Hn. revert p st Hn.
  induction n as [n IH] using lt_wf_ind. intros p st ->. rewrite scan_string_step.
  destruct (aspath_gettoken p) as [[q token]|] eqn:E; [|done].
  destruct (token_step st token) as [st'|] eqn:Et; [|done].
  eapply IH; [|reflexivity].
  eapply gettoken_progress; [exact E|]. intros ->; discriminate.
Qed.

Lemma gettoken_asval a p :
  is_u32 a -> starts_with_digit p = false ->
  aspath_gettoken (print_u a ++ p) = Some (p, as_token_asval a).
Proof.
  intros Ha Hp. destruct (print_u_cons a) as (c & r & Hc & Hd); [unfold is_u32 in Ha; lia|].
  pose proof (read_print_u a p Ha Hp) as Hr. rewrite Hc in *. simpl in Hr. rewrite Hd in Hr.
  unfold isdigit in Hd. zify_bool.
  assert (Hstep : digit_step 0 c = c - ch_0)
    by (unfold digit_step, ch_0; rewrite u32_id; [done|split; change (u32 (0 * 10)) with 0; lia]).
  rewrite Hstep in Hr. unfold aspath_gettoken. simpl.
  replace (isspace c || (c =? ch_comma)) with false
    by (symmetry; unfold isspace, ch_comma; repeat (apply orb_false_iff; split); [apply andb_false_iff; right; apply Z.leb_gt|apply Z.eqb_neq..]; lia).
  do 6 (case_test; [lia|]). unfold isdigit.
  replace ((48 <=? c) && (c <=? 57)) with true
    by (symmetry; apply andb_true_intro; split; apply Z.leb_le; lia).
  by rewrite Hr.
Qed.

Lemma gettoken_skip c p :
  isspace c || (c =? ch_comma) = true -> aspath_gettoken (c :: p) = aspath_gettoken p.
Proof. intros H. unfold aspath_gettoken. simpl. by rewrite H. Qed.

Lemma scan_skip c p st :
  isspace c || (c =? ch_comma) = true -> scan_string (c :: p) st = scan_string p st.
Proof. intros H. by rewrite !(scan_string_step _ st), gettoken_skip. Qed.

(** *** Reading back what was printed *)
Lemma as_add_last acc s a :
  aspath_as_add (acc ++ [s]) a = acc ++ [assegment_append_asns s [a]].
Proof. induction acc as [|x [|y acc] IH]; simpl in *; [done..|]. by rewrite IH. Qed.

Lemma as_add_seg acc t l a :
  zlen l < 2 ^ 16 -> aspath_as_add (acc ++ [Seg t l]) a = acc ++ [Seg t (l ++ [a])].
Proof.
  intros. rewrite as_add_last. unfold assegment_append_asns.
  by rewrite asns_id by done.
Qed.

(** The AS numbers of an open segment. *)
Lemma scan_asns sep l p acc t l0 ty :
  isspace sep || (sep =? ch_comma) = true -> isdigit sep = false ->
  Forall is_u32 l -> starts_with_digit p = false -> zlen (l0 ++ l) < 2 ^ 16 ->
  scan_string (render_asns sep l ++ p) (Scan (acc ++ [Seg t l0]) ty false)
  = scan_string p (Scan (acc ++ [Seg t (l0 ++ l)]) ty false).
Proof.
  intros Hsep Hnd Hl Hp. revert l0.
  induction Hl as [|a l Ha Hl IH]; intros l0 Hlen; [by rewrite app_nil_r|].
  replace (l0 ++ a :: l) with ((l0 ++ [a]) ++ l) in * by (by rewrite <- app_assoc).
  pose proof (zlen_nonneg l).
  assert (Hstep : forall q, starts_with_digit q = false ->
    scan_string (print_u a ++ q) (Scan (acc ++ [Seg t l0]) ty false)
    = scan_string q (Scan (acc ++ [Seg t (l0 ++ [a])]) ty false)).
  { intros q Hq. rewrite scan_string_step, gettoken_asval by done. simpl.
    by rewrite as_add_seg by zlen. }
  destruct l as [|b l].
  - simpl render_asns. rewrite Hstep by done. by rewrite app_nil_r.
  - change (render_asns sep (a :: b :: l)) with (print_u a ++ sep :: render_asns sep (b :: l)).
    rewrite <- app_assoc. rewrite Hstep by done. simpl app.
    rewrite scan_skip by done. by apply IH.
Qed.

Lemma scan_asns_needtype sep l p acc ty :
  l <> [] -> Forall is_u32 l -> starts_with_digit p = false -> isdigit sep = false ->
  scan_string (render_asns sep l ++ p) (Scan acc ty true)
  = scan_string (render_asns sep l ++ p) (Scan (acc ++ [Seg ty []]) ty false).
Proof.
  intros Hl Hu Hp Hsep. destruct Hu as [|a l Ha Hu]; [done|].
  assert (exists q, render_asns sep (a :: l) ++ p = print_u a ++ q /\ starts_with_digit q = false)
    as (q & -> & Hq).
  { destruct l as [|b l]; [by exists p|].
    exists (sep :: render_asns sep (b :: l) ++ p). split; [|done].
    change (render_asns sep (a :: b :: l)) with (print_u a ++ sep :: render_asns sep (b :: l)).
    by rewrite <- app_assoc. }
  rewrite !(scan_string_step (print_u a ++ q)), gettoken_asval by done.
  done.
Qed.

(** One rendered segment is read back; the scanner is then ready for any
    segment, or for any but a sequence. *)
Lemma scan_segment s p acc nt :
  printable s -> starts_with_digit p = false ->
  (seg_type s = AS_SEQUENCE -> nt = true) ->
  scan_string (render_seg s ++ p) (Scan acc AS_SEQUENCE nt)
  = scan_string p (Scan (acc ++ [s]) AS_SEQUENCE (negb (seg_type s =? AS_SEQUENCE))).
Proof.
  destruct s as [ty l]. intros ([Hu Hlen] & Hty & Hne) Hp Hnt. simpl in *.
  unfold render_seg. rewrite asns_id by done. simpl.
  unfold valid_type in Hty. simpl in Hty.
  assert (Hfit : zlen ([] ++ l) < 2 ^ 16) by done.
  destruct (Z.eqb_spec ty AS_SET) as [->|];
  [|destruct (Z.eqb_spec ty AS_CONFED_SET) as [->|];
  [|destruct (Z.eqb_spec ty AS_CONFED_SEQUENCE) as [->|];
  [|destruct (Z.eqb_spec ty AS_SEQUENCE) as [->|]; [|done]]]].
  4: { rewrite Hnt by done. rewrite scan_asns_needtype by auto.
       by rewrite scan_asns by done. }
  all: simpl; rewrite scan_string_step; cbn -[scan_string render_asns].
  all: change (assegment_new ?t 0) with (Seg t []).
  all: rewrite <- app_assoc, scan_asns by done.
  all: rewrite scan_string_step; cbn -[scan_string render_asns]; done.
Qed.

Lemma scan_render seg acc nt :
  Forall printable seg -> no_adjacent_seq seg = true ->
  (forall s, head seg = Some s -> seg_type s = AS_SEQUENCE -> nt = true) ->
  scan_string (render seg) (Scan acc AS_SEQUENCE nt) = Some (Some (acc ++ seg)).
Proof.
  intros Hp. revert acc nt.
  induction Hp as [|s r Hs Hr IH]; intros acc nt Hadj Hnt.
  - simpl. by rewrite app_nil_r.
  - specialize (Hnt s eq_refl). destruct r as [|t r].
    + simpl render. rewrite <- (app_nil_r (render_seg s)), scan_segment by done. done.
    + change (render (s :: t :: r)) with (render_seg s ++ ch_space :: render (t :: r)).
      rewrite scan_segment by done. rewrite scan_skip by done.
      simpl in Hadj. apply andb_true_iff in Hadj as [Hst Hadj].
      rewrite IH; [by rewrite <- app_assoc|done|].
      intros t' [= <-] Ht. apply negb_true_iff. apply negb_true_iff in Hst.
      unfold types_packable in Hst. rewrite Ht in Hst.
      destruct (seg_type s =? AS_SEQUENCE); [discriminate|done].
Qed.

(** C17. Printing an AS path and parsing the text gives the path back: for
    segments with known types whose AS numbers are 32 bits wide and whose
    sequences are non-empty and merged, [aspath_make_str_count] returns a text
    (its buffer never overflows and its assertion holds) and
    [aspath_str2aspath] of that text returns the same segments, with that text
    as their cached string. *)
Theorem aspath_text_roundtrip seg :
  Forall printable seg -> no_adjacent_seq seg = true ->
  exists s, aspath_make_str_count seg = Ret (Some s) /\
    aspath_str2aspath s = Some (Ret (Some (Aspath 0 seg (Some s)))).
Proof.
  intros Hp Hadj. exists (render seg).
  assert (Hv : forallb valid_type seg = true).
  { apply forallb_forall. intros x Hx%list_elem_of_In.
    by apply (proj1 (Forall_forall _ _) Hp x) in Hx as (_ & ? & _). }
  rewrite make_str_render, Hv. split; [done|].
  unfold aspath_str2aspath. rewrite scan_render by done. simpl.
  by rewrite make_str_render, Hv.
Qed.

Definition sample_path : segments :=
  [Seg AS_CONFED_SEQUENCE [65001; 65002]; Seg AS_SEQUENCE [4294967295; 1; 70000];
   Seg AS_SET [3; 4]; Seg AS_CONFED_SET []].

Lemma aspath_text_roundtrip_witness :
  exists s, aspath_make_str_count sample_path = Ret (Some s) /\
    aspath_str2aspath s = Some (Ret (Some (Aspath 0 sample_path (Some s)))).
Proof. apply (aspath_text_roundtrip sample_path); [by_eval|reflexivity]. Defined.

(** [aspath_make_str_count] and [aspath_str2aspath] return on every input:
    printing never overruns its buffer or fails its assertion, giving NULL
    exactly when some segment has an unknown type, and parsing any string stops
    with a result. *)
Theorem aspath_text_total seg s :
  aspath_make_str_count seg
  = Ret (if forallb valid_type seg then Some (render seg) else None) /\
  exists r, aspath_str2aspath s = Some (Ret r).
Proof.
  split; [apply make_str_render|]. unfold aspath_str2aspath.
  pose proof (scan_string_total s (Scan [] AS_SEQUENCE true)).
  destruct (scan_string s _) as [[seg'|]|]; [|by eexists|done].
  rewrite make_str_render. by eexists.
Qed.
