(* ===== verification/AspathOps.v ===== *)
(** * bgpd/bgp_aspath.c: operations that build new paths

    Prepending, aggregation, exclusion, AS4 reconciliation and confederation
    stripping.  Paths carry their cached string; the operations refresh it
    where the code does. *)
From stdpp Require Import base option list sorting gmap.
From Stdlib Require Import ZArith Lia.
From S2P Require Import Prelude Text Aspath AspathText.

Definition set_segments (as_ : aspath) (seg : segments) : aspath :=
  Aspath (refcnt as_) seg (str as_).

(** ** Adding at the left *)
Definition aspath_add_one_as (as_ : aspath) (asno type : Z) : res aspath :=
  match path_segments as_ with
  | [] => Ret (set_segments as_ [Seg type [asno]])
  | s :: r =>
      if seg_length s =? 0 then Ret (set_segments as_ [Seg type [asno]])
      else if seg_type s =? type
      then Ret (set_segments as_ (assegment_prepend_asns s asno 1 :: r))
      else Ret (set_segments as_ (Seg type [asno] :: s :: r))
  end.

Definition aspath_add_seq (as_ : aspath) (asno : Z) : res aspath :=
  aspath_add_one_as as_ asno AS_SEQUENCE.
Definition aspath_add_confed_seq (as_ : aspath) (asno : Z) : res aspath :=
  aspath_add_one_as as_ asno AS_CONFED_SEQUENCE.

(** ** Confederation segments *)
Definition aspath_delete_confed_seq (as_ : option aspath) : res (option aspath) :=
  match as_ with
  | None => Ret None
  | Some p =>
      match path_segments p with
      | [] => Ret (Some p)
      | s :: _ =>
          if negb (seg_type s =? AS_CONFED_SEQUENCE) then Ret (Some p)
          else p ← aspath_str_update (set_segments p (skip_confed (path_segments p)));
               Ret (Some p)
      end
  end.

(** ** Joining two paths *)

(** [last] is NULL when [as1] has no segments, and is then dereferenced. *)
Definition aspath_merge (as1 as2 : option aspath) : res (option aspath) :=
  match as1, as2 with
  | Some p1, Some p2 =>
      match assegment_dup_all (path_segments p1) with
      | [] => Fault
      | new => p ← aspath_str_update (set_segments p2 (new ++ path_segments p2)); Ret (Some p)
      end
  | _, _ => Ret None
  end.

(** Append AS numbers to the last segment of a chain. *)
Fixpoint append_last (seg : segments) (l : list Z) : segments :=
  match seg with
  | [] => []
  | [s] => [assegment_append_asns s l]
  | s :: r => s :: append_last r l
  end.

Definition aspath_prepend (as1 as2 : option aspath) : res (option aspath) :=
  match as1, as2 with
  | Some p1, Some p2 =>
      match path_segments p2, last (path_segments p1) with
      | [], _ =>
          p ← aspath_str_update (set_segments p2 (assegment_dup_all (path_segments p1)));
          Ret (Some p)
      | _ :: _, None => Ret as2
      | seg2 :: r2, Some seg1 =>
          if (seg_type seg1 =? AS_SEQUENCE) && (seg_type seg2 =? AS_CONFED_SEQUENCE)
          then
            (* aspath_delete_confed_seq frees seg2, which is then read *)
            _ ← aspath_delete_confed_seq as2; Fault
          else if negb (seg_type seg1 =? seg_type seg2) then aspath_merge as1 as2
          else if seg_type seg1 =? AS_SEQUENCE
          then p ← aspath_str_update (set_segments p2
                 (append_last (assegment_dup_all (path_segments p1)) (asns seg2) ++ r2));
               Ret (Some p)
          else aspath_merge as1 as2
      end
  | _, _ => Ret None
  end.

(** ** Exclusion *)

(** The inner search loops: is [a] one of the excluded AS numbers? *)
Definition skip_as (exclude : segments) (a : Z) : bool :=
  existsb (fun s => existsb (Z.eqb a) (asns s)) exclude.

(** First pass: how many AS numbers stay. *)
Fixpoint count_kept (exclude : segments) (l : list Z) : Z :=
  match l with
  | [] => 0
  | a :: r => (if skip_as exclude a then 0 else 1) + count_kept exclude r
  end.

(** Second pass: [newseg->as[done++] = srcseg->as[i]]. *)
Fixpoint copy_kept (exclude : segments) (newas : list Z) (done : Z) (l : list Z) : res (list Z) :=
  match l with
  | [] => Ret newas
  | a :: r =>
      if skip_as exclude a then copy_kept exclude newas done r
      else newas ← zput newas done a; copy_kept exclude newas (done + 1) r
  end.

Fixpoint exclude_segments (exclude src : segments) : res segments :=
  match src with
  | [] => Ret []
  | s :: r =>
      let newlen := count_kept exclude (asns s) in
      if newlen =? 0 then exclude_segments exclude r
      else
        let newseg := assegment_new (seg_type s) newlen in
        newas ← copy_kept exclude (seg_as newseg) 0 (asns s);
        rest ← exclude_segments exclude r;
        Ret (Seg (seg_type s) newas :: rest)
  end.

Definition aspath_filter_exclude (source exclude_list : aspath) : res aspath :=
  seg ← exclude_segments (path_segments exclude_list) (path_segments source);
  aspath_str_update (set_segments aspath_new seg).

(** ** Aggregation *)

(** [asset] is the AS_SET at the end of the new path, once there is one. *)
Definition aspath_aggregate_as_set_add (asset : option assegment) (a : Z) : res (option assegment) :=
  match asset with
  | None => Ret (Some (Seg AS_SET [a]))
  | Some s =>
      if existsb (Z.eqb a) (asns s) then Ret asset
      else if u16 (seg_length s + 1) =? 0 then Fault
      else Ret (Some (Seg (seg_type s) (asns s ++ [a])))
  end.

Fixpoint set_add_all (asset : option assegment) (l : list Z) : res (option assegment) :=
  match l with
  | [] => Ret asset
  | a :: r => asset ← aspath_aggregate_as_set_add asset a; set_add_all asset r
  end.

Fixpoint set_add_from (asset : option assegment) (from : Z) (seg : segments) : res (option assegment) :=
  match seg with
  | [] => Ret asset
  | s :: r =>
      asset ← set_add_all asset (drop (Z.to_nat from) (asns s));
      set_add_from asset 0 r
  end.

(** Number of leading AS numbers two segments share. *)
Fixpoint match_len (l k : list Z) : Z :=
  match l, k with
  | a :: l, b :: k => if a =? b then 1 + match_len l k else 0
  | _, _ => 0
  end.

(** The loop over common leading segments: the path so far, the variable
    [match], and the two chains where the loop stops. *)
Fixpoint aggregate_lead (out : segments) (m : Z) (seg1 seg2 : segments)
  : segments * Z * segments * segments :=
  match seg1, seg2 with
  | s1 :: r1, s2 :: r2 =>
      if negb (seg_type s1 =? seg_type s2) then (out, m, seg1, seg2)
      else
        let minlen := Z.min (seg_length s1) (seg_length s2) in
        let m := match_len (asns s1) (asns s2) in
        let out :=
          if m =? 0 then out
          else out ++ [assegment_append_asns (assegment_new (seg_type s1) 0)
                         (take (Z.to_nat m) (asns s1))] in
        if negb (m =? minlen) || negb (m =? seg_length s1)
           || negb (seg_length s1 =? seg_length s2)
        then (out, m, seg1, seg2)
        else aggregate_lead out m r1 r2
  | _, _ => (out, m, seg1, seg2)
  end.

Definition aspath_aggregate (as1 as2 : aspath) : res aspath :=
  let '(out, m, seg1, seg2) := aggregate_lead [] 0 (path_segments as1) (path_segments as2) in
  asset ← set_add_from None m seg1;
  asset ← set_add_from asset m seg2;
  aspath_str_update
    (set_segments aspath_new (assegment_normalise (out ++ option_list asset))).

(** ** AS4 reconciliation *)

(** The copying loop, with the variables [hops] and [cpasns]; the first branch
    of the [switch] to match decides how many AS numbers are copied. *)
Fixpoint reconcile_copy (seg : segments) (hops cpasns : Z) : res segments :=
  match seg with
  | [] => Ret []
  | s :: r =>
      if hops <=? 0 then Ret []
      else
        let len := seg_length s in
        let '(hops, cpasns) :=
          if is_set s then (hops - 1, len)
          else if seg_type s =? AS_CONFED_SEQUENCE
          then let hops := if hops <? len then len else hops in
               (hops - len, Z.min len hops)
          else if seg_type s =? AS_SEQUENCE then (hops - len, Z.min len hops)
          else (hops, cpasns) in
        _ ← cassert (cpasns <=? len);
        rest ← reconcile_copy r hops cpasns;
        Ret (assegment_append_asns (assegment_new (seg_type s) 0)
               (take (Z.to_nat cpasns) (asns s)) :: rest)
  end.

Definition aspath_reconcile_as4 (as_ : option aspath) (as4path : aspath) : res (option aspath) :=
  match as_ with
  | None => Ret None
  | Some p =>
      let seg := path_segments p in
      let hops := aspath_count_hops seg + aspath_count_confeds seg
                  - aspath_count_hops (path_segments as4path) in
      let hops := if hops <? 0 then aspath_count_hops seg else hops in
      if hops =? 0 then q ← aspath_dup as4path; Ret (Some q)
      else
        copied ← reconcile_copy seg hops 0;
        let newpath := match copied with [] => None | _ => Some (set_segments aspath_new copied) end in
        dup4 ← aspath_dup as4path;
        merged ← aspath_merge newpath (Some dup4);
        match merged with
        | None => Fault   (* mergedpath->segments *)
        | Some m =>
            m ← aspath_str_update (set_segments m (assegment_normalise (path_segments m)));
            Ret (Some m)
        end
  end.

(** ** Lemmas *)

(** The cached string is the rendering of the segments. *)
Definition in_sync (p : aspath) : Prop :=
  str p = if forallb valid_type (path_segments p) then Some (render (path_segments p)) else None.

#[export] Instance in_sync_dec p : Decision (in_sync p).
Proof. unfold in_sync. apply _. Defined.

Lemma str_update_in_sync p :
  exists q, aspath_str_update p = Ret q /\ path_segments q = path_segments p /\
    refcnt q = refcnt p /\ in_sync q.
Proof. unfold aspath_str_update. rewrite make_str_render. by eexists. Qed.

Lemma aspath_dup_in_sync p :
  exists q, aspath_dup p = Ret q /\ path_segments q = assegment_dup_all (path_segments p).
Proof. unfold aspath_dup. rewrite make_str_render. by eexists. Qed.

Ltac str_updated q Hseg :=
  match goal with
  | |- context [aspath_str_update ?p] =>
      let E := fresh "E" in
      destruct (str_update_in_sync p) as (q & E & Hseg & ? & ?);
      rewrite E; clear E; cbn [mbind res_bind]; simpl in Hseg
  end.

Lemma asns_dup s : asns (assegment_dup s) = asns s.
Proof.
  unfold assegment_dup at 1. apply asns_id. simpl. rewrite zlen_asns. apply seg_length_range.
Qed.

Lemma items_of_dup s : items_of (assegment_dup s) = items_of s.
Proof. unfold items_of. by rewrite asns_dup. Qed.

Lemma items_dup_all seg : items (assegment_dup_all seg) = items seg.
Proof. induction seg as [|s r IH]; [done|]. simpl. by rewrite !items_cons, items_of_dup, IH. Qed.

Lemma items_app a b : items (a ++ b) = items a ++ items b.
Proof. unfold items. by rewrite map_app, concat_app. Qed.

Lemma total_asns_app a b : total_asns (a ++ b) = total_asns a + total_asns b.
Proof. induction a as [|s r IH]; [done|]. simpl app. rewrite !total_asns_cons, IH. lia. Qed.

Lemma append_last_app seg s l :
  append_last (seg ++ [s]) l = seg ++ [assegment_append_asns s l].
Proof. induction seg as [|x [|y seg] IH]; simpl in *; [done..|]. by rewrite IH. Qed.

Lemma dup_all_app a b : assegment_dup_all (a ++ b) = assegment_dup_all a ++ assegment_dup_all b.
Proof. induction a as [|s r IH]; [done|]. simpl. by rewrite IH. Qed.

Lemma merge_spec p1 p2 :
  path_segments p1 <> [] ->
  exists q, aspath_merge (Some p1) (Some p2) = Ret (Some q) /\
    path_segments q = assegment_dup_all (path_segments p1) ++ path_segments p2 /\ in_sync q.
Proof.
  intros Hne. unfold aspath_merge.
  destruct (path_segments p1) as [|s r]; [done|]. simpl assegment_dup_all. cbv iota.
  str_updated q Hq. exists q. auto.
Qed.

(** ** Prepending *)

(** The pair of paths on which [aspath_prepend] strips confederation segments. *)
Definition strips_confed (p1 p2 : aspath) : bool :=
  match last (path_segments p1), path_segments p2 with
  | Some s1, s2 :: _ => (seg_type s1 =? AS_SEQUENCE) && (seg_type s2 =? AS_CONFED_SEQUENCE)
  | _, _ => false
  end.

(** [aspath_prepend as1 as2] returns a path that says what [as1] says
    followed by what [as2] says, with its string refreshed, for all paths but
    one kind: when [as1] ends in an AS_SEQUENCE and [as2] begins with an
    AS_CONFED_SEQUENCE the code reads the segment that
    [aspath_delete_confed_seq] has just freed. *)
Theorem aspath_prepend_spec p1 p2 :
  total_asns (path_segments p1) + total_asns (path_segments p2) < 2 ^ 16 ->
  in_sync p2 ->
  if strips_confed p1 p2 then aspath_prepend (Some p1) (Some p2) = Fault
  else exists q, aspath_prepend (Some p1) (Some p2) = Ret (Some q) /\
    items (path_segments q) = items (path_segments p1) ++ items (path_segments p2) /\
    in_sync q.
Proof.
  intros Hlen Hsync. unfold strips_confed, aspath_prepend.
  destruct (path_segments p2) as [|s2 r2] eqn:E2.
  { replace (match last _ with Some _ | _ => false end) with false by (by destruct (last _)).
    str_updated q Hq. exists q. by rewrite Hq, items_dup_all, app_nil_r. }
  destruct (last (path_segments p1)) as [s1|] eqn:E1.
  2: { apply last_None in E1. rewrite E1. exists p2. rewrite E2. done. }
  apply last_Some in E1 as [r1 E1].
  assert (Hmerge : exists q, aspath_merge (Some p1) (Some p2) = Ret (Some q) /\
    items (path_segments q) = items (path_segments p1) ++ items (s2 :: r2) /\ in_sync q).
  { destruct (merge_spec p1 p2) as (q & -> & Hq & Hin); [rewrite E1; by destruct r1|].
    exists q. by rewrite Hq, items_app, items_dup_all, E2. }
  destruct (seg_type s1 =? AS_SEQUENCE) eqn:Es1; simpl.
  - destruct (seg_type s2 =? AS_CONFED_SEQUENCE) eqn:Es2; zify_bool.
    + rewrite E2, Es2. simpl. by str_updated q Hq.
    + case_test; [done|]. apply negb_false_iff in Heqb. zify_bool.
      str_updated q Hq. exists q. split; [done|]. split; [|done]. rewrite Hq, E1.
      rewrite dup_all_app. simpl. rewrite append_last_app, <- app_assoc.
      rewrite !items_app, items_dup_all. simpl app. rewrite !items_cons, <- !app_assoc. f_equal.
      rewrite !app_assoc. f_equal. rewrite E1, total_asns_app, !total_asns_cons in Hlen.
      pose proof (total_asns_nonneg r1). pose proof (total_asns_nonneg r2).
      pose proof (zlen_nonneg (seg_as s1)). pose proof (zlen_nonneg (seg_as s2)).
      change (items []) with (@nil item). rewrite !app_nil_r, <- (items_of_dup s1).
      apply items_append.
      * unfold types_packable. simpl. by rewrite <- Heqb, Es1.
      * change (total_asns []) with 0 in Hlen. simpl. rewrite asns_id by lia. lia.
  - by case_test.
Qed.

Lemma aspath_prepend_spec_witness :
  let p1 := Aspath 0 [Seg AS_SEQUENCE [1; 1]] None in
  let p2 := Aspath 0 [Seg AS_SEQUENCE [2; 3]; Seg AS_SET [4; 5]] (Some (codes "2 3 {4,5}")) in
  if strips_confed p1 p2 then aspath_prepend (Some p1) (Some p2) = Fault
  else exists q, aspath_prepend (Some p1) (Some p2) = Ret (Some q) /\
    items (path_segments q) = items (path_segments p1) ++ items (path_segments p2) /\
    in_sync q.
Proof. intros p1 p2. apply (aspath_prepend_spec p1 p2); by_eval. Defined.

(** ** Exclusion *)
Definition kept (exclude : segments) (s : assegment) : assegment :=
  Seg (seg_type s) (List.filter (fun a => negb (skip_as exclude a)) (asns s)).
Definition kept_segments (exclude src : segments) : segments :=
  List.filter (fun s => negb (seg_length s =? 0)) (map (kept exclude) src).

Lemma count_kept_length ex l :
  count_kept ex l = zlen (List.filter (fun a => negb (skip_as ex a)) l).
Proof. induction l as [|a l IH]; [done|]. simpl. rewrite IH. case_test; simpl; [lia|]. zlen. Qed.

Lemma copy_kept_run ex l out n :
  n = length (List.filter (fun a => negb (skip_as ex a)) l) ->
  copy_kept ex (out ++ replicate n 0) (zlen out) l
  = Ret (out ++ List.filter (fun a => negb (skip_as ex a)) l).
Proof.
  revert out n. induction l as [|a l IH]; intros out n Hn; simpl in *; [by subst; simpl; rewrite !app_nil_r|].
  case_test; simpl in *; [by apply IH|]. subst n. simpl.
  rewrite zput_app by done. cbn [mbind res_bind].
  replace (out ++ a :: replicate (length (List.filter (fun a => negb (skip_as ex a)) l)) 0)
    with ((out ++ [a]) ++ replicate (length (List.filter (fun a => negb (skip_as ex a)) l)) 0)
    by (by rewrite <- app_assoc).
  replace (zlen out + 1) with (zlen (out ++ [a])) by zlen.
  by rewrite IH, <- app_assoc.
Qed.

Lemma filter_le (f : Z -> bool) l : (length (List.filter f l) <= length l)%nat.
Proof. induction l as [|a l IH]; simpl; [done|]. case_test; simpl; lia. Qed.

Lemma kept_length ex s : zlen (seg_as (kept ex s)) <= seg_length s.
Proof.
  rewrite <- zlen_asns. unfold kept, zlen. simpl.
  pose proof (filter_le (fun a => negb (skip_as ex a)) (asns s)). lia.
Qed.

Lemma asns_kept ex s : asns (kept ex s) = List.filter (fun a => negb (skip_as ex a)) (asns s).
Proof. apply asns_id. pose proof (kept_length ex s). pose proof (seg_length_range s). lia. Qed.

Lemma exclude_segments_spec ex src : exclude_segments ex src = Ret (kept_segments ex src).
Proof.
  induction src as [|s r IH]; [done|]. unfold kept_segments. simpl.
  assert (Hl : count_kept ex (asns s) = seg_length (kept ex s)).
  { by rewrite count_kept_length, <- zlen_asns, asns_kept. }
  rewrite Hl. case_test; simpl; [by rewrite IH|].
  rewrite u16_id by (apply seg_length_range).
  rewrite <- zlen_asns, asns_kept. unfold zlen. rewrite Nat2Z.id.
  pose proof (copy_kept_run ex (asns s) [] _ eq_refl) as Hc. simpl app in Hc.
  change (zlen []) with 0 in Hc. rewrite Hc. cbn [mbind res_bind].
  by rewrite IH.
Qed.

Lemma skip_as_loop ex a : skip_as ex a = negb (loop_count ex a =? 0).
Proof.
  induction ex as [|s r IH]; [done|]. simpl. rewrite IH.
  assert (Hs : existsb (Z.eqb a) (asns s) = negb (zlen (filter (fun x => x = a) (asns s)) =? 0)).
  { induction (asns s) as [|x l IHl]; [done|]. rewrite filter_cons. simpl.
    destruct (decide (x = a)) as [->|Hne].
    - rewrite Z.eqb_refl, zlen_cons. pose proof (zlen_nonneg (filter (fun x => x = a) l)).
      symmetry. apply negb_true_iff, Z.eqb_neq. lia.
    - rewrite (proj2 (Z.eqb_neq a x)) by done. done. }
  rewrite Hs. pose proof (zlen_nonneg (filter (fun x => x = a) (asns s))).
  assert (0 <= loop_count r a).
  { clear. induction r as [|s r IH]; simpl; [done|]. pose proof (zlen_nonneg (filter (fun x => x = a) (asns s))). lia. }
  destruct (Z.eqb_spec (zlen (filter (fun x => x = a) (asns s))) 0),
    (Z.eqb_spec (loop_count r a) 0); simpl; symmetry;
    first [apply negb_true_iff, Z.eqb_neq; lia | apply negb_false_iff, Z.eqb_eq; lia].
Qed.

Lemma filter_kept_count ex a l :
  zlen (filter (fun x => x = a) (List.filter (fun x => negb (skip_as ex x)) l))
  = if skip_as ex a then 0 else zlen (filter (fun x => x = a) l).
Proof.
  induction l as [|x l IH]; simpl; [by destruct (skip_as ex a)|].
  rewrite filter_cons. destruct (decide (x = a)) as [->|Hne].
  - destruct (skip_as ex a); simpl; [done|].
    rewrite filter_cons_True by done. rewrite !zlen_cons, IH. done.
  - destruct (skip_as ex x); simpl; [done|]. by rewrite filter_cons_False by done.
Qed.

Lemma loop_count_kept ex src a :
  loop_count (kept_segments ex src) a = if skip_as ex a then 0 else loop_count src a.
Proof.
  induction src as [|s r IH]; [by destruct (skip_as ex a)|].
  unfold kept_segments in *. simpl.
  assert (Hs : zlen (filter (fun x => x = a) (asns (kept ex s)))
               = if skip_as ex a then 0 else zlen (filter (fun x => x = a) (asns s)))
    by (rewrite asns_kept; apply filter_kept_count).
  destruct (seg_length (kept ex s) =? 0) eqn:E; simpl.
  - rewrite IH. zify_bool. rewrite <- zlen_asns in E.
    unfold zlen in E. destruct (asns (kept ex s)); [|simpl in *; lia].
    destruct (skip_as ex a); [done|]. change (filter _ []) with (@nil Z) in Hs.
    rewrite zlen_nil in Hs. lia.
  - rewrite IH, Hs. destruct (skip_as ex a); lia.
Qed.

Lemma loop_check_count seg a : aspath_loop_check (Some seg) a = loop_count seg a.
Proof. by destruct seg. Qed.

(** [aspath_filter_exclude] returns for all paths, its two passes
    agreeing on the size of every new segment; the result has no segment left
    empty, contains no excluded AS number, contains every other AS number as
    often as before and in the same segment and order, and its string is
    fresh. *)
Theorem aspath_filter_exclude_exact source exclude :
  exists q, aspath_filter_exclude source exclude = Ret q /\ in_sync q /\
    path_segments q = kept_segments (path_segments exclude) (path_segments source) /\
    Forall (fun s => seg_length s <> 0) (path_segments q) /\
    forall a, aspath_loop_check (Some (path_segments q)) a =
      if aspath_loop_check (Some (path_segments exclude)) a =? 0
      then aspath_loop_check (Some (path_segments source)) a else 0.
Proof.
  unfold aspath_filter_exclude. rewrite exclude_segments_spec. cbn [mbind res_bind].
  str_updated q Hq. exists q. rewrite Hq. do 3 (split; [done|]). split.
  - apply Forall_forall. intros s Hs%list_elem_of_In%filter_In.
    destruct Hs as [_ Hs%negb_true_iff]. by zify_bool.
  - intros a. rewrite !loop_check_count, loop_count_kept, skip_as_loop.
    by destruct (loop_count (path_segments exclude) a =? 0).
Qed.

(** ** AS4 reconciliation *)
Lemma dup_all_in_sync seg :
  (if forallb valid_type (assegment_dup_all seg)
   then Some (render (assegment_dup_all seg)) else None)
  = if forallb valid_type seg then Some (render seg) else None.
Proof.
  assert (forallb valid_type (assegment_dup_all seg) = forallb valid_type seg) as ->
    by (induction seg as [|s r IH]; [done|]; simpl; by rewrite IH).
  assert (render (assegment_dup_all seg) = render seg) as ->; [|done].
  assert (Hs : forall s, render_seg (assegment_dup s) = render_seg s)
    by (intros s; unfold render_seg; by rewrite asns_dup).
  induction seg as [|s [|t r] IH]; [done|simpl; apply Hs|].
  change (render (s :: t :: r)) with (render_seg s ++ ch_space :: render (t :: r)).
  rewrite <- IH, <- Hs. done.
Qed.

Lemma dup_spec p :
  exists q, aspath_dup p = Ret q /\ path_segments q = assegment_dup_all (path_segments p) /\
    in_sync q.
Proof.
  unfold aspath_dup. rewrite make_str_render. eexists. split; [done|]. split; [done|].
  unfold in_sync. cbn [path_segments str]. by rewrite dup_all_in_sync.
Qed.

Lemma total_dup_all seg : total_asns (assegment_dup_all seg) <= total_asns seg.
Proof.
  induction seg as [|s r IH]; [done|]. simpl assegment_dup_all. rewrite !total_asns_cons. simpl.
  unfold asns, zlen. rewrite length_take. lia.
Qed.

Lemma append_new type l :
  zlen l < 2 ^ 16 -> assegment_append_asns (assegment_new type 0) l = Seg type l.
Proof. done. Qed.

Definition plain (s : assegment) : bool :=
  (seg_type s =? AS_SEQUENCE) || (seg_type s =? AS_SET).

Lemma items_of_take s n :
  seg_type s = AS_SEQUENCE ->
  items_of (Seg (seg_type s) (take n (asns s))) = take n (items_of s).
Proof.
  intros Hs. unfold items_of. simpl. rewrite Hs. simpl. rewrite asns_id; [by rewrite firstn_map|].
  simpl. pose proof (seg_length_range s). rewrite <- zlen_asns in *.
  unfold zlen in *. rewrite length_take. lia.
Qed.

Lemma total_take_asns s n : zlen (take n (asns s)) <= zlen (seg_as s).
Proof. unfold asns, zlen. rewrite !length_take. lia. Qed.

(** What an item counts for in the [hops] of the code: every hop and every set
    one, an AS_CONFED_SEQUENCE the number of its ASes. *)
Definition weight (i : item) : Z :=
  match i with
  | Hop _ | Members _ _ => 1
  | Ordered _ l => zlen l
  end.
Fixpoint sum_weight (l : list item) : Z :=
  match l with [] => 0 | i :: l => weight i + sum_weight l end.

(** The leading items that count for [k]: an AS_CONFED_SEQUENCE is taken whole
    even when less than its length is left of [k]. *)
Fixpoint lead (k : Z) (l : list item) : list item :=
  match l with
  | [] => []
  | i :: r => if k <=? 0 then [] else i :: lead (k - weight i) r
  end.

Lemma sum_weight_app l k : sum_weight (l ++ k) = sum_weight l + sum_weight k.
Proof. induction l as [|i l IH]; simpl; [done|]. rewrite IH. lia. Qed.

Lemma sum_weight_nonneg l : 0 <= sum_weight l.
Proof.
  induction l as [|i l IH]; simpl; [lia|]. destruct i as [| |? k]; simpl; [lia..|].
  pose proof (zlen_nonneg k). lia.
Qed.

Lemma sum_weight_hops l : sum_weight (map Hop l) = zlen l.
Proof. induction l as [|a l IH]; [done|]. cbn [map sum_weight weight]. rewrite IH, zlen_cons. done. Qed.

Lemma lead_nil k l : k <= 0 -> lead k l = [].
Proof. intros H. destruct l; [done|]. simpl. by rewrite (proj2 (Z.leb_le _ _) H). Qed.

Lemma lead_hops l : forall k r,
  lead k (map Hop l ++ r) = map Hop (take (Z.to_nat k) l) ++ lead (k - zlen l) r.
Proof.
  induction l as [|a l IH]; intros k r; simpl.
  { rewrite firstn_nil. simpl. by rewrite Z.sub_0_r. }
  pose proof (zlen_nonneg l). rewrite zlen_cons. destruct (Z.leb_spec k 0).
  - replace (Z.to_nat k) with O by lia. by rewrite lead_nil by lia.
  - replace (Z.to_nat k) with (S (Z.to_nat (k - 1))) by lia. simpl. rewrite IH. do 3 f_equal. lia.
Qed.

Lemma lead_sum l : forall k, k <= sum_weight l -> k <= sum_weight (lead k l).
Proof.
  induction l as [|i l IH]; intros k H; simpl in *; [done|]. destruct (Z.leb_spec k 0); [simpl; lia|].
  simpl. pose proof (IH (k - weight i)). lia.
Qed.

(** On hops and sets it is the first [k] items. *)
Lemma lead_plain seg : forallb plain seg = true -> forall k, lead k (items seg) = take (Z.to_nat k) (items seg).
Proof.
  intros Hp. assert (Hw : Forall (fun i => weight i = 1) (items seg)).
  { induction seg as [|s r IH]; [constructor|]. simpl in Hp. apply andb_true_iff in Hp as [Hs Hr].
    rewrite items_cons. apply Forall_app_2; [|by apply IH]. unfold items_of, plain in *.
    destruct (seg_type s =? AS_SEQUENCE); [clear; induction (asns s); simpl; auto|].
    simpl in Hs. unfold is_set. rewrite Hs. simpl. auto. }
  induction Hw as [|i l Hi _ IH]; intros k; simpl; [by rewrite firstn_nil|].
  destruct (Z.leb_spec k 0); [by replace (Z.to_nat k) with O by lia|].
  replace (Z.to_nat k) with (S (Z.to_nat (k - 1))) by lia. simpl. by rewrite Hi, IH.
Qed.

Lemma weigh_segments seg : forallb valid_type seg = true ->
  aspath_count_hops seg + aspath_count_confeds seg = sum_weight (items seg).
Proof.
  induction seg as [|s r IH]; [done|]. simpl. intros [Hs Hr]%andb_true_iff.
  rewrite items_cons, sum_weight_app, <- IH by done. unfold valid_type, items_of, is_set in *.
  destruct (Z.eqb_spec (seg_type s) AS_SEQUENCE) as [->|]; simpl.
  { rewrite sum_weight_hops, zlen_asns. lia. }
  destruct (Z.eqb_spec (seg_type s) AS_SET) as [->|]; simpl; [lia|].
  destruct (Z.eqb_spec (seg_type s) AS_CONFED_SET) as [->|]; simpl; [lia|].
  destruct (Z.eqb_spec (seg_type s) AS_CONFED_SEQUENCE) as [_|]; [|done].
  rewrite zlen_asns. lia.
Qed.

(** A whole segment copied. *)
Lemma copy_whole s : items (
    [assegment_append_asns (assegment_new (seg_type s) 0) (take (Z.to_nat (seg_length s)) (asns s))])
  = items_of s.
Proof.
  pose proof (seg_length_range s). pose proof (zlen_asns s).
  rewrite take_ge by (unfold zlen in *; lia). rewrite items_cons. change (items []) with (@nil item).
  rewrite app_nil_r. unfold assegment_append_asns, items_of. simpl. by rewrite asns_id by (simpl; lia).
Qed.

(** The loop copies the leading items. *)
Definition copies (seg : segments) (hops c : Z) : Prop :=
  exists out, reconcile_copy seg hops c = Ret out /\ items out = lead hops (items seg) /\
    total_asns out <= total_asns seg /\ (0 < hops -> seg <> [] -> out <> []).

Lemma copies_cons s r hops c0 k c :
  copies r k c -> c <= seg_length s -> reconcile_copy (s :: r) hops c0
  = (_ ← cassert (c <=? seg_length s); rest ← reconcile_copy r k c;
     Ret (assegment_append_asns (assegment_new (seg_type s) 0) (take (Z.to_nat c) (asns s)) :: rest)) ->
  items [assegment_append_asns (assegment_new (seg_type s) 0) (take (Z.to_nat c) (asns s))]
    ++ lead k (items r) = lead hops (items_of s ++ items r) ->
  copies (s :: r) hops c0.
Proof.
  intros (out & E & Hi & Ht & _) Hc Er El. unfold copies. rewrite Er. unfold cassert.
  rewrite (proj2 (Z.leb_le _ _) Hc). cbn [mbind res_bind]. rewrite E. cbn [mbind res_bind].
  eexists. split; [done|].
  rewrite items_cons, Hi, (items_cons s), <- El, items_cons. change (items []) with (@nil item).
  rewrite app_nil_r, !total_asns_cons. simpl seg_as. pose proof (total_take_asns s (Z.to_nat c)).
  split; [done|]. split; [simpl; lia|done].
Qed.

Lemma reconcile_copy_items seg : forall hops c,
  forallb valid_type seg = true -> copies seg hops c.
Proof.
  induction seg as [|s r IH]; intros hops c0 Hp; [by exists []|].
  simpl in Hp. apply andb_true_iff in Hp as [Hs Hr].
  destruct (Z.leb_spec hops 0) as [Hh|Hh].
  { exists []. rewrite lead_nil by lia. pose proof (total_asns_nonneg (s :: r)).
    cbn [reconcile_copy]. rewrite (proj2 (Z.leb_le _ _) Hh). repeat split; [done|lia]. }
  pose proof (seg_length_range s) as Hlen. pose proof (zlen_asns s) as Hz.
  pose proof (copy_whole s) as Hfull. apply Z.leb_gt in Hh.
  assert (items_of s = if seg_type s =? AS_SEQUENCE then map Hop (asns s)
    else if is_set s then [Members (seg_type s) (list_to_set (asns s))]
    else [Ordered (seg_type s) (asns s)]) as Ei by done.
  unfold valid_type in Hs.
  destruct (Z.eqb_spec (seg_type s) AS_SEQUENCE) as [Eseq|Eseq].
  { apply (copies_cons s r hops c0 (hops - seg_length s) (Z.min (seg_length s) hops));
      [by apply IH|lia|cbn [reconcile_copy]; unfold is_set; by rewrite Hh, Eseq|].
    rewrite Ei, lead_hops, Hz. f_equal.
    rewrite items_cons. change (items []) with (@nil item). rewrite app_nil_r. unfold items_of.
    simpl. unfold assegment_append_asns.
    rewrite Eseq, asns_id by (simpl; unfold zlen in *; rewrite length_take; lia).
    simpl. f_equal. destruct (Z.le_gt_cases (seg_length s) hops); [|f_equal; lia].
    rewrite !take_ge by (unfold zlen in Hz; lia). done. }
  destruct (is_set s) eqn:Eset.
  { apply (copies_cons s r hops c0 (hops - 1) (seg_length s));
      [by apply IH|lia|cbn [reconcile_copy]; by rewrite Hh, Eset|].
    rewrite Hfull, Ei. cbn [app lead weight]. by rewrite Hh. }
  unfold is_set in Eset. apply orb_false_iff in Eset as [E1 E2]. rewrite E1, E2 in Hs.
  destruct (Z.eqb_spec (seg_type s) AS_CONFED_SEQUENCE) as [Ec|Ec]; [|done].
  set (h := if hops <? seg_length s then seg_length s else hops).
  apply (copies_cons s r hops c0 (h - seg_length s) (seg_length s));
    [by apply IH|lia| |rewrite Hfull, Ei; cbn [app lead weight]; rewrite Hh, Hz].
  - cbn [reconcile_copy]. unfold is_set. rewrite Hh, E1, E2, Ec. cbn [orb Z.eqb]. fold h.
    replace (Z.min (seg_length s) h) with (seg_length s) by (unfold h; case_test; lia). done.
  - f_equal. unfold h. case_test; [|done]. by rewrite !lead_nil by lia.
Qed.

Lemma plain_hops seg :
  forallb plain seg = true ->
  sum_hops (items seg) = zlen (items seg) /\ aspath_count_confeds seg = 0.
Proof.
  induction seg as [|s r IH]; [done|]. simpl. intros [Hs Hr]%andb_true_iff.
  destruct (IH Hr) as [Hi Hc]. rewrite items_cons, sum_hops_app, zlen_app, Hi, Hc.
  unfold plain in Hs. unfold items_of.
  destruct (seg_type s =? AS_SEQUENCE) eqn:E.
  - rewrite sum_hops_seq. split; [unfold zlen; rewrite length_map; lia|].
    zify_bool. by rewrite E.
  - simpl in Hs. unfold is_set. rewrite Hs. simpl. rewrite Hs. zify_bool. by rewrite Hs.
Qed.

(** Confederation members, from what a path says. *)
Definition confeds_of (i : item) : Z :=
  match i with
  | Hop _ => 0
  | Members ty _ => if ty =? AS_CONFED_SET then 1 else 0
  | Ordered ty l => if ty =? AS_CONFED_SEQUENCE then zlen l else 0
  end.
Fixpoint sum_confeds (l : list item) : Z :=
  match l with [] => 0 | i :: l => confeds_of i + sum_confeds l end.

Lemma sum_confeds_app l k : sum_confeds (l ++ k) = sum_confeds l + sum_confeds k.
Proof. induction l as [|i l IH]; simpl; [done|]. rewrite IH. lia. Qed.

Lemma count_confeds_items seg : aspath_count_confeds seg = sum_confeds (items seg).
Proof.
  induction seg as [|s r IH]; [done|]. rewrite items_cons, sum_confeds_app, <- IH.
  cbn [aspath_count_confeds]. f_equal. unfold items_of, is_set.
  destruct (Z.eqb_spec (seg_type s) AS_SEQUENCE) as [->|].
  { simpl. clear. induction (asns s); simpl; lia. }
  destruct (Z.eqb_spec (seg_type s) AS_SET) as [->|]; simpl; [done|].
  destruct (Z.eqb_spec (seg_type s) AS_CONFED_SET) as [->|]; simpl; [done|].
  rewrite zlen_asns. case_test; lia.
Qed.

Definition weighed (i : item) : Prop := weight i = hops_of i + confeds_of i.

Lemma items_weighed seg : forallb valid_type seg = true -> Forall weighed (items seg).
Proof.
  induction seg as [|s r IH]; [constructor|]. simpl. intros [Hs Hr]%andb_true_iff.
  rewrite items_cons. apply Forall_app_2; [|by apply IH]. unfold valid_type, items_of, is_set in *.
  destruct (seg_type s =? AS_SEQUENCE); [clear; induction (asns s); simpl; auto; by constructor|].
  unfold weighed.
  destruct (Z.eqb_spec (seg_type s) AS_SET) as [->|]; [by repeat constructor|].
  destruct (Z.eqb_spec (seg_type s) AS_CONFED_SET) as [->|]; [by repeat constructor|].
  destruct (Z.eqb_spec (seg_type s) AS_CONFED_SEQUENCE) as [->|]; [by repeat constructor|done].
Qed.

Lemma lead_weighed l : Forall weighed l -> forall k,
  sum_weight (lead k l) = sum_hops (lead k l) + sum_confeds (lead k l).
Proof.
  induction 1 as [|i l Hi _ IH]; intros k; [done|]. cbn [lead]. case_test; [done|].
  cbn [sum_weight sum_confeds]. rewrite IH, Hi. simpl. unfold sum_hops. lia.
Qed.

(** What the code returns. *)
Lemma reconcile_segments p as4path k :
  k = (let d := aspath_count_hops (path_segments p) + aspath_count_confeds (path_segments p)
                - aspath_count_hops (path_segments as4path) in
       if d <? 0 then aspath_count_hops (path_segments p) else d) -> 0 <= k ->
  forallb valid_type (path_segments p) = true ->
  total_asns (path_segments p) + total_asns (path_segments as4path) < 2 ^ 16 ->
  exists q, aspath_reconcile_as4 (Some p) as4path = Ret (Some q) /\ in_sync q /\
    items (path_segments q) = lead k (items (path_segments p)) ++ items (path_segments as4path).
Proof.
  intros Hk Hk0 Hp Hlen. unfold aspath_reconcile_as4. cbv zeta in Hk. rewrite <- Hk. case_test.
  { destruct (dup_spec as4path) as (q & -> & Hq & Hin). exists q. subst k.
    rewrite lead_nil by lia. cbn [mbind res_bind]. by rewrite Hq, items_dup_all. }
  destruct (reconcile_copy_items (path_segments p) k 0 Hp) as (out & -> & Hi & Ht & Hne).
  cbn [mbind res_bind]. destruct out as [|s out].
  { exfalso. apply Hne; [lia| |done]. intros E. rewrite E in Hk. cbn in Hk.
    assert (0 <= aspath_count_hops (path_segments as4path)).
    { clear. induction (path_segments as4path) as [|s r IH]; simpl; [done|].
      pose proof (seg_length_range s). repeat case_test; lia. }
    destruct (_ <? 0) eqn:?; zify_bool; lia. }
  destruct (dup_spec as4path) as (d & -> & Hd & _). cbn [mbind res_bind].
  destruct (merge_spec (set_segments aspath_new (s :: out)) d) as (q & -> & Hq & _); [done|].
  cbn [mbind res_bind]. str_updated q' Hq'. exists q'. split; [done|]. split; [done|].
  rewrite Hq', items_normalise, Hq, Hd, items_app, !items_dup_all; [by rewrite <- Hi|].
  rewrite Hq, Hd, total_asns_app.
  pose proof (total_dup_all (s :: out)). pose proof (total_dup_all (path_segments as4path)).
  cbn [path_segments set_segments] in *. lia.
Qed.

(** C18. [aspath_reconcile_as4] on an AS_PATH of segments of the four known
    types and any AS4_PATH, together of at most 65535 AS numbers: it returns
    (no assertion fails and the NULL path is never dereferenced) a path with a
    fresh string that says the leading part of the AS_PATH and then the whole
    AS4_PATH.  The leading part counts for the hops and confederation members
    of the AS_PATH less the hops of the AS4_PATH, an AS_CONFED_SEQUENCE being
    taken whole even when fewer are asked for; when the AS4_PATH has more hops
    than that total, it counts for the hops of the AS_PATH only.  So the result
    is never shorter than an AS_PATH that the AS4_PATH does not exceed, and
    without confederation segments it is exactly as long. *)
Theorem reconcile_as4_spec p as4path :
  let n := aspath_count_hops (path_segments p) in
  let c := aspath_count_confeds (path_segments p) in
  let m := aspath_count_hops (path_segments as4path) in
  let k := if n + c <? m then n else n + c - m in
  forallb valid_type (path_segments p) = true ->
  total_asns (path_segments p) + total_asns (path_segments as4path) < 2 ^ 16 ->
  exists q, aspath_reconcile_as4 (Some p) as4path = Ret (Some q) /\ in_sync q /\
    items (path_segments q) = lead k (items (path_segments p)) ++ items (path_segments as4path) /\
    (m <= n + c -> n + c <= aspath_count_hops (path_segments q)
       + (aspath_count_confeds (path_segments q) - aspath_count_confeds (path_segments as4path))) /\
    (forallb plain (path_segments p) = true ->
       items (path_segments q)
       = take (Z.to_nat k) (items (path_segments p)) ++ items (path_segments as4path) /\
       (m <= n -> aspath_count_hops (path_segments q) = n)).
Proof.
  intros n c m k Hp Hlen. pose proof (weigh_segments _ Hp) as Hw. fold n c in Hw.
  pose proof (lead_weighed _ (items_weighed _ Hp) k) as Hl.
  assert (0 <= n /\ 0 <= m) as [Hn Hm].
  { assert (Hh : forall seg, 0 <= aspath_count_hops seg); [|split; apply Hh].
    induction seg as [|s r IH]; simpl; [done|].
    pose proof (seg_length_range s). repeat case_test; lia. }
  destruct (reconcile_segments p as4path k) as (q & Hq & Hin & Hi);
    [fold n c m; unfold k; repeat case_test; lia|unfold k; case_test; lia|done..|].
  exists q. split; [done|]. split; [done|]. split; [done|].
  rewrite !count_hops_items, !count_confeds_items, Hi, sum_hops_app, sum_confeds_app, <- count_hops_items.
  fold m. split.
  - intros Hmn. pose proof (lead_sum (items (path_segments p)) k).
    unfold k in *. destruct (n + c <? m) eqn:?; zify_bool; lia.
  - intros Hpl. pose proof (lead_plain _ Hpl k) as E. destruct (plain_hops _ Hpl) as [Hs Hc0].
    rewrite E. split; [done|]. intros Hmn.
    assert (Hnz : n = zlen (items (path_segments p))) by (unfold n; by rewrite count_hops_items).
    fold c in Hc0. rewrite <- (take_drop (Z.to_nat k) (items (path_segments p))) in Hs at 1 2.
    rewrite sum_hops_app, zlen_app in Hs.
    assert (Hall : forall l : list item, sum_hops l <= zlen l).
    { induction l as [|[] l IHl]; simpl; repeat case_test; zlen. }
    pose proof (Hall (take (Z.to_nat k) (items (path_segments p)))).
    pose proof (Hall (drop (Z.to_nat k) (items (path_segments p)))).
    assert (zlen (take (Z.to_nat k) (items (path_segments p))) = n - m); [|lia].
    unfold k, zlen in *. rewrite length_take. case_test; lia.
Qed.

(** A path of four hops and one confederation sequence that the cut falls in. *)
Lemma reconcile_as4_spec_witness :
  let p := Aspath 1 [Seg AS_CONFED_SEQUENCE [64512; 64513]; Seg AS_SEQUENCE [100; 23456; 7]] (Some []) in
  let as4path := Aspath 1 [Seg AS_SEQUENCE [60; 70000; 80000; 7]] (Some []) in
  exists q, aspath_reconcile_as4 (Some p) as4path = Ret (Some q) /\ in_sync q /\
    items (path_segments q) = lead 1 (items (path_segments p)) ++ items (path_segments as4path) /\
    (4 <= 5 -> 5 <= aspath_count_hops (path_segments q)
       + (aspath_count_confeds (path_segments q) - aspath_count_confeds (path_segments as4path))) /\
    (forallb plain (path_segments p) = true ->
       items (path_segments q)
       = take 1 (items (path_segments p)) ++ items (path_segments as4path) /\
       (4 <= 3 -> aspath_count_hops (path_segments q) = 3)).
Proof.
  intros p as4path. apply (reconcile_as4_spec p as4path); [reflexivity|by_eval].
Defined.

(** When the AS4_PATH has more hops, [hops] is reset to the hops of the AS_PATH
    without its confederation members, so leading confederation segments push
    hops of the AS_PATH out of the result. *)
Lemma reconcile_as4_drops_hops :
  let p := Aspath 1 [Seg AS_CONFED_SEQUENCE [64512; 64513]; Seg AS_SEQUENCE [100; 200]] (Some []) in
  let as4path := Aspath 1 [Seg AS_SEQUENCE [1; 2; 3; 4; 5]] (Some []) in
  exists q, aspath_reconcile_as4 (Some p) as4path = Ret (Some q) /\
    path_segments q = [Seg AS_CONFED_SEQUENCE [64512; 64513]; Seg AS_SEQUENCE [1; 2; 3; 4; 5]].
Proof. eexists. split; [vm_compute; reflexivity|reflexivity]. Qed.

(** ** Adding one AS number *)

(** [aspath_add_seq] puts the AS number in front: the path then says that
    hop followed by what it said, the first AS check and the loop check see it
    and the hop count grows by one (the head segment must not be empty: the
    code would drop the whole chain otherwise).  The cached string is not
    refreshed. *)
Theorem aspath_add_seq_spec p asno :
  is_u32 asno -> total_asns (path_segments p) < 2 ^ 16 - 1 ->
  (forall s, head (path_segments p) = Some s -> seg_as s <> []) ->
  exists q, aspath_add_seq p asno = Ret q /\
    items (path_segments q) = Hop asno :: items (path_segments p) /\
    aspath_firstas_check (Some (path_segments q)) asno = Ret true /\
    aspath_loop_check (Some (path_segments q)) asno
    = 1 + aspath_loop_check (Some (path_segments p)) asno /\
    aspath_count_hops (path_segments q) = 1 + aspath_count_hops (path_segments p) /\
    str q = str p.
Proof.
  intros Ha Hlen Hhd. unfold aspath_add_seq, aspath_add_one_as.
  destruct (path_segments p) as [|s r] eqn:E.
  { eexists. split; [done|]. simpl. rewrite Z.eqb_refl.
    split_and!; try done. unfold asns. simpl. by rewrite filter_cons_True by done. }
  specialize (Hhd s eq_refl). rewrite total_asns_cons in Hlen.
  pose proof (total_asns_nonneg r) as Hr. pose proof (zlen_nonneg (seg_as s)) as Hs0.
  assert (seg_length s <> 0).
  { rewrite seg_length_id by lia. destruct (seg_as s) as [|x l]; [done|]. pose proof (zlen_nonneg l). zlen. }
  case_test; [done|]. rewrite !loop_check_count.
  cut (exists q, (if seg_type s =? AS_SEQUENCE
     then Ret (set_segments p (assegment_prepend_asns s asno 1 :: r))
     else Ret (set_segments p (Seg AS_SEQUENCE [asno] :: s :: r))) = Ret q /\
    items (path_segments q) = Hop asno :: items (s :: r) /\
    aspath_firstas_check (Some (path_segments q)) asno = Ret true /\
    loop_count (path_segments q) asno = 1 + loop_count (s :: r) asno /\ str q = str p).
  { intros (q & Hq & Hi & Hf & Hl & Hstr). exists q.
    split_and!; auto; [by rewrite loop_check_count|]. by rewrite !count_hops_items, Hi. }
  case_test.
  - eexists. split; [done|]. unfold assegment_prepend_asns. simpl path_segments.
    rewrite !items_cons, asns_id by lia. change (Z.to_nat 1) with 1%nat. simpl replicate.
    simpl app. rewrite Heqb0. simpl loop_count.
    unfold items_of. rewrite Heqb0. simpl.
    rewrite !asns_id by (simpl; zlen). simpl. rewrite Z.eqb_refl.
    rewrite filter_cons_True by done. split_and!; try done. zlen.
  - eexists. split; [done|]. simpl path_segments. rewrite !items_cons. simpl loop_count.
    unfold items_of at 1. simpl. rewrite Z.eqb_refl.
    unfold asns at 1 2. simpl. rewrite filter_cons_True by done. split_and!; done.
Qed.

Lemma aspath_add_seq_spec_witness :
  let p := Aspath 0 [Seg AS_SEQUENCE [2; 3]] (Some (codes "2 3")) in
  exists q, aspath_add_seq p 3 = Ret q /\
    items (path_segments q) = Hop 3 :: items (path_segments p) /\
    aspath_firstas_check (Some (path_segments q)) 3 = Ret true /\
    aspath_loop_check (Some (path_segments q)) 3
    = 1 + aspath_loop_check (Some (path_segments p)) 3 /\
    aspath_count_hops (path_segments q) = 1 + aspath_count_hops (path_segments p) /\
    str q = str p.
Proof.
  intros p. apply (aspath_add_seq_spec p 3); [by_eval|by_eval|].
  intros s [= <-]. discriminate.
Defined.

(** ** Aggregation *)

(** What the AS_SET under construction holds. *)
Definition asset_members (asset : option assegment) : list Z :=
  match asset with Some s => seg_as s | None => [] end.
Definition asset_ok (asset : option assegment) : Prop :=
  match asset with
  | Some s => seg_type s = AS_SET /\ seg_as s <> []
  | None => True
  end.

Lemma set_add_all_spec l asset :
  asset_ok asset -> zlen (asset_members asset) + zlen l < 2 ^ 16 ->
  exists a', set_add_all asset l = Ret a' /\ asset_ok a' /\
    (forall x, x ∈ asset_members a' <-> x ∈ asset_members asset ++ l) /\
    zlen (asset_members a') <= zlen (asset_members asset) + zlen l.
Proof.
  revert asset. induction l as [|a l IH]; intros asset Hok Hlen; simpl.
  { exists asset. rewrite app_nil_r. split_and!; auto. zlen. }
  pose proof (zlen_nonneg l). autorewrite with zlen in *.
  assert (exists a', aspath_aggregate_as_set_add asset a = Ret a' /\ asset_ok a' /\
    (forall x, x ∈ asset_members a' <-> x ∈ asset_members asset ++ [a]) /\
    zlen (asset_members a') <= zlen (asset_members asset) + 1) as (a1 & -> & Hok1 & Hm1 & Hl1).
  { destruct asset as [s|]; [|by eexists]. simpl in *. destruct Hok as [Ht Hne].
    pose proof (zlen_nonneg (seg_as s)). rewrite asns_id by lia. case_test.
    - exists (Some s). split_and!; simpl; auto; [|lia]. intros x. rewrite elem_of_app, list_elem_of_singleton.
      apply existsb_exists in Heqb as (y & Hy%list_elem_of_In & ->%Z.eqb_eq). naive_solver.
    - rewrite seg_length_id by lia. rewrite u16_id by (split; lia). case_test; [lia|].
      eexists. split; [done|]. simpl. split_and!; auto; [by destruct (seg_as s)|zlen]. }
  cbn [mbind res_bind]. destruct (IH a1 Hok1) as (a2 & -> & Hok2 & Hm2 & Hl2); [lia|].
  exists a2. split_and!; auto; [|lia]. intros x.
  rewrite Hm2, !elem_of_app, Hm1, elem_of_app, list_elem_of_singleton, elem_of_cons. naive_solver.
Qed.

Lemma match_len_prefix p r1 r2 :
  (forall a, head r1 = Some a -> head r2 <> Some a) -> match_len (p ++ r1) (p ++ r2) = zlen p.
Proof.
  intros Hr. induction p as [|a p IH]; simpl.
  - destruct r1 as [|x r1], r2 as [|y r2]; try done. simpl.
    case_test; [|done]. subst. by destruct (Hr y).
  - rewrite Z.eqb_refl, IH. zlen.
Qed.

(** An optional segment: none when it would be empty. *)
Definition seg_unless_empty (type : Z) (l : list Z) : segments :=
  match l with [] => [] | _ => [Seg type l] end.

Lemma aggregate_finish p asset l :
  zlen p < 2 ^ 16 -> zlen (asset_members asset) < 2 ^ 16 -> asset_ok asset ->
  (forall x, x ∈ asset_members asset <-> x ∈ l) ->
  assegment_normalise (seg_unless_empty AS_SEQUENCE p ++ option_list asset)
  = seg_unless_empty AS_SEQUENCE p ++ seg_unless_empty AS_SET (sort_uniq l).
Proof.
  intros Hp Hlen Hok Hm.
  assert (Hs : sort_uniq l = sort_uniq (asset_members asset)).
  { apply strictly_sorted_unique; auto using sort_uniq_sorted.
    intros x. by rewrite !elem_of_sort_uniq, Hm. }
  rewrite Hs. destruct asset as [[ty k]|]; simpl in *; [|by destruct p].
  destruct Hok as [-> Hne].
  assert (sort_uniq k <> []) as Hne'.
  { destruct k as [|x k]; [done|]. intros E.
    pose proof (proj2 (elem_of_sort_uniq (x :: k) x) ltac:(left)) as Hx.
    rewrite E in Hx. by apply elem_of_nil in Hx. }
  assert (seg_unless_empty AS_SET (sort_uniq k) = [Seg AS_SET (sort_uniq k)]) as ->
    by (by destruct (sort_uniq k)).
  destruct p as [|a p]; simpl; unfold sort_if_set; simpl; by rewrite asns_id by done.
Qed.

(** The AS numbers the second part of [aspath_aggregate] collects. *)
Definition rest_from (from : Z) (seg : segments) : list Z :=
  match seg with
  | [] => []
  | s :: r => drop (Z.to_nat from) (asns s) ++ concat (map asns r)
  end.

Lemma rest_from_0 seg : rest_from 0 seg = concat (map asns seg).
Proof. by destruct seg. Qed.

Lemma set_add_from_spec seg from asset :
  asset_ok asset -> zlen (asset_members asset) + zlen (rest_from from seg) < 2 ^ 16 ->
  exists a', set_add_from asset from seg = Ret a' /\ asset_ok a' /\
    (forall x, x ∈ asset_members a' <-> x ∈ asset_members asset ++ rest_from from seg) /\
    zlen (asset_members a') <= zlen (asset_members asset) + zlen (rest_from from seg).
Proof.
  revert from asset. induction seg as [|s r IH]; intros from asset Hok Hlen; simpl in *.
  { exists asset. rewrite app_nil_r. split_and!; auto. zlen. }
  rewrite zlen_app in *. pose proof (zlen_nonneg (concat (map asns r))).
  destruct (set_add_all_spec (drop (Z.to_nat from) (asns s)) asset) as (a1 & -> & Hok1 & Hm1 & Hl1);
    [done|lia|].
  cbn [mbind res_bind]. rewrite <- (rest_from_0 r) in *.
  destruct (IH 0 a1) as (a2 & -> & Hok2 & Hm2 & Hl2); [done|lia|].
  exists a2. split_and!; auto; [|lia].
  intros x. rewrite Hm2, elem_of_app, Hm1, !elem_of_app. naive_solver.
Qed.

(** From where the common leading sequence ends. *)
Lemma aggregate_from as1 as2 p m seg1 seg2 :
  aggregate_lead [] 0 (path_segments as1) (path_segments as2)
  = (seg_unless_empty AS_SEQUENCE p, m, seg1, seg2) ->
  zlen p < 2 ^ 16 -> zlen (rest_from m seg1) + zlen (rest_from m seg2) < 2 ^ 16 ->
  exists q, aspath_aggregate as1 as2 = Ret q /\ in_sync q /\
    path_segments q = seg_unless_empty AS_SEQUENCE p
      ++ seg_unless_empty AS_SET (sort_uniq (rest_from m seg1 ++ rest_from m seg2)).
Proof.
  intros Hlead Hp Hlen. unfold aspath_aggregate. rewrite Hlead.
  pose proof (zlen_nonneg (rest_from m seg2)).
  destruct (set_add_from_spec seg1 m None) as (a1 & -> & Hok1 & Hm1 & Hl1); [done|simpl; zlen|].
  cbn [mbind res_bind]. simpl in Hl1, Hm1. autorewrite with zlen in *.
  destruct (set_add_from_spec seg2 m a1) as (a2 & -> & Hok2 & Hm2 & Hl2); [done|lia|].
  cbn [mbind res_bind]. str_updated q Hq. exists q. split_and!; auto. rewrite Hq.
  apply aggregate_finish; auto; [lia|]. intros x. by rewrite Hm2, !elem_of_app, Hm1.
Qed.

Lemma lead_out ty p r :
  (if zlen p =? 0 then [] else
     [assegment_append_asns (assegment_new ty 0) (take (Z.to_nat (zlen p)) (p ++ r))])
  = seg_unless_empty ty p.
Proof. unfold zlen. rewrite Nat2Z.id, take_app_length. by destruct p. Qed.

(** Aggregating two paths of one AS_SEQUENCE each gives the sequence they
    share at the left and then one sorted AS_SET, without duplicates, of every
    other AS number of either path: nothing is lost for loop detection. *)
Theorem aggregate_sequences p r1 r2 :
  zlen (p ++ r1) + zlen (p ++ r2) < 2 ^ 16 ->
  (forall a, head r1 = Some a -> head r2 <> Some a) ->
  exists q, aspath_aggregate (set_segments aspath_new [Seg AS_SEQUENCE (p ++ r1)])
                             (set_segments aspath_new [Seg AS_SEQUENCE (p ++ r2)]) = Ret q /\
    in_sync q /\
    path_segments q = seg_unless_empty AS_SEQUENCE p
                      ++ seg_unless_empty AS_SET (sort_uniq (r1 ++ r2)).
Proof.
  intros Hlen Hr. pose proof (zlen_nonneg p). pose proof (zlen_nonneg r1). pose proof (zlen_nonneg r2).
  autorewrite with zlen in Hlen.
  set (s1 := Seg AS_SEQUENCE (p ++ r1)). set (s2 := Seg AS_SEQUENCE (p ++ r2)).
  assert (Ha1 : asns s1 = p ++ r1) by (apply asns_id; simpl; zlen).
  assert (Ha2 : asns s2 = p ++ r2) by (apply asns_id; simpl; zlen).
  assert (rest_from (zlen p) [s1] = r1 /\ rest_from (zlen p) [s2] = r2) as [Hd1 Hd2].
  { simpl. rewrite Ha1, Ha2. unfold zlen. by rewrite Nat2Z.id, !drop_app_length, !app_nil_r. }
  assert (exists seg1 seg2, aggregate_lead [] 0 [s1] [s2]
      = (seg_unless_empty AS_SEQUENCE p, zlen p, seg1, seg2) /\
    rest_from (zlen p) seg1 = r1 /\ rest_from (zlen p) seg2 = r2) as (seg1 & seg2 & Hl & <- & <-).
  { cbn [aggregate_lead]. rewrite Ha1, Ha2, match_len_prefix by done. simpl negb.
    simpl app. rewrite lead_out, <- !zlen_asns, Ha1, Ha2. case_test; [by exists [s1], [s2]|].
    exists [], []. split; [done|]. unneg. zify_bool.
    autorewrite with zlen in *. unfold zlen in *.
    destruct r1, r2; simpl in *; (done || lia). }
  apply (aggregate_from (set_segments aspath_new [s1]) (set_segments aspath_new [s2]) _ _ _ _ Hl); zlen.
Qed.

Lemma aggregate_sequences_witness :
  exists q, aspath_aggregate (set_segments aspath_new [Seg AS_SEQUENCE ([1; 2] ++ [9; 4])])
                             (set_segments aspath_new [Seg AS_SEQUENCE ([1; 2] ++ [5; 9; 6])]) = Ret q /\
    in_sync q /\
    path_segments q = [Seg AS_SEQUENCE [1; 2]; Seg AS_SET [4; 5; 6; 9]].
Proof. apply (aggregate_sequences [1; 2] [9; 4] [5; 9; 6]); [by_eval|by intros ? [= <-]]. Defined.

(** When the first path is the second one with a further segment, the
    variable [match] keeps the length of the shared sequence and that many
    leading AS numbers of the further segment are left out of the aggregate:
    a route through them is no longer seen by the loop check. *)
Theorem aggregate_skips_further_segment l s :
  l <> [] -> zlen l + zlen (seg_as s) < 2 ^ 16 ->
  exists q, aspath_aggregate (set_segments aspath_new [Seg AS_SEQUENCE l; s])
                             (set_segments aspath_new [Seg AS_SEQUENCE l]) = Ret q /\
    path_segments q = Seg AS_SEQUENCE l
      :: seg_unless_empty AS_SET (sort_uniq (drop (length l) (seg_as s))).
Proof.
  intros Hne Hlen. pose proof (zlen_nonneg l). pose proof (zlen_nonneg (seg_as s)).
  assert (Hl : aggregate_lead [] 0 [Seg AS_SEQUENCE l; s] [Seg AS_SEQUENCE l]
    = (seg_unless_empty AS_SEQUENCE l, zlen l, [s], [])).
  { cbn [aggregate_lead]. rewrite <- !zlen_asns, asns_id by (simpl; lia). simpl seg_as.
    pose proof (match_len_prefix l [] [] ltac:(done)) as Hm. pose proof (lead_out AS_SEQUENCE l []) as Ho.
    rewrite !app_nil_r in Hm, Ho. rewrite Hm, Z.min_id, !Z.eqb_refl. simpl app. simpl seg_type. cbn [negb orb]. rewrite Ho. done. }
  destruct (aggregate_from (set_segments aspath_new [Seg AS_SEQUENCE l; s])
              (set_segments aspath_new [Seg AS_SEQUENCE l]) _ _ _ _ Hl) as (q & Hq & _ & Hs).
  - lia.
  - simpl. rewrite app_nil_r, asns_id by lia. unfold zlen in *. rewrite length_drop. simpl. lia.
  - exists q. split; [done|]. rewrite Hs. simpl. rewrite !app_nil_r, asns_id by lia.
    unfold zlen. rewrite Nat2Z.id. by destruct l.
Qed.

Lemma aggregate_skips_further_segment_witness :
  exists q, aspath_aggregate (set_segments aspath_new [Seg AS_SEQUENCE [1; 2]; Seg AS_SET [3; 4; 5]])
                             (set_segments aspath_new [Seg AS_SEQUENCE [1; 2]]) = Ret q /\
    path_segments q = [Seg AS_SEQUENCE [1; 2]; Seg AS_SET [5]].
Proof. apply (aggregate_skips_further_segment [1; 2] (Seg AS_SET [3; 4; 5])); [done|by_eval]. Defined.
