(* ===== verification/AspathWire.v ===== *)
(** * bgpd/bgp_aspath.c: AS paths on the wire

    [assegments_parse], which reads untrusted octets of an AS_PATH attribute,
    and [aspath_put], which writes them, with two or four octets per AS
    number. *)
From stdpp Require Import base option list sorting gmap.
From Stdlib Require Import ZArith Lia.
From S2P Require Import Prelude Stream Aspath.

Definition AS_HEADER_SIZE : Z := 2.
Definition AS_VALUE_SIZE : Z := 4.
Definition AS16_VALUE_SIZE : Z := 2.

(** ** Parsing *)
Definition get_as (s : stream) (use32bit : bool) : res (Z * stream) :=
  if use32bit then stream_getl s else stream_getw s.

Fixpoint get_asns (n : nat) (s : stream) (use32bit : bool) : res (list Z * stream) :=
  match n with
  | O => Ret ([], s)
  | S n =>
      '(a, s) ← get_as s use32bit;
      '(l, s) ← get_asns n s use32bit;
      Ret (a :: l, s)
  end.

(** The [while (bytes < length)] loop, building the chain in reading order;
    [None] is the -1 result.  Every round adds at least four to [bytes], so
    [length] rounds are enough; lack of fuel is the [Abort] of the first
    branch, which [parse_loop_sound] excludes. *)
Fixpoint parse_loop (fuel : nat) (s : stream) (bytes length : Z) (use32bit : bool)
  (head : segments) : res (option segments * stream) :=
  match fuel with
  | O => Abort
  | S fuel =>
      if negb (bytes <? length) then Ret (Some head, s)
      else if length - bytes <=? AS_HEADER_SIZE then Ret (None, s)
      else
        '(type, s) ← stream_getc s;
        '(len, s) ← stream_getc s;
        let seg_size := ASSEGMENT_SIZE len use32bit in
        if (length <? bytes + seg_size) || (len =? 0) then Ret (None, s)
        else if negb (valid_type (Seg type [])) then Ret (None, s)
        else
          '(l, s) ← get_asns (Z.to_nat len) s use32bit;
          parse_loop fuel s (bytes + seg_size) length use32bit (head ++ [Seg type l])
  end.

Definition assegments_parse (s : stream) (length : Z) (use32bit : bool)
  : res (option segments * stream) :=
  if length =? 0 then Ret (Some [], s)
  else if (STREAM_READABLE s <? length) || (STREAM_READABLE s <? AS_HEADER_SIZE)
          || negb (length mod AS16_VALUE_SIZE =? 0)
  then Ret (None, s)
  else
    '(r, s) ← parse_loop (S (Z.to_nat length)) s 0 length use32bit [];
    match r with
    | None => Ret (None, s)
    | Some head => Ret (Some (assegment_normalise head), s)
    end.

(** ** Writing *)
Fixpoint put_asns (s : stream) (l : list Z) (use32bit : bool) : res stream :=
  match l with
  | [] => Ret s
  | a :: l =>
      '(_, s) ← (if use32bit then stream_putl s a
                 else if a <=? BGP_AS_MAX then stream_putw s a
                 else stream_putw s BGP_AS_TRANS);
      put_asns s l use32bit
  end.

(** [as_] is the array from the pointer passed on. *)
Definition assegment_data_put (s : stream) (as_ : list Z) (num : Z) (use32bit : bool) : res stream :=
  _ ← cassert (num <=? AS_SEGMENT_MAX);
  l ← zload as_ 0 num;
  put_asns s l use32bit.

Definition assegment_header_put (s : stream) (type length : Z) : res (Z * stream) :=
  _ ← cassert (length <=? AS_SEGMENT_MAX);
  '(_, s) ← stream_putc s type;
  lenp ← stream_get_endp s;
  '(_, s) ← stream_putc s length;
  Ret (lenp, s).

(** Overlength segments: [written] and [bytes] after the splitting loop. *)
Fixpoint put_overlength (fuel : nat) (s : stream) (seg : assegment) (written bytes : Z)
  (use32bit : bool) : res (Z * Z * stream) :=
  match fuel with
  | O => Abort
  | S fuel =>
      if negb (AS_SEGMENT_MAX <? seg_length seg - written) then Ret (written, bytes, s)
      else
        '(_, s) ← assegment_header_put s (seg_type seg) AS_SEGMENT_MAX;
        s ← assegment_data_put s (asns seg) AS_SEGMENT_MAX use32bit;
        let written := written + AS_SEGMENT_MAX in
        put_overlength fuel s seg written (bytes + ASSEGMENT_SIZE written use32bit) use32bit
  end.

(** The packing loop: what is left of the chain, and [asns_packed]. *)
Fixpoint put_packed (s : stream) (seg : assegment) (written lenp asns_packed : Z)
  (next : segments) (use32bit : bool) : res (segments * Z * stream) :=
  match next with
  | [] => Ret ([], asns_packed, s)
  | n :: next' =>
      if negb (segments_packable seg n) then Ret (next, asns_packed, s)
      else
        s ← assegment_data_put s (asns n) (seg_length n) use32bit;
        '(_, s) ← stream_putc_at s lenp (seg_length seg - written + seg_length n);
        put_packed s seg written lenp (asns_packed + seg_length n) next' use32bit
  end.

(** The loop over the segments; each round takes one off the chain, so its
    length is enough fuel. *)
Fixpoint put_segments (fuel : nat) (s : stream) (seg : segments) (bytes : Z) (use32bit : bool)
  : res (Z * stream) :=
  match fuel, seg with
  | S fuel, g :: next =>
      if negb (ASSEGMENT_SIZE (seg_length g) use32bit <=? STREAM_WRITEABLE s)
      then Ret (bytes, s)
      else
        '(written, bytes, s) ← put_overlength (S (Z.to_nat (seg_length g))) s g 0 bytes use32bit;
        '(lenp, s) ← assegment_header_put s (seg_type g) (seg_length g - written);
        s ← assegment_data_put s (drop (Z.to_nat written) (asns g)) (seg_length g - written) use32bit;
        '(next, packed, s) ← put_packed s g written lenp 0 next use32bit;
        put_segments fuel s next
          (bytes + ASSEGMENT_SIZE (seg_length g - written + packed) use32bit) use32bit
  | _, _ => Ret (bytes, s)
  end.

Definition aspath_put (s : stream) (seg : segments) (use32bit : bool) : res (Z * stream) :=
  match seg with
  | [] => Ret (0, s)
  | g :: _ =>
      if seg_length g =? 0 then Ret (0, s)
      else put_segments (length seg) s seg 0 use32bit
  end.

(** ** Wire format *)
Definition as_width (use32bit : bool) : nat := if use32bit then 4%nat else 2%nat.
Definition as_on_wire (use32bit : bool) (a : Z) : Z :=
  if use32bit then a else if a <=? BGP_AS_MAX then a else BGP_AS_TRANS.
Definition wire_asns (use32bit : bool) (l : list Z) : list Z :=
  concat (map (fun a => be_bytes (as_width use32bit) (as_on_wire use32bit a)) l).
Definition wire_seg (use32bit : bool) (s : assegment) : list Z :=
  u8 (seg_type s) :: u8 (zlen (seg_as s)) :: wire_asns use32bit (seg_as s).
Definition wire_path (use32bit : bool) (seg : segments) : list Z :=
  concat (map (wire_seg use32bit) seg).

(** Segments the wire can carry. *)
Definition wire_ok (s : assegment) : Prop :=
  valid_type s = true /\ 1 <= zlen (seg_as s) <= AS_SEGMENT_MAX /\ Forall is_u32 (seg_as s).

#[export] Instance wire_ok_dec s : Decision (wire_ok s).
Proof. unfold wire_ok. apply _. Defined.

Lemma zlen_wire_asns use32 l :
  zlen (wire_asns use32 l) = zlen l * Z.of_nat (as_width use32).
Proof.
  induction l as [|a l IH]; [done|]. unfold wire_asns in *. simpl.
  rewrite zlen_app, IH, zlen_cons. unfold zlen. rewrite be_bytes_length. lia.
Qed.

Lemma zlen_wire_seg use32 s :
  zlen (wire_seg use32 s) = ASSEGMENT_SIZE (zlen (seg_as s)) use32.
Proof.
  unfold wire_seg, ASSEGMENT_SIZE. rewrite !zlen_cons, zlen_wire_asns.
  destruct use32; simpl; lia.
Qed.

Lemma wire_asns_u8 use32 l : Forall is_u8 (wire_asns use32 l).
Proof.
  induction l as [|a l IH]; [constructor|]. unfold wire_asns in *. simpl.
  apply Forall_app_2; auto with quagga.
Qed.

Lemma wire_seg_u8 use32 s : Forall is_u8 (wire_seg use32 s).
Proof. unfold wire_seg. repeat constructor; auto using wire_asns_u8; apply u8_range. Qed.

#[export] Hint Resolve wire_asns_u8 wire_seg_u8 : quagga.

(** *** Writing appends the encoding *)
Lemma on_wire_range use32 a :
  is_u32 a -> 0 <= as_on_wire use32 a < 2 ^ (8 * Z.of_nat (as_width use32)).
Proof.
  unfold is_u32, as_on_wire, BGP_AS_MAX, BGP_AS_TRANS. destruct use32; simpl; [lia|].
  case_test; lia.
Qed.

Lemma put_as_append s use32 a :
  stream_wf s -> is_u32 a -> Z.of_nat (as_width use32) <= Stream.size s - endp s ->
  exists n, (if use32 then stream_putl s a
   else if a <=? BGP_AS_MAX then stream_putw s a else stream_putw s BGP_AS_TRANS)
  = Ret (n, append s (be_bytes (as_width use32) (as_on_wire use32 a))).
Proof.
  intros Hs Ha Hl. pose proof (on_wire_range use32 a Ha) as Hr. destruct use32; simpl in *.
  - rewrite stream_putl_append by (done || lia). rewrite u32_id by done. eauto.
  - unfold as_on_wire in *. case_test; rewrite stream_putw_append by (done || lia);
      rewrite u16_id by (split; lia); eauto.
Qed.

Lemma put_asns_append s l use32 :
  stream_wf s -> Forall is_u32 l ->
  zlen (wire_asns use32 l) <= Stream.size s - endp s ->
  put_asns s l use32 = Ret (append s (wire_asns use32 l)).
Proof.
  intros Hs Hl. revert s Hs. induction Hl as [|a l Ha Hl IH]; intros s Hs Hsize.
  - simpl. by rewrite append_nil.
  - pose proof (zlen_nonneg l).
    change (wire_asns use32 (a :: l)) with
      (be_bytes (as_width use32) (as_on_wire use32 a) ++ wire_asns use32 l) in *.
    pose proof (zlen_wire_asns use32 l) as Hw. rewrite zlen_app in Hsize.
    assert (Hb : zlen (be_bytes (as_width use32) (as_on_wire use32 a)) = Z.of_nat (as_width use32))
      by (unfold zlen; by rewrite be_bytes_length).
    assert (0 <= zlen (wire_asns use32 l)) by apply zlen_nonneg.
    simpl. destruct (put_as_append s use32 a Hs Ha) as (n & ->); [lia|]. cbn [mbind res_bind].
    rewrite IH; [|apply append_wf; [done|auto with quagga|lia]|simpl; lia].
    rewrite append_append; [done|done|simpl; lia..].
Qed.

Lemma header_put_append s type len :
  stream_wf s -> 0 <= len <= AS_SEGMENT_MAX -> 2 <= Stream.size s - endp s ->
  assegment_header_put s type len = Ret (endp s + 1, append s [u8 type; u8 len]).
Proof.
  intros Hs Hlen Hl. unfold assegment_header_put, cassert. case_test; [|lia]. cbn [mbind res_bind].
  rewrite stream_putc_append by (done || lia). cbn [mbind res_bind].
  assert (Hs1 : stream_wf (append s [u8 type]))
    by (apply append_wf; [done|auto with quagga|zlen]).
  unfold stream_get_endp. rewrite sane_ok by done. cbn [mbind res_bind].
  rewrite stream_putc_append by (done || (simpl; zlen)). cbn [mbind res_bind].
  rewrite append_append by done. done.
Qed.

Lemma data_put_append s l use32 :
  stream_wf s -> Forall is_u32 l -> zlen l <= AS_SEGMENT_MAX ->
  zlen (wire_asns use32 l) <= Stream.size s - endp s ->
  assegment_data_put s l (zlen l) use32 = Ret (append s (wire_asns use32 l)).
Proof.
  intros Hs Hl Hlen Hsize. unfold assegment_data_put, cassert. case_test; [|lia].
  cbn [mbind res_bind]. rewrite zload_all.
  cbn [mbind res_bind]. by apply put_asns_append.
Qed.

Lemma wire_ok_length s : wire_ok s -> seg_length s = zlen (seg_as s) /\ asns s = seg_as s.
Proof.
  intros (_ & H & _). unfold AS_SEGMENT_MAX in H.
  split; [apply seg_length_id|apply asns_id]; lia.
Qed.

(** *** Reading decodes the encoding *)
Lemma get_as_advance s use32 v r :
  stream_wf s -> 0 <= v < 2 ^ (8 * Z.of_nat (as_width use32)) ->
  unread s = be_bytes (as_width use32) v ++ r ->
  get_as s use32 = Ret (v, advance s (Z.of_nat (as_width use32))).
Proof.
  intros Hs Hv Hu. rewrite <- (be_roundtrip _ v Hv). destruct use32; unfold get_as.
  - exact (stream_getl_advance s _ _ _ _ r Hs Hu).
  - exact (stream_getw_advance s _ _ r Hs Hu).
Qed.

Lemma get_asns_advance s use32 l r :
  stream_wf s -> Forall is_u32 l -> unread s = wire_asns use32 l ++ r ->
  get_asns (length l) s use32
  = Ret (map (as_on_wire use32) l, advance s (zlen (wire_asns use32 l))).
Proof.
  intros Hs Hl. revert s Hs. induction Hl as [|a l Ha Hl IH]; intros s Hs Hu.
  - simpl. unfold advance. rewrite Z.add_0_r. by destruct s.
  - change (wire_asns use32 (a :: l)) with
      (be_bytes (as_width use32) (as_on_wire use32 a) ++ wire_asns use32 l) in *.
    rewrite <- app_assoc in Hu.
    assert (Hb : Z.of_nat (as_width use32) = zlen (be_bytes (as_width use32) (as_on_wire use32 a)))
      by (unfold zlen; by rewrite be_bytes_length).
    destruct (advance_over s _ _ _ Hs Hu Hb) as [Hs1 Hu1].
    cbn [length get_asns]. rewrite (get_as_advance s use32 _ _ Hs (on_wire_range _ _ Ha) Hu).
    cbn [mbind res_bind]. rewrite (IH _ Hs1 Hu1). cbn [mbind res_bind].
    rewrite advance_advance, zlen_app, Hb. done.
Qed.

(** Any octets are the encoding of some AS numbers. *)
Lemma wire_asns_decode use32 n bs :
  Forall is_u8 bs -> length bs = (n * as_width use32)%nat ->
  exists l, length l = n /\ Forall is_u32 l /\ map (as_on_wire use32) l = l /\
    bs = wire_asns use32 l.
Proof.
  revert bs. induction n as [|n IH]; intros bs Hb Hl.
  { destruct bs; [|done]. by exists []. }
  set (w := as_width use32) in *.
  destruct (IH (drop w bs)) as (l & Hn & Hu & Hm & E);
    [by apply Forall_drop|rewrite length_drop; lia|].
  set (v := be_value (take w bs)).
  assert (Ht : length (take w bs) = w) by (rewrite length_take; lia).
  pose proof (be_value_range (take w bs) (Forall_take _ _ _ Hb)) as Hv. fold v in Hv.
  unfold zlen in Hv. rewrite Ht in Hv.
  assert (is_u32 v /\ as_on_wire use32 v = v) as [Hv1 Hv2].
  { unfold w, is_u32, as_on_wire, BGP_AS_MAX in *. destruct use32; simpl in *; [lia|].
    split; [lia|]. case_test; [done|lia]. }
  exists (v :: l). split_and!; [simpl; lia|by constructor|simpl; congruence|].
  change (wire_asns use32 (v :: l)) with
    (be_bytes w (as_on_wire use32 v) ++ wire_asns use32 l).
  rewrite Hv2, <- E. rewrite <- Ht at 1. unfold v.
  rewrite be_bytes_value by (by apply Forall_take). by rewrite take_drop.
Qed.

Definition seg_on_wire (use32bit : bool) (s : assegment) : assegment :=
  Seg (seg_type s) (map (as_on_wire use32bit) (seg_as s)).

Lemma valid_type_u8 g : valid_type g = true -> u8 (seg_type g) = seg_type g.
Proof.
  unfold valid_type, AS_SET, AS_SEQUENCE, AS_CONFED_SEQUENCE, AS_CONFED_SET. intros H.
  apply u8_id. unfold is_u8.
  repeat (apply orb_true_iff in H as [H|H]); zify_bool; lia.
Qed.

(** The header of a round that has more than a header left. *)
Lemma parse_header s t n r :
  stream_wf s -> unread s = t :: n :: r ->
  stream_getc s = Ret (t, advance s 1) /\ stream_getc (advance s 1) = Ret (n, advance s 2) /\
  stream_wf (advance s 2) /\ unread (advance s 2) = r.
Proof.
  intros Hs Hu. destruct (advance_over s [t] (n :: r) 1 Hs Hu eq_refl) as [Hs1 Hu1].
  destruct (advance_over (advance s 1) [n] r 1 Hs1 Hu1 eq_refl) as [Hs2 Hu2].
  rewrite advance_advance in *. split_and!; auto.
  - by apply (stream_getc_advance s t (n :: r)).
  - rewrite (stream_getc_advance _ n r) by done. by rewrite advance_advance.
Qed.

(** One round on the encoding of a segment. *)
Lemma parse_segment fuel s g r bytes length use32 head :
  stream_wf s -> wire_ok g -> unread s = wire_seg use32 g ++ r ->
  bytes + ASSEGMENT_SIZE (zlen (seg_as g)) use32 <= length ->
  parse_loop (S fuel) s bytes length use32 head
  = parse_loop fuel (advance s (zlen (wire_seg use32 g)))
      (bytes + ASSEGMENT_SIZE (zlen (seg_as g)) use32) length use32
      (head ++ [seg_on_wire use32 g]).
Proof.
  intros Hs (Hty & Hrange & Hu) Hun Hfit. unfold AS_SEGMENT_MAX in Hrange.
  destruct (parse_header s _ _ _ Hs Hun) as (E1 & E2 & Hs2 & Hu2).
  assert (Hn : u8 (zlen (seg_as g)) = zlen (seg_as g)) by (apply u8_id; split; lia).
  assert (4 <= ASSEGMENT_SIZE (zlen (seg_as g)) use32)
    by (unfold ASSEGMENT_SIZE; destruct use32; lia).
  cbn [parse_loop]. unfold AS_HEADER_SIZE. case_test; [unneg; zify_bool; lia|].
  case_test; [lia|]. rewrite E1. cbn [mbind res_bind]. rewrite E2. cbn [mbind res_bind].
  rewrite Hn, valid_type_u8 by done. case_test.
  { apply orb_true_iff in Heqb1 as []; zify_bool; lia. }
  replace (valid_type (Seg (seg_type g) [])) with (valid_type g) by done. rewrite Hty. simpl negb.
  cbv iota.
  replace (Z.to_nat (zlen (seg_as g))) with (Datatypes.length (seg_as g)) by (unfold zlen; lia).
  rewrite (get_asns_advance _ _ _ _ Hs2 Hu Hu2). cbn [mbind res_bind].
  rewrite advance_advance. unfold wire_seg. rewrite !zlen_cons.
  by replace (1 + (1 + zlen (wire_asns use32 (seg_as g))))
    with (2 + zlen (wire_asns use32 (seg_as g))) by lia.
Qed.

Lemma wire_path_cons use32 g raw :
  wire_path use32 (g :: raw) = wire_seg use32 g ++ wire_path use32 raw.
Proof. done. Qed.

Lemma advance_0 s : advance s 0 = s.
Proof. unfold advance. rewrite Z.add_0_r. by destruct s. Qed.

Lemma parse_loop_complete raw : forall fuel s r bytes length use32 head,
  stream_wf s -> Forall wire_ok raw -> unread s = wire_path use32 raw ++ r ->
  length = bytes + zlen (wire_path use32 raw) -> (Datatypes.length raw < fuel)%nat ->
  parse_loop fuel s bytes length use32 head
  = Ret (Some (head ++ map (seg_on_wire use32) raw), advance s (zlen (wire_path use32 raw))).
Proof.
  induction raw as [|g raw IH]; intros fuel s r bytes length use32 head Hs Hw Hu Hlen Hf;
    destruct fuel as [|fuel]; try (simpl in Hf; lia).
  - cbn [parse_loop map]. change (zlen (wire_path use32 [])) with 0 in *.
    case_test; [|unneg; zify_bool; lia]. by rewrite app_nil_r, advance_0.
  - apply Forall_cons in Hw as [Hg Hw]. rewrite wire_path_cons, zlen_app in *.
    rewrite <- app_assoc in Hu. pose proof (zlen_nonneg (wire_path use32 raw)).
    pose proof (zlen_wire_seg use32 g).
    rewrite (parse_segment fuel s g (wire_path use32 raw ++ r)) by (done || lia).
    destruct (advance_over s _ _ _ Hs Hu eq_refl) as [Hs1 Hu1].
    rewrite (IH fuel _ r _ length use32 _ Hs1 Hw Hu1) by (simpl in *; lia).
    by rewrite advance_advance, <- app_assoc.
Qed.

(** A header that passes the checks is followed by the encoding it announces. *)
Lemma decode_segment use32 t n r :
  Forall is_u8 (t :: n :: r) -> valid_type (Seg t []) = true -> n <> 0 ->
  ASSEGMENT_SIZE n use32 <= 2 + zlen r ->
  exists g r', wire_ok g /\ seg_on_wire use32 g = g /\ zlen (seg_as g) = n /\
    t :: n :: r = wire_seg use32 g ++ r'.
Proof.
  intros Hb Ht Hn Hsize. apply Forall_cons in Hb as [Hbt Hb]. apply Forall_cons in Hb as [Hbn Hb].
  unfold is_u8 in *.
  assert (Hw : ASSEGMENT_SIZE n use32 = 2 + Z.of_nat (Z.to_nat n * as_width use32))
    by (unfold ASSEGMENT_SIZE; destruct use32; simpl; lia).
  set (k := (Z.to_nat n * as_width use32)%nat) in *. unfold zlen in Hsize.
  destruct (wire_asns_decode use32 (Z.to_nat n) (take k r)) as (l & Hl & Hu & Hm & E);
    [by apply Forall_take|rewrite length_take; lia|].
  exists (Seg t l), (drop k r). assert (zlen l = n) as Hzl by (unfold zlen; lia). split_and!.
  - split; [done|split; [|done]]. simpl. unfold AS_SEGMENT_MAX. lia.
  - unfold seg_on_wire. simpl. by rewrite Hm.
  - done.
  - unfold wire_seg. simpl. rewrite Hzl, !u8_id by done. by rewrite <- E, take_drop.
Qed.

(** The loop on any octets: it ends, and accepts only encodings. *)
Lemma parse_loop_sound fuel s bytes length use32 head :
  stream_wf s -> 0 <= bytes <= length -> length - bytes <= zlen (unread s) ->
  (Z.to_nat (length - bytes) < fuel)%nat ->
  exists r s', parse_loop fuel s bytes length use32 head = Ret (r, s') /\ stream_wf s' /\
    match r with
    | Some segs => exists raw, segs = head ++ raw /\ Forall wire_ok raw /\
        map (seg_on_wire use32) raw = raw /\ s' = advance s (length - bytes) /\
        take (Z.to_nat (length - bytes)) (unread s) = wire_path use32 raw
    | None => exists k, 0 <= k <= length - bytes /\ s' = advance s k
    end.
Proof.
  revert s bytes head. induction fuel as [|fuel IH]; intros s bytes head Hs Hb Hl Hf; [lia|].
  destruct (bytes <? length) eqn:E; zify_bool.
  2: { exists (Some head), s. simpl. rewrite (proj2 (Z.ltb_ge _ _) E). split_and!; [done..|].
       replace (length - bytes) with 0 by lia. exists [].
       rewrite app_nil_r, advance_0. split_and!; done. }
  destruct (length - bytes <=? AS_HEADER_SIZE) eqn:E2.
  { exists None, s. simpl. rewrite (proj2 (Z.ltb_lt _ _) E), E2. simpl. split_and!; [done..|].
    exists 0. rewrite advance_0. split; [lia|done]. }
  zify_bool. unfold AS_HEADER_SIZE in *. pose proof (unread_u8 s Hs) as Hu8.
  destruct (unread s) as [|t [|n r]] eqn:Hu; [autorewrite with zlen in Hl; lia..|].
  destruct (parse_header s t n r Hs Hu) as (E3 & E4 & Hs2 & _). autorewrite with zlen in Hl.
  destruct ((length <? bytes + ASSEGMENT_SIZE n use32) || (n =? 0)
            || negb (valid_type (Seg t []))) eqn:E5.
  { exists None, (advance s 2). cbn [parse_loop]. unfold AS_HEADER_SIZE.
    rewrite (proj2 (Z.ltb_lt _ _) E), (proj2 (Z.leb_gt _ _) E2). cbn [negb].
    rewrite E3. cbn [mbind res_bind]. rewrite E4. cbn [mbind res_bind].
    split_and!; [|done|exists 2; split; [lia|done]].
    apply orb_true_iff in E5 as [->| ->]; [done|]. by case_test. }
  apply orb_false_iff in E5 as [E5 E6]. unneg. zify_bool.
  destruct (decode_segment use32 t n r) as (g & r' & Hg & Hgw & Hn & Ht); [done..|lia|].
  rewrite Ht in Hu. pose proof (zlen_wire_seg use32 g) as Hz. rewrite Hn in Hz.
  assert (4 <= ASSEGMENT_SIZE n use32).
  { destruct Hg as (_ & Hg & _). unfold ASSEGMENT_SIZE. destruct use32; lia. }
  rewrite (parse_segment fuel s g r') by (rewrite ?Hn; done || lia). rewrite Hgw, Hn, Hz.
  destruct (advance_over s _ _ _ Hs Hu eq_refl) as [Hs1 Hu1]. rewrite Hz in *.
  pose proof (f_equal zlen Ht) as Hzt. rewrite zlen_app, !zlen_cons in Hzt.
  destruct (IH (advance s (ASSEGMENT_SIZE n use32)) (bytes + ASSEGMENT_SIZE n use32)
              (head ++ [g])) as (x & s' & -> & Hs' & Hx); [done|lia|rewrite Hu1; lia|lia|].
  exists x, s'. split_and!; [done..|]. destruct x as [segs|].
  - destruct Hx as (raw & -> & Hw & Hm & -> & Hraw). exists (g :: raw).
    rewrite <- app_assoc. split_and!; [done|by constructor|simpl; by rewrite Hgw, Hm| |].
    + rewrite advance_advance. f_equal. lia.
    + rewrite Ht, wire_path_cons, <- Hraw, Hu1, take_app. unfold zlen in Hz. f_equal.
      * apply take_ge. lia.
      * f_equal. lia.
  - destruct Hx as (k & Hk & ->). exists (ASSEGMENT_SIZE n use32 + k).
    rewrite advance_advance. split; [lia|done].
Qed.

Lemma wire_path_size use32 raw :
  Forall wire_ok raw ->
  2 * total_asns raw <= zlen (wire_path use32 raw) /\ zlen (wire_path use32 raw) mod 2 = 0 /\
  (raw <> [] -> 4 <= zlen (wire_path use32 raw)) /\ Forall (fun g => seg_as g <> []) raw.
Proof.
  induction 1 as [|g raw Hg Hr (IH1 & IH2 & _ & IH4)]; [done|].
  rewrite wire_path_cons, zlen_app, zlen_wire_seg, total_asns_cons.
  destruct Hg as (_ & Hg & _). pose proof (zlen_nonneg (wire_path use32 raw)).
  assert (ASSEGMENT_SIZE (zlen (seg_as g)) use32 mod 2 = 0 /\
          2 + 2 * zlen (seg_as g) <= ASSEGMENT_SIZE (zlen (seg_as g)) use32) as [Hm Hsz].
  { unfold ASSEGMENT_SIZE. split; [|destruct use32; lia].
    destruct use32; [replace (_ + _) with ((1 + zlen (seg_as g) * 2) * 2) by lia
                    |replace (_ + _) with ((1 + zlen (seg_as g)) * 2) by lia]; apply Z.mod_mul; lia. }
  split_and!; [lia| |lia|constructor; [|done]; destruct (seg_as g); [rewrite zlen_nil in Hg; lia|done]].
  rewrite Zplus_mod, Hm, IH2. done.
Qed.

Lemma wire_ok_path_wf use32 raw :
  Forall wire_ok raw -> zlen (wire_path use32 raw) < 2 ^ 16 -> path_wf raw.
Proof.
  intros Hw Hl. destruct (wire_path_size use32 raw Hw) as (H1 & _ & _ & H4).
  split; [done|]. pose proof (total_asns_nonneg raw). lia.
Qed.

Lemma wire_path_length use32 raw :
  Forall wire_ok raw -> Z.of_nat (length raw) <= zlen (wire_path use32 raw).
Proof.
  induction 1 as [|g raw Hg Hr IH]; [done|].
  rewrite wire_path_cons, zlen_app, zlen_wire_seg. destruct Hg as (_ & Hg & _).
  unfold ASSEGMENT_SIZE. simpl length. destruct use32; lia.
Qed.

(** Parsing the encoding of segments the wire can carry. *)
Lemma assegments_parse_wire s raw r use32 :
  stream_wf s -> Forall wire_ok raw -> unread s = wire_path use32 raw ++ r ->
  assegments_parse s (zlen (wire_path use32 raw)) use32
  = Ret (Some (assegment_normalise (map (seg_on_wire use32) raw)),
         advance s (zlen (wire_path use32 raw))).
Proof.
  intros Hs Hw Hu. unfold assegments_parse.
  destruct raw as [|g raw0] eqn:Eraw; [simpl; by rewrite advance_0|]. rewrite <- Eraw in *.
  destruct (wire_path_size use32 raw Hw) as (_ & Hmod & H4 & _).
  specialize (H4 ltac:(by rewrite Eraw)).
  destruct (unread_enough s _ _ Hs Hu) as [HR _]. pose proof (zlen_nonneg r).
  unfold AS_HEADER_SIZE, AS16_VALUE_SIZE. rewrite HR, Hmod. case_test; [lia|]. case_test.
  { apply orb_true_iff in Heqb0 as [Hb|Hb]; [|done].
    apply orb_true_iff in Hb as [Hb|Hb]; zify_bool; lia. }
  pose proof (wire_path_length use32 raw Hw).
  rewrite (parse_loop_complete raw _ s r) by (done || lia). done.
Qed.

(** The outcome of parsing, for any octets. *)
Lemma assegments_parse_cases s length use32 :
  stream_wf s -> 0 <= length < 2 ^ 16 ->
  exists r s', assegments_parse s length use32 = Ret (r, s') /\ stream_wf s' /\
    match r with
    | Some segs => s' = advance s length /\ canonical segs /\
        exists raw, Forall wire_ok raw /\ take (Z.to_nat length) (unread s) = wire_path use32 raw /\
          segs = assegment_normalise raw
    | None => forall raw rest, Forall wire_ok raw -> zlen (wire_path use32 raw) = length ->
        unread s <> wire_path use32 raw ++ rest
    end.
Proof.
  intros Hs Hlen. unfold assegments_parse at 1. case_test.
  { subst. exists (Some []), s. rewrite advance_0. split_and!; try done. by exists []. }
  case_test.
  { exists None, s. split_and!; [done..|]. intros raw rest Hw Hz Hu.
    destruct (wire_path_size use32 raw Hw) as (_ & Hmod & H4 & _).
    destruct (unread_enough s _ _ Hs Hu) as [HR _]. pose proof (zlen_nonneg rest).
    rewrite HR, Hz in Heqb0. rewrite Hz in Hmod. unfold AS16_VALUE_SIZE, AS_HEADER_SIZE in Heqb0.
    rewrite Hmod in Heqb0. destruct raw as [|g raw]; [by destruct Heqb|].
    specialize (H4 ltac:(done)). rewrite Hz in H4.
    apply orb_true_iff in Heqb0 as [Hb|Hb]; [|done].
    apply orb_true_iff in Hb as [Hb|Hb]; zify_bool; lia. }
  unneg. zify_bool. rewrite readable_wf, <- unread_len in * by done.
  destruct (parse_loop_sound (S (Z.to_nat length)) s 0 length use32 [])
    as (x & s' & E & Hs' & Hx); [done|lia|lia|lia|]. rewrite Z.sub_0_r in Hx.
  destruct x as [segs|].
  - rewrite E. cbn [mbind res_bind]. destruct Hx as (raw & -> & Hw & Hm & -> & Hraw).
    exists (Some (assegment_normalise raw)), (advance s length). split_and!; [done..| |by exists raw].
    apply canonical_normalise, (wire_ok_path_wf use32); [done|]. rewrite <- Hraw.
    unfold zlen in *. rewrite length_take. lia.
  - rewrite E. cbn [mbind res_bind]. exists None, s'. split_and!; [done..|].
    intros raw rest Hw Hz Hu. pose proof (wire_path_length use32 raw Hw).
    rewrite (parse_loop_complete raw _ s rest) in E by (done || lia). discriminate.
Qed.

(** C14. [assegments_parse] on the octets of any AS_PATH attribute returns: it
    never reads past the attribute, never trips an assertion of the stream and
    never loops.  It accepts exactly the octets that are the encoding of some
    segments (known types, at least one AS number each), consumes all of them,
    and its result is the normal form of these segments; everything else is
    rejected. *)
Theorem assegments_parse_exact s length use32 :
  stream_wf s -> 0 <= length < 2 ^ 16 ->
  exists r s', assegments_parse s length use32 = Ret (r, s') /\ stream_wf s' /\
    match r with
    | Some segs => s' = advance s length /\ canonical segs /\
        exists raw, Forall wire_ok raw /\ take (Z.to_nat length) (unread s) = wire_path use32 raw /\
          segs = assegment_normalise raw
    | None => forall raw rest, Forall wire_ok raw -> zlen (wire_path use32 raw) = length ->
        unread s <> wire_path use32 raw ++ rest
    end.
Proof. apply assegments_parse_cases. Qed.

Definition wire_sample : stream :=
  Stream 0 14 20 ([2; 2; 0; 1; 0; 2; 1; 3; 0; 9; 0; 7; 0; 9] ++ replicate 6 0).

Lemma assegments_parse_exact_witness :
  exists r s', assegments_parse wire_sample 14 false = Ret (r, s') /\ stream_wf s' /\
    match r with
    | Some segs => s' = advance wire_sample 14 /\ canonical segs /\
        exists raw, Forall wire_ok raw /\
          take 14 (unread wire_sample) = wire_path false raw /\ segs = assegment_normalise raw
    | None => forall raw rest, Forall wire_ok raw -> zlen (wire_path false raw) = 14 ->
        unread wire_sample <> wire_path false raw ++ rest
    end.
Proof.
  apply (assegments_parse_exact wire_sample 14 false); [|by_eval].
  unfold stream_wf. split_and!; by_eval.
Defined.

(** ** Segments longer than 255 AS numbers *)

(** What one round of the splitting loop writes. *)
Definition split_block (use32bit : bool) (seg : assegment) : list Z :=
  u8 (seg_type seg) :: 255 :: wire_asns use32bit (take 255 (seg_as seg)).

Lemma put_split_block s seg use32 :
  stream_wf s -> seg_wf seg -> 255 <= zlen (seg_as seg) ->
  zlen (split_block use32 seg) <= Stream.size s - endp s ->
  ('(_, s) ← assegment_header_put s (seg_type seg) AS_SEGMENT_MAX;
   assegment_data_put s (asns seg) AS_SEGMENT_MAX use32)
  = Ret (append s (split_block use32 seg)).
Proof.
  intros Hs Hwf Hlen Hroom. unfold split_block in *. rewrite !zlen_cons in Hroom.
  pose proof (zlen_nonneg (wire_asns use32 (take 255 (seg_as seg)))).
  rewrite header_put_append by (done || unfold AS_SEGMENT_MAX; lia). cbn [mbind res_bind].
  rewrite seg_wf_asns by done. destruct Hwf as [Hu _].
  unfold assegment_data_put, cassert. cbn [mbind res_bind AS_SEGMENT_MAX Z.leb Z.compare].
  assert (Hload : zload (seg_as seg) 0 255 = Ret (take 255 (seg_as seg))).
  { rewrite <- (take_drop 255 (seg_as seg)) at 1. apply zload_prefix.
    unfold zlen in *. rewrite length_take. lia. }
  change AS_SEGMENT_MAX with 255. simpl Z.leb. cbn [mbind res_bind]. rewrite Hload. cbn [mbind res_bind].
  rewrite put_asns_append.
  - rewrite append_append by done. done.
  - apply append_wf; [done|auto with quagga|zlen].
  - by apply Forall_take.
  - simpl. zlen.
Qed.

Lemma split_block_wire use32 ty l :
  255 <= zlen l -> split_block use32 (Seg ty l) = wire_seg use32 (Seg ty (take 255 l)).
Proof.
  intros Hl. unfold split_block, wire_seg. simpl. do 2 f_equal.
  unfold zlen in *. rewrite length_take. by replace (Z.of_nat (255 `min` length l)) with 255 by lia.
Qed.

(** [bytes] after [k] rounds of the splitting loop from [written = 0]. *)
Fixpoint split_count (k : nat) (use32bit : bool) : Z :=
  match k with
  | O => 0
  | S k' => split_count k' use32bit + ASSEGMENT_SIZE (255 * Z.of_nat k) use32bit
  end.

(** The splitting loop, [i] rounds done and [j] to come. *)
Lemma put_overlength_run b j : forall i fuel s seg r use32,
  stream_wf s -> seg_wf seg -> (j < fuel)%nat ->
  zlen (seg_as seg) = 255 * Z.of_nat (i + j) + r -> 1 <= r <= 255 ->
  Z.of_nat j * zlen (split_block use32 seg) <= Stream.size s - endp s ->
  put_overlength fuel s seg (255 * Z.of_nat i) (b + split_count i use32) use32
  = Ret (255 * Z.of_nat (i + j), b + split_count (i + j) use32,
         append s (concat (replicate j (split_block use32 seg)))).
Proof.
  induction j as [|j IH]; intros i fuel s seg r use32 Hs Hwf Hf Hlen Hr Hroom;
    (destruct fuel as [|fuel]; [lia|]); cbn [put_overlength];
    rewrite seg_length_id, Hlen by apply Hwf; unfold AS_SEGMENT_MAX at 1.
  - case_test; [|unneg; zify_bool; lia]. rewrite Nat.add_0_r. simpl. by rewrite append_nil.
  - case_test; [unneg; zify_bool; lia|].
    pose proof (zlen_nonneg (split_block use32 seg)).
    replace (Z.of_nat (S j) * zlen (split_block use32 seg))
      with (zlen (split_block use32 seg) + Z.of_nat j * zlen (split_block use32 seg)) in Hroom by lia.
    pose proof (put_split_block s seg use32 Hs Hwf ltac:(lia) ltac:(nia)) as Hblk.
    apply res_bind_Ret in Hblk as ([lp s1] & Eh & Ed). rewrite Eh. cbn [mbind res_bind].
    rewrite Ed. cbn [mbind res_bind].
    assert (Hs1 : stream_wf (append s (split_block use32 seg))).
    { apply append_wf; [done| |nia]. unfold split_block. constructor; [apply u8_range|].
      constructor; [by_eval|auto with quagga]. }
    replace (255 * Z.of_nat i + AS_SEGMENT_MAX) with (255 * Z.of_nat (S i))
      by (unfold AS_SEGMENT_MAX; lia).
    rewrite <- (Z.add_assoc b).
    change (split_count i use32 + ASSEGMENT_SIZE (255 * Z.of_nat (S i)) use32)
      with (split_count (S i) use32).
    rewrite (IH (S i) fuel _ seg r) by (done || lia || (simpl; nia)).
    rewrite append_append by done. by replace (S i + j)%nat with (i + S j)%nat by lia.
Qed.

Lemma split_count_excess k use32 :
  2 * split_count k use32
  = 2 * (Z.of_nat k * ASSEGMENT_SIZE 255 use32)
    + 255 * Z.of_nat (as_width use32) * (Z.of_nat k * (Z.of_nat k - 1)).
Proof.
  induction k as [|k IH]; [simpl; lia|]. cbn [split_count].
  unfold ASSEGMENT_SIZE in *. destruct use32; simpl as_width in *; nia.
Qed.

(** The blocks as segments on the wire. *)
Definition split_blocks (ty : Z) (l : list Z) (k : nat) : segments :=
  replicate k (Seg ty (take 255 l)) ++ [Seg ty (drop (255 * k) l)].

Lemma wire_split_blocks use32 ty l k :
  255 <= zlen l ->
  wire_path use32 (split_blocks ty l k)
  = concat (replicate k (split_block use32 (Seg ty l)))
    ++ wire_seg use32 (Seg ty (drop (255 * k) l)).
Proof.
  intros Hl. unfold split_blocks, wire_path. rewrite map_app, concat_app.
  rewrite split_block_wire by done. f_equal; [|simpl; by rewrite app_nil_r].
  clear Hl. set (b := Seg ty (take 255 l)). clearbody b. clear.
  by induction k as [|k IH]; simpl; [|rewrite IH].
Qed.

Lemma zlen_concat_replicate {A} k (b : list A) :
  zlen (concat (replicate k b)) = Z.of_nat k * zlen b.
Proof. induction k as [|k IH]; [done|]. simpl concat. rewrite zlen_app, IH. lia. Qed.

Lemma split_block_u8 use32 ty l k :
  Forall is_u8 (concat (replicate k (split_block use32 (Seg ty l)))).
Proof.
  induction k as [|k IH]; [constructor|]. cbn [replicate concat]. apply Forall_app_2; [|done].
  constructor; [apply u8_range|]. constructor; [by_eval|auto with quagga].
Qed.

(** ** What [aspath_put] writes

    A segment it can write: AS_SEQUENCE segments are cut once, the others must
    fit one block. *)
Definition put_ok (s : assegment) : Prop :=
  valid_type s = true /\ Forall is_u32 (seg_as s) /\
  1 <= zlen (seg_as s) <= (if seg_type s =? AS_SEQUENCE then 510 else 255).

#[export] Instance put_ok_dec s : Decision (put_ok s).
Proof. unfold put_ok. apply _. Defined.

(** The blocks on the wire: an overlength segment in two, a pair of short
    AS_SEQUENCE segments in one. *)
Fixpoint wire_blocks (seg : segments) : segments :=
  match seg with
  | [] => []
  | g :: rest =>
      if AS_SEGMENT_MAX <? zlen (seg_as g) then
        Seg (seg_type g) (take 255 (seg_as g)) :: Seg (seg_type g) (drop 255 (seg_as g))
          :: wire_blocks rest
      else match rest with
           | n :: r =>
               if segments_packable g n
               then Seg (seg_type g) (seg_as g ++ seg_as n) :: wire_blocks r
               else g :: wire_blocks rest
           | [] => [g]
           end
  end.

(** No segment is packed with more than one of those after it. *)
Fixpoint packs_once (seg : segments) : bool :=
  match seg with
  | g :: (n :: r) as rest =>
      if segments_packable g n
      then match r with m :: _ => negb (segments_packable g m) | [] => true end && packs_once r
      else packs_once rest
  | _ => true
  end.

Lemma put_ok_wf s : put_ok s -> seg_wf s /\ 1 <= zlen (seg_as s) <= 510.
Proof. intros (_ & Hu & Hl). split; [split; [done|]|]; case_match; lia. Qed.

(** Induction over the rounds of [put_segments]. *)
Lemma blocks_ind (P : segments -> Prop) :
  P [] ->
  (forall g rest, AS_SEGMENT_MAX < zlen (seg_as g) -> P rest -> P (g :: rest)) ->
  (forall g n r, zlen (seg_as g) <= AS_SEGMENT_MAX -> segments_packable g n = true -> P r ->
     P (g :: n :: r)) ->
  (forall g rest, zlen (seg_as g) <= AS_SEGMENT_MAX ->
     match rest with n :: _ => segments_packable g n = false | [] => True end -> P rest ->
     P (g :: rest)) ->
  forall seg, P seg.
Proof.
  intros H0 H1 H2 H3 seg. remember (length seg) as k eqn:Hk.
  revert seg Hk. induction k as [k IH] using lt_wf_ind. intros seg ->.
  destruct seg as [|g rest]; [done|]. destruct (Z.ltb_spec AS_SEGMENT_MAX (zlen (seg_as g))).
  { apply H1; [done|]. apply (IH (length rest)); [simpl; lia|done]. }
  destruct rest as [|n r]; [apply H3; [done|done|apply H0]|].
  destruct (segments_packable g n) eqn:E.
  - apply H2; [done|done|]. apply (IH (length r)); [simpl; lia|done].
  - apply H3; [done|done|]. apply (IH (length (n :: r))); [simpl; lia|done].
Qed.

Lemma wire_blocks_long g rest : AS_SEGMENT_MAX < zlen (seg_as g) ->
  wire_blocks (g :: rest) = Seg (seg_type g) (take 255 (seg_as g))
    :: Seg (seg_type g) (drop 255 (seg_as g)) :: wire_blocks rest.
Proof. intros H. cbn [wire_blocks]. by rewrite (proj2 (Z.ltb_lt _ _) H). Qed.

Lemma wire_blocks_packed g n r : zlen (seg_as g) <= AS_SEGMENT_MAX -> segments_packable g n = true ->
  wire_blocks (g :: n :: r) = Seg (seg_type g) (seg_as g ++ seg_as n) :: wire_blocks r.
Proof. intros H E. cbn [wire_blocks]. by rewrite (proj2 (Z.ltb_ge _ _) H), E. Qed.

Lemma wire_blocks_one g rest : zlen (seg_as g) <= AS_SEGMENT_MAX ->
  match rest with n :: _ => segments_packable g n = false | [] => True end ->
  wire_blocks (g :: rest) = g :: wire_blocks rest.
Proof.
  intros H E. cbn [wire_blocks]. rewrite (proj2 (Z.ltb_ge _ _) H).
  destruct rest as [|n r]; [done|]. by rewrite E.
Qed.

Lemma packs_once_inv g rest : packs_once (g :: rest) = true ->
  match rest with
  | n :: r => if segments_packable g n
              then packs_once r = true /\
                   match r with m :: _ => segments_packable g m = false | [] => True end
              else packs_once rest = true
  | [] => True
  end.
Proof.
  destruct rest as [|n r]; [done|]. cbn [packs_once]. destruct (segments_packable g n); [|done].
  intros [H1 H2]%andb_true_iff. split; [done|]. destruct r; [done|]. by apply negb_true_iff.
Qed.

(** A packable pair: two AS_SEQUENCE segments of at most 255 AS numbers in all. *)
Lemma packable_inv g n : seg_wf g -> seg_wf n -> segments_packable g n = true ->
  seg_type n = seg_type g /\ seg_type g = AS_SEQUENCE /\
  zlen (seg_as g) + zlen (seg_as n) <= AS_SEGMENT_MAX.
Proof.
  intros [_ Hg] [_ Hn]. unfold segments_packable, types_packable.
  rewrite !seg_length_id by done. intros [[H1 H2]%andb_true_iff H3]%andb_true_iff. zify_bool.
  split; [congruence|]. by split.
Qed.

Lemma not_packable_long g n : seg_wf g -> seg_wf n -> AS_SEGMENT_MAX < zlen (seg_as g) ->
  segments_packable g n = false.
Proof.
  intros Hg Hn Hl. destruct (segments_packable g n) eqn:E; [|done].
  destruct (packable_inv g n Hg Hn E) as (_ & _ & ?). pose proof (zlen_nonneg (seg_as n)). lia.
Qed.

(** The blocks can be read back, and say what the path says. *)
Lemma wire_blocks_ok seg : Forall put_ok seg -> Forall wire_ok (wire_blocks seg).
Proof.
  induction seg as [|g rest Hl IH|g n r Hl E IH|g rest Hl E IH] using blocks_ind; intros Hw; [done|..];
    apply Forall_cons in Hw as [Hg Hw]; assert (Hg' := Hg); destruct Hg' as (Hty & Hu & Hlen);
    unfold AS_SEGMENT_MAX in *.
  - rewrite wire_blocks_long by done.
    assert (seg_type g = AS_SEQUENCE /\ zlen (seg_as g) <= 510) as [_ Hlen'].
    { destruct (Z.eqb_spec (seg_type g) AS_SEQUENCE); [by split; [|lia]|lia]. }
    repeat constructor; auto; simpl; try (by apply Forall_take); try (by apply Forall_drop);
      unfold AS_SEGMENT_MAX, zlen in *; rewrite ?length_take, ?length_drop; lia.
  - apply Forall_cons in Hw as [Hn Hw]. rewrite wire_blocks_packed by done.
    destruct (packable_inv g n) as (_ & _ & Hs); [by apply put_ok_wf..|done|].
    constructor; [|by apply IH]. destruct Hn as (_ & Hun & _). split; [done|]. simpl.
    pose proof (zlen_nonneg (seg_as n)). rewrite zlen_app. unfold AS_SEGMENT_MAX in *.
    split; [destruct (_ =? _); lia|]. by apply Forall_app_2.
  - rewrite wire_blocks_one by done. constructor; [|by apply IH].
    split; [done|]. split; [unfold AS_SEGMENT_MAX; destruct (_ =? _); lia|done].
Qed.

Lemma wire_items_app a b : items (a ++ b) = items a ++ items b.
Proof. unfold items. by rewrite map_app, concat_app. Qed.

Lemma items_hops ty l k : ty = AS_SEQUENCE -> zlen l < 2 ^ 16 -> zlen k < 2 ^ 16 ->
  zlen (l ++ k) < 2 ^ 16 ->
  items_of (Seg ty (l ++ k)) = items_of (Seg ty l) ++ items_of (Seg ty k).
Proof.
  intros -> Hl Hk Hlk. unfold items_of. cbn [seg_type]. rewrite Z.eqb_refl, !asns_id by done.
  cbn [seg_as]. apply map_app.
Qed.

Lemma wire_blocks_items seg : Forall put_ok seg -> items (wire_blocks seg) = items seg.
Proof.
  induction seg as [|g rest Hl IH|g n r Hl E IH|g rest Hl E IH] using blocks_ind; intros Hw; [done|..];
    apply Forall_cons in Hw as [Hg Hw].
  - rewrite wire_blocks_long, !items_cons, IH by done. destruct Hg as (_ & _ & Hlen).
    unfold AS_SEGMENT_MAX in *. destruct (Z.eqb_spec (seg_type g) AS_SEQUENCE) as [Hty|]; [|lia].
    rewrite app_assoc, <- items_hops; rewrite ?take_drop; try done;
      try (by destruct g); unfold zlen in *; rewrite ?length_take, ?length_drop; lia.
  - apply Forall_cons in Hw as [Hn Hw]. rewrite wire_blocks_packed, !items_cons, IH, app_assoc by done.
    destruct (packable_inv g n) as (Hty & Hseq & Hs); [by apply put_ok_wf..|done|].
    apply put_ok_wf in Hg as [[_ Hg] _], Hn as [[_ Hn] _].
    unfold AS_SEGMENT_MAX in *. rewrite items_hops by (done || rewrite zlen_app; lia).
    f_equal. destruct g, n. simpl in *. by rewrite Hty.
  - by rewrite wire_blocks_one, !items_cons, IH.
Qed.

Lemma map_wire_blocks use32 seg :
  map (seg_on_wire use32) (wire_blocks seg) = wire_blocks (map (seg_on_wire use32) seg).
Proof.
  assert (Hz : forall s, zlen (seg_as (seg_on_wire use32 s)) = zlen (seg_as s)).
  { intros s. unfold zlen. simpl. by rewrite length_map. }
  assert (Hp : forall g n, segments_packable (seg_on_wire use32 g) (seg_on_wire use32 n)
                           = segments_packable g n).
  { intros g n. unfold segments_packable, seg_length, types_packable. by rewrite !Hz. }
  induction seg as [|g rest Hl IH|g n r Hl E IH|g rest Hl E IH] using blocks_ind; [done|..];
    cbn [map].
  - rewrite !wire_blocks_long by (rewrite ?Hz; done). cbn [map]. rewrite IH. unfold seg_on_wire.
    cbn [seg_type seg_as]. by rewrite firstn_map, skipn_map.
  - rewrite !wire_blocks_packed by (rewrite ?Hz, ?Hp; done). cbn [map]. rewrite IH.
    unfold seg_on_wire. cbn [seg_type seg_as]. by rewrite map_app.
  - rewrite (wire_blocks_one g) by done. rewrite (wire_blocks_one (seg_on_wire use32 g)).
    + cbn [map]. by rewrite IH.
    + by rewrite Hz.
    + destruct rest as [|n r]; [done|]. cbn [map]. by rewrite Hp.
Qed.

Lemma put_ok_on_wire use32 seg : Forall put_ok seg -> Forall put_ok (map (seg_on_wire use32) seg).
Proof.
  induction 1 as [|g r (Hty & Hu & Hl) _ IH]; [done|]. constructor; [|done]. split; [done|].
  split; [|unfold zlen in *; simpl; by rewrite length_map].
  simpl. clear -Hu. induction Hu as [|a l Ha _ IH]; [constructor|]. constructor; [|done].
  unfold is_u32, as_on_wire, BGP_AS_MAX, BGP_AS_TRANS in *.
  destruct use32; [done|]. destruct (a <=? 65535) eqn:E; lia.
Qed.

Lemma on_wire_4 seg : map (seg_on_wire true) seg = seg.
Proof.
  induction seg as [|[ty l] r IH]; [done|]. simpl. rewrite IH. unfold seg_on_wire. simpl.
  by rewrite map_id.
Qed.

(** The normal form of what is read back. *)
Lemma wire_blocks_normal use32 seg : Forall put_ok seg -> total_asns seg < 2 ^ 16 ->
  assegment_normalise (map (seg_on_wire use32) (wire_blocks seg))
  = assegment_normalise (map (seg_on_wire use32) seg).
Proof.
  intros Hw Ht. rewrite map_wire_blocks. set (sg := map (seg_on_wire use32) seg).
  assert (Hs : Forall put_ok sg) by (by apply put_ok_on_wire).
  assert (Hwf : forall x, Forall wire_ok x -> Forall (fun s => seg_as s <> []) x).
  { intros x Hx. eapply Forall_impl; [exact Hx|]. intros s (_ & Hl & _) E. rewrite E in Hl.
    unfold zlen in Hl. simpl in Hl. lia. }
  assert (Hne : Forall (fun s => seg_as s <> []) sg).
  { eapply Forall_impl; [exact Hs|]. intros s (_ & _ & Hl) E. rewrite E in Hl.
    unfold zlen in Hl. simpl in Hl. lia. }
  assert (Hsum : forall x, total_asns (wire_blocks x) = total_asns x).
  { intros x. induction x as [|g rest Hl IH|g n r Hl E IH|g rest Hl E IH] using blocks_ind; [done|..].
    - rewrite wire_blocks_long, !total_asns_cons, IH by done. cbn [seg_as].
      unfold AS_SEGMENT_MAX, zlen in *. rewrite length_take, length_drop. lia.
    - rewrite wire_blocks_packed, !total_asns_cons, IH by done. cbn [seg_as]. rewrite zlen_app. lia.
    - by rewrite wire_blocks_one, !total_asns_cons, IH. }
  assert (Htot : total_asns sg = total_asns seg).
  { unfold sg. clear. induction seg as [|g r IH]; [done|]. cbn [map].
    rewrite !total_asns_cons, IH. unfold zlen. simpl. by rewrite length_map. }
  apply canonical_unique; [apply canonical_normalise..|].
  - split; [apply Hwf, wire_blocks_ok, Hs|by rewrite Hsum, Htot].
  - split; [exact Hne|by rewrite Htot].
  - rewrite !items_normalise by (rewrite ?Hsum, Htot; lia). by apply wire_blocks_items.
Qed.

(** *** Writing the blocks *)
Lemma putc_at_append s a x b c :
  stream_wf s -> Forall is_u8 (a ++ x :: b) -> zlen (a ++ x :: b) <= Stream.size s - endp s ->
  stream_putc_at (append s (a ++ x :: b)) (endp s + zlen a) c
  = Ret (1, append s (a ++ u8 c :: b)).
Proof.
  intros Hs Hu Hl. assert (Hw := append_wf s _ Hs Hu Hl). unfold stream_putc_at.
  rewrite sane_ok by done. cbn [mbind res_bind]. assert (Hs' := Hs). destruct Hs' as (? & ? & ? & _).
  rewrite zlen_app, zlen_cons in Hl. pose proof (zlen_nonneg a). pose proof (zlen_nonneg b).
  unfold PUT_AT_VALID, GETP_VALID. rewrite u64_id by lia.
  assert (Hz : zlen (a ++ u8 c :: b) = zlen (a ++ x :: b)) by (rewrite !zlen_app, !zlen_cons; done).
  destruct (Z.leb_spec (endp s + zlen a + 1) (endp (append s (a ++ x :: b)))) as [|Hno];
    [|cbn [append endp] in Hno; rewrite zlen_app, zlen_cons in Hno; lia].
  cbn [negb append data]. rewrite <- app_assoc. cbn [app]. rewrite app_assoc.
  rewrite zput_app by (rewrite zlen_app, contents_len by done; lia). cbn [mbind res_bind].
  f_equal. f_equal. unfold append, set_data. cbn [getp endp size data].
  rewrite Hz, <- !app_assoc. done.
Qed.

Lemma wire_asns_app use32 l k : wire_asns use32 (l ++ k) = wire_asns use32 l ++ wire_asns use32 k.
Proof. unfold wire_asns. by rewrite map_app, concat_app. Qed.

Lemma asns_put_ok g : put_ok g -> seg_length g = zlen (seg_as g) /\ asns g = seg_as g.
Proof.
  intros [[_ Hl] _]%put_ok_wf. split; [by apply seg_length_id|by apply asns_id].
Qed.

(** Header and data of the last (or only) block of a segment. *)
Lemma put_block_end s ty l use32 :
  stream_wf s -> Forall is_u32 l -> zlen l <= AS_SEGMENT_MAX ->
  zlen (wire_seg use32 (Seg ty l)) <= Stream.size s - endp s ->
  assegment_header_put s ty (zlen l) = Ret (endp s + 1, append s [u8 ty; u8 (zlen l)]) /\
  assegment_data_put (append s [u8 ty; u8 (zlen l)]) l (zlen l) use32
  = Ret (append s (wire_seg use32 (Seg ty l))).
Proof.
  intros Hs Hu Hl Hroom. pose proof (zlen_nonneg l). pose proof (zlen_nonneg (wire_asns use32 l)).
  unfold wire_seg in Hroom. cbn [seg_type seg_as] in Hroom. rewrite !zlen_cons in Hroom.
  split; [apply header_put_append; done || lia|].
  assert (Hs1 : stream_wf (append s [u8 ty; u8 (zlen l)]))
    by (apply append_wf; [done|auto with quagga|zlen]).
  rewrite data_put_append by (done || (simpl; zlen)). by rewrite append_append.
Qed.

(** The packing loop takes no further segment. *)
Lemma put_packed_stop st g n written lenp packed rest use32 :
  match rest with m :: _ => segments_packable g m = false | [] => True end ->
  n = packed -> put_packed st g written lenp packed rest use32 = Ret (rest, n, st).
Proof. intros H ->. destruct rest as [|m r]; [done|]. cbn [put_packed]. by rewrite H. Qed.

(** The packing loop takes one segment: its AS numbers follow, and the length
    in the header is corrected. *)
Lemma put_packed_one s g n r use32 :
  stream_wf s -> put_ok g -> put_ok n -> segments_packable g n = true ->
  match r with m :: _ => segments_packable g m = false | [] => True end ->
  zlen (wire_seg use32 (Seg (seg_type g) (seg_as g ++ seg_as n))) <= Stream.size s - endp s ->
  put_packed (append s (wire_seg use32 g)) g 0 (endp s + 1) 0 (n :: r) use32
  = Ret (r, zlen (seg_as n), append s (wire_seg use32 (Seg (seg_type g) (seg_as g ++ seg_as n)))).
Proof.
  intros Hs Hg Hn E Hr Hroom. cbn [put_packed]. rewrite E. cbn [negb].
  destruct (asns_put_ok g Hg) as [Lg Ag], (asns_put_ok n Hn) as [Ln An].
  destruct (packable_inv g n) as (_ & _ & Hsum); [by apply put_ok_wf..|done|].
  destruct Hg as (_ & Hug & _), Hn as (_ & Hun & _).
  pose proof (zlen_nonneg (seg_as g)). pose proof (zlen_nonneg (seg_as n)).
  set (tl := wire_asns use32 (seg_as g) ++ wire_asns use32 (seg_as n)) in *.
  assert (Ew : wire_seg use32 (Seg (seg_type g) (seg_as g ++ seg_as n))
               = [u8 (seg_type g)] ++ u8 (zlen (seg_as g) + zlen (seg_as n)) :: tl).
  { unfold wire_seg. cbn [seg_type seg_as]. by rewrite zlen_app, wire_asns_app. }
  rewrite Ew in *. rewrite zlen_app, !zlen_cons, zlen_nil in Hroom.
  assert (Htl : zlen tl = zlen (wire_asns use32 (seg_as g)) + zlen (wire_asns use32 (seg_as n)))
    by (unfold tl; apply zlen_app).
  assert (Hg2 : zlen (wire_seg use32 g) = 2 + zlen (wire_asns use32 (seg_as g)))
    by (unfold wire_seg; rewrite !zlen_cons; lia).
  pose proof (zlen_nonneg (wire_asns use32 (seg_as n))).
  assert (Hs1 : stream_wf (append s (wire_seg use32 g)))
    by (apply append_wf; [done|auto with quagga|lia]).
  rewrite An, Ln, Lg, Z.sub_0_r.
  rewrite data_put_append; [|done|done| |cbn [append endp Stream.size]; lia].
  2: { clear -Hsum. unfold AS_SEGMENT_MAX in *. pose proof (zlen_nonneg (seg_as g)). lia. }
  cbn [mbind res_bind]. rewrite append_append by done.
  assert (Ea : wire_seg use32 g ++ wire_asns use32 (seg_as n)
               = [u8 (seg_type g)] ++ u8 (zlen (seg_as g)) :: tl) by done.
  rewrite Ea. change (endp s + 1) with (endp s + zlen [u8 (seg_type g)]).
  rewrite putc_at_append; [|done| |].
  - cbn [mbind res_bind]. by apply put_packed_stop.
  - repeat constructor; try apply u8_range. unfold tl. apply Forall_app_2; auto with quagga.
  - rewrite zlen_app, !zlen_cons, zlen_nil. lia.
Qed.

(** A segment cut in two: the splitting loop writes the first 255 AS numbers. *)
Lemma put_long s g use32 bytes :
  stream_wf s -> put_ok g -> AS_SEGMENT_MAX < zlen (seg_as g) ->
  zlen (wire_seg use32 (Seg (seg_type g) (take 255 (seg_as g)))) <= Stream.size s - endp s ->
  put_overlength (S (Z.to_nat (seg_length g))) s g 0 bytes use32
  = Ret (255, bytes + zlen (wire_seg use32 (Seg (seg_type g) (take 255 (seg_as g)))),
         append s (wire_seg use32 (Seg (seg_type g) (take 255 (seg_as g))))).
Proof.
  intros Hs Hg Hl Hroom. destruct (put_ok_wf g Hg) as [Hwf Hlen]. unfold AS_SEGMENT_MAX in Hl.
  rewrite <- split_block_wire in * by lia.
  replace (Seg (seg_type g) (seg_as g)) with g in * by (by destruct g).
  pose proof (put_overlength_run bytes 1 0 (S (Z.to_nat (seg_length g))) s g
                (zlen (seg_as g) - 255) use32 Hs Hwf) as E.
  destruct (asns_put_ok g Hg) as [Lg _]. rewrite Lg in *.
  specialize (E ltac:(lia) ltac:(lia) ltac:(lia) ltac:(lia)).
  cbn [split_count Nat.add replicate concat] in E. rewrite app_nil_r, Z.add_0_r in E.
  change (255 * Z.of_nat 0) with 0 in E. change (255 * Z.of_nat 1) with 255 in E.
  rewrite E, Z.add_0_l. do 2 f_equal. f_equal. f_equal.
  replace (split_block use32 g) with (split_block use32 (Seg (seg_type g) (seg_as g)))
    by (by destruct g).
  rewrite split_block_wire, zlen_wire_seg by lia. cbn [seg_as]. f_equal.
  unfold zlen in *. rewrite length_take. lia.
Qed.

Lemma wire_path_u8 use32 seg : Forall is_u8 (wire_path use32 seg).
Proof.
  induction seg as [|g r IH]; [constructor|]. rewrite wire_path_cons.
  apply Forall_app_2; auto with quagga.
Qed.

(** One block: header, AS numbers and the packing loop. *)
Lemma put_round s g next bytes use32 fuel blk packed rest :
  stream_wf s -> put_ok g -> zlen (seg_as g) <= AS_SEGMENT_MAX ->
  ASSEGMENT_SIZE (zlen (seg_as g)) use32 <= Stream.size s - endp s ->
  put_packed (append s (wire_seg use32 g)) g 0 (endp s + 1) 0 next use32
  = Ret (rest, packed, append s blk) ->
  ASSEGMENT_SIZE (zlen (seg_as g) + packed) use32 = zlen blk ->
  put_segments (S fuel) s (g :: next) bytes use32
  = put_segments fuel (append s blk) rest (bytes + zlen blk) use32.
Proof.
  intros Hs Hg Hl Hroom Hp Hz. destruct (asns_put_ok g Hg) as [Lg Ag].
  pose proof (zlen_nonneg (seg_as g)). unfold AS_SEGMENT_MAX in Hl.
  cbn [put_segments]. rewrite Lg, writeable_wf by done.
  rewrite (proj2 (Z.leb_le _ _) Hroom). cbn [negb put_overlength]. rewrite Lg.
  unfold AS_SEGMENT_MAX. rewrite (proj2 (Z.ltb_ge _ _)) by lia. cbn [negb mbind res_bind].
  rewrite Z.sub_0_r, Ag. cbn [Z.to_nat drop]. rewrite drop_0.
  destruct (put_block_end s (seg_type g) (seg_as g) use32) as [E1 E2];
    [done|by destruct Hg as (_ & ? & _)|unfold AS_SEGMENT_MAX; lia| |].
  { rewrite zlen_wire_seg. done. }
  replace (Seg (seg_type g) (seg_as g)) with g in * by (by destruct g).
  rewrite E1. cbn [mbind res_bind]. rewrite E2. cbn [mbind res_bind].
  rewrite Hp. cbn [mbind res_bind]. by rewrite Hz.
Qed.

(** A segment in two blocks. *)
Lemma put_round_long s g next bytes use32 fuel :
  stream_wf s -> put_ok g -> Forall put_ok next -> AS_SEGMENT_MAX < zlen (seg_as g) ->
  let b1 := wire_seg use32 (Seg (seg_type g) (take 255 (seg_as g))) in
  let b2 := wire_seg use32 (Seg (seg_type g) (drop 255 (seg_as g))) in
  zlen b1 + zlen b2 <= Stream.size s - endp s ->
  put_segments (S fuel) s (g :: next) bytes use32
  = put_segments fuel (append s (b1 ++ b2)) next (bytes + (zlen b1 + zlen b2)) use32.
Proof.
  intros Hs Hg Hnext Hl b1 b2 Hroom. destruct (asns_put_ok g Hg) as [Lg Ag].
  destruct (put_ok_wf g Hg) as [Hwf Hlen]. assert (Hl' := Hl). unfold AS_SEGMENT_MAX in Hl'.
  assert (zlen (take 255 (seg_as g)) = 255) as Ht by (unfold zlen in *; rewrite length_take; lia).
  assert (zlen (drop 255 (seg_as g)) = zlen (seg_as g) - 255) as Hd
    by (unfold zlen in *; rewrite length_drop; lia).
  assert (Z1 : zlen b1 = ASSEGMENT_SIZE 255 use32)
    by (unfold b1; rewrite zlen_wire_seg; cbn [seg_as]; by rewrite Ht).
  assert (Z2 : zlen b2 = ASSEGMENT_SIZE (zlen (seg_as g) - 255) use32)
    by (unfold b2; rewrite zlen_wire_seg; cbn [seg_as]; by rewrite Hd).
  assert (ASSEGMENT_SIZE (zlen (seg_as g)) use32 <= zlen b1 + zlen b2)
    by (rewrite Z1, Z2; unfold ASSEGMENT_SIZE; destruct use32; lia).
  pose proof (zlen_nonneg b2).
  cbn [put_segments]. rewrite Lg, writeable_wf by done.
  rewrite (proj2 (Z.leb_le _ _)) by lia. cbn [negb]. rewrite <- Lg.
  rewrite put_long; [|done..|fold b1; lia]. fold b1. cbn [mbind res_bind]. rewrite Lg, Ag.
  assert (Hs1 : stream_wf (append s b1)) by (apply append_wf; [done|apply wire_seg_u8|lia]).
  destruct (put_block_end (append s b1) (seg_type g) (drop 255 (seg_as g)) use32) as [E1 E2];
    [done|by destruct Hwf; apply Forall_drop|rewrite Hd; unfold AS_SEGMENT_MAX; lia
    |fold b2; cbn [append endp Stream.size]; lia|].
  rewrite Hd in E1, E2. rewrite E1. cbn [mbind res_bind].
  change (Z.to_nat 255) with 255%nat. rewrite E2. cbn [mbind res_bind]. fold b2.
  rewrite put_packed_stop with (n := 0);
    [|destruct Hnext as [|m r Hm _]; [done|apply not_packable_long; [done|by apply put_ok_wf|done]]|done].
  cbn [mbind res_bind]. rewrite Z.add_0_r, <- Z2, append_append by done. f_equal. lia.
Qed.

(** The whole chain. *)
Lemma put_segments_blocks use32 seg : forall fuel s bytes,
  stream_wf s -> Forall put_ok seg -> packs_once seg = true -> (length seg <= fuel)%nat ->
  zlen (wire_path use32 (wire_blocks seg)) <= Stream.size s - endp s ->
  put_segments fuel s seg bytes use32
  = Ret (bytes + zlen (wire_path use32 (wire_blocks seg)),
         append s (wire_path use32 (wire_blocks seg))).
Proof.
  induction seg as [|g rest Hl IH|g n r Hl E IH|g rest Hl E IH] using blocks_ind;
    intros fuel s bytes Hs Hw Hp Hf Hroom.
  { change (wire_path use32 (wire_blocks [])) with (@nil Z).
    rewrite append_nil, zlen_nil, Z.add_0_r by done. by destruct fuel. }
  all: apply Forall_cons in Hw as [Hg Hw]; destruct fuel as [|fuel]; [simpl in Hf; lia|];
    simpl in Hf; apply packs_once_inv in Hp.
  - rewrite wire_blocks_long, !wire_path_cons in * by done. rewrite !zlen_app in *.
    pose proof (zlen_nonneg (wire_path use32 (wire_blocks rest))).
    rewrite put_round_long by (done || lia). rewrite IH.
    + rewrite append_append, <- app_assoc by done. do 2 f_equal. lia.
    + apply append_wf; [done|apply Forall_app_2; apply wire_seg_u8|rewrite zlen_app; lia].
    + done.
    + destruct rest as [|n r]; [done|]. apply Forall_cons in Hw as [Hn _].
      rewrite not_packable_long in Hp; [done|by apply put_ok_wf..|done].
    + lia.
    + cbn [append endp Stream.size]. rewrite zlen_app. lia.
  - apply Forall_cons in Hw as [Hn Hw]. rewrite wire_blocks_packed, wire_path_cons in * by done.
    rewrite E in Hp. destruct Hp as [Hp Hr]. set (blk := wire_seg _ _) in *.
    rewrite zlen_app in Hroom. pose proof (zlen_nonneg (wire_path use32 (wire_blocks r))).
    assert (Hz : zlen blk = ASSEGMENT_SIZE (zlen (seg_as g) + zlen (seg_as n)) use32)
      by (unfold blk; rewrite zlen_wire_seg; cbn [seg_as]; by rewrite zlen_app).
    assert (ASSEGMENT_SIZE (zlen (seg_as g)) use32 <= zlen blk).
    { rewrite Hz. pose proof (zlen_nonneg (seg_as n)). unfold ASSEGMENT_SIZE. destruct use32; lia. }
    rewrite (put_round s g (n :: r) bytes use32 fuel blk (zlen (seg_as n)) r);
      [|done..|lia|apply put_packed_one; [done..|unfold blk in *; lia]|done].
    rewrite IH; [|apply append_wf; [done|apply wire_seg_u8|lia]|done..|simpl in Hf; lia|simpl; lia].
    rewrite append_append, zlen_app by done. do 2 f_equal. lia.
  - rewrite wire_blocks_one, wire_path_cons in * by done. rewrite zlen_app in Hroom.
    pose proof (zlen_nonneg (wire_path use32 (wire_blocks rest))).
    pose proof (zlen_wire_seg use32 g) as Hz.
    rewrite (put_round s g rest bytes use32 fuel (wire_seg use32 g) 0 rest);
      [|done..|lia|by apply put_packed_stop|by rewrite Z.add_0_r].
    rewrite IH; [|apply append_wf; [done|apply wire_seg_u8|lia]|done| |lia|simpl; lia].
    + rewrite append_append, zlen_app by done. do 2 f_equal. lia.
    + destruct rest as [|n r]; [done|]. by rewrite E in Hp.
Qed.

(** C15. Writing a path and parsing the octets.  For AS_SEQUENCE segments of 1
    to 510 AS numbers and segments of the other types of 1 to 255, no segment
    packable with more than one of those after it, and at most 65535 AS numbers
    in all, [aspath_put] cuts the sequences of more than 255 in two and joins
    short neighbouring ones, reports exactly the octets it wrote, and the
    parser, given that many octets, consumes them all and returns the normal
    form of the path, with AS_TRANS for the AS numbers above 65535 when two
    octets are used; with four octets a path in normal form comes back as it
    was.  Outside these limits the statement fails: see
    [aspath_put_overlength] and [aspath_put_packed_twice]. *)
Theorem aspath_wire_roundtrip s seg use32 :
  stream_wf s -> unread s = [] -> Forall put_ok seg -> packs_once seg = true ->
  total_asns seg < 2 ^ 16 ->
  zlen (wire_path use32 (wire_blocks seg)) <= Stream.size s - endp s ->
  exists n s' s'', aspath_put s seg use32 = Ret (n, s') /\
    s' = append s (wire_path use32 (wire_blocks seg)) /\ endp s' = endp s + n /\
    assegments_parse s' n use32
    = Ret (Some (assegment_normalise (map (seg_on_wire use32) seg)), s'') /\
    unread s'' = [] /\
    (use32 = true -> canonical seg -> assegment_normalise (map (seg_on_wire use32) seg) = seg).
Proof.
  intros Hs Hun Hw Hp Ht Hroom.
  pose proof (wire_path_u8 use32 (wire_blocks seg)) as Hu8.
  assert (Hput : aspath_put s seg use32
    = Ret (zlen (wire_path use32 (wire_blocks seg)), append s (wire_path use32 (wire_blocks seg)))).
  { unfold aspath_put. destruct seg as [|g r]; [by rewrite append_nil|].
    pose proof (Forall_inv Hw) as Hg. rewrite (proj1 (asns_put_ok g Hg)).
    apply put_ok_wf in Hg as [_ Hg]. case_test; [lia|].
    rewrite put_segments_blocks by done. by rewrite Z.add_0_l. }
  assert (Hs' : stream_wf (append s (wire_path use32 (wire_blocks seg)))) by (by apply append_wf).
  pose proof (unread_append_nil s _ Hs Hun : unread (append s (wire_path use32 (wire_blocks seg))) = _)
    as Hu'.
  rewrite <- (app_nil_r (wire_path use32 (wire_blocks seg))) in Hu' at 2.
  eexists _, _, _. split; [exact Hput|]. split; [done|]. split; [done|].
  rewrite <- wire_blocks_normal by done.
  split; [apply (assegments_parse_wire _ (wire_blocks seg) []); [done|by apply wire_blocks_ok|done]|].
  destruct (advance_over _ _ _ _ Hs' Hu' eq_refl) as [_ Hend].
  split; [done|]. intros -> Hcan. rewrite wire_blocks_normal, on_wire_4 by done.
  by apply canonical_fixed.
Qed.

(** Two short neighbours that are packed, a set, and a sequence of 300. *)
Definition wire_seg_sample : segments :=
  [Seg AS_SEQUENCE [1; 70000; 3]; Seg AS_SEQUENCE [4; 5]; Seg AS_SET [2; 4294967295];
   Seg AS_SEQUENCE (map Z.of_nat (seq 1 300))].
Definition empty_stream (n : nat) : stream := Stream 0 0 (Z.of_nat n) (replicate n 0).

Lemma aspath_wire_roundtrip_witness :
  exists n s' s'', aspath_put (empty_stream 1400) wire_seg_sample true = Ret (n, s') /\
    s' = append (empty_stream 1400) (wire_path true (wire_blocks wire_seg_sample)) /\
    endp s' = endp (empty_stream 1400) + n /\
    assegments_parse s' n true
    = Ret (Some (assegment_normalise (map (seg_on_wire true) wire_seg_sample)), s'') /\
    unread s'' = [] /\
    (true = true -> canonical wire_seg_sample ->
     assegment_normalise (map (seg_on_wire true) wire_seg_sample) = wire_seg_sample).
Proof.
  apply (aspath_wire_roundtrip (empty_stream 1400) wire_seg_sample true);
    [unfold stream_wf; split_and!; by_eval|reflexivity|by_eval|by_eval|by_eval|by_eval].
Defined.

(** The limit on packing: of three AS_SEQUENCE segments packed into one block
    the header counts the first and the third only, so the parser does not
    accept what was written. *)
Lemma aspath_put_packed_twice :
  exists s' s'', aspath_put (empty_stream 64)
      [Seg AS_SEQUENCE [1]; Seg AS_SEQUENCE [2]; Seg AS_SEQUENCE [3]] true = Ret (14, s') /\
    unread s' = [AS_SEQUENCE; 2; 0; 0; 0; 1; 0; 0; 0; 2; 0; 0; 0; 3] /\
    assegments_parse s' 14 true = Ret (None, s'').
Proof.
  set (out := [AS_SEQUENCE; 2; 0; 0; 0; 1; 0; 0; 0; 2; 0; 0; 0; 3]).
  exists (append (empty_stream 64) out), (advance (append (empty_stream 64) out) 12).
  split; [vm_compute; reflexivity|]. split; vm_compute; reflexivity.
Qed.

(** [aspath_put] of a segment of [255 k + r] AS numbers, [k >= 1] (the
    "overlength" case): every one of the [k] blocks it splits off holds the
    first 255 AS numbers again, so from [k = 2] on the AS numbers 255 to
    [255 k - 1] are never written, and the byte count it returns exceeds the
    octets written by [255 * width * k (k - 1) / 2]. *)
Theorem aspath_put_overlength s ty l use32 (k : nat) r :
  stream_wf s -> Forall is_u32 l -> (1 <= k)%nat -> 1 <= r <= 255 ->
  zlen l = 255 * Z.of_nat k + r -> zlen l < 2 ^ 16 ->
  zlen (wire_path use32 (split_blocks ty l k)) <= Stream.size s - endp s ->
  exists n, aspath_put s [Seg ty l] use32
    = Ret (n, append s (wire_path use32 (split_blocks ty l k))) /\
    2 * (n - zlen (wire_path use32 (split_blocks ty l k)))
    = 255 * Z.of_nat (as_width use32) * (Z.of_nat k * (Z.of_nat k - 1)).
Proof.
  intros Hs Hu Hk Hr Hlen Hmax Hroom. set (seg := Seg ty l).
  assert (Hwf : seg_wf seg) by done. pose proof (split_count_excess k use32) as Hx.
  set (rest := Seg ty (drop (255 * k) l)).
  assert (Hrest : zlen (seg_as rest) = r) by (simpl; unfold zlen in *; rewrite length_drop; lia).
  assert (Hblk : zlen (split_block use32 seg) = ASSEGMENT_SIZE 255 use32).
  { unfold seg. rewrite split_block_wire, zlen_wire_seg by lia. simpl. f_equal.
    unfold zlen in *. rewrite length_take. lia. }
  pose proof (zlen_wire_seg use32 rest) as Hwr. rewrite Hrest in Hwr.
  rewrite wire_split_blocks, zlen_app, zlen_concat_replicate in * by lia.
  fold seg rest in Hroom |- *. rewrite Hblk, Hwr in *.
  assert (Hsize : ASSEGMENT_SIZE (zlen l) use32
                  <= Z.of_nat k * ASSEGMENT_SIZE 255 use32 + ASSEGMENT_SIZE r use32 /\
                  zlen (wire_asns use32 (seg_as rest)) + 2 = ASSEGMENT_SIZE r use32 /\
                  2 <= ASSEGMENT_SIZE r use32 /\ 0 <= ASSEGMENT_SIZE 255 use32).
  { rewrite zlen_wire_asns, Hrest. unfold ASSEGMENT_SIZE. destruct use32; simpl; lia. }
  unfold aspath_put. rewrite seg_length_id by done. simpl seg_as. case_test; [lia|].
  cbn [length put_segments]. rewrite seg_length_id, writeable_wf by done. simpl seg_as.
  case_test; [unneg; zify_bool; lia|].
  change (put_overlength (S (Z.to_nat (zlen l))) s seg 0 0 use32) with
    (put_overlength (S (Z.to_nat (zlen l))) s seg (255 * Z.of_nat 0) (0 + split_count 0 use32) use32).
  rewrite (put_overlength_run 0 k 0 _ s seg r use32) by (done || lia).
  cbn [mbind res_bind]. rewrite Nat.add_0_l. replace (zlen l - 255 * Z.of_nat k) with r by lia.
  assert (Hs1 : stream_wf (append s (concat (replicate k (split_block use32 seg))))).
  { apply append_wf; [done|apply split_block_u8|]. rewrite zlen_concat_replicate, Hblk. lia. }
  assert (Hend : endp (append s (concat (replicate k (split_block use32 seg))))
                 = endp s + Z.of_nat k * ASSEGMENT_SIZE 255 use32)
    by (simpl; by rewrite zlen_concat_replicate, Hblk).
  rewrite header_put_append; [|done|unfold AS_SEGMENT_MAX; lia|rewrite Hend; simpl; lia].
  cbn [mbind res_bind]. rewrite append_append by done.
  assert (asns seg = l) as -> by (by apply asns_id).
  replace (Z.to_nat (255 * Z.of_nat k)) with (255 * k)%nat by lia.
  change (drop (255 * k) l) with (seg_as rest).
  match goal with |- context [assegment_data_put ?a ?b r ?c] =>
    replace (assegment_data_put a b r c) with (assegment_data_put a b (zlen (seg_as rest)) c)
      by (by rewrite Hrest) end.
  assert (Hs2 : stream_wf (append s (concat (replicate k (split_block use32 seg))
                                     ++ [u8 (seg_type seg); u8 r]))).
  { apply append_wf; [done|apply Forall_app_2; [apply split_block_u8|auto with quagga]|].
    rewrite zlen_app, zlen_concat_replicate, Hblk. zlen. }
  rewrite data_put_append; [|done|by apply Forall_drop|unfold AS_SEGMENT_MAX; lia|].
  2: { simpl. rewrite zlen_app, zlen_concat_replicate, Hblk. simpl in *. zlen. }
  cbn [mbind res_bind put_packed]. rewrite append_append by done. eexists. split.
  - rewrite <- app_assoc. unfold wire_seg. rewrite Hrest. done.
  - rewrite Z.add_0_r. lia.
Qed.

Definition long_path : list Z := map Z.of_nat (seq 1 600).

Lemma aspath_put_overlength_witness :
  exists n, aspath_put (empty_stream 4000) [Seg AS_SEQUENCE long_path] true
    = Ret (n, append (empty_stream 4000) (wire_path true (split_blocks AS_SEQUENCE long_path 2))) /\
    2 * (n - zlen (wire_path true (split_blocks AS_SEQUENCE long_path 2)))
    = 255 * Z.of_nat (as_width true) * (Z.of_nat 2 * (Z.of_nat 2 - 1)).
Proof.
  apply (aspath_put_overlength (empty_stream 4000) AS_SEQUENCE long_path true 2 90);
    [unfold stream_wf; split_and!; by_eval|by_eval|lia|lia|reflexivity|reflexivity|by_eval].
Defined.
