(* ===== verification/AspathPool.v ===== *)
(** * bgpd/bgp_aspath.c: the pool of interned AS paths

    [ashash] with its key and comparison functions, [aspath_intern],
    [aspath_unintern] and [aspath_parse], on the interning interface of
    Hash.v. *)
From stdpp Require Import base option list sorting gmap.
From Stdlib Require Import ZArith Lia.
From S2P Require Import Prelude Stream Hash Jhash Text Aspath AspathText AspathOps AspathWire.

(** [aspath_key_make]: the string is made first when it is missing; a path of
    unknown segment types has none ([strlen (NULL)]) and is never hashed. *)
Definition aspath_key_make (p : aspath) : Z :=
  match str p with
  | Some s => jhash s 2334325
  | None =>
      match aspath_make_str_count (path_segments p) with
      | Ret (Some s) => jhash s 2334325
      | _ => 0
      end
  end.

Definition aspath_fill_str (p : aspath) : res aspath :=
  match str p with Some _ => Ret p | None => aspath_str_update p end.

(** ** Comparison *)
Lemma aspath_cmp_spec a b :
  aspath_cmp a b = true <->
  Forall2 (fun s t => seg_type s = seg_type t /\ asns s = asns t) a b.
Proof.
  revert b. induction a as [|s a IH]; intros [|t b]; simpl.
  - split; [constructor|done].
  - split; [done|inversion 1].
  - split; [done|inversion 1].
  - rewrite !andb_true_iff, IH, bool_decide_eq_true, !Z.eqb_eq. split.
    + intros [[[? ?] ?] ?]. by constructor.
    + inversion 1 as [|? ? ? ? [H1 H2]]; subst. split_and!; [done| |done..].
      by rewrite <- !zlen_asns, H2.
Qed.

Lemma aspath_cmp_render a b :
  aspath_cmp a b = true ->
  forallb valid_type a = forallb valid_type b /\ render a = render b.
Proof.
  intros H%aspath_cmp_spec. induction H as [|s t a b [Ht Ha] Hab [IH1 IH2]]; [done|].
  assert (Hs : valid_type s = valid_type t) by (unfold valid_type; by rewrite Ht).
  assert (Hr : render_seg s = render_seg t) by (unfold render_seg; by rewrite Ht, Ha).
  split; [simpl; by rewrite Hs, IH1|].
  destruct Hab as [|s' t' a b Hst Hab]; [done|].
  change (render_seg s ++ ch_space :: render (s' :: a) = render_seg t ++ ch_space :: render (t' :: b)).
  by rewrite Hr, IH2.
Qed.

(** Objects the pool accepts: known types, and the string is that of the
    segments if it has been made. *)
Definition poolable (p : aspath) : Prop :=
  forallb valid_type (path_segments p) = true /\
  (str p = None \/ str p = Some (render (path_segments p))).

Lemma key_make_render p :
  poolable p -> aspath_key_make p = jhash (render (path_segments p)) 2334325.
Proof.
  intros [Hv [E|E]]; unfold aspath_key_make; rewrite E; [|done].
  by rewrite make_str_render, Hv.
Qed.

Lemma aspath_cmp_refl seg : aspath_cmp seg seg = true.
Proof. apply aspath_cmp_spec, Forall_Forall2_diag, Forall_true. done. Qed.

#[export] Program Instance aspath_hashable : Hashable aspath := {|
  hash_key := aspath_key_make;
  hash_cmp a b := aspath_cmp (path_segments a) (path_segments b);
  hash_valid := poolable
|}.
Next Obligation.
  intros a b Ha Hb H. rewrite !key_make_render by done.
  by rewrite (proj2 (aspath_cmp_render _ _ H)).
Qed.
Next Obligation. intros a. apply aspath_cmp_refl. Qed.
Next Obligation.
  intros a b H%aspath_cmp_spec. apply aspath_cmp_spec. apply Forall2_flip.
  eapply Forall2_impl; [exact H|]. simpl. by intros ? ? [-> ->].
Qed.
Next Obligation.
  intros a b c H%aspath_cmp_spec H'%aspath_cmp_spec. apply aspath_cmp_spec.
  revert H'. generalize (path_segments c). induction H as [|x y xs ys Hxy H IH]; intros l H';
    inversion H' as [|? z ? zs Hyz H'']; subst; constructor; auto.
  destruct Hxy, Hyz. split; congruence.
Qed.

#[export] Program Instance aspath_internable : Internable aspath := {|
  refcnt_of := refcnt;
  set_refcnt p n := Aspath n (path_segments p) (str p);
  fill_str := aspath_fill_str
|}.
Next Obligation. done. Qed.
Next Obligation. intros a n. apply aspath_cmp_refl. Qed.
Next Obligation. done. Qed.
Next Obligation.
  intros a Ha. unfold aspath_fill_str. destruct (str a) as [s|] eqn:E.
  - exists a. split_and!; [done|apply aspath_cmp_refl|done..].
  - unfold aspath_str_update. rewrite make_str_render. destruct Ha as [Hv _]. rewrite Hv.
    eexists. split; [done|]. split_and!; [apply aspath_cmp_refl| |done].
    split; [done|]. by right.
Qed.

Definition aspath_intern : gmap addr aspath -> hash -> addr -> res (gmap addr aspath * hash * addr) :=
  intern (A := aspath).
Definition aspath_unintern
  : gmap addr aspath -> hash -> addr -> res (gmap addr aspath * hash * option addr) :=
  unintern (A := aspath).

Definition aspath_init : hash := hash_create_size 32767.

(** [aspath_hash_alloc] with its new object at [p]: NULL when the copy has no
    string. *)
Definition aspath_hash_alloc (p : addr) (arg : aspath) (m : gmap addr aspath)
  : res (gmap addr aspath * option addr) :=
  new ← aspath_dup arg;
  match str new with
  | None => Ret (m, None)
  | Some _ => Ret (<[p := new]> m, Some p)
  end.

Definition aspath_parse (m : gmap addr aspath) (h : hash) (p : addr)
  (s : stream) (length : Z) (use32bit : bool)
  : res (gmap addr aspath * hash * option addr * stream) :=
  if negb (length mod AS16_VALUE_SIZE =? 0) then Ret (m, h, None, s)
  else
    '(r, s) ← assegments_parse s length use32bit;
    match r with
    | None => Ret (m, h, None, s)
    | Some seg =>
        let as_ := Aspath 0 seg None in
        '(m, h, find) ← hash_get m h as_ (Some (aspath_hash_alloc p as_));
        match find with
        | None => Ret (m, h, None, s)
        | Some q =>
            f ← deref m q;
            Ret (<[q := Aspath (u64 (refcnt f + 1)) (path_segments f) (str f)]> m, h, Some q, s)
        end
    end.

(** [aspath_empty]; the stream is not looked at for length 0. *)
Definition aspath_empty (m : gmap addr aspath) (h : hash) (p : addr)
  : res (gmap addr aspath * hash * option addr * stream) :=
  aspath_parse m h p (Stream 0 0 0 []) 0 true.

(** ** Parsing into the pool *)

(** C19. [aspath_parse] of any AS_PATH attribute value, on a pool of paths in
    use: it returns NULL and leaves the pool alone, or a pointer to a pooled
    path equal to the normal form of the segments encoded, counted once more;
    if a route already holds an equal path, it is the same pointer. *)
Theorem aspath_parse_spec m h held p s length use32 :
  pool_rep m h held -> m !! p = None -> zlen held < 2 ^ 64 - 1 ->
  stream_wf s -> 0 <= length < 2 ^ 16 ->
  exists m' h' r s', aspath_parse m h p s length use32 = Ret (m', h', r, s') /\
    match r with
    | None => m' = m /\ h' = h
    | Some q => pool_rep m' h' (q :: held) /\
        exists f raw, m' !! q = Some f /\ Forall wire_ok raw /\
          take (Z.to_nat length) (unread s) = wire_path use32 raw /\
          aspath_cmp (path_segments f) (assegment_normalise raw) = true /\
          (forall x d, x ∈ held -> m !! x = Some d ->
             aspath_cmp (path_segments d) (assegment_normalise raw) = true -> q = x)
    end.
Proof.
  intros Hrep Hp Hlen Hs Hl. unfold aspath_parse. case_test; [by exists m, h, None, s|].
  destruct (assegments_parse_cases s length use32 Hs Hl) as (r & s' & -> & _ & Hr).
  cbn [mbind res_bind]. destruct r as [seg|]; [|by exists m, h, None, s'].
  destruct Hr as (_ & _ & raw & Hw & Hraw & ->).
  assert (Hv : forallb valid_type (assegment_normalise raw) = true).
  { apply types_normalise. apply forallb_forall. intros x Hx%list_elem_of_In.
    by apply (proj1 (Forall_forall _ _) Hw x) in Hx as (? & _). }
  set (a := Aspath 0 (assegment_normalise raw) None).
  destruct (dup_spec a) as (new & Hdup & Hseg & Hsync). simpl in Hseg.
  assert (Hcmp : aspath_cmp (path_segments new) (path_segments a) = true).
  { rewrite Hseg. apply aspath_cmp_spec. simpl. clear.
    induction (assegment_normalise raw) as [|x l IH]; simpl; constructor; [|done].
    by rewrite asns_dup. }
  assert (Hvn : forallb valid_type (path_segments new) = true)
    by (rewrite (proj1 (aspath_cmp_render _ _ Hcmp)); exact Hv).
  unfold in_sync in Hsync. rewrite Hvn in Hsync.
  assert (Hcnt : refcnt new = 0).
  { unfold aspath_dup in Hdup. rewrite make_str_render in Hdup. simpl in Hdup. by injection Hdup as <-. }
  destruct (acquire_spec m h held p a new (aspath_hash_alloc p a))
    as (m1 & h1 & q & f & E & Hf & Hfa & Hvf & Hfc & Hgrow & Hsame); auto.
  { split; [done|by left]. }
  { split; [done|]. right. done. }
  { unfold aspath_hash_alloc. rewrite Hdup. cbn [mbind res_bind]. by rewrite Hsync. }
  change (@intern_hashable aspath aspath_internable) with aspath_hashable in E. rewrite E.
  cbn [mbind res_bind]. rewrite (deref_Some _ _ _ Hf). cbn [mbind res_bind].
  eexists _, _, (Some q), s'. split; [done|]. simpl in Hfc. rewrite u64_id by lia. split.
  - apply Hgrow; [apply aspath_cmp_refl|exact Hvf|done].
  - eexists _, raw. rewrite lookup_insert_eq. split_and!; [done..|].
    intros x d Hx Hd Hdc. by apply (Hsame x d).
Qed.

Lemma aspath_parse_spec_witness :
  exists m' h' r s', aspath_parse ∅ aspath_init 1%positive wire_sample 14 false = Ret (m', h', r, s') /\
    match r with
    | None => m' = ∅ /\ h' = aspath_init
    | Some q => pool_rep m' h' [q] /\
        exists f raw, m' !! q = Some f /\ Forall wire_ok raw /\
          take 14 (unread wire_sample) = wire_path false raw /\
          aspath_cmp (path_segments f) (assegment_normalise raw) = true /\
          (forall x d, x ∈ [] -> (∅ : gmap addr aspath) !! x = Some d ->
             aspath_cmp (path_segments d) (assegment_normalise raw) = true -> q = x)
    end.
Proof.
  apply (aspath_parse_spec ∅ aspath_init [] 1%positive wire_sample 14 false);
    [by apply pool_rep_empty|done|done|unfold stream_wf; split_and!; by_eval|lia].
Defined.
