(* ===== verification/Community.v ===== *)
(** * bgpd/bgp_community.c: the COMMUNITIES attribute

    The array of 32-bit values (held in network order, seen here as numbers),
    its text form with the buffer it is written into, sorting, matching,
    deletion and interning. *)
From stdpp Require Import base option list sorting gmap.
From Stdlib Require Import ZArith Lia.
From S2P Require Import Prelude Text Hash.

(** ** Data *)
Record community := Community {
  com_refcnt : Z;
  com_val : list Z;
  com_str : option text }.

#[export] Instance community_eq_dec : EqDecision community.
Proof. solve_decision. Defined.

Definition com_size (com : community) : Z := zlen (com_val com).

Definition COMMUNITY_INTERNET : Z := 0.
Definition COMMUNITY_NO_EXPORT : Z := 4294967041.
Definition COMMUNITY_NO_ADVERTISE : Z := 4294967042.
Definition COMMUNITY_LOCAL_AS : Z := 4294967043.

Definition community_new : community := Community 0 [] None.

Definition set_val (com : community) (l : list Z) : community :=
  Community (com_refcnt com) l (com_str com).

(** ** Values *)
Definition community_add_val (com : community) (val : Z) : community :=
  set_val com (com_val com ++ [val]).

(** The search loop of [community_del_val] from index [i]: [memcpy] shifts the
    [c] values after the one found, and is undefined when the two regions
    overlap, that is for [c >= 2]. *)
Fixpoint del_from (before rest : list Z) (val : Z) : res (list Z) :=
  match rest with
  | [] => Ret before
  | v :: after =>
      if v =? val
      then if 2 <=? zlen after then Fault else Ret (before ++ after)
      else del_from (before ++ [v]) after val
  end.

Definition community_del_val (com : community) (val : Z) : res community :=
  l ← del_from [] (com_val com) val; Ret (set_val com l).

Fixpoint delete_all (com1 : community) (vals : list Z) : res community :=
  match vals with
  | [] => Ret com1
  | v :: r => com1 ← community_del_val com1 v; delete_all com1 r
  end.
Definition community_delete (com1 com2 : community) : res community :=
  delete_all com1 (com_val com2).

Definition community_include (com : community) (val : Z) : bool :=
  existsb (Z.eqb val) (com_val com).

Definition community_val_get (com : community) (i : Z) : res Z := zget (com_val com) i.

(** The copy loop of [community_uniq_sort]. *)
Fixpoint add_missing (new : community) (l : list Z) : community :=
  match l with
  | [] => new
  | v :: r =>
      if negb (community_include new v) then add_missing (community_add_val new v) r
      else add_missing new r
  end.

Definition community_uniq_sort (com : option community) : option community :=
  match com with
  | None => None
  | Some com =>
      let new := add_missing community_new (com_val com) in
      Some (set_val new (merge_sort Z.le (com_val new)))
  end.

(** ** Text *)
Definition word_of (comval : Z) : option text :=
  if comval =? COMMUNITY_INTERNET then Some (codes "internet")
  else if comval =? COMMUNITY_NO_EXPORT then Some (codes "no-export")
  else if comval =? COMMUNITY_NO_ADVERTISE then Some (codes "no-advertise")
  else if comval =? COMMUNITY_LOCAL_AS then Some (codes "local-AS")
  else None.

(** First pass: the size of the buffer. *)
Definition room_for (comval : Z) : Z :=
  match word_of comval with
  | Some w => zlen (ch_space :: w)
  | None => zlen (codes " 65536:65535")
  end.
Fixpoint com2str_len (l : list Z) : Z :=
  match l with [] => 0 | v :: r => room_for v + com2str_len r end.

(** [strcpy] or [sprintf] at [pnt], the terminating zero included. *)
Definition put_str (len : Z) (buf s : text) : res text :=
  if zlen buf + zlen s + 1 <=? len then Ret (buf ++ s) else Fault.

(** The text of one value: a keyword, or [as:val] from [sprintf]. *)
Definition value_text (comval : Z) : text :=
  match word_of comval with
  | Some w => w
  | None =>
      let as_ := Z.land (Z.shiftr comval 16) 65535 in
      let val := Z.land comval 65535 in
      print_u as_ ++ ch_colon :: print_u val
  end.

Fixpoint com2str_fill (len : Z) (first : bool) (buf : text) (l : list Z) : res text :=
  match l with
  | [] => if zlen buf + 1 <=? len then Ret buf else Fault
  | v :: r =>
      buf ← (if first then Ret buf
             else if zlen buf + 1 <=? len then Ret (buf ++ [ch_space]) else Fault);
      buf ← put_str len buf (value_text v);
      com2str_fill len false buf r
  end.

Definition community_com2str (com : option community) : res (option text) :=
  match com with
  | None => Ret None
  | Some com =>
      if com_size com =? 0 then Ret (Some [])
      else
        s ← com2str_fill (com2str_len (com_val com)) true [] (com_val com); Ret (Some s)
  end.

Definition community_str (com : option community) : res (option community * option text) :=
  match com with
  | None => Ret (None, None)
  | Some c =>
      match com_str c with
      | Some s => Ret (com, Some s)
      | None => s ← community_com2str com;
                Ret (Some (Community (com_refcnt c) (com_val c) s), s)
      end
  end.

(** ** Parsing *)
Inductive community_token :=
| community_token_val
| community_token_no_export
| community_token_no_advertise
| community_token_local_as
| community_token_unknown.

Fixpoint skip_space (p : text) : text :=
  match p with
  | c :: r => if isspace c then skip_space r else p
  | [] => []
  end.

(** The loop over digits and colons; [None] is the second colon. *)
Fixpoint read_value (p : text) (separator digit : bool) (low high : Z)
  : option (bool * Z * Z * text) :=
  match p with
  | c :: r =>
      if c =? ch_colon
      then if separator then None
           else read_value r true false 0 (u32 (Z.shiftl low 16))
      else if isdigit c then read_value r separator true (digit_step low c) high
      else Some (digit, low, high, p)
  | [] => Some (digit, low, high, p)
  end.

(** [token] and [val] are the variables of the caller, left as they are at the
    end of the line; the first component is the pointer returned. *)
Definition community_gettoken (buf : text) (token : community_token) (val : Z)
  : option text * community_token * Z :=
  match skip_space buf with
  | [] => (None, token, val)
  | c :: r =>
      let p := c :: r in
      if isalpha c then
        if has_prefix (codes "internet") p
        then (Some (drop 8 p), community_token_no_export, COMMUNITY_INTERNET)
        else if has_prefix (codes "no-export") p
        then (Some (drop 9 p), community_token_no_export, COMMUNITY_NO_EXPORT)
        else if has_prefix (codes "no-advertise") p
        then (Some (drop 12 p), community_token_no_advertise, COMMUNITY_NO_ADVERTISE)
        else if has_prefix (codes "local-AS") p
        then (Some (drop 8 p), community_token_local_as, COMMUNITY_LOCAL_AS)
        else (None, community_token_unknown, val)
      else if isdigit c then
        match read_value p false false 0 0 with
        | None => (None, community_token_unknown, val)
        | Some (digit, low, high, p) =>
            if negb digit then (None, community_token_unknown, val)
            else (Some p, community_token_val, u32 (high + low))
        end
      else (None, community_token_unknown, val)
  end.

(** The [do ... while (str)] loop; every round but the last takes a character,
    the outer [None] is lack of fuel, the inner one the NULL result. *)
Fixpoint str2com_loop (fuel : nat) (str : text) (token : community_token) (val : Z)
  (com : community) : option (option community) :=
  match fuel with
  | O => None
  | S fuel =>
      let '(str, token, val) := community_gettoken str token val in
      match token with
      | community_token_unknown => Some None
      | _ =>
          let com := community_add_val com val in
          match str with
          | None => Some (Some com)
          | Some p => str2com_loop fuel p token val com
          end
      end
  end.

Definition community_str2com (str : text) : option (option community) :=
  match str2com_loop (S (length str)) str community_token_unknown 0 community_new with
  | None => None
  | Some com => Some (community_uniq_sort com)
  end.

(** ** Comparison *)

(** The two-index loop; what is left of [com2]. *)
Fixpoint match_loop (l1 l2 : list Z) : list Z :=
  match l1, l2 with
  | a :: l1, b :: l2' => if a =? b then match_loop l1 l2' else match_loop l1 l2
  | _, _ => l2
  end.

Definition community_match (com1 com2 : option community) : bool :=
  match com1, com2 with
  | None, None => true
  | Some c1, Some c2 =>
      if com_size c1 <? com_size c2 then false
      else match match_loop (com_val c1) (com_val c2) with [] => true | _ => false end
  | _, _ => false
  end.

Definition community_cmp (com1 com2 : option community) : bool :=
  match com1, com2 with
  | None, None => true
  | Some c1, Some c2 => (com_size c1 =? com_size c2) && bool_decide (com_val c1 = com_val c2)
  | _, _ => false
  end.

(** Sum of the octets of the values. *)
Fixpoint sum_octets (key : Z) (l : list Z) : Z :=
  match l with
  | [] => key
  | v :: r => sum_octets (foldl (fun k b => u32 (k + b)) key (be_bytes 4 v)) r
  end.
Definition community_hash_make (com : community) : Z := sum_octets 0 (com_val com).

Definition community_merge (com1 com2 : community) : community :=
  set_val com1 (com_val com1 ++ com_val com2).

Definition community_dup (com : community) : community := Community 0 (com_val com) None.

(** ** Sorting *)
Lemma add_missing_spec l new :
  NoDup (com_val new) ->
  NoDup (com_val (add_missing new l)) /\
  (forall x, x ∈ com_val (add_missing new l) <-> x ∈ com_val new \/ x ∈ l) /\
  com_refcnt (add_missing new l) = com_refcnt new /\ com_str (add_missing new l) = com_str new.
Proof.
  revert new. induction l as [|v l IH]; intros new Hnd; simpl.
  { split_and!; auto. intros x. rewrite elem_of_nil. tauto. }
  assert (Hinc : community_include new v = true <-> v ∈ com_val new).
  { unfold community_include. rewrite existsb_exists. setoid_rewrite <- list_elem_of_In.
    split; [intros (y & Hy & ->%Z.eqb_eq); done|]. intros Hv. exists v. by rewrite Z.eqb_refl. }
  destruct (community_include new v); simpl.
  - destruct (IH new Hnd) as (H1 & H2 & H3). split_and!; try apply H3; [done|].
    intros x. rewrite H2, elem_of_cons. assert (v ∈ com_val new) by tauto. naive_solver.
  - assert (v ∉ com_val new) by (intros H; apply Hinc in H; done).
    destruct (IH (community_add_val new v)) as (H1 & H2 & H3 & H4).
    { simpl. apply NoDup_app. split_and!; [done| |apply NoDup_singleton].
      intros x Hx ->%list_elem_of_singleton. done. }
    split_and!; auto. intros x. rewrite H2. simpl.
    rewrite elem_of_app, list_elem_of_singleton, elem_of_cons. naive_solver.
Qed.

Lemma sorted_nodup_strict l : StronglySorted Z.le l -> NoDup l -> StronglySorted Z.lt l.
Proof.
  induction 1 as [|x l Hl IH Hx]; intros Hnd; constructor; apply NoDup_cons in Hnd as [Hn Hnd].
  - by apply IH.
  - apply Forall_forall. intros y Hy. pose proof (proj1 (Forall_forall _ _) Hx y Hy).
    assert (x <> y) by congruence. lia.
Qed.

(** [community_uniq_sort] of values: a fresh strictly sorted community. *)
Lemma uniq_sort_spec com :
  exists new, community_uniq_sort (Some com) = Some new /\ com_refcnt new = 0 /\
    com_str new = None /\ StronglySorted Z.lt (com_val new) /\
    forall x, x ∈ com_val new <-> x ∈ com_val com.
Proof.
  destruct (add_missing_spec (com_val com) community_new) as (Hnd & Hel & Hr & Hs); [constructor|].
  eexists. split; [done|]. simpl.
  pose proof (merge_sort_Permutation Z.le (com_val (add_missing community_new (com_val com)))) as Hp.
  split_and!; [done|done| |].
  - apply sorted_nodup_strict; [|by rewrite Hp].
    apply StronglySorted_merge_sort; apply _.
  - intros x. rewrite Hp, Hel. simpl. rewrite elem_of_nil. tauto.
Qed.

(** [community_uniq_sort] returns the values in strictly ascending order,
    the same set of values as its argument; two communities sort to the same
    array exactly when they hold the same set, so the comparison used for
    interning sees them as equal. *)
Theorem community_uniq_sort_canonical a b :
  exists a' b', community_uniq_sort (Some a) = Some a' /\ community_uniq_sort (Some b) = Some b' /\
    StronglySorted Z.lt (com_val a') /\ (forall x, x ∈ com_val a' <-> x ∈ com_val a) /\
    (community_cmp (Some a') (Some b') = true <-> (forall x, x ∈ com_val a <-> x ∈ com_val b)).
Proof.
  destruct (uniq_sort_spec a) as (a' & Ea & _ & _ & Sa & Ma).
  destruct (uniq_sort_spec b) as (b' & Eb & _ & _ & Sb & Mb).
  exists a', b'. split_and!; auto. simpl. split.
  - intros [_ H%bool_decide_eq_true]%andb_true_iff x. by rewrite <- Ma, <- Mb, H.
  - intros Hab. assert (com_val a' = com_val b') as E.
    { apply strictly_sorted_unique; auto. intros x. by rewrite Ma, Mb. }
    unfold com_size. by rewrite E, Z.eqb_refl, bool_decide_eq_true_2.
Qed.

(** ** Matching and deletion *)
Lemma match_loop_subset l1 l2 :
  StronglySorted Z.lt l1 -> StronglySorted Z.lt l2 ->
  match_loop l1 l2 = [] <-> (forall x, x ∈ l2 -> x ∈ l1).
Proof.
  revert l2. induction l1 as [|a l1 IH]; intros [|b l2] H1 H2; simpl.
  - split; [intros _ x []%elem_of_nil|done].
  - split; [done|]. intros H. specialize (H b ltac:(left)). by apply elem_of_nil in H.
  - split; [intros _ x []%elem_of_nil|done].
  - inversion H1 as [|? ? H1' Ha]; subst. inversion H2 as [|? ? H2' Hb]; subst.
    rewrite Forall_forall in Ha, Hb. case_test.
    + subst. rewrite IH by done. split.
      * intros H x [->|Hx]%elem_of_cons; [left|right; auto].
      * intros H x Hx. pose proof (Hb x Hx).
        specialize (H x ltac:(by right)). apply elem_of_cons in H as [->|]; [lia|done].
    + rewrite IH by done. split.
      * intros H x Hx. right. auto.
      * intros H x Hx. pose proof (H b ltac:(left)) as Hba.
        apply elem_of_cons in Hba as [?|Hba]; [congruence|]. pose proof (Ha b Hba).
        specialize (H x Hx). apply elem_of_cons in H as [->|]; [|done].
        apply elem_of_cons in Hx as [?|Hx]; [lia|]. pose proof (Hb a Hx). lia.
Qed.

Lemma community_include_spec c x : community_include c x = true <-> x ∈ com_val c.
Proof.
  unfold community_include. rewrite existsb_exists, list_elem_of_In.
  split; [intros (y & Hy & ->%Z.eqb_eq); done|]. intros Hx. exists x. by rewrite Z.eqb_refl.
Qed.

(** On sorted communities, as interning keeps them, [community_match]
    decides inclusion: it holds exactly when every value of the second is a
    value of the first. *)
Theorem community_match_inclusion a b :
  StronglySorted Z.lt (com_val a) -> StronglySorted Z.lt (com_val b) ->
  community_match (Some a) (Some b) = true
  <-> (forall x, community_include b x = true -> community_include a x = true).
Proof.
  intros Ha Hb. setoid_rewrite community_include_spec. rewrite <- match_loop_subset by done.
  simpl. unfold com_size. case_test.
  - split; [done|]. intros Hm. pose proof (proj1 (match_loop_subset _ _ Ha Hb) Hm) as Hsub.
    apply NoDup_submseteq, submseteq_length in Hsub; [|by apply strictly_sorted_NoDup].
    unfold zlen in *. lia.
  - by destruct (match_loop (com_val a) (com_val b)).
Qed.

Lemma community_match_inclusion_witness :
  let a := Community 1 [5; 7; 4294967041] None in
  let b := Community 1 [5; 4294967041] None in
  community_match (Some a) (Some b) = true
  <-> (forall x, community_include b x = true -> community_include a x = true).
Proof. intros a b. apply (community_match_inclusion a b); repeat constructor; lia. Defined.

Lemma del_from_spec before l1 v l2 :
  v ∉ l1 -> del_from before (l1 ++ v :: l2) v
            = if 2 <=? zlen l2 then Fault else Ret (before ++ l1 ++ l2).
Proof.
  revert before. induction l1 as [|x l1 IH]; intros before Hv; simpl.
  - by rewrite Z.eqb_refl.
  - apply not_elem_of_cons in Hv as [Hx Hv]. rewrite (proj2 (Z.eqb_neq x v)) by congruence.
    rewrite IH by done. by rewrite <- app_assoc.
Qed.

Lemma del_from_absent before l v : v ∉ l -> del_from before l v = Ret (before ++ l).
Proof.
  revert before. induction l as [|x l IH]; intros before Hv; simpl; [by rewrite app_nil_r|].
  apply not_elem_of_cons in Hv as [Hx Hv]. rewrite (proj2 (Z.eqb_neq x v)) by congruence.
  rewrite IH by done. by rewrite <- app_assoc.
Qed.

(** [community_del_val] takes out the first occurrence of a value and
    nothing else; when two or more values follow it, though, they are moved
    with [memcpy] between overlapping regions, which C leaves undefined. *)
Theorem community_del_val_spec com val :
  (val ∉ com_val com -> community_del_val com val = Ret com) /\
  (forall l1 l2, com_val com = l1 ++ val :: l2 -> val ∉ l1 ->
     community_del_val com val
     = if zlen l2 <? 2 then Ret (set_val com (l1 ++ l2)) else Fault).
Proof.
  unfold community_del_val. split.
  - intros Hv. rewrite del_from_absent by done. simpl. by destruct com.
  - intros l1 l2 -> Hv. rewrite del_from_spec by done.
    destruct (Z.ltb_spec (zlen l2) 2).
    + rewrite (proj2 (Z.leb_gt 2 (zlen l2))) by lia. done.
    + rewrite (proj2 (Z.leb_le 2 (zlen l2))) by lia. done.
Qed.

(** ** Printing *)
Fixpoint render_rest (l : list Z) : text :=
  match l with [] => [] | v :: r => ch_space :: value_text v ++ render_rest r end.
Definition render_com (l : list Z) : text :=
  match l with [] => [] | v :: r => value_text v ++ render_rest r end.

Lemma value_text_room v : zlen (value_text v) + 1 <= room_for v.
Proof.
  unfold value_text, room_for. destruct (word_of v) as [w|]; [zlen|].
  rewrite zlen_app, zlen_cons.
  assert (Hr : forall x, is_u16 (Z.land x 65535)).
  { intros x. change 65535 with (Z.ones 16). rewrite Z.land_ones by lia. apply u16_range. }
  pose proof (print_u_length16 _ (Hr (Z.shiftr v 16))). pose proof (print_u_length16 _ (Hr v)).
  change (zlen (codes " 65536:65535")) with 12. lia.
Qed.

Lemma com2str_fill_rest len buf l :
  zlen buf + 1 + com2str_len l <= len ->
  com2str_fill len false buf l = Ret (buf ++ render_rest l).
Proof.
  revert buf. induction l as [|v l IH]; intros buf Hl; simpl in *.
  - case_test; [|lia]. by rewrite app_nil_r.
  - pose proof (value_text_room v). pose proof (zlen_nonneg (value_text v)).
    assert (0 <= com2str_len l).
    { clear. induction l as [|v l IH]; simpl; [done|].
      pose proof (value_text_room v). pose proof (zlen_nonneg (value_text v)). lia. }
    case_test; [|lia]. cbn [mbind res_bind]. unfold put_str. case_test; [|zlen].
    cbn [mbind res_bind]. rewrite IH by zlen. by rewrite <- !app_assoc.
Qed.

(** [community_com2str] fills its buffer without overrunning it. *)
Lemma com2str_render com :
  community_com2str (Some com) = Ret (Some (render_com (com_val com))).
Proof.
  unfold community_com2str, com_size. destruct (com_val com) as [|v l]; [done|].
  case_test; [pose proof (zlen_nonneg l); zlen|].
  cbn [com2str_fill com2str_len mbind res_bind]. pose proof (value_text_room v).
  assert (0 <= com2str_len l).
  { clear. induction l as [|v l IH]; simpl; [done|].
    pose proof (value_text_room v). pose proof (zlen_nonneg (value_text v)). lia. }
  unfold put_str. rewrite zlen_nil. case_test; [|lia]. cbn [mbind res_bind].
  rewrite com2str_fill_rest by (simpl; lia). done.
Qed.

(** ** Parsing *)
Lemma read_value_run ds p sep dig low high :
  Forall (fun c => isdigit c = true) ds -> ds <> [] ->
  read_value (ds ++ p) sep dig low high
  = read_value p sep true (foldl digit_step low ds) high.
Proof.
  intros Hd. revert dig low. induction Hd as [|c ds Hc Hd IH]; intros dig low Hne; [done|].
  simpl. assert (c =? ch_colon = false) as ->.
  { unfold isdigit, ch_colon in *. zify_bool. apply Z.eqb_neq. lia. }
  rewrite Hc. destruct ds as [|d ds]; [done|]. by rewrite IH.
Qed.

Definition ends_token (p : text) : bool :=
  match p with [] => true | c :: _ => isspace c end.

Lemma ends_token_value p sep dig low high :
  ends_token p = true -> read_value p sep dig low high = Some (dig, low, high, p).
Proof.
  destruct p as [|c p]; [done|]. simpl. unfold isspace, ch_colon, isdigit. intros H.
  assert (c = 32 \/ 9 <= c <= 13) as Hc.
  { apply orb_true_iff in H as [H|H]; zify_bool; lia. }
  rewrite (proj2 (Z.eqb_neq c 58)) by lia.
  replace ((48 <=? c) && (c <=? 57)) with false; [done|].
  symmetry. apply andb_false_iff. left. apply Z.leb_gt. lia.
Qed.

Lemma foldl_print_u n : is_u32 n -> foldl digit_step 0 (print_u n) = n.
Proof.
  intros Hn. unfold print_u. rewrite decimal_foldl by (unfold is_u32 in Hn; simpl; lia).
  by apply u32_id.
Qed.

Lemma digit_start c :
  isdigit c = true -> isspace c = false /\ isalpha c = false.
Proof.
  unfold isdigit, isspace, isalpha. intros H. zify_bool. split.
  - apply orb_false_iff. split; [apply andb_false_iff; right; apply Z.leb_gt|apply Z.eqb_neq]; lia.
  - apply orb_false_iff. split; apply andb_false_iff; left; apply Z.leb_gt; lia.
Qed.

(** A pair of decimal numbers and what [community_gettoken] makes of it. *)
Lemma gettoken_pair a b p token val :
  is_u32 a -> is_u32 b -> ends_token p = true ->
  community_gettoken (print_u a ++ ch_colon :: print_u b ++ p) token val
  = (Some p, community_token_val, u32 (u32 (Z.shiftl a 16) + b)).
Proof.
  intros Ha Hb Hp. unfold is_u32 in *.
  destruct (print_u_cons a) as (c & r & Hc & Hd); [lia|].
  destruct (digit_start c Hd) as [Hsp Hal].
  assert (Hrd : read_value (print_u a ++ ch_colon :: print_u b ++ p) false false 0 0
                = Some (true, b, u32 (Z.shiftl a 16), p)).
  { rewrite read_value_run by (auto using print_u_nonempty; apply print_u_isdigit; lia).
    rewrite foldl_print_u by done. cbn [read_value]. rewrite Z.eqb_refl.
    rewrite read_value_run by (auto using print_u_nonempty; apply print_u_isdigit; lia).
    rewrite foldl_print_u by done. by apply ends_token_value. }
  unfold community_gettoken. rewrite Hc in *. simpl app in *. cbn [skip_space].
  rewrite Hsp, Hal, Hd, Hrd. done.
Qed.

Lemma as_val_split v : is_u32 v ->
  u32 (u32 (Z.shiftl (Z.land (Z.shiftr v 16) 65535) 16) + Z.land v 65535) = v.
Proof.
  unfold is_u32. intros Hv. change 65535 with (Z.ones 16).
  rewrite !Z.land_ones, Z.shiftr_div_pow2, Z.shiftl_mul_pow2 by lia.
  unfold u32. rewrite Zplus_mod_idemp_l.
  rewrite (Z.mod_small (v / 2 ^ 16)).
  - replace (v / 2 ^ 16 * 2 ^ 16 + v mod 2 ^ 16) with v by (pose proof (Z.div_mod v (2 ^ 16)); lia).
    by apply Z.mod_small.
  - split; [apply Z.div_pos; lia|]. apply Z.div_lt_upper_bound; lia.
Qed.

(** Reading back one printed value. *)
Lemma gettoken_value v p token val :
  is_u32 v -> ends_token p = true ->
  exists t, community_gettoken (value_text v ++ p) token val = (Some p, t, v) /\
    t <> community_token_unknown.
Proof.
  intros Hv Hp. unfold value_text, word_of.
  repeat (case_test; [subst; eexists; split; [cbn; rewrite ?drop_0; reflexivity|done]|]).
  rewrite <- app_assoc. cbn [app].
  assert (Hr : forall x, is_u32 (Z.land x 65535)).
  { intros x. change 65535 with (Z.ones 16). rewrite Z.land_ones by lia.
    apply is_u16_u32, u16_range. }
  rewrite gettoken_pair, as_val_split by auto. by eexists.
Qed.

Lemma ends_token_rest l : ends_token (render_rest l) = true.
Proof. by destruct l. Qed.

(** The variable [val] after reading [l]. *)
Fixpoint final (v : Z) (l : list Z) : Z :=
  match l with [] => v | x :: r => final x r end.

Lemma final_elem v l : final v l ∈ v :: l.
Proof.
  revert v. induction l as [|x r IH]; intros v; simpl; [left|].
  right. apply IH.
Qed.

(** The loop reads the values one by one, and the last one once more at the
    end of the line, where the tokenizer leaves its variables alone. *)
Lemma str2com_rest l : forall fuel t v0 com,
  Forall is_u32 l -> (length (render_rest l) < fuel)%nat -> t <> community_token_unknown ->
  str2com_loop fuel (render_rest l) t v0 com
  = Some (Some (set_val com (com_val com ++ l ++ [final v0 l]))).
Proof.
  induction l as [|v l IH]; intros fuel t v0 com Hl Hf Ht; (destruct fuel as [|fuel]; [lia|]).
  - simpl. by destruct t.
  - apply Forall_cons in Hl as [Hv Hl].
    destruct (gettoken_value v (render_rest l) t v0 Hv (ends_token_rest l)) as (t' & Hg & Ht').
    cbn [str2com_loop render_rest].
    change (community_gettoken (ch_space :: value_text v ++ render_rest l) t v0)
      with (community_gettoken (value_text v ++ render_rest l) t v0).
    rewrite Hg. simpl in Hf. rewrite length_app in Hf.
    assert (Hloop : str2com_loop fuel (render_rest l) t' v (community_add_val com v)
      = Some (Some (set_val com (com_val com ++ (v :: l) ++ [final v0 (v :: l)])))).
    { rewrite IH by (done || lia). unfold set_val, community_add_val. simpl.
      by rewrite <- app_assoc. }
    by destruct t'.
Qed.

Lemma str2com_render v l :
  Forall is_u32 (v :: l) ->
  community_str2com (render_com (v :: l))
  = Some (community_uniq_sort (Some (Community 0 (v :: l ++ [final v l]) None))).
Proof.
  intros [Hv Hl]%Forall_cons. unfold community_str2com.
  destruct (gettoken_value v (render_rest l) community_token_unknown 0 Hv (ends_token_rest l))
    as (t' & Hg & Ht').
  cbn [str2com_loop render_com]. rewrite Hg.
  assert (length (value_text v) <> O).
  { unfold value_text, word_of. repeat (case_test; [done|]). rewrite length_app. cbn [length]. lia. }
  assert (Hloop : str2com_loop (length (value_text v ++ render_rest l)) (render_rest l) t' v
      (community_add_val community_new v)
    = Some (Some (Community 0 (v :: l ++ [final v l]) None))).
  { rewrite str2com_rest; [done|done|rewrite length_app; lia|done]. }
  destruct t'; [by rewrite Hloop..|done].
Qed.

(** C22. Printing a community and parsing the text: [community_com2str] never
    writes past the buffer it has measured, and for a non-empty community with
    sorted values, as interning keeps them, [community_str2com] of the text
    gives back exactly these values. *)
Theorem community_text_roundtrip com :
  com_val com <> [] -> Forall is_u32 (com_val com) -> StronglySorted Z.lt (com_val com) ->
  exists s, community_com2str (Some com) = Ret (Some s) /\
    community_str2com s = Some (Some (Community 0 (com_val com) None)).
Proof.
  intros Hne Hu Hs. eexists. split; [apply com2str_render|].
  destruct (com_val com) as [|v l]; [done|]. rewrite str2com_render by done.
  destruct (uniq_sort_spec (Community 0 (v :: l ++ [final v l]) None)) as (new & -> & Hr & Hstr & Hsort & Hel).
  do 2 f_equal. destruct new as [n vals st]. simpl in *. subst. f_equal.
  apply strictly_sorted_unique; auto. intros x. rewrite Hel.
  pose proof (final_elem v l) as Hf. rewrite !elem_of_cons, elem_of_app, list_elem_of_singleton in *.
  naive_solver.
Qed.

Lemma community_text_roundtrip_witness :
  exists s, community_com2str (Some (Community 3 [0; 65537; 4259905535; 4294967041] None)) = Ret (Some s) /\
    community_str2com s
    = Some (Some (Community 0 [0; 65537; 4259905535; 4294967041] None)).
Proof.
  apply (community_text_roundtrip (Community 3 [0; 65537; 4259905535; 4294967041] None));
    [done|by_eval|repeat constructor; lia].
Defined.

(** What the tokenizer makes of [a:b] for any two numbers: the value
    [65536 a + b] modulo 2^32, so numbers above 65535 on either side are not
    rejected but alias other communities. *)
Theorem community_pair_value a b :
  is_u32 a -> is_u32 b ->
  community_str2com (print_u a ++ ch_colon :: print_u b)
  = Some (Some (Community 0 [u32 (65536 * a + b)] None)).
Proof.
  intros Ha Hb. unfold community_str2com.
  pose proof (gettoken_pair a b [] community_token_unknown 0 Ha Hb eq_refl) as Hg.
  rewrite app_nil_r in Hg. cbn [str2com_loop]. rewrite Hg.
  assert (length (print_u a) <> O) by (pose proof (print_u_nonempty a); by destruct (print_u a)).
  replace (u32 (u32 (Z.shiftl a 16) + b)) with (u32 (65536 * a + b))
    by (rewrite Z.shiftl_mul_pow2 by lia; unfold u32; rewrite Zplus_mod_idemp_l; f_equal; lia).
  destruct (length (print_u a ++ ch_colon :: print_u b)) as [|n] eqn:E;
    [rewrite length_app in E; simpl in E; lia|].
  generalize (u32 (65536 * a + b)). intros v. cbn. unfold community_include. cbn.
  by rewrite Z.eqb_refl.
Qed.

Lemma community_pair_value_witness :
  community_str2com (print_u 70000 ++ ch_colon :: print_u 1)
  = Some (Some (Community 0 [u32 (65536 * 70000 + 1)] None)).
Proof. apply (community_pair_value 70000 1); by_eval. Defined.

(** ** Interning *)
Definition community_fill_str (com : community) : res community :=
  match com_str com with
  | Some _ => Ret com
  | None => s ← community_com2str (Some com); Ret (Community (com_refcnt com) (com_val com) s)
  end.

Lemma community_cmp_val a b : community_cmp (Some a) (Some b) = true <-> com_val a = com_val b.
Proof.
  simpl. unfold com_size. rewrite andb_true_iff, bool_decide_eq_true, Z.eqb_eq.
  split; [by intros [_ ?]|]. by intros ->.
Qed.

#[export] Program Instance community_hashable : Hashable community := {|
  hash_key := community_hash_make;
  hash_cmp a b := community_cmp (Some a) (Some b);
  hash_valid _ := True
|}.
Next Obligation. intros a b _ _ H%community_cmp_val. unfold community_hash_make. by rewrite H. Qed.
Next Obligation. intros a. by apply community_cmp_val. Qed.
Next Obligation. intros a b H%community_cmp_val. by apply community_cmp_val. Qed.
Next Obligation.
  intros a b c H%community_cmp_val H'%community_cmp_val. apply community_cmp_val. congruence.
Qed.

#[export] Program Instance community_internable : Internable community := {|
  refcnt_of := com_refcnt;
  set_refcnt c n := Community n (com_val c) (com_str c);
  fill_str := community_fill_str
|}.
Next Obligation. done. Qed.
Next Obligation. intros a n. by apply community_cmp_val. Qed.
Next Obligation. done. Qed.
Next Obligation.
  intros a _. unfold community_fill_str. destruct (com_str a).
  - exists a. split_and!; [done|by apply community_cmp_val|done..].
  - rewrite com2str_render. eexists. split; [done|]. split_and!; [by apply community_cmp_val|done..].
Qed.

Definition community_intern : gmap addr community -> hash -> addr -> res (gmap addr community * hash * addr) :=
  intern (A := community).
Definition community_unintern
  : gmap addr community -> hash -> addr -> res (gmap addr community * hash * option addr) :=
  unintern (A := community).

(** The values of an attribute of [4 n] octets. *)
Fixpoint community_values (bs : list Z) : list Z :=
  match bs with
  | a :: b :: c :: d :: r => be_value [a; b; c; d] :: community_values r
  | _ => []
  end.

(** [community_parse]: NULL for a length that is no multiple of four; otherwise
    the sorted values are interned, in a new object at [p]. *)
Definition community_parse (m : gmap addr community) (h : hash) (p : addr) (pnt : list Z) (length : Z)
  : res (gmap addr community * hash * option addr) :=
  if negb (length mod 4 =? 0) then Ret (m, h, None)
  else
    bs ← zload pnt 0 length;
    match community_uniq_sort (Some (Community 0 (community_values bs) None)) with
    | None => Fault
    | Some new => '(m, h, q) ← community_intern (<[p := new]> m) h p; Ret (m, h, Some q)
    end.

(** [community_parse] of an attribute value whose length is a multiple of
    four returns a pointer to an interned community holding exactly the set of
    values of the attribute, sorted; if the pool already has that community the
    pointer is the one other routes hold. *)
Theorem community_parse_spec m h held p bs :
  pool_rep m h held -> m !! p = None -> zlen held < 2 ^ 64 - 1 -> zlen bs mod 4 = 0 ->
  exists m' h' q c, community_parse m h p bs (zlen bs) = Ret (m', h', Some q) /\
    pool_rep m' h' (q :: held) /\ m' !! q = Some c /\ StronglySorted Z.lt (com_val c) /\
    (forall x, x ∈ com_val c <-> x ∈ community_values bs) /\
    (forall r d, r ∈ held -> m !! r = Some d -> com_val d = com_val c -> q = r).
Proof.
  intros Hrep Hp Hlen Hmod. unfold community_parse. rewrite Hmod. cbn [Z.eqb negb].
  rewrite zload_all. cbn [mbind res_bind].
  destruct (uniq_sort_spec (Community 0 (community_values bs) None))
    as (new & -> & Hr & _ & Hsort & Hel).
  destruct (intern_spec m h held p new) as (m' & h' & q & c & E & Hrep' & Hq & Hcmp & _ & Hsame); auto.
  { done. }
  unfold community_intern. rewrite E. cbn [mbind res_bind].
  apply community_cmp_val in Hcmp. exists m', h', q, c. rewrite Hcmp. split_and!; auto.
  intros r d Hrh Hd Hval. apply (Hsame r d); auto. by apply community_cmp_val.
Qed.

Lemma community_parse_spec_witness :
  exists m' h' q c, community_parse ∅ hash_create 1%positive [0; 1; 0; 2; 255; 255; 255; 1; 0; 1; 0; 2] 12
      = Ret (m', h', Some q) /\
    pool_rep m' h' [q] /\ m' !! q = Some c /\ StronglySorted Z.lt (com_val c) /\
    (forall x, x ∈ com_val c <-> x ∈ community_values [0; 1; 0; 2; 255; 255; 255; 1; 0; 1; 0; 2]) /\
    (forall r d, r ∈ [] -> (∅ : gmap addr community) !! r = Some d -> com_val d = com_val c -> q = r).
Proof.
  apply (community_parse_spec ∅ hash_create [] 1%positive [0; 1; 0; 2; 255; 255; 255; 1; 0; 1; 0; 2]);
    [by apply pool_rep_empty|done|done|done].
Defined.

Lemma intern_pool_refines_witness :
  let c l := Community 0 l None in
  let ops := [OpIntern (c [1; 2]); OpIntern (c [1; 2]); OpIntern (c [3]); OpUnintern 1] in
  exists m h held, pool_run (∅, hash_create_size 16, []) ops = Ret (m, h, held) /\
    Forall2 (points_to m) held (spec_run [] ops) /\
    (forall i j p q v w, held !! i = Some p -> held !! j = Some q ->
       spec_run [] ops !! i = Some v -> spec_run [] ops !! j = Some w ->
       p = q <-> hash_cmp v w = true) /\
    (forall p, is_Some (m !! p) <-> p ∈ held).
Proof.
  intros c ops. apply (@intern_pool_refines community community_internable 16 ops); [lia|repeat constructor|done].
Defined.
