(* ===== verification/Session.v ===== *)
(** * bgpd: the state of one BGP session

    [struct peer] as the state machine of bgp_fsm.c and the clearing of routes
    in bgp_route.c use it, the macros of bgp_fsm.h that start and stop threads
    and timers, [bgp_timer_set], and the reference count of the peer.

    Seconds, descriptors, flag words and counters are [Z] at the width of their
    field.  A timer is [Some] delay while its thread exists.  The output queue
    holds the messages in the order they were queued: Fifo.v shows that the
    chain of streams behaves as that list, Packet.v and Voting.v how the
    octets of a message are built.  The files and the global [toDrop] that a
    keepalive reads and writes are the daemon's, not the peer's: [shared] is what
    they are when the session looks.  What the functions of this component ask of
    the rest of the daemon without reading an answer is logged in [calls]. *)
From stdpp Require Import base option list gmap strings.
From Stdlib Require Import ZArith Lia.
From S2P Require Import Prelude Stream Files.

(** ** Enumerations *)

(** bgpd.h: [Idle] is 1, ..., [Deleted] is 8. *)
Inductive bgp_status :=
| Idle | Connect | Active | OpenSent | OpenConfirm | Established | Clearing | Deleted.

Inductive bgp_ev :=
| BGP_Start | BGP_Stop | TCP_connection_open | TCP_connection_closed
| TCP_connection_open_failed | TCP_fatal_error | ConnectRetry_timer_expired
| Hold_Timer_expired | KeepAlive_timer_expired | Receive_OPEN_message
| Receive_KEEPALIVE_message | Receive_UPDATE_message | Receive_NOTIFICATION_message
| Clearing_Completed.

Inductive timer :=
| t_start | t_connect | t_holdtime | t_keepalive | t_asorig | t_routeadv
| t_pmax_restart | t_gr_restart | t_gr_stale.

Inductive interval := v_start | v_holdtime | v_keepalive.
Inductive counter := established | dropped | keepalive_in | notify_out.
Inductive stamp := uptime | resettime | synctime | update_time.

#[export] Instance bgp_status_eq_dec : EqDecision bgp_status.
Proof. solve_decision. Defined.
#[export] Instance bgp_ev_eq_dec : EqDecision bgp_ev.
Proof. solve_decision. Defined.
#[export] Instance timer_eq_dec : EqDecision timer.
Proof. solve_decision. Defined.
#[export] Instance interval_eq_dec : EqDecision interval.
Proof. solve_decision. Defined.
#[export] Instance counter_eq_dec : EqDecision counter.
Proof. solve_decision. Defined.
#[export] Instance stamp_eq_dec : EqDecision stamp.
Proof. solve_decision. Defined.

Definition status_code (st : bgp_status) : Z :=
  match st with
  | Idle => 1 | Connect => 2 | Active => 3 | OpenSent => 4 | OpenConfirm => 5
  | Established => 6 | Clearing => 7 | Deleted => 8
  end.

(** Bits of [peer->sflags], [peer->cap] and [peer->af_cap]: the flag [1 << k]
    is tested, set and unset as bit [k]. *)
Definition PEER_STATUS_ACCEPT_PEER : Z := 0.
Definition PEER_STATUS_PREFIX_OVERFLOW : Z := 1.
Definition PEER_STATUS_CAPABILITY_OPEN : Z := 2.
Definition PEER_STATUS_GROUP : Z := 4.
Definition PEER_STATUS_NSF_MODE : Z := 5.
Definition PEER_STATUS_NSF_WAIT : Z := 6.

Definition PEER_CAP_REFRESH_ADV : Z := 0.
Definition PEER_CAP_DYNAMIC_ADV : Z := 3.
Definition PEER_CAP_RESTART_ADV : Z := 5.
Definition PEER_CAP_AS4_ADV : Z := 7.

Definition PEER_CAP_ORF_PREFIX_SM_ADV : Z := 0.
Definition PEER_CAP_ORF_PREFIX_RM_ADV : Z := 1.
Definition PEER_CAP_ORF_PREFIX_SM_RCV : Z := 2.
Definition PEER_CAP_ORF_PREFIX_RM_RCV : Z := 3.
Definition PEER_CAP_ORF_PREFIX_SM_OLD_RCV : Z := 4.
Definition PEER_CAP_ORF_PREFIX_RM_OLD_RCV : Z := 5.
Definition PEER_CAP_RESTART_AF_RCV : Z := 6.
Definition PEER_CAP_RESTART_AF_PRESERVE_RCV : Z := 7.

Definition PEER_STATUS_ORF_WAIT_REFRESH : Z := 1.

Definition BGP_INIT_START_TIMER : Z := 5.

(** Address families: [AFI_IP], [AFI_IP6] below [AFI_MAX] and
    [SAFI_UNICAST], [SAFI_MULTICAST], [SAFI_UNICAST_MULTICAST],
    [SAFI_MPLS_VPN] below [SAFI_MAX], in the order of the nested loops. *)
Definition SAFI_MPLS_VPN : Z := 4.
Definition families : list (Z * Z) :=
  [(1, 1); (1, 2); (1, 3); (1, 4); (2, 1); (2, 2); (2, 3); (2, 4)].
(** The same loops with [safi < SAFI_UNICAST_MULTICAST]. *)
Definition nsf_families : list (Z * Z) := [(1, 1); (1, 2); (2, 1); (2, 2)].

(** ** Data *)

(** What an administrator configures, on the peer and on its [struct bgp]. *)
Record config := Config {
  shutdown : bool; passive : bool; config_timer : bool;
  cf_keepalive : Z; cf_holdtime : Z; default_keepalive : Z; default_holdtime : Z;
  v_connect : Z; v_routeadv : Z; v_gr_restart : Z; stalepath_time : Z;
  dont_capability : bool; dynamic_capability : bool; graceful_restart : bool;
  afc : Z * Z -> bool;              (** [peer->afc] *)
  orf_sm : Z * Z -> bool; orf_rm : Z * Z -> bool;  (** ORF modes in [af_flags] *)
  orf_in : Z * Z -> bool;           (** an inbound prefix list is configured *)
  password : bool;
  my_rsclient : Z * Z -> bool;      (** families it is a route server client in *)
  af_group : Z * Z -> bool;         (** families configured by its peer group *)
  my_id : Z;                        (** the address of the peer object *)
  rsclients : list (Z * (Z * Z -> bool));
                  (** [bgp->rsclient]: who, and the families it is a client in *)
  rds : Z * Z -> list Z;            (** route distinguishers with a table *)
  my_as : Z;                        (** [peer->as] *)
  my_host : Z;                      (** the address of [peer->host] *)
}.

(** The per-family arrays of [struct peer]. *)
Record family := Family {
  afc_nego : bool; afc_adv : bool; afc_recv : bool;
  af_cap : Z; af_sflags : Z; orf_plist : bool; nsf : bool;
}.

(** The messages the session queues: those built in Packet.v as their streams,
    the others by what they say. *)
Inductive msg :=
| MOpen (holdtime : Z)
| MPacket (s : stream)
| MNotify (code sub_code : Z) (data : list Z)
| MRefresh (af : Z * Z) (old : bool).

(** A table of routes: the main one of a family, one below a route
    distinguisher, or that of a route server client. *)
Inductive tid :=
| TMain (af : Z * Z) | TVpn (af : Z * Z) (rd : Z) | TClient (c : Z) (af : Z * Z).
#[export] Instance tid_eq_dec : EqDecision tid.
Proof. solve_decision. Defined.

(** A node of a table: its paths as (peer, flags), the peers with an entry in
    its adj-in and adj-out lists, and its reference count. *)
Record rib_node := RibNode {
  rn_id : Z; rn_info : list (Z * Z); rn_in : list Z; rn_out : list Z; rn_lock : Z;
}.
Record rib_table := RibTable { tbl_lock : Z; tbl_nodes : list rib_node }.

Inductive clear_purpose := BGP_CLEAR_ROUTE_NORMAL | BGP_CLEAR_ROUTE_MY_RSCLIENT.

(** [struct bgp_clear_node_queue] and the work queue that holds them. *)
Record clear_item := ClearItem { ci_table : tid; ci_node : Z; ci_purpose : clear_purpose }.
Record clear_queue := ClearQueue { cq_items : list clear_item; cq_thread : bool }.

(** The lists that hold a reference on the peer. *)
Inductive holder := HGroup | HPeerList | HRsclient.
#[export] Instance holder_eq_dec : EqDecision holder.
Proof. solve_decision. Defined.

(** Requests to other parts of the daemon. *)
Inductive call :=
| CGetsockname
| CAnnounceAll
| CProcess (t : tid) (rn : Z)       (** [bgp_process] of a node *)
| COrfRemove (af : Z * Z)           (** [prefix_bgp_orf_remove_all] *)
| CClose (fd : Z)
| CDumpState (old new : bgp_status)
| CMd5Set.

(** What all sessions share: the files and the address of the [host] whose link
    is dropped. *)
Record globals := Globals { g_files : filesystem; g_toDrop : option Z }.

Record session := Session {
  conf : config;
  status : bgp_status;
  ostatus : bgp_status;
  fd : Z;
  t_read : bool;
  t_write : bool;
  timers : timer -> option Z;
  v : interval -> Z;
  sflags : Z;
  cap : Z;
  counters : counter -> Z;
  clock : stamp -> Z;
  fams : Z * Z -> family;
  packet_size : Z;
  ibuf : option stream;
  work : option stream;
  obuf : option (list msg);
  last_reset : Z;
  peer_remote_id : Z;
  events : list bgp_ev;
  lock : Z;
  tables : tid -> option rib_table;
  clear_node_queue : option clear_queue;
  refs : list holder;
  calls : list call;
  shared : globals;
}.

Definition set_status (s : session) (x : bgp_status) : session :=
  Session (conf s) x (ostatus s) (fd s) (t_read s) (t_write s) (timers s) (v s) (sflags s)
    (cap s) (counters s) (clock s) (fams s) (packet_size s) (ibuf s) (work s) (obuf s)
    (last_reset s) (peer_remote_id s) (events s) (lock s) (tables s) (clear_node_queue s)
    (refs s) (calls s) (shared s).
Definition set_ostatus (s : session) (x : bgp_status) : session :=
  Session (conf s) (status s) x (fd s) (t_read s) (t_write s) (timers s) (v s) (sflags s)
    (cap s) (counters s) (clock s) (fams s) (packet_size s) (ibuf s) (work s) (obuf s)
    (last_reset s) (peer_remote_id s) (events s) (lock s) (tables s) (clear_node_queue s)
    (refs s) (calls s) (shared s).
Definition set_fd (s : session) (x : Z) : session :=
  Session (conf s) (status s) (ostatus s) x (t_read s) (t_write s) (timers s) (v s)
    (sflags s) (cap s) (counters s) (clock s) (fams s) (packet_size s) (ibuf s) (work s)
    (obuf s) (last_reset s) (peer_remote_id s) (events s) (lock s) (tables s)
    (clear_node_queue s) (refs s) (calls s) (shared s).
Definition set_t_read (s : session) (x : bool) : session :=
  Session (conf s) (status s) (ostatus s) (fd s) x (t_write s) (timers s) (v s) (sflags s)
    (cap s) (counters s) (clock s) (fams s) (packet_size s) (ibuf s) (work s) (obuf s)
    (last_reset s) (peer_remote_id s) (events s) (lock s) (tables s) (clear_node_queue s)
    (refs s) (calls s) (shared s).
Definition set_t_write (s : session) (x : bool) : session :=
  Session (conf s) (status s) (ostatus s) (fd s) (t_read s) x (timers s) (v s) (sflags s)
    (cap s) (counters s) (clock s) (fams s) (packet_size s) (ibuf s) (work s) (obuf s)
    (last_reset s) (peer_remote_id s) (events s) (lock s) (tables s) (clear_node_queue s)
    (refs s) (calls s) (shared s).
Definition set_timers (s : session) (x : timer -> option Z) : session :=
  Session (conf s) (status s) (ostatus s) (fd s) (t_read s) (t_write s) x (v s) (sflags s)
    (cap s) (counters s) (clock s) (fams s) (packet_size s) (ibuf s) (work s) (obuf s)
    (last_reset s) (peer_remote_id s) (events s) (lock s) (tables s) (clear_node_queue s)
    (refs s) (calls s) (shared s).
Definition set_v_all (s : session) (x : interval -> Z) : session :=
  Session (conf s) (status s) (ostatus s) (fd s) (t_read s) (t_write s) (timers s) x
    (sflags s) (cap s) (counters s) (clock s) (fams s) (packet_size s) (ibuf s) (work s)
    (obuf s) (last_reset s) (peer_remote_id s) (events s) (lock s) (tables s)
    (clear_node_queue s) (refs s) (calls s) (shared s).
Definition set_sflags (s : session) (x : Z) : session :=
  Session (conf s) (status s) (ostatus s) (fd s) (t_read s) (t_write s) (timers s) (v s) x
    (cap s) (counters s) (clock s) (fams s) (packet_size s) (ibuf s) (work s) (obuf s)
    (last_reset s) (peer_remote_id s) (events s) (lock s) (tables s) (clear_node_queue s)
    (refs s) (calls s) (shared s).
Definition set_cap (s : session) (x : Z) : session :=
  Session (conf s) (status s) (ostatus s) (fd s) (t_read s) (t_write s) (timers s) (v s)
    (sflags s) x (counters s) (clock s) (fams s) (packet_size s) (ibuf s) (work s) (obuf s)
    (last_reset s) (peer_remote_id s) (events s) (lock s) (tables s) (clear_node_queue s)
    (refs s) (calls s) (shared s).
Definition set_counters (s : session) (x : counter -> Z) : session :=
  Session (conf s) (status s) (ostatus s) (fd s) (t_read s) (t_write s) (timers s) (v s)
    (sflags s) (cap s) x (clock s) (fams s) (packet_size s) (ibuf s) (work s) (obuf s)
    (last_reset s) (peer_remote_id s) (events s) (lock s) (tables s) (clear_node_queue s)
    (refs s) (calls s) (shared s).
Definition set_clock_all (s : session) (x : stamp -> Z) : session :=
  Session (conf s) (status s) (ostatus s) (fd s) (t_read s) (t_write s) (timers s) (v s)
    (sflags s) (cap s) (counters s) x (fams s) (packet_size s) (ibuf s) (work s) (obuf s)
    (last_reset s) (peer_remote_id s) (events s) (lock s) (tables s) (clear_node_queue s)
    (refs s) (calls s) (shared s).
Definition set_fams (s : session) (x : Z * Z -> family) : session :=
  Session (conf s) (status s) (ostatus s) (fd s) (t_read s) (t_write s) (timers s) (v s)
    (sflags s) (cap s) (counters s) (clock s) x (packet_size s) (ibuf s) (work s) (obuf s)
    (last_reset s) (peer_remote_id s) (events s) (lock s) (tables s) (clear_node_queue s)
    (refs s) (calls s) (shared s).
Definition set_packet_size (s : session) (x : Z) : session :=
  Session (conf s) (status s) (ostatus s) (fd s) (t_read s) (t_write s) (timers s) (v s)
    (sflags s) (cap s) (counters s) (clock s) (fams s) x (ibuf s) (work s) (obuf s)
    (last_reset s) (peer_remote_id s) (events s) (lock s) (tables s) (clear_node_queue s)
    (refs s) (calls s) (shared s).
Definition set_ibuf (s : session) (x : option stream) : session :=
  Session (conf s) (status s) (ostatus s) (fd s) (t_read s) (t_write s) (timers s) (v s)
    (sflags s) (cap s) (counters s) (clock s) (fams s) (packet_size s) x (work s) (obuf s)
    (last_reset s) (peer_remote_id s) (events s) (lock s) (tables s) (clear_node_queue s)
    (refs s) (calls s) (shared s).
Definition set_work (s : session) (x : option stream) : session :=
  Session (conf s) (status s) (ostatus s) (fd s) (t_read s) (t_write s) (timers s) (v s)
    (sflags s) (cap s) (counters s) (clock s) (fams s) (packet_size s) (ibuf s) x (obuf s)
    (last_reset s) (peer_remote_id s) (events s) (lock s) (tables s) (clear_node_queue s)
    (refs s) (calls s) (shared s).
Definition set_obuf (s : session) (x : option (list msg)) : session :=
  Session (conf s) (status s) (ostatus s) (fd s) (t_read s) (t_write s) (timers s) (v s)
    (sflags s) (cap s) (counters s) (clock s) (fams s) (packet_size s) (ibuf s) (work s) x
    (last_reset s) (peer_remote_id s) (events s) (lock s) (tables s) (clear_node_queue s)
    (refs s) (calls s) (shared s).
Definition set_last_reset (s : session) (x : Z) : session :=
  Session (conf s) (status s) (ostatus s) (fd s) (t_read s) (t_write s) (timers s) (v s)
    (sflags s) (cap s) (counters s) (clock s) (fams s) (packet_size s) (ibuf s) (work s)
    (obuf s) x (peer_remote_id s) (events s) (lock s) (tables s) (clear_node_queue s)
    (refs s) (calls s) (shared s).
Definition set_peer_remote_id (s : session) (x : Z) : session :=
  Session (conf s) (status s) (ostatus s) (fd s) (t_read s) (t_write s) (timers s) (v s)
    (sflags s) (cap s) (counters s) (clock s) (fams s) (packet_size s) (ibuf s) (work s)
    (obuf s) (last_reset s) x (events s) (lock s) (tables s) (clear_node_queue s) (refs s)
    (calls s) (shared s).
Definition set_events (s : session) (x : list bgp_ev) : session :=
  Session (conf s) (status s) (ostatus s) (fd s) (t_read s) (t_write s) (timers s) (v s)
    (sflags s) (cap s) (counters s) (clock s) (fams s) (packet_size s) (ibuf s) (work s)
    (obuf s) (last_reset s) (peer_remote_id s) x (lock s) (tables s) (clear_node_queue s)
    (refs s) (calls s) (shared s).
Definition set_lock (s : session) (x : Z) : session :=
  Session (conf s) (status s) (ostatus s) (fd s) (t_read s) (t_write s) (timers s) (v s)
    (sflags s) (cap s) (counters s) (clock s) (fams s) (packet_size s) (ibuf s) (work s)
    (obuf s) (last_reset s) (peer_remote_id s) (events s) x (tables s) (clear_node_queue s)
    (refs s) (calls s) (shared s).
Definition set_tables (s : session) (x : tid -> option rib_table) : session :=
  Session (conf s) (status s) (ostatus s) (fd s) (t_read s) (t_write s) (timers s) (v s)
    (sflags s) (cap s) (counters s) (clock s) (fams s) (packet_size s) (ibuf s) (work s)
    (obuf s) (last_reset s) (peer_remote_id s) (events s) (lock s) x (clear_node_queue s)
    (refs s) (calls s) (shared s).
Definition set_clear_node_queue (s : session) (x : option clear_queue) : session :=
  Session (conf s) (status s) (ostatus s) (fd s) (t_read s) (t_write s) (timers s) (v s)
    (sflags s) (cap s) (counters s) (clock s) (fams s) (packet_size s) (ibuf s) (work s)
    (obuf s) (last_reset s) (peer_remote_id s) (events s) (lock s) (tables s) x (refs s)
    (calls s) (shared s).
Definition set_refs (s : session) (x : list holder) : session :=
  Session (conf s) (status s) (ostatus s) (fd s) (t_read s) (t_write s) (timers s) (v s)
    (sflags s) (cap s) (counters s) (clock s) (fams s) (packet_size s) (ibuf s) (work s)
    (obuf s) (last_reset s) (peer_remote_id s) (events s) (lock s) (tables s)
    (clear_node_queue s) x (calls s) (shared s).
Definition set_calls (s : session) (x : list call) : session :=
  Session (conf s) (status s) (ostatus s) (fd s) (t_read s) (t_write s) (timers s) (v s)
    (sflags s) (cap s) (counters s) (clock s) (fams s) (packet_size s) (ibuf s) (work s)
    (obuf s) (last_reset s) (peer_remote_id s) (events s) (lock s) (tables s)
    (clear_node_queue s) (refs s) x (shared s).
Definition set_shared (s : session) (x : globals) : session :=
  Session (conf s) (status s) (ostatus s) (fd s) (t_read s) (t_write s) (timers s) (v s)
    (sflags s) (cap s) (counters s) (clock s) (fams s) (packet_size s) (ibuf s) (work s)
    (obuf s) (last_reset s) (peer_remote_id s) (events s) (lock s) (tables s)
    (clear_node_queue s) (refs s) (calls s) x.

(** Assignment to one element of an array. *)
Definition upd {A B} `{EqDecision A} (f : A -> B) (a : A) (b : B) : A -> B :=
  fun x => if decide (x = a) then b else f x.

Lemma upd_eq {A B} `{EqDecision A} (f : A -> B) a b : upd f a b a = b.
Proof. unfold upd. by rewrite decide_True. Qed.
Lemma upd_ne {A B} `{EqDecision A} (f : A -> B) a b x : x <> a -> upd f a b x = f x.
Proof. intros. unfold upd. by rewrite decide_False. Qed.

Definition log (s : session) (c : call) : session := set_calls s (calls s ++ [c]).
Definition set_v (s : session) (i : interval) (x : Z) : session :=
  set_v_all s (upd (v s) i x).
Definition set_clock (s : session) (i : stamp) (x : Z) : session :=
  set_clock_all s (upd (clock s) i x).
Definition count_up (s : session) (c : counter) : session :=
  set_counters s (upd (counters s) c (u32 (counters s c + 1))).
Definition set_fam (s : session) (af : Z * Z) (f : family) : session :=
  set_fams s (upd (fams s) af f).
Definition set_table (s : session) (t : tid) (x : rib_table) : session :=
  set_tables s (upd (tables s) t (Some x)).
Definition sflag (s : session) (k : Z) : bool := Z.testbit (sflags s) k.

(** ** bgp_fsm.h: threads, timers and events *)
Definition BGP_READ_ON (s : session) : session :=
  if negb (t_read s) && bool_decide (status s <> Deleted) then set_t_read s true else s.
Definition BGP_READ_OFF (s : session) : session := set_t_read s false.
Definition BGP_WRITE_ON (s : session) : session :=
  if negb (t_write s) && bool_decide (status s <> Deleted) then set_t_write s true else s.
Definition BGP_WRITE_OFF (s : session) : session := set_t_write s false.

Definition BGP_TIMER_ON (s : session) (t : timer) (delay : Z) : session :=
  match timers s t with
  | None => if bool_decide (status s <> Deleted)
            then set_timers s (upd (timers s) t (Some delay)) else s
  | Some _ => s
  end.
Definition BGP_TIMER_OFF (s : session) (t : timer) : session :=
  set_timers s (upd (timers s) t None).

Definition BGP_EVENT_ADD (s : session) (e : bgp_ev) : session :=
  if bool_decide (status s <> Deleted) then set_events s (events s ++ [e]) else s.
Definition BGP_EVENT_FLUSH (s : session) : session := set_events s [].

Fixpoint timers_off (s : session) (ts : list timer) : session :=
  match ts with [] => s | t :: ts => timers_off (BGP_TIMER_OFF s t) ts end.

(** ** bgp_timer_set *)

Definition BGP_PEER_START_SUPPRESSED (s : session) : bool :=
  shutdown (conf s) || sflag s PEER_STATUS_PREFIX_OVERFLOW.

Definition peer_active (s : session) : bool :=
  afc (conf s) (1, 1) || afc (conf s) (1, 2) || afc (conf s) (1, 4)
  || afc (conf s) (2, 1) || afc (conf s) (2, 2).

(** [(rand () % (time + 1)) - (time / 2)] *)
Definition bgp_start_jitter (rand time : Z) : Z := Z.rem rand (time + 1) - time ÷ 2.

(** [rand] is what [rand ()] returns if it is called.  Delays are converted to
    [unsigned long]; [v_start] is a [u_int32_t]. *)
Definition bgp_timer_set (rand : Z) (s : session) : session :=
  match status s with
  | Idle =>
      let s := if BGP_PEER_START_SUPPRESSED s || negb (peer_active s)
               then BGP_TIMER_OFF s t_start
               else BGP_TIMER_ON s t_start
                      (u32 (v s v_start + bgp_start_jitter rand (i32 (v s v_start)))) in
      timers_off s [t_connect; t_holdtime; t_keepalive; t_asorig; t_routeadv]
  | Connect =>
      let s := BGP_TIMER_OFF s t_start in
      let s := BGP_TIMER_ON s t_connect (v_connect (conf s)) in
      timers_off s [t_holdtime; t_keepalive; t_asorig; t_routeadv]
  | Active =>
      let s := BGP_TIMER_OFF s t_start in
      let s := if passive (conf s) || sflag s PEER_STATUS_NSF_WAIT
               then BGP_TIMER_OFF s t_connect
               else BGP_TIMER_ON s t_connect (v_connect (conf s)) in
      timers_off s [t_holdtime; t_keepalive; t_asorig; t_routeadv]
  | OpenSent =>
      let s := timers_off s [t_start; t_connect] in
      let s := if negb (v s v_holdtime =? 0)
               then BGP_TIMER_ON s t_holdtime (v s v_holdtime)
               else BGP_TIMER_OFF s t_holdtime in
      timers_off s [t_keepalive; t_asorig; t_routeadv]
  | OpenConfirm =>
      let s := timers_off s [t_start; t_connect] in
      let s := if v s v_holdtime =? 0 then timers_off s [t_holdtime; t_keepalive]
               else BGP_TIMER_ON (BGP_TIMER_ON s t_holdtime (v s v_holdtime))
                      t_keepalive (v s v_keepalive) in
      timers_off s [t_asorig; t_routeadv]
  | Established =>
      let s := timers_off s [t_start; t_connect] in
      let s := if v s v_holdtime =? 0 then timers_off s [t_holdtime; t_keepalive]
               else BGP_TIMER_ON (BGP_TIMER_ON s t_holdtime (v s v_holdtime))
                      t_keepalive (v s v_keepalive) in
      timers_off s [t_asorig]
  | Deleted =>
      let s := timers_off s [t_gr_restart; t_gr_stale; t_pmax_restart] in
      timers_off s [t_start; t_connect; t_holdtime; t_keepalive; t_asorig; t_routeadv]
  | Clearing =>
      timers_off s [t_start; t_connect; t_holdtime; t_keepalive; t_asorig; t_routeadv]
  end.

(** ** The reference count

    A peer whose count is zero is freed. *)
Definition peer_free (s : session) : res session :=
  _ ← cassert (bool_decide (status s = Deleted));
  let s := bgp_timer_set 0 s in
  let s := BGP_EVENT_FLUSH (BGP_WRITE_OFF (BGP_READ_OFF s)) in
  Ret (set_clear_node_queue s None).

Definition peer_lock (s : session) : res session :=
  _ ← cassert (0 <=? lock s);
  Ret (set_lock s (lock s + 1)).

Definition peer_unlock (s : session) : res session :=
  _ ← cassert (0 <? lock s);
  let s := set_lock s (lock s - 1) in
  if lock s =? 0 then peer_free s else Ret s.

(** ** A new session

    [peer_new] and the rest of [peer_create]; [mem] is what the allocator hands
    out for the two buffers, [tb] are the tables of the BGP instance and [g] what the
    sessions share. *)
Definition BGP_MAX_PACKET : Z := 4096.

Definition no_family : family := Family false false false 0 0 false false.

Definition peer_new (c : config) (mem : list Z) (tb : tid -> option rib_table)
    (g : globals) : res session :=
  ib ← stream_new mem BGP_MAX_PACKET;
  wk ← stream_new mem BGP_MAX_PACKET;
  let s := Session c Idle Idle (-1) false false (fun _ => None)
             (upd (fun _ => 0) v_start BGP_INIT_START_TIMER) 0 0 (fun _ => 0) (fun _ => 0)
             (fun _ => no_family) 0 (Some ib) (Some wk) (Some []) 0 0 [] 0 tb None [] [] g in
  s ← peer_lock s;
  Ret (set_sflags s (Z.setbit (sflags s) PEER_STATUS_CAPABILITY_OPEN)).

Definition peer_create (rand now : Z) (c : config) (mem : list Z)
    (tb : tid -> option rib_table) (g : globals) : res session :=
  s ← peer_new c mem tb g;
  let s := set_v s v_holdtime (default_holdtime c) in
  let s := set_v s v_keepalive (default_keepalive c) in
  s ← peer_lock s;
  let s := set_refs s (refs s ++ [HPeerList]) in
  let s := set_clock s resettime now in
  Ret (if peer_active s then bgp_timer_set rand s else s).
