(* ===== verification/Clear.v ===== *)
(** * bgpd/bgp_route.c: clearing the routes of a session

    [bgp_clear_route_all] and the work queue behind it: every node with a path
    of the peer is queued, the queue marks the paths removed or stale, and its
    completion tells the state machine that it may leave [Clearing]. *)
From stdpp Require Import base option list.
From Stdlib Require Import ZArith Lia.
From S2P Require Import Prelude Stream Session.

(** Bits of [bgp_info->flags] used here; [BGP_INFO_UNUSEABLE] is
    history, damped or removed. *)
Definition INFO_DAMPED : Z := 1.
Definition INFO_HISTORY : Z := 2.
Definition INFO_VALID : Z := 4.
Definition INFO_STALE : Z := 8.
Definition INFO_REMOVED : Z := 9.
Definition unuseable (f : Z) : bool :=
  Z.testbit f INFO_HISTORY || Z.testbit f INFO_DAMPED || Z.testbit f INFO_REMOVED.

(** Whether an entry that belongs to [q] is to be cleared. *)
Definition clears (me : Z) (purpose : clear_purpose) (q : Z) : bool :=
  (q =? me) || match purpose with BGP_CLEAR_ROUTE_MY_RSCLIENT => true | _ => false end.

(** ** Filling the queue *)

(** The loops over adj-in and adj-out: the first entry that matches is removed
    and the loop ends. *)
Fixpoint remove_first (f : Z -> bool) (l : list Z) : option (list Z) :=
  match l with
  | [] => None
  | x :: r => if f x then Some r else cons x <$> remove_first f r
  end.

Definition with_rn_lock (n : rib_node) (k : Z) : rib_node :=
  RibNode (rn_id n) (rn_info n) (rn_in n) (rn_out n) k.
Definition with_rn_in (n : rib_node) (l : list Z) : rib_node :=
  RibNode (rn_id n) (rn_info n) l (rn_out n) (rn_lock n).
Definition with_rn_out (n : rib_node) (l : list Z) : rib_node :=
  RibNode (rn_id n) (rn_info n) (rn_in n) l (rn_lock n).
Definition with_rn_info (n : rib_node) (l : list (Z * Z)) : rib_node :=
  RibNode (rn_id n) l (rn_in n) (rn_out n) (rn_lock n).

(** [bgp_unlock_node]: with the last reference the node leaves its table, and
    [bgp_node_delete] asserts that it has no path. *)
Definition unlock_rn (n : rib_node) : res (option rib_node) :=
  _ ← cassert (0 <? rn_lock n);
  if rn_lock n - 1 =? 0
  then _ ← cassert (bool_decide (rn_info n = [])); Ret None
  else Ret (Some (with_rn_lock n (rn_lock n - 1))).

(** A node that is gone while the loop still works on it. *)
Definition still (r : res (option rib_node)) : res rib_node :=
  o ← r; match o with Some n => Ret n | None => Fault end.

(** The body of the loop over a table's nodes: whether the node is queued, and
    the node after it. *)
Definition clear_scan_node (me : Z) (purpose : clear_purpose) (n : rib_node)
    : res (bool * rib_node) :=
  if bool_decide (rn_info n = []) then Ret (false, n)
  else
    let hit := existsb (fun ri => clears me purpose ri.1) (rn_info n) in
    let n := if hit then with_rn_lock n (rn_lock n + 1) else n in
    n ← match remove_first (clears me purpose) (rn_in n) with
        | Some l => still (unlock_rn (with_rn_in n l))
        | None => Ret n
        end;
    n ← match remove_first (clears me purpose) (rn_out n) with
        | Some l => still (unlock_rn (with_rn_out n l))
        | None => Ret n
        end;
    Ret (hit, n).

(** The loop: the nodes queued, in order, and the table after it. *)
Fixpoint clear_scan (me : Z) (purpose : clear_purpose) (l : list rib_node)
    : res (list Z * list rib_node) :=
  match l with
  | [] => Ret ([], [])
  | n :: r =>
      '(hit, n) ← clear_scan_node me purpose n;
      '(ids, r) ← clear_scan me purpose r;
      Ret ((if hit : bool then [rn_id n] else []) ++ ids, n :: r)
  end.

(** [work_queue_add]: the queue is never plugged, so its thread is scheduled. *)
Definition clear_queue_add (q : clear_queue) (l : list clear_item) : clear_queue :=
  ClearQueue (cq_items q ++ l) (cq_thread q || bool_decide (l <> [])).

Definition the_queue (s : session) : clear_queue :=
  default (ClearQueue [] false) (clear_node_queue s).

Definition bgp_clear_node_queue_init (s : session) : session :=
  match clear_node_queue s with
  | None => set_clear_node_queue s (Some (ClearQueue [] false))
  | Some _ => s
  end.

Definition bgp_clear_route_table (s : session) (t : tid) (purpose : clear_purpose)
    : res session :=
  match tables s t with
  | None => Ret s
  | Some T =>
      '(ids, ns) ← clear_scan (my_id (conf s)) purpose (tbl_nodes T);
      let s := set_table s t (RibTable (tbl_lock T + zlen ids) ns) in
      Ret (set_clear_node_queue s
             (Some (clear_queue_add (the_queue s) (map (fun i => ClearItem t i purpose) ids))))
  end.

Fixpoint clear_tables (s : session) (ts : list tid) (purpose : clear_purpose) : res session :=
  match ts with
  | [] => Ret s
  | t :: ts => s ← bgp_clear_route_table s t purpose; clear_tables s ts purpose
  end.

(** The tables a purpose visits, in order. *)
Definition tables_of (s : session) (af : Z * Z) (purpose : clear_purpose) : list tid :=
  match purpose with
  | BGP_CLEAR_ROUTE_NORMAL =>
      (if negb (af.2 =? SAFI_MPLS_VPN) then [TMain af] else map (TVpn af) (rds (conf s) af))
      ++ map (fun c => TClient c.1 af)
           (filter (fun c => c.2 af = true) (rsclients (conf s)))
  | BGP_CLEAR_ROUTE_MY_RSCLIENT => [TClient (my_id (conf s)) af]
  end.

Definition bgp_clear_node_complete (s : session) : res session :=
  let s := BGP_EVENT_ADD s Clearing_Completed in
  peer_unlock s.

Definition bgp_clear_route (s : session) (af : Z * Z) (purpose : clear_purpose) : res session :=
  let s := bgp_clear_node_queue_init s in
  s ← if negb (cq_thread (the_queue s)) then peer_lock s else Ret s;
  s ← clear_tables s (tables_of s af purpose) purpose;
  if negb (cq_thread (the_queue s)) then bgp_clear_node_complete s else Ret s.

Fixpoint clear_families (s : session) (afs : list (Z * Z)) (purpose : clear_purpose)
    : res session :=
  match afs with
  | [] => Ret s
  | af :: afs => s ← bgp_clear_route s af purpose; clear_families s afs purpose
  end.

Definition bgp_clear_route_all (s : session) : res session :=
  clear_families s families BGP_CLEAR_ROUTE_NORMAL.

(** ** Working the queue *)

(** [bgp_info_delete] through [bgp_rib_remove]: a path kept for its damping
    history stays as it is. *)
Definition rib_remove_flags (f : Z) : Z :=
  if Z.testbit f INFO_HISTORY then f
  else Z.clearbit (Z.setbit f INFO_REMOVED) INFO_VALID.

(** [graceful]: the peer is expected back and keeps this family's routes. *)
Definition goes_stale (graceful : bool) (f : Z) : bool :=
  graceful && negb (Z.testbit f INFO_STALE) && negb (unuseable f).
Definition clear_flags (graceful : bool) (f : Z) : Z :=
  if goes_stale graceful f then Z.setbit f INFO_STALE else rib_remove_flags f.

(** Apply [g] to the flags of the first path that [f] selects. *)
Fixpoint on_first (f : Z -> bool) (g : Z -> Z) (l : list (Z * Z)) : list (Z * Z) :=
  match l with
  | [] => []
  | (q, fl) :: r => if f q then (q, g fl) :: r else (q, fl) :: on_first f g r
  end.

(** The node of a table an item points to, and its update; [None] removes it. *)
Fixpoint find_node (id : Z) (l : list rib_node) : res rib_node :=
  match l with
  | [] => Fault
  | n :: r => if rn_id n =? id then Ret n else find_node id r
  end.

Fixpoint put_node (id : Z) (o : option rib_node) (l : list rib_node) : list rib_node :=
  match l with
  | [] => []
  | n :: r => if rn_id n =? id then option_list o ++ r else n :: put_node id o r
  end.

Definition tid_family (t : tid) : Z * Z :=
  match t with TMain af | TVpn af _ | TClient _ af => af end.

Definition get_table (s : session) (t : tid) : res rib_table :=
  match tables s t with Some T => Ret T | None => Fault end.

(** The work function, always [WQ_SUCCESS]: the first path of the peer becomes
    stale, or is removed and its node scheduled for [bgp_process]. *)
Definition bgp_clear_route_node (s : session) (i : clear_item) : res session :=
  T ← get_table s (ci_table i);
  n ← find_node (ci_node i) (tbl_nodes T);
  let f := clears (my_id (conf s)) (ci_purpose i) in
  let graceful := sflag s PEER_STATUS_NSF_WAIT && nsf (fams s (tid_family (ci_table i))) in
  match List.find (fun ri => f ri.1) (rn_info n) with
  | None => Ret s
  | Some (_, fl) =>
      let n' := with_rn_info n (on_first f (clear_flags graceful) (rn_info n)) in
      let s := set_table s (ci_table i)
                 (RibTable (tbl_lock T) (put_node (ci_node i) (Some n') (tbl_nodes T))) in
      Ret (if goes_stale graceful fl then s else log s (CProcess (ci_table i) (ci_node i)))
  end.

(** [bgp_unlock_node] and [bgp_table_unlock] of a finished item. *)
Definition bgp_clear_node_queue_del (s : session) (i : clear_item) : res session :=
  T ← get_table s (ci_table i);
  n ← find_node (ci_node i) (tbl_nodes T);
  o ← unlock_rn n;
  _ ← cassert (0 <? tbl_lock T);
  let T := RibTable (tbl_lock T - 1) (put_node (ci_node i) o (tbl_nodes T)) in
  Ret (set_tables s (upd (tables s) (ci_table i)
                       (if tbl_lock T =? 0 then None else Some T))).

(** One run of [work_queue_run] on this queue: [todo] items are worked before
    the thread yields; with an empty queue the completion function is called,
    otherwise the thread is scheduled again. *)
Fixpoint clear_work (s : session) (items : list clear_item) : res session :=
  match items with
  | [] => Ret s
  | i :: r =>
      s ← bgp_clear_route_node s i;
      s ← bgp_clear_node_queue_del s i;
      clear_work s r
  end.

Definition clear_queue_run (todo : nat) (s : session) : res session :=
  let items := cq_items (the_queue s) in
  let s := set_clear_node_queue s (Some (ClearQueue (drop todo items) false)) in
  s ← clear_work s (take todo items);
  match drop todo items with
  | [] => bgp_clear_node_complete s
  | rest => Ret (set_clear_node_queue s (Some (ClearQueue rest true)))
  end.

(** ** Stale routes *)

(** [bgp_clear_stale_route]: in the main table, the first path of the peer at
    each node is removed if it is stale. *)
Definition clear_stale_node (me : Z) (n : rib_node) : bool * rib_node :=
  match List.find (fun ri => ri.1 =? me) (rn_info n) with
  | Some (_, fl) =>
      if Z.testbit fl INFO_STALE
      then (true, with_rn_info n (on_first (fun q => q =? me) rib_remove_flags (rn_info n)))
      else (false, n)
  | None => (false, n)
  end.

Definition bgp_clear_stale_route (s : session) (af : Z * Z) : res session :=
  T ← get_table s (TMain af);
  let l := map (clear_stale_node (my_id (conf s))) (tbl_nodes T) in
  let s := set_table s (TMain af) (RibTable (tbl_lock T) (map snd l)) in
  Ret (set_calls s (calls s ++ map (fun x => CProcess (TMain af) (rn_id x.2))
                                 (filter (fun x => x.1 = true) l))).

(** The loop of the callers over the families with routes kept. *)
Fixpoint clear_stale_families (s : session) (afs : list (Z * Z)) : res session :=
  match afs with
  | [] => Ret s
  | af :: afs =>
      s ← (if nsf (fams s af) then bgp_clear_stale_route s af else Ret s);
      clear_stale_families s afs
  end.
