(* ===== verification/ClearSpec.v ===== *)
(** * Clearing the routes of a session: theorems

    The reference counts taken for the queue cover exactly its items, so no
    assertion fails and no node or table disappears under the queue; filling
    the queue queues every node with a path of the peer; draining it takes every
    path of the peer out of use, stale ones of a graceful restart apart, gives
    back every reference the items held and reports completion. *)
From stdpp Require Import base option list.
From Stdlib Require Import ZArith Lia.
From S2P Require Import Prelude Stream Session Clear.

Lemma b2z_nonneg b : 0 <= Z.b2z b.
Proof. by destruct b. Qed.

(** ** Reference counts *)

(** References held by the node's own paths and adj entries. *)
Definition used (n : rib_node) : Z := zlen (rn_info n) + zlen (rn_in n) + zlen (rn_out n).
Definition slack (n : rib_node) : Z := rn_lock n - used n.

Definition hit (me : Z) (purpose : clear_purpose) (n : rib_node) : bool :=
  existsb (fun ri => clears me purpose ri.1) (rn_info n).

(** What a scan leaves of a node. *)
Definition scanned (me : Z) (purpose : clear_purpose) (n n' : rib_node) : Prop :=
  rn_id n' = rn_id n /\ rn_info n' = rn_info n
  /\ slack n' = slack n + Z.b2z (hit me purpose n).

Lemma remove_first_length f l l' : remove_first f l = Some l' -> zlen l = zlen l' + 1.
Proof.
  revert l'. induction l as [|x r IH]; intros l' H; [done|]. simpl in H.
  destruct (f x); [by injection H as <-; rewrite zlen_cons; lia|].
  destruct (remove_first f r) as [r'|]; [|done]. injection H as <-.
  rewrite !zlen_cons, (IH r') by done. lia.
Qed.

Lemma unlock_rn_some n : 1 < rn_lock n -> unlock_rn n = Ret (Some (with_rn_lock n (rn_lock n - 1))).
Proof.
  intros H. unfold unlock_rn. destruct (Z.ltb_spec 0 (rn_lock n)); [|lia]. cbn [cassert mbind res_bind].
  by destruct (Z.eqb_spec (rn_lock n - 1) 0); [lia|].
Qed.

(** One of the two adj loops. *)
Lemma drop_adj_ok f (l : list Z) n (put : rib_node -> list Z -> rib_node) :
  (forall l', rn_lock (put n l') = rn_lock n) -> 1 + zlen l <= rn_lock n ->
  exists n', match remove_first f l with
             | Some l' => still (unlock_rn (put n l')) | None => Ret n end = Ret n'
    /\ (n' = n \/ exists l', n' = with_rn_lock (put n l') (rn_lock n - 1) /\ zlen l = zlen l' + 1).
Proof.
  intros Hp Hl. pose proof (zlen_nonneg l). destruct (remove_first f l) as [l'|] eqn:E.
  - pose proof (remove_first_length _ _ _ E). pose proof (zlen_nonneg l').
    rewrite unlock_rn_some by (rewrite Hp; lia). eexists. split; [done|]. right.
    exists l'. by rewrite Hp.
  - eexists. split; [done|]. by left.
Qed.

Lemma scan_node_ok me pu n : 0 <= slack n ->
  exists n', clear_scan_node me pu n = Ret (hit me pu n, n') /\ scanned me pu n n'.
Proof.
  intros Hs. unfold clear_scan_node. unfold hit at 1. unfold slack, used in Hs.
  pose proof (zlen_nonneg (rn_in n)). pose proof (zlen_nonneg (rn_out n)).
  destruct (rn_info n) as [|ri r] eqn:E.
  { rewrite bool_decide_true by done. eexists. split; [done|]. unfold scanned, hit.
    rewrite E. simpl. split_and!; (done || lia). }
  rewrite bool_decide_false by done. rewrite <- E. rewrite <- E in Hs. fold (hit me pu n).
  assert (1 <= zlen (rn_info n)) by (rewrite E, zlen_cons; pose proof (zlen_nonneg r); lia).
  set (n0 := if hit me pu n then _ else n).
  assert (Hn0 : rn_id n0 = rn_id n /\ rn_info n0 = rn_info n /\ rn_in n0 = rn_in n
               /\ rn_out n0 = rn_out n /\ rn_lock n0 = rn_lock n + Z.b2z (hit me pu n)).
  { subst n0. destruct (hit me pu n); simpl; split_and!; (done || lia). }
  destruct Hn0 as (Hi & Hf & Hin & Hout & Hk).
  assert (0 <= Z.b2z (hit me pu n)) by (destruct (hit me pu n); simpl; lia).

  destruct (drop_adj_ok (clears me pu) (rn_in n0) n0 with_rn_in) as (n1 & -> & H1').
  { done. } { rewrite Hin, Hk. lia. }
  cbn [mbind res_bind].
  assert (Hn1 : rn_id n1 = rn_id n /\ rn_info n1 = rn_info n /\ rn_out n1 = rn_out n
                /\ rn_lock n1 - zlen (rn_in n1) = rn_lock n0 - zlen (rn_in n)).
  { destruct H1' as [->|(l' & -> & Hl)]; simpl; rewrite ?Hin in *; split_and!; (done || lia). }
  destruct Hn1 as (Hi1 & Hf1 & Ho1 & Hk1). pose proof (zlen_nonneg (rn_in n1)).
  destruct (drop_adj_ok (clears me pu) (rn_out n1) n1 with_rn_out) as (n2 & -> & H2').
  { done. } { rewrite Ho1. lia. }
  cbn [mbind res_bind]. exists n2. split; [done|]. unfold scanned, slack, used.
  destruct H2' as [->|(l' & -> & Hl)]; simpl; rewrite ?Hi1, ?Hf1, ?Ho1 in *; split_and!;
    (done || lia).
Qed.

Lemma scan_ok me pu l : Forall (fun n => 0 <= slack n) l ->
  exists l', clear_scan me pu l = Ret (rn_id <$> filter (fun n => hit me pu n = true) l, l')
    /\ Forall2 (scanned me pu) l l'.
Proof.
  induction 1 as [|n r Hn Hr IH]; [eexists; split; [done|constructor]|].
  destruct (scan_node_ok me pu n Hn) as (n' & E & Hs).
  destruct IH as (r' & Er & Hs'). cbn [clear_scan]. rewrite E. cbn [mbind res_bind].
  rewrite Er. cbn [mbind res_bind]. exists (n' :: r'). split; [|by constructor].
  rewrite filter_cons. destruct Hs as (-> & _).
  destruct (hit me pu n) eqn:Eh; [by rewrite decide_True|by rewrite decide_False].
Qed.

(** ** The queue and the tables *)

(** How many items point to a node, and into a table. *)
Definition pending (items : list clear_item) (t : tid) (id : Z) : Z :=
  zlen (filter (fun i => ci_table i = t /\ ci_node i = id) items).
Definition pending_in (items : list clear_item) (t : tid) : Z :=
  zlen (filter (fun i => ci_table i = t) items).

(** Every item has its references on its table and its node. *)
Record clear_ok (tb : tid -> option rib_table) (items : list clear_item) : Prop := {
  co_table : forall t T, tb t = Some T ->
    NoDup (rn_id <$> tbl_nodes T) /\ pending_in items t < tbl_lock T
    /\ forall n, n ∈ tbl_nodes T -> pending items t (rn_id n) <= slack n;
  co_items : forall i, i ∈ items ->
    exists T, tb (ci_table i) = Some T /\ ci_node i ∈ rn_id <$> tbl_nodes T;
}.

(** The paths of a table, node by node: what clearing does not touch until the
    queue runs. *)
Definition paths (tb : tid -> option rib_table) (t : tid) : option (list (Z * list (Z * Z))) :=
  (fun T => (fun n => (rn_id n, rn_info n)) <$> tbl_nodes T) <$> tb t.

(** The nodes of a table with a path to clear. *)
Definition hits (me : Z) (pu : clear_purpose) (tb : tid -> option rib_table) (t : tid) : list Z :=
  fst <$> filter (fun x => existsb (fun ri => clears me pu ri.1) x.2 = true)
            (default [] (paths tb t)).

Definition hit_items me pu tb t : list clear_item :=
  (fun id => ClearItem t id pu) <$> hits me pu tb t.

Lemma hits_nodes me pu tb t T : tb t = Some T ->
  hits me pu tb t = rn_id <$> filter (fun n => hit me pu n = true) (tbl_nodes T).
Proof.
  intros H. unfold hits, paths. rewrite H. simpl. unfold hit.
  induction (tbl_nodes T) as [|n r IH]; [done|]. csimpl.
  rewrite !filter_cons. simpl. case_decide; csimpl; by rewrite IH.
Qed.

Lemma hits_same me pu tb tb' t : paths tb' t = paths tb t ->
  hits me pu tb' t = hits me pu tb t.
Proof. intros H. unfold hits. by rewrite H. Qed.

Lemma pending_app l l' t id : pending (l ++ l') t id = pending l t id + pending l' t id.
Proof. unfold pending. by rewrite filter_app, zlen_app. Qed.
Lemma pending_in_app l l' t : pending_in (l ++ l') t = pending_in l t + pending_in l' t.
Proof. unfold pending_in. by rewrite filter_app, zlen_app. Qed.
Lemma pending_nonneg l t id : 0 <= pending l t id.
Proof. apply zlen_nonneg. Qed.

Lemma pending_new t pu ids t' id : NoDup ids ->
  pending ((fun i => ClearItem t i pu) <$> ids) t' id
  = Z.b2z (bool_decide (t' = t) && bool_decide (id ∈ ids)).
Proof.
  unfold pending. induction 1 as [|x r Hx Hn IH].
  { by rewrite andb_comm. }
  csimpl. rewrite filter_cons. destruct (decide _) as [D|D]; cbn [ci_table ci_node] in D.
  - destruct D as [<- <-]. rewrite zlen_cons, IH. rewrite (bool_decide_true (t = t)) by done.
    rewrite (bool_decide_true (x ∈ x :: r)) by left.
    rewrite (bool_decide_false (x ∈ r)) by done. simpl. lia.
  - rewrite IH. f_equal. destruct (decide (t' = t)) as [->|]; [|by rewrite bool_decide_false].
    rewrite !(bool_decide_true (t = t)) by done. simpl. apply bool_decide_ext.
    rewrite elem_of_cons. intuition congruence.
Qed.

Lemma pending_in_new t pu ids t' :
  pending_in ((fun i => ClearItem t i pu) <$> ids) t' = if decide (t' = t) then zlen ids else 0.
Proof.
  unfold pending_in. induction ids as [|x r IH]; [by destruct (decide (t' = t))|].
  csimpl. rewrite filter_cons. destruct (decide _) as [D|D] at 1; cbn [ci_table] in D.
  - subst. rewrite zlen_cons, IH. rewrite !decide_True by done. rewrite zlen_cons. lia.
  - rewrite IH. by rewrite !decide_False by congruence.
Qed.

Lemma scanned_lookup me pu l l' n' : Forall2 (scanned me pu) l l' -> n' ∈ l' ->
  exists n, n ∈ l /\ scanned me pu n n'.
Proof.
  intros H [k Hk]%list_elem_of_lookup.
  destruct (Forall2_lookup_r _ _ _ _ _ H Hk) as (n & Hn & Hs).
  exists n. split; [by apply list_elem_of_lookup_2 with k|done].
Qed.

Lemma scanned_ids me pu l l' : Forall2 (scanned me pu) l l' -> rn_id <$> l' = rn_id <$> l.
Proof. induction 1 as [|n n' l l' (Hi & _) _ IH]; csimpl; congruence. Qed.

Lemma scanned_paths me pu l l' : Forall2 (scanned me pu) l l' ->
  (fun n => (rn_id n, rn_info n)) <$> l' = (fun n => (rn_id n, rn_info n)) <$> l.
Proof. induction 1 as [|n n' l l' (Hi & Hf & _) _ IH]; csimpl; congruence. Qed.

(** References beyond those of the items: of a table, and of its nodes beyond
    their own paths and adj entries. *)
Definition surplus (tb : tid -> option rib_table) (items : list clear_item) (t : tid)
    : option (Z * list (Z * Z)) :=
  (fun T => (tbl_lock T - pending_in items t,
             (fun n => (rn_id n, slack n - pending items t (rn_id n))) <$> tbl_nodes T)) <$> tb t.

Lemma node_unique (l : list rib_node) n m : NoDup (rn_id <$> l) -> n ∈ l -> m ∈ l ->
  rn_id n = rn_id m -> n = m.
Proof.
  intros Hnd [a Ha]%list_elem_of_lookup [b Hb]%list_elem_of_lookup Hi.
  assert (a = b); [|congruence].
  apply (NoDup_lookup (rn_id <$> l) a b (rn_id n)); [done|..];
    rewrite list_lookup_fmap; [rewrite Ha|rewrite Hb]; simpl; congruence.
Qed.

(** One new item for every node with a path to clear. *)
Lemma pending_hit me pu tb t T n : NoDup (rn_id <$> tbl_nodes T) -> tb t = Some T ->
  n ∈ tbl_nodes T -> pending (hit_items me pu tb t) t (rn_id n) = Z.b2z (hit me pu n).
Proof.
  intros Hnd Ht Hn. unfold hit_items. rewrite pending_new.
  - rewrite bool_decide_true by done. simpl. f_equal. rewrite (hits_nodes _ _ _ _ _ Ht).
    apply eq_true_iff_eq. rewrite bool_decide_eq_true. split.
    + intros (m & Hm & [Hh Hm']%list_elem_of_filter)%list_elem_of_fmap.
      by rewrite (node_unique _ _ _ Hnd Hn Hm' Hm).
    + intros Hh. by apply list_elem_of_fmap_2, list_elem_of_filter.
  - rewrite (hits_nodes _ _ _ _ _ Ht). eapply sublist_NoDup; [exact Hnd|].
    apply fmap_sublist, sublist_filter.
Qed.

Lemma Forall2_fmap_eq {A B C} (R : A -> B -> Prop) (f : B -> C) (g : A -> C) l l' :
  Forall2 R l l' -> (forall x y, x ∈ l -> R x y -> f y = g x) -> f <$> l' = g <$> l.
Proof.
  induction 1 as [|x y l l' Hxy _ IH]; intros H; [done|]. csimpl. f_equal.
  - apply H; [by left|done].
  - apply IH. intros a b Ha. apply H. by right.
Qed.

Lemma scan_surplus me pu tb items t T l' t' :
  NoDup (rn_id <$> tbl_nodes T) -> tb t = Some T -> Forall2 (scanned me pu) (tbl_nodes T) l' ->
  surplus (upd tb t (Some (RibTable (tbl_lock T + zlen (hits me pu tb t)) l')))
    (items ++ hit_items me pu tb t) t' = surplus tb items t'.
Proof.
  intros Hnd Ht Hs. unfold surplus, upd. case_decide as D.
  - subst t'. rewrite Ht. simpl. f_equal. rewrite pending_in_app. unfold hit_items at 1.
    rewrite pending_in_new, decide_True by done. f_equal; [lia|].
    eapply Forall2_fmap_eq; [exact Hs|]. intros n n' Hn (Hi & _ & Hk). cbv beta.
    rewrite pending_app, Hk, Hi, (pending_hit _ _ _ _ T) by done. f_equal. lia.
  - destruct (tb t') as [T'|]; [|done]. simpl. do 2 f_equal.
    + rewrite pending_in_app. unfold hit_items. rewrite pending_in_new, decide_False by done. lia.
    + apply list_fmap_ext. intros k n _. rewrite pending_app. unfold hit_items.
      assert (pending ((fun id => ClearItem t id pu) <$> hits me pu tb t) t' (rn_id n) = 0) as ->;
        [|f_equal; lia].
      unfold pending. clear -D. induction (hits me pu tb t) as [|x r IH]; [done|].
      csimpl. rewrite filter_cons. rewrite decide_False by (simpl; intros [? _]; congruence). done.
Qed.

(** Scanning a table keeps the counts. *)
Lemma scan_table_inv me pu tb items t T l' :
  clear_ok tb items -> tb t = Some T ->
  Forall2 (scanned me pu) (tbl_nodes T) l' ->
  let ids := hits me pu tb t in
  clear_ok (upd tb t (Some (RibTable (tbl_lock T + zlen ids) l'))) (items ++ hit_items me pu tb t)
  /\ forall t', paths (upd tb t (Some (RibTable (tbl_lock T + zlen ids) l'))) t' = paths tb t'.
Proof.
  intros Hok Ht Hs ids. destruct (co_table _ _ Hok t T Ht) as (Hnd & Hlk & Hsl).
  assert (Hids : NoDup ids).
  { subst ids. rewrite (hits_nodes _ _ _ _ _ Ht). eapply sublist_NoDup; [exact Hnd|].
    apply fmap_sublist, sublist_filter. }
  split.
  - split.
    + intros t' T'. unfold upd. unfold hit_items. fold ids. case_decide as D.
      * subst t'. intros [= <-]. simpl. rewrite pending_in_app, pending_in_new, decide_True by done.
        rewrite (scanned_ids _ _ _ _ Hs). split; [done|]. split; [lia|].
        intros n' Hn'. destruct (scanned_lookup _ _ _ _ _ Hs Hn') as (n & Hn & Hi & _ & Hsk).
        rewrite pending_app, (pending_new _ _ _ _ _ Hids), Hsk, Hi, bool_decide_true by done.
        specialize (Hsl n Hn). simpl.
        destruct (hit me pu n) eqn:E; [destruct (bool_decide _); simpl; lia|].
        rewrite bool_decide_false; [simpl; lia|]. intros Hin.
        subst ids. rewrite (hits_nodes _ _ _ _ _ Ht) in Hin.
        apply list_elem_of_fmap in Hin as (m & Hm & [Hh Hm']%list_elem_of_filter).
        assert (m = n); [|congruence].
        apply list_elem_of_lookup in Hm' as [a Ha]. apply list_elem_of_lookup in Hn as [b Hb].
        assert (a = b); [|congruence].
        apply (NoDup_lookup (rn_id <$> tbl_nodes T) a b (rn_id n)); [done|..];
          rewrite list_lookup_fmap; [rewrite Ha|rewrite Hb]; simpl; congruence.
      * intros HT'. destruct (co_table _ _ Hok t' T' HT') as (? & ? & Hsl').
        split; [done|]. rewrite pending_in_app, pending_in_new, decide_False by done.
        split; [lia|]. intros n Hn. rewrite pending_app, pending_new by done.
        rewrite bool_decide_false by done. specialize (Hsl' n Hn). simpl. lia.
    + intros i [Hi|Hi]%elem_of_app.
      * destruct (co_items _ _ Hok i Hi) as (T' & HT' & Hn). unfold upd. case_decide as D; [|eauto].
        eexists. split; [done|]. simpl. rewrite (scanned_ids _ _ _ _ Hs). congruence.
      * unfold hit_items in Hi. apply list_elem_of_fmap in Hi as (id & -> & Hid). simpl.
        rewrite upd_eq. eexists. split; [done|]. simpl. rewrite (scanned_ids _ _ _ _ Hs).
        rewrite (hits_nodes _ _ _ _ _ Ht) in Hid.
        apply list_elem_of_fmap in Hid as (n & -> & [_ Hn]%list_elem_of_filter).
        by apply list_elem_of_fmap_2.
  - intros t'. unfold paths, upd. case_decide as D; [|done]. subst. rewrite Ht. simpl.
    by rewrite (scanned_paths _ _ _ _ Hs).
Qed.

(** ** Filling the queue *)

(** The session after clearing changed its tables, queue, events and count. *)
Definition clear_set (s : session) tb q ev lk : session :=
  set_lock (set_events (set_clear_node_queue (set_tables s tb) (Some q)) ev) lk.

Lemma clear_set_id s q : clear_node_queue s = Some q ->
  clear_set s (tables s) q (events s) (lock s) = s.
Proof. by destruct s; simpl; intros ->. Qed.

Lemma clear_queue_add_nil q : clear_queue_add q [] = q.
Proof. destruct q as [l b]. unfold clear_queue_add. simpl. by rewrite app_nil_r, orb_false_r. Qed.

Lemma clear_queue_add_app q l l' :
  clear_queue_add (clear_queue_add q l) l' = clear_queue_add q (l ++ l').
Proof.
  unfold clear_queue_add. simpl. rewrite <- app_assoc, <- orb_assoc. do 2 f_equal.
  by destruct l, l'.
Qed.

Definition found (s : session) (t : tid) (pu : clear_purpose) : list clear_item :=
  hit_items (my_id (conf s)) pu (tables s) t.

Lemma found_same s s' t pu : conf s' = conf s ->
  (forall t, paths (tables s') t = paths (tables s) t) -> found s' t pu = found s t pu.
Proof.
  intros Hc Hp. unfold found, hit_items. rewrite Hc.
  by rewrite (hits_same _ _ _ _ _ (Hp t)).
Qed.

Lemma clear_table_ok s q t pu :
  clear_node_queue s = Some q -> clear_ok (tables s) (cq_items q) ->
  exists tb, bgp_clear_route_table s t pu
      = Ret (clear_set s tb (clear_queue_add q (found s t pu)) (events s) (lock s))
    /\ clear_ok tb (cq_items q ++ found s t pu)
    /\ (forall t', paths tb t' = paths (tables s) t')
    /\ forall t', surplus tb (cq_items q ++ found s t pu) t' = surplus (tables s) (cq_items q) t'.
Proof.
  intros Hq Hok. unfold bgp_clear_route_table, found. destruct (tables s t) as [T|] eqn:Ht.
  - destruct (scan_ok (my_id (conf s)) pu (tbl_nodes T)) as (l' & E & Hs).
    { apply Forall_forall. intros n Hn.
      destruct (co_table _ _ Hok t T Ht) as (_ & _ & Hsl). specialize (Hsl n Hn).
      pose proof (pending_nonneg (cq_items q) t (rn_id n)). lia. }
    rewrite E. cbn [mbind res_bind]. rewrite <- (hits_nodes _ _ _ _ _ Ht).
    eexists. split.
    + unfold clear_set, set_table. do 2 f_equal. unfold the_queue. simpl. by rewrite Hq.
    + destruct (scan_table_inv _ _ _ _ _ _ _ Hok Ht Hs) as [H1 H2]. split; [exact H1|].
      split; [exact H2|]. intros t'. apply scan_surplus; [|done..].
      by destruct (co_table _ _ Hok t T Ht).
  - assert (hit_items (my_id (conf s)) pu (tables s) t = []) as ->.
    { unfold hit_items, hits, paths. by rewrite Ht. }
    exists (tables s). rewrite clear_queue_add_nil, app_nil_r, clear_set_id by done. done.
Qed.

Lemma clear_tables_ok pu ts s q :
  clear_node_queue s = Some q -> clear_ok (tables s) (cq_items q) ->
  let new := ts ≫= (fun t => found s t pu) in
  exists tb, clear_tables s ts pu
      = Ret (clear_set s tb (clear_queue_add q new) (events s) (lock s))
    /\ clear_ok tb (cq_items q ++ new)
    /\ (forall t', paths tb t' = paths (tables s) t')
    /\ forall t', surplus tb (cq_items q ++ new) t' = surplus (tables s) (cq_items q) t'.
Proof.
  revert s q. induction ts as [|t ts IH]; intros s q Hq Hok new; subst new.
  - exists (tables s). csimpl. rewrite clear_queue_add_nil, app_nil_r, clear_set_id by done. done.
  - csimpl. destruct (clear_table_ok s q t pu Hq Hok) as (tb & -> & Hok1 & Hp1 & Hk1).
    cbn [mbind res_bind].
    destruct (IH (clear_set s tb (clear_queue_add q (found s t pu)) (events s) (lock s))
                (clear_queue_add q (found s t pu)) eq_refl Hok1) as (tb' & -> & Hok2 & Hp2 & Hk2).
    assert (Hf : ts ≫= (fun t0 => found (clear_set s tb (clear_queue_add q (found s t pu))
                                            (events s) (lock s)) t0 pu)
                 = ts ≫= (fun t0 => found s t0 pu)).
    { apply list_bind_ext; [|done]. intros t0. by apply found_same. }
    rewrite Hf in *. exists tb'. rewrite clear_queue_add_app, app_assoc. split; [done|].
    split; [done|]. simpl in Hp2, Hk2. split; intros t'; [by rewrite Hp2, Hp1|].
    by rewrite Hk2, Hk1.
Qed.

(** What one family adds to the queue. *)
Definition family_items (s : session) (pu : clear_purpose) (af : Z * Z) : list clear_item :=
  tables_of s af pu ≫= (fun t => found s t pu).

(** A family with nothing to clear completes at once, unless the queue is busy;
    the first one with something to clear takes the reference. *)
Definition completes (thread : bool) (new : list clear_item) : bool :=
  negb thread && bool_decide (new = []).
Definition takes_ref (thread : bool) (new : list clear_item) : bool :=
  negb thread && bool_decide (new <> []).

Definition completion (s : session) : list bgp_ev :=
  if bool_decide (status s <> Deleted) then [Clearing_Completed] else [].

Lemma event_add_eq s e : BGP_EVENT_ADD s e
  = set_events s (events s ++ if bool_decide (status s <> Deleted) then [e] else []).
Proof.
  unfold BGP_EVENT_ADD. destruct (bool_decide _); [done|]. rewrite app_nil_r. by destruct s.
Qed.

Lemma queue_init_eq s : bgp_clear_node_queue_init s
  = clear_set s (tables s) (the_queue s) (events s) (lock s).
Proof.
  unfold bgp_clear_node_queue_init, the_queue. destruct s as []; simpl.
  destruct clear_node_queue; done.
Qed.

Lemma clear_route_ok pu af s :
  clear_ok (tables s) (cq_items (the_queue s)) -> 1 <= lock s ->
  let q := the_queue s in
  let new := family_items s pu af in
  exists tb, bgp_clear_route s af pu
      = Ret (clear_set s tb (clear_queue_add q new)
               (events s ++ if completes (cq_thread q) new then completion s else [])
               (lock s + Z.b2z (takes_ref (cq_thread q) new)))
    /\ clear_ok tb (cq_items q ++ new)
    /\ (forall t', paths tb t' = paths (tables s) t')
    /\ forall t', surplus tb (cq_items q ++ new) t' = surplus (tables s) (cq_items q) t'.
Proof.
  intros Hok Hl q new. unfold bgp_clear_route. rewrite queue_init_eq. fold q.
  set (s0 := clear_set s (tables s) q (events s) (lock s)).
  assert (Hqe : forall s', the_queue (set_lock s' (lock s' + 1)) = the_queue s') by done.
  change (the_queue s0) with q.
  set (s1 := if negb (cq_thread q) then set_lock s0 (lock s + 1) else s0).
  assert ((if negb (cq_thread q) then peer_lock s0 else Ret s0) = Ret s1) as ->.
  { subst s1. destruct (cq_thread q); [done|]. cbn [negb]. unfold peer_lock.
    replace (0 <=? lock s0) with true by (symmetry; apply Z.leb_le; simpl; lia). done. }
  cbn [mbind res_bind].
  assert (H1 : clear_node_queue s1 = Some q /\ tables s1 = tables s /\ conf s1 = conf s)
    by (subst s1; by destruct (cq_thread q)).
  destruct H1 as (Hq1 & Ht1 & Hc1).
  assert (Hn : tables_of s1 af pu ≫= (fun t => found s1 t pu) = new).
  { subst new. unfold family_items, tables_of. rewrite Hc1.
    apply list_bind_ext; [|done]. intros t. apply found_same; [done|]. by rewrite Ht1. }
  rewrite <- Ht1 in Hok. destruct (clear_tables_ok pu (tables_of s1 af pu) s1 q Hq1 Hok)
    as (tb & -> & Hok' & Hp & Hk). rewrite Hn in *. cbn [mbind res_bind].
  exists tb. split; [|split; [done|by rewrite <- Ht1]].
  change (the_queue (clear_set _ _ ?x _ _)) with x. cbn [clear_queue_add cq_thread].
  unfold completes, takes_ref, s1. destruct (cq_thread q); cbn [negb andb orb].
  { rewrite app_nil_r, Z.add_0_r. done. }
  destruct new as [|i r].
  - change (bool_decide (([] : list clear_item) <> [])) with false.
    change (bool_decide (([] : list clear_item) = [])) with true.
    cbn [negb Z.b2z]. unfold bgp_clear_node_complete.
    rewrite event_add_eq. unfold peer_unlock.
    cbn [clear_set set_events set_lock lock set_clear_node_queue set_tables s0].
    destruct (Z.ltb_spec 0 (lock s + 1)); [|lia]. cbn [cassert mbind res_bind].
    destruct (Z.eqb_spec (lock s + 1 - 1) 0); [lia|].
    rewrite Z.add_simpl_r, Z.add_0_r. done.
  - change (bool_decide (i :: r <> [])) with true. change (bool_decide (i :: r = [])) with false.
    by rewrite app_nil_r.
Qed.

(** Families with nothing to clear, before the first that has something. *)
Fixpoint leading_empty (news : list (list clear_item)) : nat :=
  match news with [] :: r => S (leading_empty r) | _ => 0 end.

(** The completions reported while the queue is filled. *)
Definition early (s : session) (thread : bool) (news : list (list clear_item)) : list bgp_ev :=
  if thread then [] else concat (replicate (leading_empty news) (completion s)).

Lemma family_items_same s s' pu af : conf s' = conf s ->
  (forall t, paths (tables s') t = paths (tables s) t) ->
  family_items s' pu af = family_items s pu af.
Proof.
  intros Hc Hp. unfold family_items, tables_of. rewrite Hc.
  apply list_bind_ext; [|done]. intros t. by apply found_same.
Qed.

Lemma clear_families_ok pu afs s q :
  clear_node_queue s = Some q -> clear_ok (tables s) (cq_items q) -> 1 <= lock s ->
  let news := family_items s pu <$> afs in
  exists tb, clear_families s afs pu
      = Ret (clear_set s tb (clear_queue_add q (concat news))
               (events s ++ early s (cq_thread q) news)
               (lock s + Z.b2z (takes_ref (cq_thread q) (concat news))))
    /\ clear_ok tb (cq_items q ++ concat news)
    /\ (forall t', paths tb t' = paths (tables s) t')
    /\ forall t', surplus tb (cq_items q ++ concat news) t' = surplus (tables s) (cq_items q) t'.
Proof.
  revert s q. induction afs as [|af afs IH]; intros s q Hq Hok Hl news; subst news.
  - exists (tables s). csimpl. rewrite clear_queue_add_nil, app_nil_r.
    unfold early, takes_ref. cbn [concat leading_empty replicate].
    change (bool_decide (([] : list clear_item) <> [])) with false.
    rewrite andb_false_r. cbn [Z.b2z]. rewrite Z.add_0_r. replace (if cq_thread q then [] else []) with (@nil bgp_ev)
      by (by destruct (cq_thread q)). rewrite app_nil_r, clear_set_id by done. done.
  - csimpl. assert (Hqq : the_queue s = q) by (unfold the_queue; by rewrite Hq).
    rewrite <- Hqq in Hok.
    destruct (clear_route_ok pu af s Hok Hl) as (tb & -> & Hok1 & Hp1 & Hk1). rewrite Hqq in *.
    cbn [mbind res_bind]. set (new := family_items s pu af) in *.
    set (s1 := clear_set s tb _ _ _).
    destruct (IH s1 (clear_queue_add q new) eq_refl Hok1) as (tb' & -> & Hok2 & Hp2 & Hk2).
    { simpl. destruct (takes_ref _ _); simpl; lia. }
    assert (Hf : family_items s1 pu <$> afs = family_items s pu <$> afs).
    { apply list_fmap_ext. intros k x _. by apply family_items_same. }
    rewrite Hf in *. set (news := family_items s pu <$> afs) in *.
    exists tb'. rewrite clear_queue_add_app, app_assoc. split; [|split; [|split]].
    + assert (events s1 ++ early s1 (cq_thread (clear_queue_add q new)) news
              = events s ++ early s (cq_thread q) (new :: news)) as E1.
      { unfold s1, early, completes, clear_queue_add. simpl. destruct (cq_thread q); simpl.
        { by rewrite app_nil_r. }
        destruct new as [|i r]; simpl; [|by rewrite app_nil_r]. by rewrite app_assoc. }
      assert (lock s1 + Z.b2z (takes_ref (cq_thread (clear_queue_add q new)) (concat news))
              = lock s + Z.b2z (takes_ref (cq_thread q) (new ++ concat news))) as E2.
      { unfold s1, takes_ref, clear_queue_add. simpl. destruct (cq_thread q); simpl; [lia|].
        destruct new as [|i r]; simpl; [|lia].
        change (bool_decide (([] : list clear_item) <> [])) with false. simpl. lia. }
      by rewrite E1, E2.
    + done.
    + intros t'. simpl in Hp2. by rewrite Hp2, Hp1.
    + intros t'. simpl in Hk2. by rewrite Hk2, Hk1.
Qed.

Lemma clear_route_init s af pu :
  bgp_clear_route (bgp_clear_node_queue_init s) af pu = bgp_clear_route s af pu.
Proof.
  unfold bgp_clear_route. f_equal. unfold bgp_clear_node_queue_init.
  destruct (clear_node_queue s) eqn:E; simpl; by rewrite ?E.
Qed.

Lemma clear_all_ok s :
  clear_ok (tables s) (cq_items (the_queue s)) -> 1 <= lock s ->
  let q := the_queue s in
  let news := family_items s BGP_CLEAR_ROUTE_NORMAL <$> families in
  exists tb, bgp_clear_route_all s
      = Ret (clear_set s tb (clear_queue_add q (concat news))
               (events s ++ early s (cq_thread q) news)
               (lock s + Z.b2z (takes_ref (cq_thread q) (concat news))))
    /\ clear_ok tb (cq_items q ++ concat news)
    /\ (forall t', paths tb t' = paths (tables s) t')
    /\ forall t', surplus tb (cq_items q ++ concat news) t' = surplus (tables s) (cq_items q) t'.
Proof.
  intros Hok Hl q news. unfold bgp_clear_route_all.
  assert (clear_families s families BGP_CLEAR_ROUTE_NORMAL
          = clear_families (bgp_clear_node_queue_init s) families BGP_CLEAR_ROUTE_NORMAL) as ->.
  { unfold families. cbn [clear_families]. by rewrite clear_route_init. }
  rewrite queue_init_eq. fold q.
  by apply (clear_families_ok BGP_CLEAR_ROUTE_NORMAL families
              (clear_set s (tables s) q (events s) (lock s)) q).
Qed.

(** ** Working the queue *)

Lemma find_node_app id l1 n l2 : id ∉ rn_id <$> l1 -> rn_id n = id ->
  find_node id (l1 ++ n :: l2) = Ret n.
Proof.
  intros H1 Hn. induction l1 as [|m r IH]; simpl.
  - by rewrite Hn, Z.eqb_refl.
  - csimpl in H1. apply not_elem_of_cons in H1 as [Hm H1].
    destruct (Z.eqb_spec (rn_id m) id); [congruence|]. by apply IH.
Qed.

Lemma put_node_app id o l1 n l2 : id ∉ rn_id <$> l1 -> rn_id n = id ->
  put_node id o (l1 ++ n :: l2) = l1 ++ option_list o ++ l2.
Proof.
  intros H1 Hn. induction l1 as [|m r IH]; simpl.
  - by rewrite Hn, Z.eqb_refl.
  - csimpl in H1. apply not_elem_of_cons in H1 as [Hm H1].
    destruct (Z.eqb_spec (rn_id m) id); [congruence|]. f_equal. by apply IH.
Qed.

Lemma split_node id l : id ∈ rn_id <$> l -> NoDup (rn_id <$> l) ->
  exists l1 n l2, l = l1 ++ n :: l2 /\ rn_id n = id
    /\ id ∉ rn_id <$> l1 /\ id ∉ rn_id <$> l2.
Proof.
  intros (n & -> & Hn)%list_elem_of_fmap Hnd.
  apply list_elem_of_split in Hn as (l1 & l2 & ->).
  exists l1, n, l2. split; [done|]. split; [done|].
  rewrite fmap_app in Hnd. csimpl in Hnd. apply NoDup_app in Hnd as (_ & Hd & Hnd).
  apply NoDup_cons in Hnd as [H2 _]. split; [|done]. intros H1. by apply (Hd _ H1); left.
Qed.

Lemma on_first_none f g l : List.find (fun ri => f ri.1) l = None -> on_first f g l = l.
Proof.
  induction l as [|[q fl] r IH]; simpl; [done|]. destruct (f q); [done|].
  intros H. by rewrite IH.
Qed.

(** The paths of a node after an item was worked. *)
Definition item_info (s : session) (i : clear_item) (t : tid) (id : Z) (info : list (Z * Z)) :=
  if decide (t = ci_table i /\ id = ci_node i)
  then on_first (clears (my_id (conf s)) (ci_purpose i))
         (clear_flags (sflag s PEER_STATUS_NSF_WAIT && nsf (fams s (tid_family (ci_table i)))))
         info
  else info.

Definition worked (s : session) (i : clear_item) (tb : tid -> option rib_table) : Prop :=
  forall t T' n', tb t = Some T' -> n' ∈ tbl_nodes T' ->
    exists T n, tables s t = Some T /\ n ∈ tbl_nodes T /\ rn_id n' = rn_id n
      /\ rn_info n' = item_info s i t (rn_id n) (rn_info n).

(** The work function and the deletion of the item, node by node. *)
Lemma work_node_eq s i T l1 n l2 :
  tables s (ci_table i) = Some T -> tbl_nodes T = l1 ++ n :: l2 ->
  rn_id n = ci_node i -> ci_node i ∉ rn_id <$> l1 ->
  exists tb cs, bgp_clear_route_node s i = Ret (set_calls (set_tables s tb) (calls s ++ cs))
    /\ forall t, tb t = upd (tables s) (ci_table i) (Some (RibTable (tbl_lock T)
          (l1 ++ with_rn_info n (item_info s i (ci_table i) (rn_id n) (rn_info n)) :: l2))) t.
Proof.
  intros Ht Hl Hn H1. unfold bgp_clear_route_node, get_table. rewrite Ht. cbn [mbind res_bind].
  rewrite Hl, (find_node_app _ _ _ _ H1 Hn). cbn [mbind res_bind].
  unfold item_info. rewrite decide_True by done. destruct (List.find _ _) as [[q fl]|] eqn:E.
  - rewrite (put_node_app _ _ _ _ _ H1 Hn). cbn [option_list app]. eexists.
    exists (if goes_stale (sflag s PEER_STATUS_NSF_WAIT
                           && nsf (fams s (tid_family (ci_table i)))) fl
            then [] else [CProcess (ci_table i) (ci_node i)]). split; [|done].
    destruct (goes_stale _ fl); [|done]. rewrite app_nil_r. by destruct s.
  - exists (tables s), []. rewrite (on_first_none _ _ _ E), app_nil_r. split; [by destruct s|].
    intros t. unfold upd. case_decide; [|done]. subst. rewrite Ht.
    assert (with_rn_info n (rn_info n) = n) as -> by (by destruct n). rewrite <- Hl.
    by destruct T.
Qed.

Lemma del_node_eq s i T l1 n l2 :
  tables s (ci_table i) = Some T -> tbl_nodes T = l1 ++ n :: l2 ->
  rn_id n = ci_node i -> ci_node i ∉ rn_id <$> l1 -> 1 <= slack n -> 1 < tbl_lock T ->
  exists o, bgp_clear_node_queue_del s i
      = Ret (set_tables s (upd (tables s) (ci_table i)
               (Some (RibTable (tbl_lock T - 1) (l1 ++ option_list o ++ l2)))))
    /\ (forall n', o = Some n' -> n' = with_rn_lock n (rn_lock n - 1))
    /\ (o = None -> slack n <= 1 /\ rn_info n = []).
Proof.
  intros Ht Hl Hn H1 Hs HT. unfold bgp_clear_node_queue_del, get_table. rewrite Ht.
  cbn [mbind res_bind]. rewrite Hl, (find_node_app _ _ _ _ H1 Hn). cbn [mbind res_bind].
  unfold slack, used in Hs. unfold unlock_rn.
  pose proof (zlen_nonneg (rn_info n)). pose proof (zlen_nonneg (rn_in n)).
  pose proof (zlen_nonneg (rn_out n)).
  destruct (Z.ltb_spec 0 (rn_lock n)); [|lia]. cbn [cassert mbind res_bind].
  assert (E : exists o, (if rn_lock n - 1 =? 0
                 then _ ← cassert (bool_decide (rn_info n = [])); Ret None
                 else Ret (Some (with_rn_lock n (rn_lock n - 1)))) = Ret o
              /\ (forall n', o = Some n' -> n' = with_rn_lock n (rn_lock n - 1))
              /\ (o = None -> slack n <= 1 /\ rn_info n = [])).
  { destruct (Z.eqb_spec (rn_lock n - 1) 0).
    - unfold slack, used. destruct (rn_info n) as [|x r].
      + exists None. split_and!; [done|done|]. intros _. rewrite zlen_nil. split; [lia|done].
      + rewrite zlen_cons in *. pose proof (zlen_nonneg r). lia.
    - eexists. split; [done|]. split; congruence. }
  destruct E as (o & -> & Ho). cbn [mbind res_bind]. exists o. split; [|done].
  destruct (Z.ltb_spec 0 (tbl_lock T)); [|lia]. cbn [cassert mbind res_bind tbl_lock].
  destruct (Z.eqb_spec (tbl_lock T - 1) 0); [lia|].
  by rewrite (put_node_app _ _ _ _ _ H1 Hn).
Qed.

Lemma on_first_length f g l : zlen (on_first f g l) = zlen l.
Proof.
  induction l as [|[q fl] r IH]; [done|]. simpl.
  destruct (f q); rewrite !zlen_cons; [done|by rewrite IH].
Qed.

Lemma item_info_length s i t id l : zlen (item_info s i t id l) = zlen l.
Proof. unfold item_info. case_decide; [apply on_first_length|done]. Qed.

Lemma pending_cons i l t id : pending (i :: l) t id
  = Z.b2z (bool_decide (ci_table i = t) && bool_decide (ci_node i = id)) + pending l t id.
Proof.
  unfold pending. rewrite filter_cons, <- bool_decide_and.
  destruct (decide _) as [D|D]; [rewrite bool_decide_true by done|rewrite bool_decide_false by done].
  - rewrite zlen_cons. simpl. lia.
  - simpl. lia.
Qed.
Lemma pending_in_cons i l t : pending_in (i :: l) t
  = Z.b2z (bool_decide (ci_table i = t)) + pending_in l t.
Proof.
  unfold pending_in. rewrite filter_cons.
  destruct (decide _) as [D|D]; [rewrite bool_decide_true by done|rewrite bool_decide_false by done].
  - rewrite zlen_cons. simpl. lia.
  - simpl. lia.
Qed.

Lemma pending_in_nonneg l t : 0 <= pending_in l t.
Proof. apply zlen_nonneg. Qed.

Lemma pending_elem items t id j :
  j ∈ items -> ci_table j = t -> ci_node j = id -> 0 < pending items t id.
Proof.
  intros Hj Ht Hi. unfold pending, zlen.
  assert (Hin : j ∈ filter (fun i => ci_table i = t /\ ci_node i = id) items)
    by (by apply list_elem_of_filter).
  destruct (filter _ items); [by apply elem_of_nil in Hin|]. simpl. lia.
Qed.

(** Replacing the item's node and dropping its references keeps the counts. *)
Lemma work_inv tb items i T l1 n l2 o tb' :
  clear_ok tb (i :: items) -> tb (ci_table i) = Some T -> tbl_nodes T = l1 ++ n :: l2 ->
  rn_id n = ci_node i ->
  (forall n', o = Some n' -> rn_id n' = rn_id n /\ slack n' = slack n - 1) ->
  (o = None -> slack n <= 1) ->
  (forall t, tb' t = upd tb (ci_table i)
                (Some (RibTable (tbl_lock T - 1) (l1 ++ option_list o ++ l2))) t) ->
  clear_ok tb' items.
Proof.
  intros Hok Ht Hl Hn Ho Ho0 Htb. destruct (co_table _ _ Hok _ T Ht) as (Hnd & Hlk & Hsl).
  rewrite Hl, fmap_app in Hnd. csimpl in Hnd.
  assert (Hids : rn_id <$> l1 ++ option_list o ++ l2
                 = (rn_id <$> l1) ++ (if o then [rn_id n] else []) ++ (rn_id <$> l2)).
  { rewrite !fmap_app. destruct o as [n'|]; [|done]. csimpl.
    by destruct (Ho n' eq_refl) as [-> _]. }
  split.
  - intros t T'. rewrite Htb. unfold upd. case_decide as D.
    + subst t. intros [= <-]. cbn [tbl_lock tbl_nodes]. rewrite Hids. split_and!.
      * destruct o; [done|]. simpl. apply NoDup_app in Hnd as (Hn1 & Hd & Hn2).
        apply NoDup_cons in Hn2 as [_ Hn2]. apply NoDup_app. split_and!; try done.
        intros x Hx Hx2. apply (Hd x Hx). by right.
      * rewrite pending_in_cons, bool_decide_true in Hlk by done. simpl in Hlk. lia.
      * intros m Hm. rewrite elem_of_app, elem_of_app in Hm.
        assert (Hcase : m ∈ tbl_nodes T \/ exists n', o = Some n' /\ m = n').
        { rewrite Hl. destruct Hm as [Hm|[Hm|Hm]].
          - left. apply elem_of_app. by left.
          - destruct o as [n'|]; [|by apply elem_of_nil in Hm].
            apply list_elem_of_singleton in Hm. eauto.
          - left. apply elem_of_app. right. by right. }
        destruct Hcase as [Hin|(n' & -> & ->)].
        -- specialize (Hsl m Hin). rewrite pending_cons in Hsl.
           destruct (bool_decide _ && bool_decide _); simpl in Hsl; lia.
        -- destruct (Ho n' eq_refl) as [Hi' Hs'].
           specialize (Hsl n). rewrite Hl in Hsl. specialize (Hsl ltac:(apply elem_of_app; right; left)).
           rewrite pending_cons, !bool_decide_true in Hsl by done. simpl in Hsl.
           rewrite Hi', Hs'. lia.
    + intros HT'. destruct (co_table _ _ Hok _ _ HT') as (? & Hlk' & Hsl').
      split; [done|]. rewrite pending_in_cons, bool_decide_false in Hlk' by done.
      simpl in Hlk'. split; [lia|]. intros m Hm. specialize (Hsl' m Hm).
      rewrite pending_cons, bool_decide_false in Hsl' by done. simpl in Hsl'. lia.
  - intros j Hj. destruct (co_items _ _ Hok j ltac:(by right)) as (T' & HT' & Hin).
    rewrite Htb. unfold upd. case_decide as D; [|eauto].
    eexists. split; [done|]. cbn [tbl_nodes]. rewrite Hids. rewrite D in HT'.
    assert (T' = T) by congruence. subst T'. rewrite Hl, fmap_app in Hin. csimpl in Hin.
    destruct o as [n'|]; [done|].
    destruct (decide (ci_node j = ci_node i)) as [E|E].
    + exfalso. specialize (Ho0 eq_refl). specialize (Hsl n). rewrite Hl in Hsl.
      specialize (Hsl ltac:(apply elem_of_app; right; left)). rewrite pending_cons, !bool_decide_true in Hsl by done.
      pose proof (pending_elem items (ci_table i) (ci_node i) j Hj D E) as Hp.
      simpl in Hsl. rewrite Hn in Hsl. lia.
    + rewrite elem_of_app, elem_of_cons in Hin. simpl. rewrite elem_of_app.
      destruct Hin as [?|[?|?]]; [by left|congruence|by right].
Qed.

(** The nodes the items point to hold paths: then none of them leaves its table
    and the surplus stays as it is. *)
Definition busy (tb : tid -> option rib_table) (items : list clear_item) : Prop :=
  forall i T n, i ∈ items -> tb (ci_table i) = Some T -> n ∈ tbl_nodes T ->
    rn_id n = ci_node i -> rn_info n <> [].

Lemma work_surplus tb items i T l1 n l2 n' tb' :
  NoDup (rn_id <$> tbl_nodes T) -> tb (ci_table i) = Some T -> tbl_nodes T = l1 ++ n :: l2 ->
  rn_id n = ci_node i -> rn_id n' = rn_id n -> slack n' = slack n - 1 ->
  (forall t, tb' t = upd tb (ci_table i) (Some (RibTable (tbl_lock T - 1) (l1 ++ n' :: l2))) t) ->
  forall t, surplus tb' items t = surplus tb (i :: items) t.
Proof.
  intros Hnd Ht Hl Hn Hi Hs Htb t. unfold surplus. rewrite Htb. unfold upd. case_decide as D.
  - subst t. rewrite Ht. simpl. rewrite Hl, pending_in_cons, bool_decide_true by done.
    f_equal. f_equal; [simpl; lia|]. rewrite Hl, fmap_app in Hnd. csimpl in Hnd.
    apply NoDup_app in Hnd as (_ & Hd & Hn2). apply NoDup_cons in Hn2 as [Hn2 _].
    assert (Hother : forall l : list rib_node, rn_id n ∉ rn_id <$> l ->
      (fun m => (rn_id m, slack m - pending items (ci_table i) (rn_id m))) <$> l
      = (fun m => (rn_id m, slack m - pending (i :: items) (ci_table i) (rn_id m))) <$> l).
    { intros l Hx. apply list_fmap_ext. intros k m Hm. rewrite pending_cons.
      rewrite (bool_decide_false (ci_node i = _)).
      - rewrite andb_false_r. f_equal; simpl; lia.
      - intros E. apply Hx. rewrite Hn, E. apply list_elem_of_fmap_2.
        by apply list_elem_of_lookup_2 with k. }
    rewrite !fmap_app. csimpl. f_equal.
    + apply Hother. intros Hx. by apply (Hd _ Hx); left.
    + f_equal; [|by apply Hother]. rewrite Hi, Hs, pending_cons, !bool_decide_true by done.
      f_equal. simpl. lia.
  - destruct (tb t) as [T'|]; [|done]. simpl. do 2 f_equal.
    + rewrite pending_in_cons, bool_decide_false by congruence. simpl. lia.
    + apply list_fmap_ext. intros k m _. rewrite pending_cons, bool_decide_false by congruence.
      f_equal; simpl; lia.
Qed.

Lemma busy_worked s i items tb : worked s i tb -> busy (tables s) (i :: items) -> busy tb items.
Proof.
  intros Hw Hb j T' n' Hj HT' Hn' Hi E.
  destruct (Hw _ T' n' HT' Hn') as (T & n & HT & Hn & Hid & Hf).
  apply (Hb j T n); [by right|done|done|congruence|].
  pose proof (item_info_length s i (ci_table j) (rn_id n) (rn_info n)) as Hz.
  rewrite <- Hf, E in Hz. destruct (rn_info n); [done|]. rewrite zlen_cons, zlen_nil in Hz.
  pose proof (zlen_nonneg l). lia.
Qed.

Lemma clear_item_ok s i items : clear_ok (tables s) (i :: items) ->
  exists tb cs, (s1 ← bgp_clear_route_node s i; bgp_clear_node_queue_del s1 i)
      = Ret (set_calls (set_tables s tb) (calls s ++ cs))
    /\ clear_ok tb items /\ worked s i tb
    /\ (forall t, is_Some (tables s t) -> is_Some (tb t))
    /\ (busy (tables s) (i :: items) ->
        forall t, surplus tb items t = surplus (tables s) (i :: items) t).
Proof.
  intros Hok. destruct (co_items _ _ Hok i ltac:(left)) as (T & Ht & Hin).
  destruct (co_table _ _ Hok _ T Ht) as (Hnd & Hlk & Hsl).
  destruct (split_node _ _ Hin Hnd) as (l1 & n & l2 & Hl & Hn & H1 & _).
  assert (Hs : 1 <= slack n).
  { specialize (Hsl n). rewrite Hl in Hsl. specialize (Hsl ltac:(apply elem_of_app; right; left)).
    rewrite pending_cons, !bool_decide_true in Hsl by done. simpl in Hsl.
    pose proof (pending_nonneg items (ci_table i) (rn_id n)). lia. }
  rewrite pending_in_cons, bool_decide_true in Hlk by done. simpl in Hlk.
  pose proof (pending_in_nonneg items (ci_table i)).
  destruct (work_node_eq s i T l1 n l2 Ht Hl Hn H1) as (tb1 & cs & -> & Htb1).
  cbn [mbind res_bind]. set (n1 := with_rn_info n _) in Htb1. set (s1 := set_calls _ _).
  assert (Hs1 : slack n1 = slack n).
  { unfold slack, used, n1. cbn [rn_lock rn_info rn_in rn_out with_rn_info].
    by rewrite item_info_length. }
  destruct (del_node_eq s1 i (RibTable (tbl_lock T) (l1 ++ n1 :: l2)) l1 n1 l2)
    as (o & -> & Ho & Ho0); try done.
  { unfold s1. simpl. by rewrite Htb1, upd_eq. } { lia. } { simpl. lia. }
  exists (upd tb1 (ci_table i) (Some (RibTable (tbl_lock T - 1) (l1 ++ option_list o ++ l2)))), cs.
  assert (Htb : forall t, upd tb1 (ci_table i)
      (Some (RibTable (tbl_lock T - 1) (l1 ++ option_list o ++ l2))) t
    = upd (tables s) (ci_table i)
      (Some (RibTable (tbl_lock T - 1) (l1 ++ option_list o ++ l2))) t).
  { intros t. unfold upd. case_decide; [done|]. by rewrite Htb1, upd_ne. }
  split_and!; [done| | | |].
  - eapply (work_inv (tables s) items i T l1 n l2 o); try done.
    + intros n' Hn'. rewrite (Ho n' Hn'). split; [done|].
      unfold slack, used in *. simpl. simpl in Hs1. lia.
    + intros H0. destruct (Ho0 H0) as [? _]. lia.
  - intros t T' n'. rewrite Htb. unfold upd. case_decide as D.
    + subst t. intros [= <-] Hn'. cbn [tbl_nodes] in Hn'. exists T.
      rewrite elem_of_app, elem_of_app in Hn'.
      assert (Hd : forall m, m ∈ l1 \/ m ∈ l2 -> rn_id m <> ci_node i).
      { intros m Hm Em. rewrite Hl, fmap_app in Hnd. csimpl in Hnd.
        apply NoDup_app in Hnd as (_ & _ & Hnd). apply NoDup_cons in Hnd as [H2 _].
        destruct Hm as [Hm|Hm]; apply (list_elem_of_fmap_2 rn_id) in Hm; [|congruence].
        by rewrite Em in Hm. }
      destruct Hn' as [Hn'|[Hn'|Hn']].
      * exists n'. split_and!; [done|rewrite Hl; apply elem_of_app; by left|done|].
        unfold item_info. rewrite decide_False; [done|]. intros [_ E]. eapply Hd; eauto.
      * destruct o as [n''|]; [|by apply elem_of_nil in Hn'].
        apply list_elem_of_singleton in Hn' as ->. rewrite (Ho n'' eq_refl).
        exists n. split_and!; [done|rewrite Hl; apply elem_of_app; right; left|done|done].
      * exists n'. split_and!; [done|rewrite Hl; apply elem_of_app; right; by right|done|].
        unfold item_info. rewrite decide_False; [done|]. intros [_ E]. eapply Hd; eauto.
    + intros HT' Hn'. exists T', n'. split_and!; try done.
      unfold item_info. rewrite decide_False; [done|]. by intros [? _].
  - intros t Hst. rewrite Htb. unfold upd. case_decide; [by eexists|done].
  - intros Hb. destruct o as [n'|].
    2: { destruct (Ho0 eq_refl) as [_ E].
         assert (Hz : zlen (rn_info n1) = zlen (rn_info n)) by apply item_info_length.
         rewrite E, zlen_nil in Hz. exfalso. apply (Hb i T n); [by left|done| |done|].
         - rewrite Hl. apply elem_of_app. right. left.
         - destruct (rn_info n) as [|x r]; [done|]. rewrite zlen_cons in Hz.
           pose proof (zlen_nonneg r). lia. }
    pose proof (Ho n' eq_refl) as ->.
    apply (work_surplus (tables s) items i T l1 n l2 (with_rn_lock n1 (rn_lock n1 - 1)));
      [done..| |exact Htb].
    unfold slack, used in *. simpl in *. lia.
Qed.

(** The paths of a node after some items were worked. *)
Definition items_info (s : session) (items : list clear_item) (t : tid) (id : Z)
    (info : list (Z * Z)) : list (Z * Z) :=
  foldl (fun l i => item_info s i t id l) info items.

Lemma clear_work_ok items rest s : clear_ok (tables s) (items ++ rest) ->
  exists tb cs, clear_work s items = Ret (set_calls (set_tables s tb) (calls s ++ cs))
    /\ clear_ok tb rest
    /\ (forall t T' n', tb t = Some T' -> n' ∈ tbl_nodes T' ->
       exists T n, tables s t = Some T /\ n ∈ tbl_nodes T /\ rn_id n' = rn_id n
         /\ rn_info n' = items_info s items t (rn_id n) (rn_info n))
    /\ (forall t, is_Some (tables s t) -> is_Some (tb t))
    /\ (busy (tables s) (items ++ rest) ->
        busy tb rest /\ forall t, surplus tb rest t = surplus (tables s) (items ++ rest) t).
Proof.
  revert s. induction items as [|i items IH]; intros s Hok.
  - exists (tables s), []. rewrite app_nil_r. split; [by destruct s|]. split; [done|]. eauto 10.
  - destruct (clear_item_ok s i (items ++ rest) Hok) as (tb & cs & E & Hok1 & Hw & Hd & Hb).
    cbn [clear_work]. destruct (bgp_clear_route_node s i) as [s1| |]; try done.
    cbn [mbind res_bind] in *. rewrite E. cbn [mbind res_bind].
    set (s2 := set_calls _ _) in *.
    destruct (IH s2 Hok1) as (tb' & cs' & -> & Hok2 & Hw2 & Hd2 & Hb2).
    exists tb', (cs ++ cs'). rewrite app_assoc. split; [done|]. split; [done|].
    split; [|split; [intros t Hst; by apply Hd2, Hd|]].
    2: { intros Hbs. destruct Hb2 as [H1 H2]; [exact (busy_worked s i _ _ Hw Hbs)|].
         split; [done|]. intros t. rewrite H2. by apply Hb. }
    intros t T' n' HT' Hn'. destruct (Hw2 t T' n' HT' Hn') as (T & n & HT & Hn & Hi & Hf).
    destruct (Hw t T n HT Hn) as (T0 & n0 & HT0 & Hn0 & Hi0 & Hf0).
    exists T0, n0. rewrite Hi, Hf, Hi0, Hf0. done.
Qed.

(** ** Draining the queue *)

(** Runs of the queue's thread, as long as it is scheduled; [todos] says how
    many items each run works before it yields. *)
Fixpoint clear_runs (todos : list nat) (s : session) : res session :=
  match todos with
  | [] => Ret s
  | k :: r => if cq_thread (the_queue s) then s ← clear_queue_run k s; clear_runs r s else Ret s
  end.

Lemma items_info_app s l l' t id info :
  items_info s (l ++ l') t id info = items_info s l' t id (items_info s l t id info).
Proof. apply foldl_app. Qed.

Lemma complete_eq s tb q cs : 1 < lock s ->
  bgp_clear_node_complete (set_calls (set_tables (set_clear_node_queue s (Some q)) tb) cs)
  = Ret (set_calls (clear_set s tb q (events s ++ completion s) (lock s - 1)) cs).
Proof.
  intros Hl. unfold bgp_clear_node_complete. rewrite event_add_eq. unfold peer_unlock.
  cbn [lock set_events set_calls set_tables set_clear_node_queue].
  destruct (Z.ltb_spec 0 (lock s)); [|lia]. cbn [cassert mbind res_bind set_lock lock].
  destruct (Z.eqb_spec (lock s - 1) 0); [lia|]. done.
Qed.

Lemma clear_runs_ok todos s items :
  the_queue s = ClearQueue items true -> items <> [] -> clear_ok (tables s) items ->
  1 < lock s -> Forall (fun k => (0 < k)%nat) todos -> (length items <= length todos)%nat ->
  exists tb cs, clear_runs todos s
      = Ret (set_calls (clear_set s tb (ClearQueue [] false)
                          (events s ++ completion s) (lock s - 1)) (calls s ++ cs))
    /\ clear_ok tb []
    /\ (forall t T' n', tb t = Some T' -> n' ∈ tbl_nodes T' ->
       exists T n, tables s t = Some T /\ n ∈ tbl_nodes T /\ rn_id n' = rn_id n
         /\ rn_info n' = items_info s items t (rn_id n) (rn_info n))
    /\ (busy (tables s) items -> forall t, surplus tb [] t = surplus (tables s) items t).
Proof.
  revert s items. induction todos as [|k todos IH]; intros s items Hq Hne Hok Hl Hpos Hlen.
  { destruct items; [done|simpl in Hlen; lia]. }
  inversion Hpos as [|? ? Hk Hpos']. subst. cbn [clear_runs]. rewrite Hq. cbn [cq_thread].
  unfold clear_queue_run. rewrite Hq. cbn [cq_items].
  rewrite <- (take_drop k items) in Hok.
  set (s0 := set_clear_node_queue s (Some (ClearQueue (drop k items) false))).
  destruct (clear_work_ok (take k items) (drop k items) s0 Hok) as (tb & cs & -> & Hok1 & Hw & _ & Hb).
  rewrite take_drop in Hb.
  cbn [mbind res_bind]. destruct (drop k items) as [|j rest] eqn:Ed.
  - unfold s0. rewrite complete_eq by done. cbn [mbind res_bind].
    exists tb, cs. split; [|split; [done|split]].
    + destruct todos; [done|]. by cbn [clear_runs].
    + rewrite <- (take_drop k items), Ed, app_nil_r. exact Hw.
    + intros Hbs. by apply Hb.
  - cbn [mbind res_bind]. set (s1 := set_clear_node_queue _ _).
    destruct (IH s1 (j :: rest) eq_refl) as (tb' & cs' & E & Hok2 & Hw2 & Hb2); try done.
    { rewrite <- Ed, length_drop. simpl in Hlen. destruct k; lia. }
    rewrite E. exists tb', (cs ++ cs'). rewrite app_assoc. split; [done|]. split; [done|].
    split; [|intros Hbs t; destruct (Hb Hbs) as [H1 H2]; by rewrite Hb2, <- H2].
    intros t T' n' HT' Hn'. destruct (Hw2 t T' n' HT' Hn') as (T & n & HT & Hn & Hi & Hf).
    destruct (Hw t T n HT Hn) as (T0 & n0 & HT0 & Hn0 & Hi0 & Hf0).
    exists T0, n0. split_and!; [done|done|congruence|].
    rewrite <- (take_drop k items), Ed, items_info_app, Hf, Hi0, Hf0. done.
Qed.

(** ** What is left of the peer's paths *)

(** [BGP_INFO_HOLDDOWN]: the path is out of use. *)
Definition holddown (f : Z) : bool := negb (Z.testbit f INFO_VALID) || unuseable f.

(** The peer is expected back and keeps the routes of this table's family: its
    paths become stale, which leaves them in use. *)
Definition graceful (s : session) (t : tid) : bool :=
  sflag s PEER_STATUS_NSF_WAIT && nsf (fams s (tid_family t)).

(** The paths of [me] are out of use, or stale in a table with graceful restart. *)
Definition idle (g : bool) (me : Z) (info : list (Z * Z)) : Prop :=
  forall fl, (me, fl) ∈ info ->
    holddown fl = true \/ g = true /\ Z.testbit fl INFO_STALE = true.

Definition one_path (me : Z) (info : list (Z * Z)) : Prop :=
  (length (filter (fun ri => ri.1 = me) info) <= 1)%nat.

Lemma clear_flags_cleared g f : holddown (clear_flags g f) = true
  \/ g = true /\ Z.testbit (clear_flags g f) INFO_STALE = true.
Proof.
  unfold clear_flags, rib_remove_flags, holddown. destruct (goes_stale g f) eqn:E.
  - right. unfold goes_stale in E. split; [by destruct g|].
    by rewrite (Z.setbit_eq f) by (unfold INFO_STALE; lia).
  - left. unfold unuseable. destruct (Z.testbit f INFO_HISTORY) eqn:H; [by rewrite H, orb_true_r|].
    rewrite Z.clearbit_eq by done. done.
Qed.

Lemma on_first_elem f g l q fl : (q, fl) ∈ on_first f g l ->
  (q, fl) ∈ l \/ exists fl0, fl = g fl0.
Proof.
  induction l as [|[a x] r IH]; simpl; [by intros ?%elem_of_nil|].
  destruct (f a).
  - intros [[= -> ->]|H]%elem_of_cons; [eauto|]. left. by right.
  - intros [[= -> ->]|H]%elem_of_cons; [left; by left|].
    destruct (IH H) as [?|?]; [left; by right|eauto].
Qed.

Lemma idle_step s i t id me l :
  idle (graceful s t) me l -> idle (graceful s t) me (item_info s i t id l).
Proof.
  intros H fl. unfold item_info. case_decide as D; [|apply H].
  intros [Hin|(fl0 & ->)]%on_first_elem; [by apply H|]. destruct D as [-> _].
  apply clear_flags_cleared.
Qed.

Lemma one_path_step s i t id me l : one_path me l -> one_path me (item_info s i t id l).
Proof.
  unfold one_path, item_info. case_decide; [|done]. intros Hl.
  rewrite <- (length_fmap fst) in Hl |- *.
  assert (Hp : forall f g k, fst <$> filter (fun ri => ri.1 = me) (on_first f g k)
                 = fst <$> filter (fun ri => ri.1 = me) k); [|by rewrite Hp].
  intros f g k. induction k as [|[a x] r IH]; [done|]. simpl.
  destruct (f a); rewrite !filter_cons; simpl; case_decide; csimpl; try done; by rewrite IH.
Qed.

Lemma on_first_idle me g l : one_path me l ->
  idle g me (on_first (clears me BGP_CLEAR_ROUTE_NORMAL) (clear_flags g) l).
Proof.
  unfold one_path. induction l as [|[a x] r IH]; simpl; [by intros _ fl ?%elem_of_nil|].
  rewrite filter_cons. unfold clears at 1. simpl. rewrite orb_false_r.
  destruct (Z.eqb_spec a me) as [->|Hne]; case_decide as D; try done.
  - simpl. intros Hl fl [[= ->]|Hin]%elem_of_cons; [apply clear_flags_cleared|].
    assert (Hf : (me, fl) ∈ filter (fun ri => ri.1 = me) r) by (by apply list_elem_of_filter).
    destruct (filter _ r); [by apply elem_of_nil in Hf|simpl in Hl; lia].
  - intros Hl fl [[= -> ->]|Hin]%elem_of_cons; [done|]. by apply IH.
Qed.

Lemma items_idle s items t id l :
  let me := my_id (conf s) in one_path me l ->
  Exists (fun i => ci_table i = t /\ ci_node i = id /\ ci_purpose i = BGP_CLEAR_ROUTE_NORMAL) items ->
  idle (graceful s t) me (items_info s items t id l).
Proof.
  intros me. revert l. induction items as [|i r IH]; intros l Hl He; [by inversion He|].
  unfold items_info. cbn [foldl]. fold (items_info s r t id (item_info s i t id l)).
  apply Exists_cons in He as [(Ht & Hi & Hp)|He]; [|apply IH; [by apply one_path_step|done]].
  assert (H0 : idle (graceful s t) me (item_info s i t id l)).
  { unfold item_info. rewrite decide_True by done. rewrite Hp, Ht. by apply on_first_idle. }
  clear -H0. revert H0. generalize (item_info s i t id l). induction r as [|j r IHr]; intros k Hk; [done|].
  cbn [items_info foldl]. apply IHr. by apply idle_step.
Qed.

Lemma idle_nothing g me l : existsb (fun ri => clears me BGP_CLEAR_ROUTE_NORMAL ri.1) l = false ->
  idle g me l.
Proof.
  intros H fl Hin. exfalso. apply list_elem_of_In in Hin.
  assert (existsb (fun ri => clears me BGP_CLEAR_ROUTE_NORMAL ri.1) l = true); [|congruence].
  apply existsb_exists. exists (me, fl). split; [done|]. unfold clears. simpl. by rewrite Z.eqb_refl.
Qed.

Lemma items_info_idle s items t id me l :
  idle (graceful s t) me l -> idle (graceful s t) me (items_info s items t id l).
Proof.
  revert l. induction items as [|i r IH]; intros l Hl; [done|].
  cbn [items_info foldl]. apply IH. by apply idle_step.
Qed.

(** Every visited node of the peer has its item. *)
Lemma visited_item s af t T n : af ∈ families ->
  t ∈ tables_of s af BGP_CLEAR_ROUTE_NORMAL -> tables s t = Some T -> n ∈ tbl_nodes T ->
  hit (my_id (conf s)) BGP_CLEAR_ROUTE_NORMAL n = true ->
  ClearItem t (rn_id n) BGP_CLEAR_ROUTE_NORMAL
    ∈ concat (family_items s BGP_CLEAR_ROUTE_NORMAL <$> families).
Proof.
  intros Haf Ht HT Hn Hh. apply list_elem_of_In, in_concat.
  exists (family_items s BGP_CLEAR_ROUTE_NORMAL af). split.
  - apply list_elem_of_In, list_elem_of_fmap_2. done.
  - apply list_elem_of_In. unfold family_items. apply list_elem_of_bind. exists t.
    split; [|done]. unfold found, hit_items. apply list_elem_of_fmap.
    exists (rn_id n). split; [done|]. rewrite (hits_nodes _ _ _ _ _ HT).
    apply list_elem_of_fmap_2, list_elem_of_filter. done.
Qed.

Lemma paths_node tb tb' t T' n' : paths tb' t = paths tb t -> tb' t = Some T' ->
  n' ∈ tbl_nodes T' ->
  exists T n, tb t = Some T /\ n ∈ tbl_nodes T /\ rn_id n' = rn_id n /\ rn_info n' = rn_info n.
Proof.
  unfold paths. intros Hp HT' Hn'. rewrite HT' in Hp. destruct (tb t) as [T|]; [|done].
  injection Hp as Hp. apply list_elem_of_lookup in Hn' as [k Hk].
  assert (Hk' : ((fun n => (rn_id n, rn_info n)) <$> tbl_nodes T) !! k
                = Some (rn_id n', rn_info n'))
    by (rewrite <- Hp, list_lookup_fmap, Hk; done).
  rewrite list_lookup_fmap in Hk'. destruct (tbl_nodes T !! k) as [n|] eqn:E; [|done].
  injection Hk' as Hi Hf. exists T, n. split_and!; try done.
  by apply list_elem_of_lookup_2 with k.
Qed.

(** The items found point to nodes with paths. *)
Lemma found_busy s pu afs tb :
  (forall t, paths tb t = paths (tables s) t) -> clear_ok tb (concat (family_items s pu <$> afs)) ->
  busy tb (concat (family_items s pu <$> afs)).
Proof.
  intros Hp Hok i T n Hi HT Hn Hid E.
  apply list_elem_of_In, in_concat in Hi as (its & Hits & Hi).
  apply list_elem_of_In, list_elem_of_fmap in Hits as (af & -> & _).
  apply list_elem_of_In in Hi. unfold family_items in Hi. apply list_elem_of_bind in Hi as (t & Hi & _).
  unfold found, hit_items in Hi. apply list_elem_of_fmap in Hi as (id & -> & Hh).
  cbn [ci_table ci_node] in *. rewrite <- (hits_same _ _ _ _ _ (Hp t)) in Hh.
  rewrite (hits_nodes _ _ _ _ _ HT) in Hh.
  apply list_elem_of_fmap in Hh as (m & -> & [Hh Hm]%list_elem_of_filter).
  destruct (co_table _ _ Hok t T HT) as (Hnd & _).
  rewrite (node_unique _ _ _ Hnd Hn Hm Hid) in E. unfold hit in Hh. by rewrite E in Hh.
Qed.

(** The locks of a table and its nodes, those of the nodes less the references
    of their own paths and adj entries. *)
Definition locks (tb : tid -> option rib_table) (t : tid) : option (Z * list (Z * Z)) :=
  (fun T => (tbl_lock T, (fun n => (rn_id n, slack n)) <$> tbl_nodes T)) <$> tb t.

Lemma surplus_nil tb t : surplus tb [] t = locks tb t.
Proof.
  unfold surplus, locks. destruct (tb t) as [T|]; [|done]. simpl. do 2 f_equal; [apply Z.sub_0_r|].
  apply list_fmap_ext. intros k n _. by rewrite Z.sub_0_r.
Qed.

(** [bgp_clear_route_all] on a peer whose clearing queue may already hold
    items: no assertion fails and no node is freed under it; the queue gains one
    item for every node that holds a path of the peer, in the order of the
    families and tables, each item with its references on node and table; paths
    stay as they are until the queue runs.  While the queue is not scheduled,
    each family with nothing to clear reports completion at once, and the first
    with something to clear takes one reference on the peer. *)
Theorem clear_route_all_spec (s : session) :
  clear_ok (tables s) (cq_items (the_queue s)) -> 1 <= lock s ->
  let q := the_queue s in
  let news := family_items s BGP_CLEAR_ROUTE_NORMAL <$> families in
  exists s', bgp_clear_route_all s = Ret s'
    /\ the_queue s' = ClearQueue (cq_items q ++ concat news)
                        (cq_thread q || bool_decide (concat news <> []))
    /\ clear_ok (tables s') (cq_items (the_queue s'))
    /\ (forall t, paths (tables s') t = paths (tables s) t)
    /\ events s' = events s ++ early s (cq_thread q) news
    /\ lock s' = lock s + Z.b2z (takes_ref (cq_thread q) (concat news))
    /\ status s' = status s.
Proof.
  intros Hok Hl q news. destruct (clear_all_ok s Hok Hl) as (tb & E & Hok' & Hp & _).
  eexists. split; [exact E|]. by split_and!.
Qed.


(** Completion is reported too early: when the peer has no path in the first
    family (IPv4 unicast) but has some in another one, [bgp_clear_route_all]
    already queues Clearing_Completed while nodes are still waiting in the
    clearing queue, although the state machine is meant to stay in Clearing
    until they are cleared. *)
Lemma clear_reports_early (s : session) :
  let news := family_items s BGP_CLEAR_ROUTE_NORMAL <$> families in
  cq_thread (the_queue s) = false -> clear_ok (tables s) (cq_items (the_queue s)) ->
  1 <= lock s -> status s <> Deleted ->
  family_items s BGP_CLEAR_ROUTE_NORMAL (1, 1) = [] -> concat news <> [] ->
  exists s', bgp_clear_route_all s = Ret s'
    /\ Clearing_Completed ∈ events s' /\ cq_items (the_queue s') <> [].
Proof.
  intros news Ht Hok Hl Hd Hf Hne. destruct (clear_all_ok s Hok Hl) as (tb & E & _).
  fold news in E. eexists. split; [exact E|]. split.
  - simpl. apply elem_of_app. right. unfold early. rewrite Ht. unfold news.
    unfold families. csimpl. rewrite Hf. cbn [leading_empty replicate concat].
    apply elem_of_app. left. unfold completion. rewrite bool_decide_true by done. by left.
  - simpl. by intros [_ ?]%app_nil.
Qed.
