(* ===== verification/Fsm.v ===== *)
(** * bgpd/bgp_fsm.c: the state machine of a session

    The event functions, the table of the finite state machine and
    [bgp_event], the expiry of the timers, [peer_delete] of bgpd.c, and of
    bgp_packet.c what the machine needs: [bgp_keepalive_send] with all the trust
    and voting messages it sends (Trust.v), the NOTIFICATION sender, the check of
    a non-blocking connect, and what sending an OPEN does to the session.
    Event functions return their [int] result with the new session. *)
From stdpp Require Import base option list gmap.
From Stdlib Require Import ZArith Lia.
From S2P Require Import Prelude Stream Fifo Packet Files Trust Session Clear.

(** ** The environment *)

Inductive connect_result := connect_error | connect_success | connect_in_progress.

(** What the system answers during one event: [rand ()] for the start timer and
    for the TRUST message, the clock, [sockunion_socket], [sockunion_connect],
    [writen], and what the memory of a new message of each type holds. *)
Record inputs := Inputs {
  in_rand : Z; in_code : Z; in_now : Z; in_socket : Z; in_connect : connect_result;
  in_writen : Z; in_fill : Z -> nat -> Z;
}.

Definition outcome := res (Z * session).

(** ** Sending *)

(** [bgp_packet_add]: without a queue this writes through NULL. *)
Definition packet_add (s : session) (m : msg) : res session :=
  match obuf s with Some q => Ret (set_obuf s (Some (q ++ [m]))) | None => Fault end.

Fixpoint packets_add (s : session) (ps : list stream) : res session :=
  match ps with
  | [] => Ret s
  | p :: ps => s ← packet_add s (MPacket p); packets_add s ps
  end.

(** The block [stream_new] gets for a message of type [t]. *)
Definition packet_block (i : inputs) (t : Z) : list Z :=
  map (fun k => u8 (in_fill i t k)) (seq 0 (Z.to_nat BGP_MAX_PACKET_SIZE)).

(** [bgp_keepalive_send] of Trust.v for this peer: it reads and writes the files
    and [toDrop], and the streams it queues follow those that were waiting. *)
Definition keepalive_send {L : Layout} (i : inputs) (s : session) : res session :=
  let p := Peer (my_as (conf s)) (my_host (conf s)) (bool_decide (status s = Deleted)) in
  let w := World (g_files (shared s)) ∅ (g_toDrop (shared s)) stream_fifo_new (t_write s) in
  w ← bgp_keepalive_send (packet_block i) (in_code i) (in_now i) w p;
  ps ← fifo_streams (hp w) (Trust.obuf w);
  s ← packets_add s ps;
  Ret (set_t_write (set_shared s (Globals (files w) (toDrop w))) (Trust.t_write w)).

(** The families [bgp_open_capability] advertises, in its order. *)
Definition mp_families : list (Z * Z) := [(1, 1); (1, 2); (1, 4); (2, 1); (2, 2)].

(** The same update of the families of a loop. *)
Definition each_family (l : list (Z * Z)) (g : Z * Z -> family -> family)
    (fs : Z * Z -> family) : Z * Z -> family :=
  fun af => if bool_decide (af ∈ l) then g af (fs af) else fs af.

Definition with_adv (f : family) : family :=
  Family (afc_nego f) true (afc_recv f) (af_cap f) (af_sflags f) (orf_plist f) (nsf f).
Definition with_af_cap (f : family) (x : Z) : family :=
  Family (afc_nego f) (afc_adv f) (afc_recv f) x (af_sflags f) (orf_plist f) (nsf f).
Definition with_af_sflags (f : family) (x : Z) : family :=
  Family (afc_nego f) (afc_adv f) (afc_recv f) (af_cap f) x (orf_plist f) (nsf f).
Definition with_nsf (f : family) (x : bool) : family :=
  Family (afc_nego f) (afc_adv f) (afc_recv f) (af_cap f) (af_sflags f) (orf_plist f) x.

Definition set_if (b : bool) (k w : Z) : Z := if b then Z.setbit w k else w.

(** What [bgp_open_capability] records about the capabilities it writes.  For a
    VPN family [bgp_open_capability_orf] indexes its arrays with the SAFI of the
    wire (128), out of bounds. *)
Definition open_capability (s : session) : res session :=
  let c := conf s in
  if negb (sflag s PEER_STATUS_CAPABILITY_OPEN) || dont_capability c then Ret s
  else if existsb (fun af => (orf_sm c af || orf_rm c af) && (af.2 =? SAFI_MPLS_VPN)) families
  then Fault
  else
    let s := set_fams s (each_family mp_families
               (fun af f => if afc c af then with_adv f else f) (fams s)) in
    let s := set_fams s (each_family families
               (fun af f => with_af_cap f (set_if (orf_sm c af) PEER_CAP_ORF_PREFIX_SM_ADV
                              (set_if (orf_rm c af) PEER_CAP_ORF_PREFIX_RM_ADV (af_cap f))))
               (fams s)) in
    let cap1 := Z.setbit (Z.setbit (cap s) PEER_CAP_REFRESH_ADV) PEER_CAP_AS4_ADV in
    Ret (set_cap s (set_if (graceful_restart c) PEER_CAP_RESTART_ADV
                      (set_if (dynamic_capability c) PEER_CAP_DYNAMIC_ADV cap1))).

Definition open_send (s : session) : res session :=
  let c := conf s in
  let send_holdtime := u16 (if config_timer c then cf_holdtime c else default_holdtime c) in
  s ← open_capability s;
  s ← packet_add s (MOpen send_holdtime);
  Ret (BGP_WRITE_ON s).

(** The part of [bgp_route_refresh_send] with [remove] 0: the message, and the
    flag that says a prefix list went with it. *)
Definition PEER_STATUS_ORF_PREFIX_SEND : Z := 0.
Definition route_refresh_send (s : session) (af : Z * Z) (old : bool) : res session :=
  s ← (if orf_in (conf s) af
       then if af.2 =? SAFI_MPLS_VPN then Fault
            else let f := fams s af in
                 Ret (set_fam s af (with_af_sflags f
                                      (Z.setbit (af_sflags f) PEER_STATUS_ORF_PREFIX_SEND)))
       else Ret s);
  s ← packet_add s (MRefresh af old);
  Ret (BGP_WRITE_ON s).

Definition BGP_NOTIFY_CEASE_ADMIN_SHUTDOWN : Z := 2.
Definition BGP_NOTIFY_CEASE_ADMIN_RESET : Z := 4.
Definition BGP_NOTIFY_CEASE_CONFIG_CHANGE : Z := 6.
Definition BGP_NOTIFY_HOLD_ERR : Z := 4.
Definition PEER_DOWN_USER_SHUTDOWN : Z := 11.
Definition PEER_DOWN_USER_RESET : Z := 12.
Definition PEER_DOWN_NOTIFY_SEND : Z := 14.
Definition PEER_DOWN_NEIGHBOR_DELETE : Z := 16.

(** Doubling the start timer, with its overflow check. *)
Definition double_start (s : session) : session :=
  let x := u32 (v s v_start * 2) in
  set_v s v_start (if 60 * 2 <=? x then 60 * 2 else x).

(** [writen] blocks until the whole message is written. *)
Definition bgp_write_notify (i : inputs) (s : session) : session :=
  match obuf s with
  | Some (_ :: _) =>
      if in_writen i <=? 0 then BGP_EVENT_ADD s TCP_fatal_error
      else BGP_EVENT_ADD (double_start (count_up s notify_out)) BGP_Stop
  | _ => s
  end.

Definition bgp_notify_send_with_data (i : inputs) (s : session) (code sub_code : Z)
    (data : list Z) : res session :=
  s ← match obuf s with
      | Some _ => Ret (set_obuf s (Some [MNotify code sub_code data]))
      | None => Fault
      end;
  let s :=
    if sub_code =? BGP_NOTIFY_CEASE_CONFIG_CHANGE then s
    else set_last_reset s
           (if sub_code =? BGP_NOTIFY_CEASE_ADMIN_RESET then PEER_DOWN_USER_RESET
            else if sub_code =? BGP_NOTIFY_CEASE_ADMIN_SHUTDOWN then PEER_DOWN_USER_SHUTDOWN
            else PEER_DOWN_NOTIFY_SEND) in
  Ret (bgp_write_notify i (BGP_WRITE_OFF s)).

Definition bgp_notify_send (i : inputs) (s : session) (code sub_code : Z) : res session :=
  bgp_notify_send_with_data i s code sub_code [].

(** ** Changing state *)

Definition bgp_fsm_change_status (s : session) (st : bgp_status) : res session :=
  let s := log s (CDumpState (status s) st) in
  s ← (if status_code Clearing <=? status_code st then bgp_clear_route_all s else Ret s);
  Ret (set_status (set_ostatus s (status s)) st).

Definition opt_reset (o : option stream) : res (option stream) :=
  match o with Some b => b ← stream_reset b; Ret (Some b) | None => Ret None end.

(** The part of [bgp_stop] for a session that was up. *)
Definition stop_established (i : inputs) (s : session) : session :=
  let s := count_up s dropped in
  let s := BGP_TIMER_OFF s t_gr_stale in
  let s :=
    if sflag s PEER_STATUS_NSF_WAIT then
      let s := BGP_TIMER_ON s t_gr_restart (v_gr_restart (conf s)) in
      BGP_TIMER_ON s t_gr_stale (stalepath_time (conf s))
    else
      let s := set_sflags s (Z.clearbit (sflags s) PEER_STATUS_NSF_MODE) in
      set_fams s (each_family nsf_families (fun _ f => with_nsf f false) (fams s)) in
  let s := set_clock (set_clock s uptime (in_now i)) resettime (in_now i) in
  set_clock s synctime 0.

(** The loop that resets what was negotiated. *)
Definition reset_families (s : session) : session :=
  let s := set_fams s (each_family families
             (fun _ f => Family false false false 0 0 false (nsf f)) (fams s)) in
  set_calls s (calls s ++ map COrfRemove families).

Definition bgp_stop (i : inputs) (s : session) : outcome :=
  let s := if bool_decide (status s <> Clearing) then BGP_EVENT_FLUSH s else s in
  let s := if bool_decide (status s = Established) then stop_established i s else s in
  let s := BGP_WRITE_OFF (BGP_READ_OFF s) in
  let s := timers_off s [t_start; t_connect; t_holdtime; t_keepalive; t_asorig; t_routeadv] in
  let s := set_packet_size s 0 in
  ib ← opt_reset (ibuf s);
  wk ← opt_reset (work s);
  let s := set_obuf (set_work (set_ibuf s ib) wk) ((fun _ => []) <$> obuf s) in
  let s := if 0 <=? fd s then set_fd (log s (CClose (fd s))) (-1) else s in
  let s := reset_families s in
  let c := conf s in
  let s := if config_timer c
           then set_v (set_v s v_keepalive (cf_keepalive c)) v_holdtime (cf_holdtime c)
           else set_v (set_v s v_keepalive (default_keepalive c)) v_holdtime (default_holdtime c) in
  Ret (0, set_clock s update_time 0).

Definition bgp_clearing_completed (i : inputs) (s : session) : outcome :=
  '(rc, s) ← bgp_stop i s;
  Ret (rc, BGP_EVENT_FLUSH s).

Definition bgp_stop_with_error (i : inputs) (s : session) : outcome :=
  '(_, s) ← bgp_stop i (double_start s);
  Ret (0, s).

(** ** Connecting *)

Definition bgp_connect_success (i : inputs) (s : session) : outcome :=
  if fd s <? 0 then Ret (-1, s)
  else
    let s := BGP_READ_ON s in
    if sflag s PEER_STATUS_ACCEPT_PEER then Ret (0, s)
    else s ← open_send (log s CGetsockname); Ret (0, s).

Definition bgp_connect_fail (i : inputs) (s : session) : outcome :=
  '(_, s) ← bgp_stop i s; Ret (0, s).

(** [None] stands for the -1 that is none of the three results. *)
Definition bgp_connect (i : inputs) (s : session) : option connect_result * session :=
  let s := set_fd s (in_socket i) in
  if fd s <? 0 then (None, s) else (Some (in_connect i), s).

Definition bgp_start (i : inputs) (s : session) : outcome :=
  if BGP_PEER_START_SUPPRESSED s then Ret (-1, s)
  else
    let s := set_cap (set_peer_remote_id s 0) 0 in
    if passive (conf s) then Ret (0, BGP_EVENT_ADD s TCP_connection_open_failed)
    else
      let '(r, s) := bgp_connect i s in
      match r with
      | Some connect_error => Ret (0, BGP_EVENT_ADD s TCP_connection_open_failed)
      | Some connect_success => Ret (0, BGP_EVENT_ADD s TCP_connection_open)
      | Some connect_in_progress =>
          if fd s <? 0 then Ret (-1, s) else Ret (0, BGP_WRITE_ON (BGP_READ_ON s))
      | None => Ret (0, s)
      end.

Definition bgp_reconnect (i : inputs) (s : session) : outcome :=
  '(_, s) ← bgp_stop i s;
  '(_, s) ← bgp_start i s;
  Ret (0, s).

(** The writability of a socket that is being connected; [err] is what
    [getsockopt (SO_ERROR)] says, [None] if it fails. *)
Definition bgp_connect_check (err : option Z) (s : session) : session :=
  let s := BGP_WRITE_OFF (BGP_READ_OFF s) in
  match err with
  | None => BGP_EVENT_ADD s TCP_fatal_error
  | Some e => if e =? 0 then BGP_EVENT_ADD s TCP_connection_open
              else BGP_EVENT_ADD s TCP_connection_open_failed
  end.

(** ** Deleting the peer *)

Definition peer_nsf_stop (s : session) : res session :=
  let s := set_sflags s (Z.clearbit (Z.clearbit (sflags s) PEER_STATUS_NSF_WAIT)
                           PEER_STATUS_NSF_MODE) in
  let s := set_fams s (each_family nsf_families (fun _ f => with_nsf f false) (fams s)) in
  bgp_clear_route_all (timers_off s [t_gr_restart; t_gr_stale]).

(** Drop the reference a list holds, if the peer is on it. *)
Definition leave (s : session) (h : holder) : res session :=
  if bool_decide (h ∈ refs s)
  then s ← peer_unlock s; Ret (set_refs s (filter (fun x => x <> h) (refs s)))
  else Ret s.

(** [bgp_table_finish] of the client's own table of a family. *)
Definition finish_table (s : session) (af : Z * Z) : res session :=
  let t := TClient (my_id (conf s)) af in
  match tables s t with
  | Some T =>
      if af_group (conf s) af then Ret s
      else
        _ ← cassert (0 <? tbl_lock T);
        Ret (set_tables s (upd (tables s) t
               (if tbl_lock T - 1 =? 0 then None
                else Some (RibTable (tbl_lock T - 1) (tbl_nodes T)))))
  | None => Ret s
  end.

Fixpoint finish_tables (s : session) (afs : list (Z * Z)) : res session :=
  match afs with [] => Ret s | af :: afs => s ← finish_table s af; finish_tables s afs end.

(** [peer_rsclient_active] *)
Definition rsclient_active (s : session) : bool := existsb (my_rsclient (conf s)) families.

Definition peer_delete (i : inputs) (s : session) : res session :=
  _ ← cassert (bool_decide (status s <> Deleted));
  s ← (if sflag s PEER_STATUS_NSF_WAIT then peer_nsf_stop s else Ret s);
  s ← leave s HGroup;
  let s := set_last_reset s PEER_DOWN_NEIGHBOR_DELETE in
  '(_, s) ← bgp_stop i s;
  s ← bgp_fsm_change_status s Deleted;
  let s := if password (conf s) && negb (sflag s PEER_STATUS_GROUP) then log s CMd5Set else s in
  let s := bgp_timer_set (in_rand i) s in
  s ← (if negb (sflag s PEER_STATUS_GROUP) then leave s HPeerList else Ret s);
  s ← (if rsclient_active s && bool_decide (HRsclient ∈ refs s)
       then s ← leave s HRsclient;
            clear_families s (filter (fun af => my_rsclient (conf s) af = true) families)
              BGP_CLEAR_ROUTE_MY_RSCLIENT
       else Ret s);
  s ← finish_tables s families;
  let s := set_obuf (set_work (set_ibuf s None) None) None in
  peer_unlock s.

(** ** Messages and timers *)
Section Machine.
Context {L : Layout}.

Definition bgp_fsm_open (i : inputs) (s : session) : outcome :=
  s ← keepalive_send i s;
  Ret (0, BGP_TIMER_OFF s t_holdtime).

Definition bgp_fsm_keepalive_expire (i : inputs) (s : session) : outcome :=
  s ← keepalive_send i s; Ret (0, s).

Definition bgp_fsm_holdtime_expire (i : inputs) (s : session) : outcome :=
  s ← bgp_notify_send i s BGP_NOTIFY_HOLD_ERR 0;
  if sflag s PEER_STATUS_ACCEPT_PEER
  then s ← peer_delete i s; Ret (-1, s)
  else '(_, s) ← bgp_stop i s; Ret (0, s).

Definition bgp_fsm_keepalive (i : inputs) (s : session) : outcome :=
  Ret (0, BGP_TIMER_OFF (count_up s keepalive_in) t_holdtime).

Definition bgp_fsm_update (i : inputs) (s : session) : outcome :=
  Ret (0, BGP_TIMER_OFF s t_holdtime).

Definition bgp_ignore (i : inputs) (s : session) : outcome := Ret (0, s).

(** ** Establishing the session *)

(** The families both sides want to keep over a restart. *)
Definition keeps_forwarding (s : session) (af : Z * Z) : bool :=
  afc_nego (fams s af) && Z.testbit (cap s) PEER_CAP_RESTART_ADV
  && Z.testbit (af_cap (fams s af)) PEER_CAP_RESTART_AF_RCV.

(** The graceful restart loop, counting the families kept. *)
Fixpoint establish_nsf (s : session) (afs : list (Z * Z)) : res (Z * session) :=
  match afs with
  | [] => Ret (0, s)
  | af :: afs =>
      let k := keeps_forwarding s af in
      let stale := nsf (fams s af)
                   && (negb k || negb (Z.testbit (af_cap (fams s af))
                                         PEER_CAP_RESTART_AF_PRESERVE_RCV)) in
      s ← (if stale then bgp_clear_stale_route s af else Ret s);
      let s := set_fam s af (with_nsf (fams s af) k) in
      '(n, s) ← establish_nsf s afs;
      Ret (Z.b2z k + n, s)
  end.

Fixpoint establish_orf (s : session) (afs : list (Z * Z)) : res session :=
  match afs with
  | [] => Ret s
  | af :: afs =>
      let f := af_cap (fams s af) in
      s ← (if Z.testbit f PEER_CAP_ORF_PREFIX_SM_ADV then
             if Z.testbit f PEER_CAP_ORF_PREFIX_RM_RCV then route_refresh_send s af false
             else if Z.testbit f PEER_CAP_ORF_PREFIX_RM_OLD_RCV then route_refresh_send s af true
             else Ret s
           else Ret s);
      establish_orf s afs
  end.

(** Families whose first update waits for the peer's ORF. *)
Definition waits_refresh (f : family) : bool :=
  Z.testbit (af_cap f) PEER_CAP_ORF_PREFIX_RM_ADV
  && (Z.testbit (af_cap f) PEER_CAP_ORF_PREFIX_SM_RCV
      || Z.testbit (af_cap f) PEER_CAP_ORF_PREFIX_SM_OLD_RCV).

Definition bgp_establish (i : inputs) (s : session) : outcome :=
  let s := set_sflags s (Z.setbit (sflags s) PEER_STATUS_CAPABILITY_OPEN) in
  let s := set_v s v_start BGP_INIT_START_TIMER in
  let s := count_up s established in
  s ← bgp_fsm_change_status s Established;
  let s := set_sflags s (Z.clearbit (sflags s) PEER_STATUS_NSF_WAIT) in
  '(nsf_af_count, s) ← establish_nsf s nsf_families;
  let s := if negb (nsf_af_count =? 0)
           then set_sflags s (Z.setbit (sflags s) PEER_STATUS_NSF_MODE)
           else BGP_TIMER_OFF (set_sflags s (Z.clearbit (sflags s) PEER_STATUS_NSF_MODE))
                  t_gr_stale in
  let s := BGP_TIMER_OFF s t_gr_restart in
  let s := set_clock s uptime (in_now i) in
  s ← establish_orf s families;
  s ← (if negb (v s v_keepalive =? 0) then keepalive_send i s else Ret s);
  let s := set_fams s (each_family families
             (fun _ f => if waits_refresh f
                         then with_af_sflags f (Z.setbit (af_sflags f) PEER_STATUS_ORF_WAIT_REFRESH)
                         else f) (fams s)) in
  let s := log s CAnnounceAll in
  Ret (0, BGP_TIMER_ON s t_routeadv 1).

(** ** The machine *)

Inductive fsm_func :=
| F_start | F_stop | F_ignore | F_connect_success | F_connect_fail | F_reconnect
| F_stop_with_error | F_holdtime_expire | F_open | F_establish | F_keepalive_expire
| F_keepalive | F_update | F_clearing_completed.

Definition run_func (f : fsm_func) : inputs -> session -> outcome :=
  match f with
  | F_start => bgp_start
  | F_stop => bgp_stop
  | F_ignore => bgp_ignore
  | F_connect_success => bgp_connect_success
  | F_connect_fail => bgp_connect_fail
  | F_reconnect => bgp_reconnect
  | F_stop_with_error => bgp_stop_with_error
  | F_holdtime_expire => bgp_fsm_holdtime_expire
  | F_open => bgp_fsm_open
  | F_establish => bgp_establish
  | F_keepalive_expire => bgp_fsm_keepalive_expire
  | F_keepalive => bgp_fsm_keepalive
  | F_update => bgp_fsm_update
  | F_clearing_completed => bgp_clearing_completed
  end.

Definition FSM : list (list (fsm_func * bgp_status)) :=
  [ (* Idle *)
    [(F_start, Connect); (F_stop, Idle); (F_stop, Idle); (F_stop, Idle); (F_ignore, Idle);
     (F_stop, Idle); (F_ignore, Idle); (F_ignore, Idle); (F_ignore, Idle); (F_ignore, Idle);
     (F_ignore, Idle); (F_ignore, Idle); (F_ignore, Idle); (F_ignore, Idle)];
    (* Connect *)
    [(F_ignore, Connect); (F_stop, Idle); (F_connect_success, OpenSent); (F_stop, Idle);
     (F_connect_fail, Active); (F_connect_fail, Idle); (F_reconnect, Connect);
     (F_ignore, Idle); (F_ignore, Idle); (F_ignore, Idle); (F_ignore, Idle);
     (F_ignore, Idle); (F_stop, Idle); (F_ignore, Idle)];
    (* Active *)
    [(F_ignore, Active); (F_stop, Idle); (F_connect_success, OpenSent); (F_stop, Idle);
     (F_ignore, Active); (F_ignore, Idle); (F_start, Connect); (F_ignore, Idle);
     (F_ignore, Idle); (F_ignore, Idle); (F_ignore, Idle); (F_ignore, Idle);
     (F_stop_with_error, Idle); (F_ignore, Idle)];
    (* OpenSent *)
    [(F_ignore, OpenSent); (F_stop, Idle); (F_stop, Active); (F_stop, Active);
     (F_stop, Active); (F_stop, Active); (F_ignore, Idle); (F_holdtime_expire, Idle);
     (F_ignore, Idle); (F_open, OpenConfirm); (F_ignore, Idle); (F_ignore, Idle);
     (F_stop_with_error, Idle); (F_ignore, Idle)];
    (* OpenConfirm *)
    [(F_ignore, OpenConfirm); (F_stop, Idle); (F_stop, Idle); (F_stop, Idle);
     (F_stop, Idle); (F_stop, Idle); (F_ignore, Idle); (F_holdtime_expire, Idle);
     (F_ignore, OpenConfirm); (F_ignore, Idle); (F_establish, Established);
     (F_ignore, Idle); (F_stop_with_error, Idle); (F_ignore, Idle)];
    (* Established *)
    [(F_ignore, Established); (F_stop, Clearing); (F_stop, Clearing); (F_stop, Clearing);
     (F_stop, Clearing); (F_stop, Clearing); (F_stop, Clearing);
     (F_holdtime_expire, Clearing); (F_keepalive_expire, Established); (F_stop, Clearing);
     (F_keepalive, Established); (F_update, Established); (F_stop_with_error, Clearing);
     (F_ignore, Idle)];
    (* Clearing *)
    [(F_ignore, Clearing); (F_stop, Clearing); (F_stop, Clearing); (F_stop, Clearing);
     (F_stop, Clearing); (F_stop, Clearing); (F_stop, Clearing); (F_stop, Clearing);
     (F_stop, Clearing); (F_stop, Clearing); (F_stop, Clearing); (F_stop, Clearing);
     (F_stop, Clearing); (F_clearing_completed, Idle)];
    (* Deleted *)
    [(F_ignore, Deleted); (F_ignore, Deleted); (F_ignore, Deleted); (F_ignore, Deleted);
     (F_ignore, Deleted); (F_ignore, Deleted); (F_ignore, Deleted); (F_ignore, Deleted);
     (F_ignore, Deleted); (F_ignore, Deleted); (F_ignore, Deleted); (F_ignore, Deleted);
     (F_ignore, Deleted); (F_ignore, Deleted)] ].

Definition event_code (e : bgp_ev) : Z :=
  match e with
  | BGP_Start => 1 | BGP_Stop => 2 | TCP_connection_open => 3 | TCP_connection_closed => 4
  | TCP_connection_open_failed => 5 | TCP_fatal_error => 6 | ConnectRetry_timer_expired => 7
  | Hold_Timer_expired => 8 | KeepAlive_timer_expired => 9 | Receive_OPEN_message => 10
  | Receive_KEEPALIVE_message => 11 | Receive_UPDATE_message => 12
  | Receive_NOTIFICATION_message => 13 | Clearing_Completed => 14
  end.

(** [FSM [peer->status - 1][event - 1]] *)
Definition fsm_entry (st : bgp_status) (e : bgp_ev) : res (fsm_func * bgp_status) :=
  row ← zget FSM (status_code st - 1);
  zget row (event_code e - 1).

Definition bgp_event (i : inputs) (s : session) (e : bgp_ev) : outcome :=
  '(f, next) ← fsm_entry (status s) e;
  '(ret, s) ← run_func f i s;
  if 0 <=? ret then
    s ← (if bool_decide (next <> status s) then bgp_fsm_change_status s next else Ret s);
    Ret (ret, bgp_timer_set (in_rand i) s)
  else Ret (ret, s).

(** ** The thread functions

    A timer's thread is gone when its function runs. *)
Definition bgp_start_timer (i : inputs) (s : session) : outcome :=
  bgp_event i (BGP_TIMER_OFF s t_start) BGP_Start.
Definition bgp_connect_timer (i : inputs) (s : session) : outcome :=
  bgp_event i (BGP_TIMER_OFF s t_connect) ConnectRetry_timer_expired.
Definition bgp_holdtime_timer (i : inputs) (s : session) : outcome :=
  bgp_event i (BGP_TIMER_OFF s t_holdtime) Hold_Timer_expired.
Definition bgp_keepalive_timer (i : inputs) (s : session) : outcome :=
  bgp_event i (BGP_TIMER_OFF s t_keepalive) KeepAlive_timer_expired.

Definition bgp_routeadv_timer (i : inputs) (s : session) : session :=
  let s := BGP_TIMER_OFF s t_routeadv in
  let s := BGP_WRITE_ON (set_clock s synctime (in_now i)) in
  BGP_TIMER_ON s t_routeadv (v_routeadv (conf s)).

Definition bgp_graceful_restart_timer_expire (i : inputs) (s : session) : res session :=
  let s := BGP_TIMER_OFF s t_gr_restart in
  s ← clear_stale_families s nsf_families;
  let s := set_sflags s (Z.clearbit (sflags s) PEER_STATUS_NSF_WAIT) in
  Ret (bgp_timer_set (in_rand i) (BGP_TIMER_OFF s t_gr_stale)).

Definition bgp_graceful_stale_timer_expire (s : session) : res session :=
  clear_stale_families (BGP_TIMER_OFF s t_gr_stale) nsf_families.
End Machine.
