(* ===== verification/FsmSpec.v ===== *)
(** * The state machine of a session: theorems

    Timers follow the state, a session is only established through the
    handshake, stopping closes the connection, the machine never fails an
    assertion, and what happens when completion of a clearing arrives in a
    state that does not expect it. *)
From stdpp Require Import base option list gmap relations.
From Stdlib Require Import ZArith Lia.
From S2P Require Import Prelude Stream Fifo Packet Files Trust Voting Session Clear ClearSpec Fsm.

(** ** Timers *)

(** The timers a state may have running; those of graceful restart and of the
    prefix limit run on until the peer is deleted. *)
Definition allowed (st : bgp_status) (t : timer) : bool :=
  match t with
  | t_start => bool_decide (st = Idle)
  | t_connect => bool_decide (st = Connect) || bool_decide (st = Active)
  | t_holdtime => bool_decide (st = OpenSent) || bool_decide (st = OpenConfirm)
                  || bool_decide (st = Established)
  | t_keepalive => bool_decide (st = OpenConfirm) || bool_decide (st = Established)
  | t_routeadv => bool_decide (st = Established)
  | t_asorig => false
  | t_pmax_restart | t_gr_restart | t_gr_stale => bool_decide (st <> Deleted)
  end.

Definition timers_ok (s : session) : Prop :=
  forall t, timers s t <> None -> allowed (status s) t = true.

(** The session timers that the state asks for. *)
Definition wanted (s : session) (t : timer) : bool :=
  match status s, t with
  | Idle, t_start => negb (BGP_PEER_START_SUPPRESSED s) && peer_active s
  | Connect, t_connect => true
  | Active, t_connect => negb (passive (conf s) || sflag s PEER_STATUS_NSF_WAIT)
  | OpenSent, t_holdtime => negb (v s v_holdtime =? 0)
  | OpenConfirm, (t_holdtime | t_keepalive) => negb (v s v_holdtime =? 0)
  | Established, (t_holdtime | t_keepalive) => negb (v s v_holdtime =? 0)
  | _, _ => false
  end.

Definition session_timer (t : timer) : bool :=
  match t with
  | t_start | t_connect | t_holdtime | t_keepalive | t_asorig => true
  | _ => false
  end.

(** Only the timers differ. *)
Definition same_but_timers (s s' : session) : Prop :=
  exists f, s' = set_timers s f.

Lemma timer_off_other s t t' : t' <> t -> timers (BGP_TIMER_OFF s t) t' = timers s t'.
Proof. intros. simpl. by apply upd_ne. Qed.
Lemma timer_off_same s t : timers (BGP_TIMER_OFF s t) t = None.
Proof. simpl. apply upd_eq. Qed.

Lemma timer_on_timers s t d t' : timers (BGP_TIMER_ON s t d) t'
  = if decide (t' = t /\ timers s t = None /\ status s <> Deleted) then Some d else timers s t'.
Proof.
  unfold BGP_TIMER_ON. destruct (timers s t) eqn:E.
  - rewrite decide_False; [done|]. by intros (_ & ? & _).
  - case_bool_decide as D; simpl.
    + unfold upd. case_decide as D'; [by rewrite decide_True|]. rewrite decide_False; [done|].
      by intros (? & _).
    + rewrite decide_False; [done|]. by intros (_ & _ & ?).
Qed.

Lemma timer_on_shape s t d : exists f, BGP_TIMER_ON s t d = set_timers s f.
Proof.
  unfold BGP_TIMER_ON. destruct (timers s t); [by exists (timers s); destruct s|].
  case_bool_decide; [by eexists|]. by exists (timers s); destruct s.
Qed.

Lemma timers_off_timers ts s t :
  timers (timers_off s ts) t = if decide (t ∈ ts) then None else timers s t.
Proof.
  revert s. induction ts as [|x ts IH]; intros s; cbn [timers_off].
  { rewrite decide_False; [done|]. by intros ?%elem_of_nil. }
  rewrite IH. destruct (decide (t ∈ ts)) as [Hin|Hin].
  { rewrite decide_True; [done|]. by right. }
  destruct (decide (t = x)) as [->|Hne].
  - rewrite timer_off_same, decide_True; [done|]. by left.
  - rewrite timer_off_other by done. rewrite decide_False; [done|].
    by intros [?|?]%elem_of_cons.
Qed.

Lemma timers_off_shape ts s : exists f, timers_off s ts = set_timers s f.
Proof.
  revert s. induction ts as [|x ts IH]; intros s; cbn [timers_off].
  { exists (timers s). by destruct s. }
  destruct (IH (BGP_TIMER_OFF s x)) as [f ->]. by eexists.
Qed.

(** [bgp_timer_set] changes nothing but the timers. *)
Lemma timer_set_shape r s : exists f, bgp_timer_set r s = set_timers s f.
Proof.
  unfold bgp_timer_set.
  assert (Hs : exists f, s = set_timers s f) by (exists (timers s); by destruct s).
  assert (Hon : forall s' t d, (exists f, s' = set_timers s f) ->
                 exists f, BGP_TIMER_ON s' t d = set_timers s f).
  { intros s' t d [f ->]. destruct (timer_on_shape (set_timers s f) t d) as [g ->]. by exists g. }
  assert (Hoff : forall s' ts, (exists f, s' = set_timers s f) ->
                 exists f, timers_off s' ts = set_timers s f).
  { intros s' ts [f ->]. destruct (timers_off_shape ts (set_timers s f)) as [g ->]. by exists g. }
  assert (Hoff1 : forall s' t, (exists f, s' = set_timers s f) ->
                 exists f, BGP_TIMER_OFF s' t = set_timers s f).
  { intros s' t [f ->]. by eexists. }
  destruct (status s); repeat first [apply Hoff | apply Hon | apply Hoff1 | exact Hs | case_match].
Qed.

Lemma timer_on_status s t d : status (BGP_TIMER_ON s t d) = status s.
Proof. by destruct (timer_on_shape s t d) as [f ->]. Qed.
Lemma timer_set_status r s : status (bgp_timer_set r s) = status s.
Proof. by destruct (timer_set_shape r s) as [f ->]. Qed.

#[local] Arguments Z.testbit : simpl never.
#[local] Arguments BGP_PEER_START_SUPPRESSED : simpl never.
#[local] Arguments peer_active : simpl never.

Lemma timer_on_self s t d : status s <> Deleted -> is_Some (timers (BGP_TIMER_ON s t d) t).
Proof.
  intros H. rewrite timer_on_timers. destruct (timers s t) eqn:E.
  - rewrite decide_False; [by eexists|]. by intros (_ & ? & _).
  - rewrite decide_True by done. by eexists.
Qed.
Lemma timer_on_other s t d t' : t' <> t -> timers (BGP_TIMER_ON s t d) t' = timers s t'.
Proof. intros. rewrite timer_on_timers, decide_False; [done|]. by intros (? & _). Qed.

(** Evaluate which timers are on after a series of macros. *)
Ltac timers_eval Est :=
  repeat first
    [ rewrite timer_on_other by done | rewrite timer_off_other by done
    | rewrite timer_off_same ];
  first [done | apply timer_on_self; rewrite ?timer_on_status; simpl; by rewrite Est].

(** [bgp_timer_set] leaves exactly the session timers its state asks for. *)
Lemma timer_set_exact r s t : session_timer t = true ->
  is_Some (timers (bgp_timer_set r s) t) <-> wanted s t = true.
Proof.
  intros Ht. unfold wanted, bgp_timer_set, sflag.
  assert (Hno : forall o : option Z, o = None -> (is_Some o <-> false = true)).
  { intros o ->. split; [by intros [? ?]|done]. }
  assert (Hyes : forall o : option Z, is_Some o -> (is_Some o <-> true = true)) by (by split).
  destruct (status s) eqn:Est, t; try done;
    rewrite timers_off_timers; simpl; try (by apply Hno);
    repeat match goal with
    | |- context [BGP_PEER_START_SUPPRESSED ?x] => destruct (BGP_PEER_START_SUPPRESSED x)
    | |- context [peer_active ?x] => destruct (peer_active x)
    | |- context [passive ?x || ?y] => destruct (passive x || y)
    | |- context [?x =? 0] => destruct (x =? 0)
    end; simpl; first [apply Hyes | apply Hno]; timers_eval Est.
Qed.

(** The other timers: all are stopped with the peer's deletion, and the
    advertisement timer outside Established. *)
Lemma timer_set_ok r s : timers_ok (bgp_timer_set r s).
Proof.
  intros t Ht. rewrite timer_set_status.
  destruct (session_timer t) eqn:Es.
  - assert (Hw : wanted s t = true).
    { apply (timer_set_exact r s t Es). by apply not_eq_None_Some. }
    unfold wanted in Hw. by destruct (status s), t.
  - revert Ht. unfold bgp_timer_set. destruct (status s) eqn:Est, t; try done;
      rewrite timers_off_timers; simpl; done.
Qed.

(** ** The invariant of a live session *)

(** The AS number of the peer indexes the ten elements of the trust tables, and
    ORF is not configured for the VPN family. *)
Definition conf_ok (c : config) : Prop :=
  1 <= my_as c <= 10 /\
  forall a, orf_sm c (a, SAFI_MPLS_VPN) = false /\ orf_rm c (a, SAFI_MPLS_VPN) = false
            /\ orf_in c (a, SAFI_MPLS_VPN) = false.

Definition buffers_ok (s : session) : Prop :=
  exists b w q, ibuf s = Some b /\ stream_wf b /\ work s = Some w /\ stream_wf w
    /\ obuf s = Some q.

(** The references that are accounted for: the peer's own, one per list it is on
    and one while its clearing queue is scheduled. *)
Definition refs_ok (s : session) : Prop :=
  1 + zlen (refs s) + Z.b2z (cq_thread (the_queue s)) <= lock s.

Definition queue_ok (s : session) : Prop :=
  clear_ok (tables s) (cq_items (the_queue s))
  /\ cq_thread (the_queue s) = bool_decide (cq_items (the_queue s) <> []).

(** The connection: open once OPEN was sent, closed while clearing. *)
Definition conn_ok (s : session) : Prop :=
  match status s with
  | OpenSent | OpenConfirm | Established => 0 <= fd s
  | Clearing => fd s < 0
  | _ => True
  end.

Definition start_ok (s : session) : Prop := BGP_INIT_START_TIMER <= v s v_start <= 120.

(** The files of the trust and voting messages are there and have their form
    ([board_ok], [files_rep]). *)
Definition globals_ok (g : globals) : Prop :=
  exists b, board_ok b /\ files_rep (g_files g) b.

(** What does not depend on the state of the machine. *)
Record base_ok (s : session) : Prop := {
  so_conf : conf_ok (conf s);
  so_buffers : buffers_ok s;
  so_queue : queue_ok s;
  so_refs : refs_ok s;
  so_tables : forall af, af ∈ nsf_families -> is_Some (tables s (TMain af));
  so_start : start_ok s;
  so_shared : globals_ok (shared s);
}.

Record session_ok (s : session) : Prop := {
  so_base : base_ok s;
  so_live : status s <> Deleted;
  so_timers : timers_ok s;
  so_conn : conn_ok s;
}.

(** The fields [base_ok] reads. *)
Lemma base_ok_frame s s' : base_ok s -> conf s' = conf s -> buffers_ok s' ->
  tables s' = tables s -> clear_node_queue s' = clear_node_queue s -> lock s' = lock s ->
  refs s' = refs s -> start_ok s' -> globals_ok (shared s') -> base_ok s'.
Proof.
  intros [Hc Hb Hq Hr Ht Hs Hg] Ec Hb' Et Eq El Er Hs' Hg'.
  assert (Ecq : the_queue s' = the_queue s) by (unfold the_queue; by rewrite Eq).
  split; unfold queue_ok, refs_ok in *; rewrite ?Ec, ?Et, ?Ecq, ?El, ?Er; done.
Qed.

Lemma reset_ok b : stream_wf b -> exists b', stream_reset b = Ret b' /\ stream_wf b'.
Proof.
  intros Hb. unfold stream_reset. rewrite sane_ok by done. eexists. split; [done|].
  destruct Hb as (? & ? & ? & ? & ?). split_and!; simpl; (done || lia).
Qed.

(** ** Stopping *)

(** The effect of [bgp_stop], with the two buffers after their reset. *)
Definition stopped (i : inputs) (s : session) (ib wk : stream) : session :=
  let s := if bool_decide (status s <> Clearing) then BGP_EVENT_FLUSH s else s in
  let s := if bool_decide (status s = Established) then stop_established i s else s in
  let s := BGP_WRITE_OFF (BGP_READ_OFF s) in
  let s := timers_off s [t_start; t_connect; t_holdtime; t_keepalive; t_asorig; t_routeadv] in
  let s := set_packet_size s 0 in
  let s := set_obuf (set_work (set_ibuf s (Some ib)) (Some wk)) (Some []) in
  let s := if 0 <=? fd s then set_fd (log s (CClose (fd s))) (-1) else s in
  let s := reset_families s in
  let c := conf s in
  let s := if config_timer c
           then set_v (set_v s v_keepalive (cf_keepalive c)) v_holdtime (cf_holdtime c)
           else set_v (set_v s v_keepalive (default_keepalive c)) v_holdtime (default_holdtime c) in
  set_clock s update_time 0.

Definition gr_timer (t : timer) : bool :=
  match t with t_pmax_restart | t_gr_restart | t_gr_stale => true | _ => false end.

(** What a stopped session looks like next to the one before. *)
Record is_stopped (i : inputs) (s s' : session) : Prop := {
  st_conf : conf s' = conf s;
  st_status : status s' = status s /\ ostatus s' = ostatus s;
  st_fd : fd s' < 0;
  st_threads : t_read s' = false /\ t_write s' = false;
  st_timers : forall t, gr_timer t = false -> timers s' t = None;
  st_events : events s' = if bool_decide (status s = Clearing) then events s else [];
  st_buffers : buffers_ok s' /\ obuf s' = Some [] /\ packet_size s' = 0;
  st_nego : forall af, af ∈ families ->
    let f := fams s' af in
    afc_nego f = false /\ afc_adv f = false /\ afc_recv f = false
    /\ af_cap f = 0 /\ af_sflags f = 0 /\ orf_plist f = false;
  st_hold : v s' v_start = v s v_start
    /\ v s' v_keepalive = (if config_timer (conf s) then cf_keepalive (conf s)
                           else default_keepalive (conf s))
    /\ v s' v_holdtime = (if config_timer (conf s) then cf_holdtime (conf s)
                          else default_holdtime (conf s));
  st_clear : tables s' = tables s /\ clear_node_queue s' = clear_node_queue s
    /\ lock s' = lock s /\ refs s' = refs s;
  st_accept : sflag s' PEER_STATUS_ACCEPT_PEER = sflag s PEER_STATUS_ACCEPT_PEER;
  st_dropped : counters s' dropped
    = if bool_decide (status s = Established) then u32 (counters s dropped + 1)
      else counters s dropped;
  st_shared : shared s' = shared s;
}.

(** The fields [stop_established] leaves alone. *)
Lemma stop_established_frame i s :
  let s' := stop_established i s in
  conf s' = conf s /\ status s' = status s /\ ostatus s' = ostatus s /\ fd s' = fd s
  /\ events s' = events s /\ ibuf s' = ibuf s /\ work s' = work s /\ obuf s' = obuf s
  /\ v s' = v s /\ tables s' = tables s /\ clear_node_queue s' = clear_node_queue s
  /\ lock s' = lock s /\ refs s' = refs s
  /\ sflag s' PEER_STATUS_ACCEPT_PEER = sflag s PEER_STATUS_ACCEPT_PEER
  /\ counters s' dropped = u32 (counters s dropped + 1) /\ shared s' = shared s.
Proof.
  unfold stop_established. cbv zeta. destruct (sflag _ _).
  - match goal with |- context [BGP_TIMER_ON ?x t_gr_restart ?d] =>
      destruct (timer_on_shape x t_gr_restart d) as [f ->] end.
    match goal with |- context [BGP_TIMER_ON ?x t_gr_stale ?d] =>
      destruct (timer_on_shape x t_gr_stale d) as [g ->] end.
    by split_and!.
  - split_and!; try done. unfold sflag. cbn [sflags set_clock set_clock_all set_fams set_sflags].
    by rewrite Z.clearbit_neq.
Qed.

Lemma stopped_facts i s ib wk : stream_wf ib -> stream_wf wk ->
  is_stopped i s (stopped i s ib wk).
Proof.
  intros Hib Hwk. unfold stopped.
  set (s0 := if bool_decide (status s <> Clearing) then BGP_EVENT_FLUSH s else s).
  assert (H0 : conf s0 = conf s /\ status s0 = status s /\ ostatus s0 = ostatus s
     /\ fd s0 = fd s /\ v s0 = v s /\ tables s0 = tables s
     /\ clear_node_queue s0 = clear_node_queue s /\ lock s0 = lock s /\ refs s0 = refs s
     /\ counters s0 = counters s /\ sflags s0 = sflags s /\ shared s0 = shared s
     /\ events s0 = if bool_decide (status s = Clearing) then events s else []).
  { subst s0. destruct (decide (status s = Clearing)) as [E|E].
    - rewrite bool_decide_false by auto. rewrite bool_decide_true by done. by split_and!.
    - rewrite bool_decide_true by auto. rewrite bool_decide_false by done. by split_and!. }
  destruct H0 as (C0 & S0 & O0 & F0 & V0 & T0 & Q0 & L0 & R0 & N0 & G0 & D0 & E0).
  set (s1 := if bool_decide (status s0 = Established) then stop_established i s0 else s0).
  assert (H1 : conf s1 = conf s /\ status s1 = status s /\ ostatus s1 = ostatus s
     /\ fd s1 = fd s /\ v s1 = v s /\ tables s1 = tables s
     /\ clear_node_queue s1 = clear_node_queue s /\ lock s1 = lock s /\ refs s1 = refs s
     /\ counters s1 dropped = (if bool_decide (status s = Established)
                               then u32 (counters s dropped + 1) else counters s dropped)
     /\ sflag s1 PEER_STATUS_ACCEPT_PEER = sflag s PEER_STATUS_ACCEPT_PEER
     /\ events s1 = events s0 /\ shared s1 = shared s).
  { subst s1. rewrite S0. clear E0. clearbody s0. unfold sflag in *.
    destruct (bool_decide (status s = Established)).
    - destruct (stop_established_frame i s0) as (?&?&?&?&?&?&?&?&?&?&?&?&?&?&?&?).
      unfold sflag in *. split_and!; congruence.
    - split_and!; congruence. }
  clearbody s1. destruct H1 as (C1 & S1 & O1 & F1 & V1 & T1 & Q1 & L1 & R1 & N1 & G1 & E1 & D1).
  cbn [timers_off]. set (s2 := set_packet_size _ 0). set (s3 := set_obuf _ _).
  set (s4 := if 0 <=? fd s3 then _ else _).
  assert (H4 : conf s4 = conf s /\ status s4 = status s1 /\ ostatus s4 = ostatus s1
     /\ fd s4 < 0 /\ v s4 = v s1 /\ tables s4 = tables s1
     /\ clear_node_queue s4 = clear_node_queue s1 /\ lock s4 = lock s1 /\ refs s4 = refs s1
     /\ counters s4 = counters s1 /\ sflags s4 = sflags s1 /\ events s4 = events s1 /\ timers s4 = timers s2
     /\ ibuf s4 = Some ib /\ work s4 = Some wk /\ obuf s4 = Some [] /\ packet_size s4 = 0
     /\ t_read s4 = false /\ t_write s4 = false /\ shared s4 = shared s1).
  { subst s4. destruct (Z.leb_spec 0 (fd s3)); simpl; split_and!; done. }
  assert (Ht2 : forall t, gr_timer t = false -> timers s2 t = None).
  { intros t Ht. subst s2. simpl. unfold upd. by destruct t. }
  clearbody s4.
  destruct H4 as (C4 & S4 & O4 & F4 & V4 & T4 & Q4 & L4 & R4 & N4 & G4 & E4 & M4 & I4 & W4 & B4 & P4 & A4 & X4 & D4).
  destruct (config_timer (conf (reset_families s4))) eqn:Ec;
    change (conf (reset_families s4)) with (conf s4) in Ec; rewrite C4 in Ec;
    (split; simpl;
     [ done | split; congruence | done | done | by rewrite M4 | by rewrite E4, E1, E0
     | split_and!; [exists ib, wk, []; by split_and! | done | done]
     | intros af Haf; unfold each_family; rewrite bool_decide_true by done; by split_and!
     | rewrite ?Ec, ?C4; unfold upd; simpl; rewrite V4, V1; done
     | split_and!; congruence | unfold sflag in *; simpl; congruence | by rewrite N4, N1 | congruence ]).
Qed.

Lemma stop_eq i s : buffers_ok s ->
  exists s', bgp_stop i s = Ret (0, s') /\ is_stopped i s s'.
Proof.
  intros (b & w & q & Eb & Hb & Ew & Hw & Eq).
  destruct (reset_ok b Hb) as (b' & Rb & Hb'). destruct (reset_ok w Hw) as (w' & Rw & Hw').
  exists (stopped i s b' w'). split; [|by apply stopped_facts].
  unfold bgp_stop, stopped. cbv zeta.
  match goal with |- context [if bool_decide (status ?x = Established) then ?y else ?x] =>
    set (s1 := if bool_decide (status x = Established) then y else x) end.
  assert (H1 : ibuf s1 = Some b /\ work s1 = Some w /\ obuf s1 = Some q).
  { subst s1. assert (H0 : forall s0, ibuf s0 = ibuf s /\ work s0 = work s /\ obuf s0 = obuf s ->
      let s1 := if bool_decide (status s0 = Established) then stop_established i s0 else s0 in
      ibuf s1 = Some b /\ work s1 = Some w /\ obuf s1 = Some q).
    { intros s0 (I0 & W0 & B0). simpl. case_bool_decide; [|split_and!; congruence].
      destruct (stop_established_frame i s0) as (_&_&_&_&_&?&?&?&_). split_and!; congruence. }
    apply H0. by case_bool_decide. }
  clearbody s1. destruct H1 as (I1 & W1 & B1). cbn [timers_off].
  cbn [ibuf set_packet_size BGP_TIMER_OFF set_timers BGP_WRITE_OFF set_t_write BGP_READ_OFF
       set_t_read work obuf].
  rewrite I1, W1, B1. cbn [opt_reset]. rewrite Rb, Rw. cbn [mbind res_bind]. done.
Qed.

(** ** Changing state *)

Definition all_items (s : session) : list (list clear_item) :=
  family_items s BGP_CLEAR_ROUTE_NORMAL <$> families.

Lemma clear_all_base s : base_ok s ->
  exists tb, let q := clear_queue_add (the_queue s) (concat (all_items s)) in
    let s' := clear_set s tb q (events s ++ early s (cq_thread (the_queue s)) (all_items s))
                (lock s + Z.b2z (takes_ref (cq_thread (the_queue s)) (concat (all_items s)))) in
    bgp_clear_route_all s = Ret s' /\ base_ok s'.
Proof.
  intros Hs. destruct (so_queue s Hs) as [Hq Ht]. assert (Hr := so_refs s Hs).
  unfold refs_ok in Hr. pose proof (zlen_nonneg (refs s)).
  destruct (clear_all_ok s Hq) as (tb & E & Hok & Hp & _).
  { destruct (cq_thread (the_queue s)); simpl in Hr; lia. }
  fold (all_items s) in E, Hok. exists tb. split; [exact E|].
  destruct Hs as [Hc Hb _ _ Htb Hst Hg]. split; try done.
  - split; [done|].
    change (cq_thread (the_queue s) || bool_decide (concat (all_items s) <> [])
            = bool_decide (cq_items (the_queue s) ++ concat (all_items s) <> [])).
    rewrite Ht. by destruct (cq_items (the_queue s)).
  - change (1 + zlen (refs s)
            + Z.b2z (cq_thread (the_queue s) || bool_decide (concat (all_items s) <> []))
            <= lock s + Z.b2z (takes_ref (cq_thread (the_queue s)) (concat (all_items s)))).
    unfold takes_ref. destruct (cq_thread (the_queue s)); simpl in *;
      destruct (bool_decide _); simpl; lia.
  - intros af Haf. destruct (Htb af Haf) as [T HT]. specialize (Hp (TMain af)).
    unfold paths in Hp. rewrite HT in Hp. simpl in Hp |- *. destruct (tb (TMain af)); [by eexists|done].
Qed.

(** Entering a state: Clearing and Deleted clear all routes. *)
Record entered (s s' : session) (st : bgp_status) : Prop := {
  en_status : status s' = st /\ ostatus s' = status s;
  en_conf : conf s' = conf s;
  en_fd : fd s' = fd s;
  en_threads : t_read s' = t_read s /\ t_write s' = t_write s;
  en_timers : timers s' = timers s;
  en_v : v s' = v s;
  en_flags : sflags s' = sflags s /\ cap s' = cap s /\ fams s' = fams s;
  en_bufs : ibuf s' = ibuf s /\ work s' = work s /\ obuf s' = obuf s;
  en_refs : refs s' = refs s;
  en_shared : shared s' = shared s;
  en_counters : counters s' = counters s /\ clock s' = clock s;
  en_queue : if status_code Clearing <=? status_code st
    then the_queue s' = clear_queue_add (the_queue s) (concat (all_items s))
      /\ events s' = events s ++ early s (cq_thread (the_queue s)) (all_items s)
      /\ lock s' = lock s
           + Z.b2z (takes_ref (cq_thread (the_queue s)) (concat (all_items s)))
    else clear_node_queue s' = clear_node_queue s /\ events s' = events s
      /\ lock s' = lock s /\ tables s' = tables s;
}.

Lemma base_ok_log s c : base_ok s -> base_ok (log s c).
Proof. intros H. apply (base_ok_frame s); try done; apply H. Qed.
Lemma base_ok_status s st : base_ok s -> base_ok (set_status (set_ostatus s (status s)) st).
Proof. intros H. apply (base_ok_frame s); try done; apply H. Qed.

Lemma change_status_ok s st : base_ok s ->
  exists s', bgp_fsm_change_status s st = Ret s' /\ base_ok s' /\ entered s s' st.
Proof.
  intros Hs. unfold bgp_fsm_change_status. set (s1 := log s _).
  assert (H1 : base_ok s1) by (by apply base_ok_log).
  destruct (status_code Clearing <=? status_code st) eqn:E.
  - destruct (clear_all_base s1 H1) as (tb & -> & Hb). cbn [mbind res_bind].
    eexists. split; [done|]. split; [by apply base_ok_status|].
    split; try done. rewrite E. done.
  - cbn [mbind res_bind]. eexists. split; [done|]. split; [by apply base_ok_status|].
    split; try done. rewrite E. done.
Qed.

Lemma stopped_base i s s' : base_ok s -> is_stopped i s s' -> base_ok s'.
Proof.
  intros Hs Hp. apply (base_ok_frame s); try apply Hp; [done| |].
  - unfold start_ok. destruct (st_hold _ _ _ Hp) as [-> _]. apply Hs.
  - rewrite (st_shared _ _ _ Hp). apply Hs.
Qed.

(** ** Sending *)

(** What queueing a message leaves alone. *)
Record sent (s s' : session) : Prop := {
  se_conf : conf s' = conf s;
  se_status : status s' = status s /\ ostatus s' = ostatus s;
  se_fd : fd s' = fd s;
  se_timers : timers s' = timers s;
  se_v : v s' = v s;
  se_clear : tables s' = tables s /\ clear_node_queue s' = clear_node_queue s
             /\ lock s' = lock s /\ refs s' = refs s;
  se_bufs : ibuf s' = ibuf s /\ work s' = work s /\ is_Some (obuf s');
  se_flags : sflags s' = sflags s;
  se_events : events s' = events s;
  se_shared : globals_ok (shared s) -> globals_ok (shared s');
}.

Lemma sent_refl s : buffers_ok s -> sent s s.
Proof. intros (b & w & q & ? & ? & ? & ? & E). split; split_and?; eauto. Qed.

Lemma sent_trans s1 s2 s3 : sent s1 s2 -> sent s2 s3 -> sent s1 s3.
Proof.
  intros [? [? ?] ? ? ? (? & ? & ? & ?) (? & ? & ?) ? ? ?]
         [? [? ?] ? ? ? (? & ? & ? & ?) (? & ? & ?) ? ? ?].
  split; first [congruence | split_and!; congruence | auto].
Qed.

Lemma sent_buffers s s' : buffers_ok s -> sent s s' -> buffers_ok s'.
Proof.
  intros (b & w & q & Eb & ? & Ew & ? & _) Hs. destruct (se_bufs _ _ Hs) as (Ib & Iw & [q' Hq]).
  exists b, w, q'. split_and!; congruence.
Qed.

Lemma sent_base s s' : base_ok s -> sent s s' -> base_ok s'.
Proof.
  intros Hs Hp. assert (Hb := sent_buffers _ _ (so_buffers _ Hs) Hp).
  apply (base_ok_frame s); try done; try apply Hp.
  - unfold start_ok. rewrite (se_v _ _ Hp). apply Hs.
  - apply Hs.
Qed.

(** Threads, clocks, flags of families, capabilities, counters and the log are
    outside [sent]. *)
Lemma sent_write_on s : buffers_ok s -> sent s (BGP_WRITE_ON s).
Proof. intros H. unfold BGP_WRITE_ON. case_match; [|by apply sent_refl]. split; try apply (sent_refl s H). Qed.
Lemma sent_read_on s : buffers_ok s -> sent s (BGP_READ_ON s).
Proof. intros H. unfold BGP_READ_ON. case_match; [|by apply sent_refl]. split; try apply (sent_refl s H). Qed.
Lemma sent_log s c : buffers_ok s -> sent s (log s c).
Proof. intros H. split; try apply (sent_refl s H). Qed.
Lemma sent_fams s f : buffers_ok s -> sent s (set_fams s f).
Proof. intros H. split; try apply (sent_refl s H). Qed.
Lemma sent_cap s x : buffers_ok s -> sent s (set_cap s x).
Proof. intros H. split; try apply (sent_refl s H). Qed.
Lemma sent_counters s x : buffers_ok s -> sent s (set_counters s x).
Proof. intros H. split; try apply (sent_refl s H). Qed.
Lemma sent_clock s k x : buffers_ok s -> sent s (set_clock s k x).
Proof. intros H. split; try apply (sent_refl s H). Qed.

Lemma packet_add_ok s m : buffers_ok s -> exists s', packet_add s m = Ret s' /\ sent s s'.
Proof.
  intros H. assert (H' := H). destruct H' as (b & w & q & _ & _ & _ & _ & E).
  unfold packet_add. rewrite E. eexists. split; [done|].
  split; try apply (sent_refl s H). simpl. destruct (se_bufs _ _ (sent_refl s H)) as (? & ? & _).
  split_and!; try done; by eexists.
Qed.

Lemma add_and_write_ok s m : buffers_ok s ->
  exists s', (s ← packet_add s m; Ret (BGP_WRITE_ON s)) = Ret s' /\ sent s s'.
Proof.
  intros H. destruct (packet_add_ok s m H) as (s1 & -> & H1). cbn [mbind res_bind].
  eexists. split; [done|]. eapply sent_trans; [done|].
  apply sent_write_on. by apply (sent_buffers s).
Qed.

Lemma open_capability_ok s : conf_ok (conf s) -> buffers_ok s ->
  exists s', open_capability s = Ret s' /\ sent s s'.
Proof.
  intros Hc H. unfold open_capability. case_match.
  { eexists. split; [done|]. by apply sent_refl. }
  assert (existsb (fun af => (orf_sm (conf s) af || orf_rm (conf s) af)
            && (af.2 =? SAFI_MPLS_VPN)) families = false) as ->.
  { destruct Hc as [_ Hc]. destruct (Hc 1) as (A1 & B1 & _), (Hc 2) as (A2 & B2 & _).
    unfold families. simpl. rewrite !andb_false_r. simpl.
    unfold SAFI_MPLS_VPN in *. by rewrite A1, B1, A2, B2. }
  eexists. split; [done|]. split; try apply (sent_refl s H).
Qed.

Lemma open_send_ok s : conf_ok (conf s) -> buffers_ok s ->
  exists s', open_send s = Ret s' /\ sent s s'.
Proof.
  intros Hc H. unfold open_send. destruct (open_capability_ok s Hc H) as (s1 & -> & H1).
  cbn [mbind res_bind].
  destruct (add_and_write_ok s1 (MOpen (u16 (if config_timer (conf s) then cf_holdtime (conf s)
              else default_holdtime (conf s)))) (sent_buffers _ _ H H1)) as (s2 & -> & H2).
  eexists. split; [done|]. by apply (sent_trans _ s1).
Qed.

Lemma refresh_send_ok s af old : conf_ok (conf s) -> buffers_ok s ->
  exists s', route_refresh_send s af old = Ret s' /\ sent s s'.
Proof.
  intros Hc H. unfold route_refresh_send.
  assert (exists s1, (if orf_in (conf s) af
       then if af.2 =? SAFI_MPLS_VPN then Fault
            else Ret (set_fam s af (with_af_sflags (fams s af)
                        (Z.setbit (af_sflags (fams s af)) PEER_STATUS_ORF_PREFIX_SEND)))
       else Ret s) = Ret s1 /\ sent s s1) as (s1 & -> & H1).
  { destruct (orf_in (conf s) af) eqn:E; [|eexists; split; [done|by apply sent_refl]].
    destruct (Z.eqb_spec af.2 SAFI_MPLS_VPN) as [E2|E2].
    - destruct af as [a sa]. simpl in E2. subst. destruct Hc as [_ Hc]. destruct (Hc a) as (_ & _ & ?). congruence.
    - eexists. split; [done|]. by apply sent_fams. }
  cbn [mbind res_bind].
  destruct (add_and_write_ok s1 (MRefresh af old) (sent_buffers _ _ H H1)) as (s2 & -> & H2).
  eexists. split; [done|]. by apply (sent_trans _ s1).
Qed.

(** ** Establishing *)

(** A step that keeps the invariant, the state and the connection. *)
Definition stable (s s' : session) : Prop :=
  base_ok s' /\ conf s' = conf s /\ status s' = status s /\ fd s' = fd s /\ events s' = events s
  /\ sflag s' PEER_STATUS_ACCEPT_PEER = sflag s PEER_STATUS_ACCEPT_PEER.

Lemma stable_refl s : base_ok s -> stable s s.
Proof. by intros; unfold stable; split_and!. Qed.
Lemma stable_trans s1 s2 s3 : stable s1 s2 -> stable s2 s3 -> stable s1 s3.
Proof. intros (? & ? & ? & ? & ? & ?) (? & ? & ? & ? & ? & ?).
  unfold stable. split_and!; congruence. Qed.
Lemma sent_stable s s' : base_ok s -> sent s s' -> stable s s'.
Proof.
  intros Hs Hp. split; [by apply (sent_base s)|].
  destruct (se_status _ _ Hp) as [? _]. unfold sflag. rewrite (se_flags _ _ Hp).
  split_and!; (done || apply Hp).
Qed.

Lemma stable_frame s s' : base_ok s -> conf s' = conf s -> status s' = status s -> fd s' = fd s ->
  events s' = events s -> ibuf s' = ibuf s -> work s' = work s -> obuf s' = obuf s ->
  tables s' = tables s -> clear_node_queue s' = clear_node_queue s -> lock s' = lock s ->
  refs s' = refs s -> start_ok s' -> shared s' = shared s ->
  sflag s' PEER_STATUS_ACCEPT_PEER = sflag s PEER_STATUS_ACCEPT_PEER -> stable s s'.
Proof.
  intros Hs ? ? ? ? Eb Ew Eo ? ? ? ? ? Eg ?. split; [|done]. apply (base_ok_frame s); try done.
  - unfold buffers_ok. rewrite Eb, Ew, Eo. apply Hs.
  - rewrite Eg. apply Hs.
Qed.

Lemma stable_sflags s x : base_ok s ->
  Z.testbit x PEER_STATUS_ACCEPT_PEER = sflag s PEER_STATUS_ACCEPT_PEER ->
  stable s (set_sflags s x).
Proof. intros H Hx. apply stable_frame; try done. apply H. Qed.
Lemma stable_timers s f : base_ok s -> stable s (set_timers s f).
Proof. intros H. apply stable_frame; try done. apply H. Qed.
Lemma stable_fams s f : base_ok s -> stable s (set_fams s f).
Proof. intros H. apply stable_frame; try done. apply H. Qed.
Lemma stable_timer_on s t d : base_ok s -> stable s (BGP_TIMER_ON s t d).
Proof. intros H. destruct (timer_on_shape s t d) as [f ->]. by apply stable_timers. Qed.

(** Removing stale paths keeps every count. *)
Lemma stale_node_facts me n : rn_id (clear_stale_node me n).2 = rn_id n
  /\ slack (clear_stale_node me n).2 = slack n.
Proof.
  unfold clear_stale_node. destruct (List.find _ _) as [[q fl]|]; [|done].
  destruct (Z.testbit fl INFO_STALE); [|done]. simpl. split; [done|].
  unfold slack, used. simpl. by rewrite on_first_length.
Qed.

Lemma clear_ok_map tb items t T (g : rib_node -> rib_node) :
  (forall n, rn_id (g n) = rn_id n /\ slack (g n) = slack n) ->
  clear_ok tb items -> tb t = Some T ->
  clear_ok (upd tb t (Some (RibTable (tbl_lock T) (g <$> tbl_nodes T)))) items.
Proof.
  intros Hg Hok Ht.
  assert (Hids : rn_id <$> (g <$> tbl_nodes T) = rn_id <$> tbl_nodes T).
  { rewrite <- list_fmap_compose. apply list_fmap_ext. intros k x _. apply Hg. }
  split.
  - intros t' T'. unfold upd. case_decide as D; [|apply Hok].
    intros [= <-]. subst t'. destruct (co_table _ _ Hok t T Ht) as (? & ? & Hsl).
    cbn [tbl_nodes tbl_lock]. rewrite Hids. split_and!; try done.
    intros m (n & -> & Hn)%list_elem_of_fmap. destruct (Hg n) as [-> ->]. by apply Hsl.
  - intros i Hi. destruct (co_items _ _ Hok i Hi) as (T' & HT' & Hin).
    unfold upd. case_decide as D; [|eauto]. eexists. split; [done|].
    cbn [tbl_nodes]. rewrite Hids. congruence.
Qed.

Lemma clear_stale_ok s af : base_ok s -> af ∈ nsf_families ->
  exists s', bgp_clear_stale_route s af = Ret s' /\ stable s s' /\ timers s' = timers s
    /\ v s' = v s.
Proof.
  intros Hs Haf. destruct (so_tables _ Hs af Haf) as [T HT].
  unfold bgp_clear_stale_route, get_table. rewrite HT. cbn [mbind res_bind].
  eexists. split; [done|]. split; [|done]. destruct (so_queue _ Hs) as [Hq Hth].
  split; [|done]. split; try apply Hs.
  - split; [|apply Hth]. simpl. rewrite map_map. change (map ?f ?l) with (f <$> l).
    apply clear_ok_map; [|done|done]. intros n. apply stale_node_facts.
  - intros af' Haf'. simpl. unfold upd. case_decide; [by eexists|]. by apply Hs.
Qed.

Lemma establish_nsf_ok afs s : base_ok s -> (forall af, af ∈ afs -> af ∈ nsf_families) ->
  exists n s', establish_nsf s afs = Ret (n, s') /\ stable s s' /\ timers s' = timers s
    /\ v s' = v s.
Proof.
  revert s. induction afs as [|af afs IH]; intros s Hs Hin; cbn [establish_nsf].
  { exists 0, s. by split_and!. }
  assert (exists s1, (if nsf (fams s af) && (negb (keeps_forwarding s af)
       || negb (Z.testbit (af_cap (fams s af)) PEER_CAP_RESTART_AF_PRESERVE_RCV))
       then bgp_clear_stale_route s af else Ret s) = Ret s1 /\ stable s s1
       /\ timers s1 = timers s /\ v s1 = v s) as (s1 & -> & H1 & T1 & V1).
  { case_match; [apply clear_stale_ok; [done|apply Hin; left]|].
    eexists. split; [done|]. split; [by apply stable_refl|done]. }
  cbn [mbind res_bind]. set (s2 := set_fam s1 af _).
  assert (H2 : stable s s2).
  { eapply stable_trans; [exact H1|]. apply stable_fams, H1. }
  destruct (IH s2) as (n & s3 & -> & H3 & T3 & V3).
  { apply H2. } { intros af' ?. apply Hin. by right. }
  cbn [mbind res_bind]. eexists _, s3. split; [done|]. split; [by eapply stable_trans|].
  split; [by rewrite T3|by rewrite V3].
Qed.

Lemma establish_orf_ok afs s : base_ok s ->
  exists s', establish_orf s afs = Ret s' /\ sent s s'.
Proof.
  revert s. induction afs as [|af afs IH]; intros s Hs; cbn [establish_orf].
  { exists s. split; [done|]. apply sent_refl, Hs. }
  match goal with |- context [mbind _ ?m] =>
    assert (exists s1, m = Ret s1 /\ sent s s1) as (s1 & -> & H1) end.
  { assert (Hrefl : exists s1, Ret s = Ret s1 /\ sent s s1)
      by (eexists; split; [done|apply sent_refl, Hs]).
    repeat case_match; first [exact Hrefl | apply refresh_send_ok; apply Hs]. }
  cbn [mbind res_bind]. destruct (IH s1 (sent_base _ _ Hs H1)) as (s2 & -> & H2).
  exists s2. split; [done|]. by eapply sent_trans.
Qed.

(** The layout of the frames that fscanf writes to is needed from here on. *)
Section Machine.
Context {L : Layout} (Hpad : padded).

Lemma packet_block_mem i t : packet_mem (packet_block i t).
Proof using.
  split.
  - unfold packet_block, zlen. by rewrite length_map, length_seq.
  - apply Forall_forall. intros x (k & -> & _)%list_elem_of_fmap. apply u8_range.
Qed.

Lemma packets_add_ok ps s : buffers_ok s -> exists s', packets_add s ps = Ret s' /\ sent s s'.
Proof using.
  revert s. induction ps as [|p ps IH]; intros s H; cbn [packets_add].
  { exists s. split; [done|]. by apply sent_refl. }
  destruct (packet_add_ok s (MPacket p) H) as (s1 & -> & H1). cbn [mbind res_bind].
  destruct (IH s1 (sent_buffers _ _ H H1)) as (s2 & -> & H2).
  exists s2. split; [done|]. by eapply sent_trans.
Qed.

Lemma session_keepalive_ok i s : base_ok s ->
  exists s', keepalive_send i s = Ret s' /\ sent s s'.
Proof using Hpad.
  intros Hs. unfold keepalive_send. set (p := Peer _ _ _). set (w := World _ _ _ _ _).
  assert (exists w' ps, bgp_keepalive_send (packet_block i) (in_code i) (in_now i) w p = Ret w'
            /\ fifo_streams (hp w') (Trust.obuf w') = Ret ps
            /\ globals_ok (Globals (files w') (toDrop w'))) as (w' & ps & -> & Eq & Hg).
  { destruct (so_shared _ Hs) as (b & Hb & Hr). destruct (decide (toDrop w = Some (host p))) as [E|E].
    - exists w, []. unfold bgp_keepalive_send. rewrite bool_decide_true by done.
      split; [done|]. split; [done|]. by exists b.
    - assert (Hq : queued w []).
      { exists []. split; [|done]. repeat split; simpl; auto. apply NoDup_nil_2. }
      pose proof (keepalive_send_ok (packet_block i) (in_code i) (in_now i) w p b [] Hpad
                    (packet_block_mem i) (proj1 (so_conf _ Hs)) Hb Hr Hq E) as H.
      cbv zeta in H. destruct (spec_keepalive _ _ _) as [ms b'].
      destruct H as (w' & new & Ek & Hr' & Hb' & (l & Hl & _) & _).
      exists w', (bodies (hp w') l). split; [done|]. split; [by apply fifo_streams_rep|].
      by exists b'. }
  cbn [mbind res_bind]. rewrite Eq. cbn [mbind res_bind].
  destruct (packets_add_ok ps s (so_buffers _ Hs)) as (s1 & -> & H1). cbn [mbind res_bind].
  eexists. split; [done|]. eapply sent_trans; [exact H1|].
  assert (Hb := sent_buffers _ _ (so_buffers _ Hs) H1).
  split; try apply (sent_refl s1 Hb). intros _. exact Hg.
Qed.

Lemma establish_ok i s : base_ok s ->
  exists s', bgp_establish i s = Ret (0, s') /\ base_ok s' /\ conf s' = conf s
    /\ status s' = Established /\ fd s' = fd s
    /\ sflag s' PEER_STATUS_ACCEPT_PEER = sflag s PEER_STATUS_ACCEPT_PEER.
Proof.
  intros Hs. unfold bgp_establish.
  set (s1 := count_up _ _).
  assert (H1 : stable s s1).
  { subst s1. apply stable_frame; try done.
    unfold sflag. cbn [count_up set_counters set_v set_v_all set_sflags sflags].
    by rewrite Z.setbit_neq. }
  destruct (change_status_ok s1 Established) as (s2 & -> & H2 & He); [apply H1|].
  cbn [mbind res_bind].
  set (s3 := set_sflags s2 _).
  assert (H3 : stable s2 s3).
  { apply stable_sflags; [done|]. by rewrite Z.clearbit_neq. }
  destruct (establish_nsf_ok nsf_families s3) as (n & s4 & -> & H4 & _ & _); [apply H3|done|].
  cbn [mbind res_bind].
  set (s5 := if negb (n =? 0) then _ else _).
  assert (H5 : stable s4 s5).
  { subst s5. destruct (negb (n =? 0)).
    - apply stable_sflags; [apply H4|]. by rewrite Z.setbit_neq.
    - eapply stable_trans; [apply stable_sflags; [apply H4|]|apply stable_timers].
      + by rewrite Z.clearbit_neq.
      + apply stable_sflags; [apply H4|]. by rewrite Z.clearbit_neq. }
  set (s6 := set_clock _ _ _).
  assert (H6 : stable s5 s6).
  { eapply stable_trans; [apply (stable_timers _ (upd (timers s5) t_gr_restart None)), H5|].
    assert (B5 := stable_timers s5 (upd (timers s5) t_gr_restart None) (proj1 H5)).
    apply sent_stable; [apply B5|]. apply sent_clock, B5. }
  destruct (establish_orf_ok families s6) as (s7 & -> & H7); [apply H6|]. cbn [mbind res_bind].
  assert (B7 : base_ok s7) by (apply (sent_base s6); [apply H6|done]).
  assert (exists s8, (if negb (v s7 v_keepalive =? 0) then keepalive_send i s7 else Ret s7)
            = Ret s8 /\ sent s7 s8) as (s8 & -> & H8).
  { case_match; [by apply session_keepalive_ok|]. eexists. split; [done|]. apply sent_refl, B7. }
  cbn [mbind res_bind]. assert (B8 := sent_base _ _ B7 H8).
  set (s9 := log _ _).
  assert (H9 : sent s8 s9).
  { apply (sent_trans _ (set_fams s8 (fams s9))); [apply sent_fams, B8|].
    apply sent_log. apply (sent_buffers s8); [apply B8|]. apply sent_fams, B8. }
  assert (B9 := sent_base _ _ B8 H9).
  eexists. split; [done|].
  assert (H10 : stable s2 (BGP_TIMER_ON s9 t_routeadv 1)).
  { eapply stable_trans; [exact H3|]. eapply stable_trans; [exact H4|].
    eapply stable_trans; [exact H5|]. eapply stable_trans; [exact H6|].
    eapply stable_trans; [apply sent_stable; [apply H6|exact H7]|].
    eapply stable_trans; [apply sent_stable; [exact B7|exact H8]|].
    eapply stable_trans; [apply sent_stable; [exact B8|exact H9]|].
    by apply stable_timer_on. }
  destruct H10 as (B & C & S & F & _ & A), H1 as (_ & C1 & S1 & F1 & _ & A1).
  destruct (en_status _ _ _ He) as [E1 _]. destruct (en_flags _ _ _ He) as [E2 _].
  split; [exact B|]. split; [by rewrite C, (en_conf _ _ _ He)|]. split; [by rewrite S|].
  split; [by rewrite F, (en_fd _ _ _ He)|]. rewrite A. unfold sflag in *. by rewrite E2.
Qed.

(** ** The event functions *)

Lemma double_start_ok s : start_ok s -> start_ok (double_start s).
Proof.
  unfold start_ok, double_start, BGP_INIT_START_TIMER. intros H. cbn [set_v set_v_all v].
  rewrite upd_eq. unfold u32. rewrite Z.mod_small by lia.
  destruct (Z.leb_spec (60 * 2) (v s v_start * 2)); lia.
Qed.

Lemma event_add_frame s e : exists l, BGP_EVENT_ADD s e = set_events s l.
Proof. unfold BGP_EVENT_ADD. case_match; [by eexists|]. exists (events s). by destruct s. Qed.

Lemma base_ok_events s l : base_ok s -> base_ok (set_events s l).
Proof. intros H. apply (base_ok_frame s); try done; apply H. Qed.

Lemma double_start_base s : base_ok s -> base_ok (double_start s).
Proof. intros H. apply (base_ok_frame s); try done; try apply H. apply double_start_ok, H. Qed.

(** Like [stable], with new events. *)
Definition kept (s s' : session) : Prop :=
  base_ok s' /\ conf s' = conf s /\ status s' = status s /\ fd s' = fd s
  /\ sflag s' PEER_STATUS_ACCEPT_PEER = sflag s PEER_STATUS_ACCEPT_PEER.

Lemma kept_event s e : base_ok s -> kept s (BGP_EVENT_ADD s e).
Proof.
  intros H. destruct (event_add_frame s e) as [l ->]. split; [by apply base_ok_events|done].
Qed.

Lemma notify_send_ok i s code sub data : base_ok s ->
  exists s', bgp_notify_send_with_data i s code sub data = Ret s' /\ kept s s'.
Proof.
  intros Hs. unfold bgp_notify_send_with_data.
  destruct (so_buffers _ Hs) as (b & w & q & Eb & Hb & Ew & Hw & Eq). rewrite Eq.
  cbn [mbind res_bind]. set (s1 := if sub =? _ then _ else _).
  assert (H1 : base_ok (BGP_WRITE_OFF s1) /\ conf s1 = conf s /\ status s1 = status s
               /\ fd s1 = fd s /\ sflags s1 = sflags s
               /\ obuf s1 = Some [MNotify code sub data]).
  { assert (Hbuf : forall s', ibuf s' = Some b -> work s' = Some w ->
              obuf s' = Some [MNotify code sub data] -> buffers_ok s').
    { intros s' E1 E2 E3. exists b, w, [MNotify code sub data]. by split_and!. }
    subst s1. destruct (sub =? _); split_and!; try done;
      (apply (base_ok_frame s); try done; [by apply Hbuf|apply Hs..]). }
  destruct H1 as (B1 & C1 & S1 & F1 & G1 & O1). eexists. split; [done|].
  unfold bgp_write_notify. change (obuf (BGP_WRITE_OFF s1)) with (obuf s1). rewrite O1.
  assert (K : forall s2 e, base_ok s2 -> conf s2 = conf s1 -> status s2 = status s1 ->
            fd s2 = fd s1 -> sflags s2 = sflags s1 -> kept s (BGP_EVENT_ADD s2 e)).
  { intros s2 e B2 C2 S2 F2 G2. destruct (kept_event s2 e B2) as (B & C & S & F & A).
    unfold kept, sflag in *. split_and!; congruence. }
  destruct (in_writen i <=? 0); [by apply K|]. apply K; try done.
  apply double_start_base. apply (base_ok_frame (BGP_WRITE_OFF s1)); try done; apply B1.
Qed.

Definition stops (f : fsm_func) : bool :=
  match f with
  | F_stop | F_connect_fail | F_stop_with_error | F_holdtime_expire | F_clearing_completed => true
  | _ => false
  end.
Definition keeps_fd (f : fsm_func) : bool :=
  match f with
  | F_ignore | F_open | F_establish | F_keepalive_expire | F_keepalive | F_update => true
  | _ => false
  end.

(** What an event function leaves behind. *)
Record out_ok (f : fsm_func) (s : session) (ret : Z) (s' : session) : Prop := {
  oo_base : base_ok s';
  oo_conf : conf s' = conf s;
  oo_status : status s' = match f with F_establish => Established | _ => status s end;
  oo_ret : ret = 0 \/ ret = -1 /\ timers s' = timers s /\ (f = F_start \/ f = F_connect_success /\ s' = s);
  oo_stop : stops f = true -> fd s' < 0;
  oo_keep : keeps_fd f = true -> fd s' = fd s;
  oo_conn : f = F_connect_success -> ret = 0 -> 0 <= fd s';
  oo_accept : sflag s' PEER_STATUS_ACCEPT_PEER = sflag s PEER_STATUS_ACCEPT_PEER;
}.

Lemma kept_stopped f i s s1 s' : base_ok s1 -> conf s1 = conf s -> status s1 = status s ->
  sflag s1 PEER_STATUS_ACCEPT_PEER = sflag s PEER_STATUS_ACCEPT_PEER ->
  stops f = true -> is_stopped i s1 s' -> out_ok f s 0 s'.
Proof.
  intros B1 C1 S1 A1 Hf Hp. destruct (st_status _ _ _ Hp) as [S _].
  split; try (by destruct f).
  - by apply (stopped_base i s1).
  - by rewrite (st_conf _ _ _ Hp).
  - rewrite S, S1. by destruct f.
  - by left.
  - intros _. apply Hp.
  - by rewrite (st_accept _ _ _ Hp).
Qed.

Lemma kept_out f s s' : kept s s' -> stops f = false -> f <> F_connect_success ->
  f <> F_establish -> out_ok f s 0 s'.
Proof.
  intros (B & C & S & F & A) Hf Hc He. split; try done; try (by left).
  - rewrite S. by destruct f.
  - by rewrite Hf.
Qed.

Lemma start_fn_ok i s : base_ok s -> exists ret s', bgp_start i s = Ret (ret, s')
  /\ out_ok F_start s ret s'.
Proof.
  intros Hs. unfold bgp_start. destruct (BGP_PEER_START_SUPPRESSED s).
  { exists (-1), s. split; [done|]. split; try done. right. split_and!; [done|done|by left]. }
  set (s1 := set_cap _ 0).
  assert (K : forall s2 ret, base_ok s2 -> conf s2 = conf s -> status s2 = status s ->
            sflags s2 = sflags s -> timers s2 = timers s -> (ret = 0 \/ ret = -1) ->
            out_ok F_start s ret s2).
  { intros s2 ret B2 C2 S2 G2 T2 R. split; try done.
    - destruct R as [->| ->]; [by left|right; split_and!; [done|done|by left]].
    - unfold sflag. by rewrite G2. }
  assert (B1 : base_ok s1) by (apply (base_ok_frame s); try done; apply Hs).
  assert (KE : forall s2 e, base_ok s2 -> conf s2 = conf s -> status s2 = status s ->
            sflags s2 = sflags s -> timers s2 = timers s ->
            out_ok F_start s 0 (BGP_EVENT_ADD s2 e)).
  { intros s2 e B2 C2 S2 G2 T2. destruct (event_add_frame s2 e) as [l ->].
    apply K; try done; [by apply base_ok_events|by left]. }
  destruct (passive (conf s1)); [eexists _, _; split; [done|by apply KE]|].
  unfold bgp_connect. set (s2 := set_fd s1 _).
  assert (B2 : base_ok s2) by (apply (base_ok_frame s); try done; apply Hs).
  destruct (fd s2 <? 0) eqn:E; [eexists _, _; split; [done|apply K; try done; by left]|].
  destruct (in_connect i); try (eexists _, _; split; [done|by apply KE]).
  rewrite E. eexists _, _. split; [done|].
  assert (H2 : sent s2 (BGP_WRITE_ON (BGP_READ_ON s2))).
  { eapply sent_trans; [apply sent_read_on, B2|]. apply sent_write_on.
    apply (sent_buffers s2); [apply B2|]. apply sent_read_on, B2. }
  apply K; try (by left); [by apply (sent_base s2)|..]; try apply H2.
Qed.

Lemma connect_success_ok i s : base_ok s -> exists ret s',
  bgp_connect_success i s = Ret (ret, s') /\ out_ok F_connect_success s ret s'.
Proof.
  intros Hs. unfold bgp_connect_success. destruct (Z.ltb_spec (fd s) 0) as [E|E].
  { exists (-1), s. split; [done|]. split; try done. right. split_and!; [done|done|by right]. }
  assert (H1 : sent s (BGP_READ_ON s)) by (apply sent_read_on, Hs).
  assert (K : forall s', sent s s' -> out_ok F_connect_success s 0 s').
  { intros s' H. destruct (sent_stable _ _ Hs H) as (B & C & S & F & _ & A).
    split; try done; [by left|]. intros _ _. by rewrite F. }
  destruct (sflag _ _); [eexists _, _; split; [done|by apply K]|].
  assert (B1 := sent_base _ _ Hs H1).
  assert (H2 : sent (BGP_READ_ON s) (log (BGP_READ_ON s) CGetsockname)) by (apply sent_log, B1).
  assert (B2 := sent_base _ _ B1 H2).
  destruct (open_send_ok (log (BGP_READ_ON s) CGetsockname)) as (s3 & -> & H3); [apply B2..|].
  cbn [mbind res_bind]. eexists _, _. split; [done|]. apply K.
  eapply sent_trans; [exact H1|]. by eapply sent_trans.
Qed.

Lemma reconnect_ok i s : base_ok s -> exists s',
  bgp_reconnect i s = Ret (0, s') /\ out_ok F_reconnect s 0 s'.
Proof.
  intros Hs. unfold bgp_reconnect. destruct (stop_eq i s (so_buffers _ Hs)) as (s1 & -> & H1).
  cbn [mbind res_bind]. assert (B1 := stopped_base _ _ _ Hs H1).
  destruct (start_fn_ok i s1 B1) as (ret & s2 & -> & H2). cbn [mbind res_bind].
  eexists. split; [done|]. destruct H2 as [B C S _ _ _ _ A], (st_status _ _ _ H1) as [S1 _].
  split; try done; [by rewrite C, (st_conf _ _ _ H1)|by rewrite S|by left|].
  by rewrite A, (st_accept _ _ _ H1).
Qed.

Lemma stable_kept s s' : stable s s' -> kept s s'.
Proof. intros (? & ? & ? & ? & _ & ?). by split_and!. Qed.

(** Every event function returns, on a session that satisfies the invariant. *)
Lemma run_func_ok f i s : base_ok s ->
  (f = F_holdtime_expire -> sflag s PEER_STATUS_ACCEPT_PEER = false) ->
  exists ret s', run_func f i s = Ret (ret, s') /\ out_ok f s ret s'.
Proof.
  intros Hs Hacc.
  assert (Hstop : forall f, stops f = true -> exists s', bgp_stop i s = Ret (0, s') /\ out_ok f s 0 s').
  { intros f' Hf. destruct (stop_eq i s (so_buffers _ Hs)) as (s' & E & H).
    exists s'. split; [done|]. by apply (kept_stopped f' i s s). }
  destruct f; cbn [run_func].
  - by apply start_fn_ok.
  - destruct (Hstop F_stop eq_refl) as (s' & -> & H). by eexists _, _.
  - eexists _, _. split; [done|]. apply kept_out; try done.
  - by apply connect_success_ok.
  - unfold bgp_connect_fail. destruct (Hstop F_connect_fail eq_refl) as (s' & -> & H).
    by eexists _, _.
  - destruct (reconnect_ok i s Hs) as (s' & -> & H). by eexists _, _.
  - unfold bgp_stop_with_error. assert (B1 := double_start_base _ Hs).
    destruct (stop_eq i _ (so_buffers _ B1)) as (s' & -> & H). cbn [mbind res_bind].
    eexists _, _. split; [done|]. by eapply kept_stopped.
  - unfold bgp_fsm_holdtime_expire, bgp_notify_send.
    destruct (notify_send_ok i s BGP_NOTIFY_HOLD_ERR 0 [] Hs) as (s1 & -> & B1 & C1 & S1 & F1 & A1).
    cbn [mbind res_bind]. rewrite A1, Hacc by done.
    destruct (stop_eq i s1 (so_buffers _ B1)) as (s' & -> & H). cbn [mbind res_bind].
    eexists _, _. split; [done|]. by apply (kept_stopped _ i s s1).
  - unfold bgp_fsm_open. destruct (session_keepalive_ok i s Hs) as (s1 & -> & H1).
    cbn [mbind res_bind]. eexists _, _. split; [done|]. apply kept_out; try done.
    apply stable_kept. eapply stable_trans; [by apply sent_stable|].
    apply stable_timers. by apply (sent_base s).
  - destruct (establish_ok i s Hs) as (s' & -> & B & C & S & F & A). eexists _, _.
    split; [done|]. split; try done; by left.
  - unfold bgp_fsm_keepalive_expire.
    destruct (session_keepalive_ok i s Hs) as (s1 & -> & H1).
    cbn [mbind res_bind]. eexists _, _. split; [done|]. apply kept_out; try done.
    by apply stable_kept, sent_stable.
  - eexists _, _. split; [done|]. apply kept_out; try done. apply stable_kept.
    assert (H1 : sent s (count_up s keepalive_in)) by (apply sent_counters, Hs).
    eapply stable_trans; [by apply sent_stable|]. apply stable_timers. by apply (sent_base s).
  - eexists _, _. split; [done|]. apply kept_out; try done.
    by apply stable_kept, stable_timers.
  - unfold bgp_clearing_completed.
    destruct (stop_eq i s (so_buffers _ Hs)) as (s1 & -> & H). cbn [mbind res_bind].
    eexists _, _. split; [done|].
    destruct (kept_stopped F_clearing_completed i s s s1) as [B C S _ F _ _ A]; try done.
    split; try done; [by apply base_ok_events|by left].
Qed.

(** ** The table *)

Definition up (st : bgp_status) : bool :=
  match st with OpenSent | OpenConfirm | Established => true | _ => false end.

#[local] Instance fsm_func_eq_dec : EqDecision fsm_func.
Proof. solve_decision. Defined.

(** What the connection needs of a row and column of the table. *)
Definition entry_check (st : bgp_status) (e : bgp_ev) : bool :=
  match fsm_entry st e with
  | Ret (f, next) =>
      (bool_decide (st = Deleted) || bool_decide (next <> Deleted))
      && match next with
         | OpenSent => (up st && keeps_fd f) || bool_decide (f = F_connect_success)
         | OpenConfirm | Established => up st && keeps_fd f
         | Clearing => stops f || (bool_decide (st = Clearing) && keeps_fd f)
         | _ => true
         end
      && (bool_decide (f <> F_establish) || bool_decide (next = Established))
      && (bool_decide (f <> F_start) || bool_decide (st = Idle) || bool_decide (st = Active))
  | _ => false
  end.

Lemma entry_checked st e : entry_check st e = true.
Proof. by destruct st, e. Qed.

Lemma timer_set_base r s : base_ok s -> base_ok (bgp_timer_set r s).
Proof. intros H. destruct (timer_set_shape r s) as [f ->]. by apply stable_timers. Qed.

Definition next_conn (f : fsm_func) (s s' : session) (next : bgp_status) : Prop :=
  match next with
  | OpenSent | OpenConfirm | Established => 0 <= fd s'
  | Clearing => fd s' < 0
  | _ => True
  end.

Lemma entry_conn s e f next s' : conn_ok s -> fsm_entry (status s) e = Ret (f, next) ->
  out_ok f s 0 s' -> next_conn f s s' next.
Proof.
  intros Hc Ef Ho. pose proof (entry_checked (status s) e) as Hk.
  unfold entry_check in Hk. rewrite Ef in Hk.
  apply andb_true_iff in Hk as [[[_ Hk]%andb_true_iff _]%andb_true_iff _].
  assert (Hup : up (status s) = true -> keeps_fd f = true -> 0 <= fd s').
  { intros Hu Hf. rewrite (oo_keep _ _ _ _ Ho Hf). unfold conn_ok in Hc. by destruct (status s). }
  unfold next_conn. destruct next; try done.
  - apply orb_true_iff in Hk as [[? ?]%andb_true_iff|Hk]; [by apply Hup|].
    apply bool_decide_eq_true in Hk. by apply Ho.
  - apply andb_true_iff in Hk as [? ?]. by apply Hup.
  - apply andb_true_iff in Hk as [? ?]. by apply Hup.
  - apply orb_true_iff in Hk as [Hf|[Hst Hf]%andb_true_iff]; [by apply Ho|].
    apply bool_decide_eq_true in Hst. rewrite (oo_keep _ _ _ _ Ho Hf).
    unfold conn_ok in Hc. by rewrite Hst in Hc.
Qed.

(** The status and the result of an event. *)
Definition moves (st : bgp_status) (f : fsm_func) (next st' : bgp_status) (ret : Z) : Prop :=
  (ret = 0 /\ st' = next) \/ (ret = -1 /\ st' = st /\ (f = F_start \/ f = F_connect_success)).

(** The one event that ends a session made for an incoming connection: its peer
    is deleted. *)
Definition deletes (s : session) (f : fsm_func) : bool :=
  bool_decide (f = F_holdtime_expire) && sflag s PEER_STATUS_ACCEPT_PEER.

Lemma fsm_entry_ok st e : exists f next, fsm_entry st e = Ret (f, next).
Proof. pose proof (entry_checked st e) as H. unfold entry_check in H. repeat case_match; eauto; done. Qed.

Lemma event_ok i s e f next : session_ok s -> fsm_entry (status s) e = Ret (f, next) ->
  deletes s f = false ->
  exists ret s', bgp_event i s e = Ret (ret, s') /\ session_ok s' /\ conf s' = conf s
    /\ sflag s' PEER_STATUS_ACCEPT_PEER = sflag s PEER_STATUS_ACCEPT_PEER
    /\ moves (status s) f next (status s') ret.
Proof.
  intros Hs Ef Hacc. pose proof (entry_checked (status s) e) as Hk. unfold entry_check in Hk.
  rewrite Ef in Hk. unfold deletes in Hacc.
  destruct (run_func_ok f i s (so_base _ Hs)) as (ret & s1 & Er & Ho).
  { intros ->. by rewrite bool_decide_true in Hacc. }
  unfold bgp_event. rewrite Ef. cbn [mbind res_bind]. rewrite Er.
  cbn [mbind res_bind].
  apply andb_true_iff in Hk as [[[Hd _]%andb_true_iff He]%andb_true_iff Hst]. 
  destruct (oo_ret _ _ _ _ Ho) as [->|(-> & Ht & Hf)].
  - cbn [Z.leb]. change (0 <=? 0) with true. cbn [andb].
    assert (Hcn := entry_conn s e f next s1 (so_conn _ Hs) Ef Ho).
    assert (exists s2, (if bool_decide (next <> status s1) then bgp_fsm_change_status s1 next
              else Ret s1) = Ret s2 /\ base_ok s2 /\ status s2 = next /\ conf s2 = conf s1
              /\ fd s2 = fd s1 /\ sflags s2 = sflags s1) as (s2 & -> & B2 & S2 & C2 & F2 & G2).
    { destruct (decide (next = status s1)) as [E|E].
      - rewrite bool_decide_false by auto. exists s1. split_and!; try done. apply Ho.
      - rewrite bool_decide_true by done.
        destruct (change_status_ok s1 next (oo_base _ _ _ _ Ho)) as (s2 & -> & B & En).
        exists s2. destruct (en_status _ _ _ En), (en_flags _ _ _ En) as [? _].
        split_and!; (done || apply En). }
    cbn [mbind res_bind]. eexists _, _. split; [done|].
    destruct (timer_set_shape (in_rand i) s2) as [tm Etm].
    split; [|split_and!].
    + split; [by apply timer_set_base|..].
      * rewrite timer_set_status, S2. destruct Hs as [_ Hl _ _].
        apply orb_true_iff in Hd as [Hd|Hd]; apply bool_decide_eq_true in Hd; [|done].
        by rewrite Hd in Hl.
      * apply timer_set_ok.
      * unfold conn_ok. rewrite timer_set_status, S2, Etm. simpl. rewrite F2. exact Hcn.
    + rewrite Etm. simpl. by rewrite C2, (oo_conf _ _ _ _ Ho).
    + rewrite Etm, <- (oo_accept _ _ _ _ Ho). unfold sflag. simpl. by rewrite G2.
    + rewrite timer_set_status. by left.
  - eexists _, _. split; [done|].
    assert (Hss : status s1 = status s).
    { rewrite (oo_status _ _ _ _ Ho). by destruct Hf as [->|[-> _]]. }
    split; [|split_and!].
    + split; [apply Ho|by rewrite Hss; apply Hs| |].
      * intros t. rewrite Ht, Hss. apply Hs.
      * destruct Hf as [->|[_ ->]]; [|apply Hs]. unfold conn_ok. rewrite Hss.
        apply orb_true_iff in Hst as [[Hst|Hst]%orb_true_iff|Hst];
          apply bool_decide_eq_true in Hst; [done|by rewrite Hst..].
    + apply Ho.
    + by rewrite <- (oo_accept _ _ _ _ Ho).
    + right. split_and!; [done|done|]. destruct Hf as [?|[? _]]; [by left|by right].
Qed.
End Machine.
