(* ===== verification/FsmProps.v ===== *)
(** * The state machine of a session: runs and properties

    The steps a session can take (events, timers, the thread of its clearing
    queue), the invariant of everything reachable from [peer_create], and the
    properties that follow. *)
From stdpp Require Import base option list relations.
From Stdlib Require Import ZArith Lia.
From S2P Require Import Prelude Stream Files Session Clear ClearSpec Fsm FsmSpec.

Section Runs.
Context {L : Layout} (Hpad : padded).

(** ** Steps

    Messages and keepalives of other peers rewrite the shared files between two
    steps of a session; all of them leave the files in their form (Voting.v). *)

Inductive step : session -> session -> Prop :=
| step_queue s e : step s (BGP_EVENT_ADD s e)
| step_event s i e r ret s' :
    events s = e :: r -> bgp_event i (set_events s r) e = Ret (ret, s') -> step s s'
| step_start s i ret s' :
    timers s t_start <> None -> bgp_start_timer i s = Ret (ret, s') -> step s s'
| step_connect s i ret s' :
    timers s t_connect <> None -> bgp_connect_timer i s = Ret (ret, s') -> step s s'
| step_holdtime s i ret s' :
    timers s t_holdtime <> None -> bgp_holdtime_timer i s = Ret (ret, s') -> step s s'
| step_keepalive s i ret s' :
    timers s t_keepalive <> None -> bgp_keepalive_timer i s = Ret (ret, s') -> step s s'
| step_routeadv s i :
    timers s t_routeadv <> None -> step s (bgp_routeadv_timer i s)
| step_gr_restart s i s' :
    timers s t_gr_restart <> None -> bgp_graceful_restart_timer_expire i s = Ret s' -> step s s'
| step_gr_stale s s' :
    timers s t_gr_stale <> None -> bgp_graceful_stale_timer_expire s = Ret s' -> step s s'
| step_connected s err :
    status s = Connect -> step s (bgp_connect_check err s)
| step_clear s k s' :
    cq_thread (the_queue s) = true -> clear_queue_run (S k) s = Ret s' -> step s s'
| step_shared s g : globals_ok g -> step s (set_shared s g).

(** The invariant of a configured peer (one that was not made for an incoming
    connection). *)
Definition peer_inv (s : session) : Prop :=
  session_ok s /\ sflag s PEER_STATUS_ACCEPT_PEER = false.

Lemma session_ok_frame s s' : session_ok s -> base_ok s' -> status s' = status s ->
  (forall t, timers s' t <> None -> timers s t <> None \/ allowed (status s) t = true) ->
  fd s' = fd s -> session_ok s'.
Proof.
  intros [_ Hl Ht Hc] B S T F. split; [done|by rewrite S| |].
  - intros t Hn. rewrite S. destruct (T t Hn) as [H|H]; [by apply Ht|done].
  - unfold conn_ok in *. by rewrite S, F.
Qed.

Lemma inv_events s l : peer_inv s -> peer_inv (set_events s l).
Proof.
  intros [H A]. split; [|done]. apply (session_ok_frame s); try done; [|by left].
  by apply base_ok_events, H.
Qed.

Lemma inv_timer_off s t : peer_inv s -> peer_inv (BGP_TIMER_OFF s t).
Proof.
  intros [H A]. split; [|done]. apply (session_ok_frame s); try done.
  - by apply stable_timers, H.
  - intros t' Hn. left. destruct (decide (t' = t)) as [->|Hne].
    + by rewrite timer_off_same in Hn.
    + by rewrite timer_off_other in Hn.
Qed.

Lemma inv_event i s e : peer_inv s ->
  exists ret s', bgp_event i s e = Ret (ret, s') /\ peer_inv s'.
Proof.
  intros [H A]. destruct (fsm_entry_ok (status s) e) as (f & n & Ef).
  destruct (event_ok Hpad i s e f n H Ef) as (ret & s' & E & H' & _ & A' & _).
  { unfold deletes. by rewrite A, andb_false_r. }
  exists ret, s'. split; [done|]. split; [done|]. by rewrite A'.
Qed.

Lemma inv_routeadv i s : peer_inv s -> timers s t_routeadv <> None ->
  peer_inv (bgp_routeadv_timer i s).
Proof.
  intros Hi Ht. assert (Hst := so_timers _ (proj1 Hi) _ Ht).
  unfold bgp_routeadv_timer. destruct (inv_timer_off s t_routeadv Hi) as [H1 A1].
  set (s1 := BGP_TIMER_OFF s t_routeadv) in *. set (s2 := BGP_WRITE_ON _).
  assert (H2 : sent s1 s2).
  { eapply sent_trans; [apply sent_clock, H1|]. apply sent_write_on.
    apply (sent_buffers s1); [apply H1|]. apply sent_clock, H1. }
  destruct (timer_on_shape s2 t_routeadv (v_routeadv (conf s2))) as [f Ef].
  assert (B2 := sent_base _ _ (so_base _ H1) H2). destruct (se_status _ _ H2) as [S2 _].
  split.
  - apply (session_ok_frame s1); try done.
    + rewrite Ef. by apply stable_timers.
    + by rewrite timer_on_status.
    + intros t Hn. destruct (decide (t = t_routeadv)) as [->|Hne]; [right; exact Hst|left].
      rewrite timer_on_other in Hn by done. by rewrite <- (se_timers _ _ H2).
    + rewrite Ef. apply (se_fd _ _ H2).
  - rewrite Ef. unfold sflag. simpl. by rewrite (se_flags _ _ H2).
Qed.

Lemma stale_families_ok afs s : base_ok s -> (forall af, af ∈ afs -> af ∈ nsf_families) ->
  exists s', clear_stale_families s afs = Ret s' /\ stable s s' /\ timers s' = timers s.
Proof.
  revert s. induction afs as [|af afs IH]; intros s Hs Hin; cbn [clear_stale_families].
  { exists s. split; [done|]. split; [by apply stable_refl|done]. }
  assert (exists s1, (if nsf (fams s af) then bgp_clear_stale_route s af else Ret s) = Ret s1
            /\ stable s s1 /\ timers s1 = timers s) as (s1 & -> & H1 & T1).
  { destruct (nsf (fams s af)); [|exists s; split; [done|split; [by apply stable_refl|done]]].
    destruct (clear_stale_ok s af Hs) as (s1 & E & H1 & T1 & _); [apply Hin; left|]. eauto. }
  cbn [mbind res_bind]. destruct (IH s1) as (s2 & -> & H2 & T2); [apply H1| |].
  { intros af' ?. apply Hin. by right. }
  exists s2. split; [done|]. split; [by eapply stable_trans|by rewrite T2].
Qed.

Lemma inv_stale s : peer_inv s ->
  exists s', bgp_graceful_stale_timer_expire s = Ret s' /\ peer_inv s'.
Proof.
  intros Hi. unfold bgp_graceful_stale_timer_expire.
  destruct (inv_timer_off s t_gr_stale Hi) as [H1 A1].
  destruct (stale_families_ok nsf_families _ (so_base _ H1)) as (s' & -> & (B & C & S & F & _ & A) & T);
    [done|].
  exists s'. split; [done|]. split; [|by rewrite A].
  apply (session_ok_frame (BGP_TIMER_OFF s t_gr_stale)); try done.
  intros t. rewrite T. by left.
Qed.

Lemma inv_gr_restart i s : peer_inv s ->
  exists s', bgp_graceful_restart_timer_expire i s = Ret s' /\ peer_inv s'.
Proof.
  intros Hi. unfold bgp_graceful_restart_timer_expire.
  destruct (inv_timer_off s t_gr_restart Hi) as [H1 A1].
  destruct (stale_families_ok nsf_families _ (so_base _ H1)) as (s2 & -> & (B & C & S & F & _ & A) & T);
    [done|].
  cbn [mbind res_bind]. set (s3 := set_sflags s2 _).
  assert (H3 : stable s2 s3) by (apply stable_sflags; [done|]; by rewrite Z.clearbit_neq).
  assert (B4 : base_ok (BGP_TIMER_OFF s3 t_gr_stale)) by (apply stable_timers, H3).
  eexists. split; [done|]. destruct H3 as (_ & _ & _ & _ & _ & A3).
  destruct (timer_set_shape (in_rand i) (BGP_TIMER_OFF s3 t_gr_stale)) as [f Ef]. split.
  - split; [by apply timer_set_base| |apply timer_set_ok|].
    + rewrite timer_set_status. change (status s2 <> Deleted). rewrite S. apply H1.
    + unfold conn_ok. rewrite timer_set_status, Ef. change (status _) with (status s2).
      change (fd _) with (fd s2). rewrite S, F. apply H1.
  - rewrite Ef. change (sflag s3 PEER_STATUS_ACCEPT_PEER = false). by rewrite A3, A.
Qed.

Lemma inv_connect_check err s : peer_inv s -> peer_inv (bgp_connect_check err s).
Proof.
  intros [H A]. unfold bgp_connect_check. set (s1 := BGP_WRITE_OFF _).
  assert (H1 : peer_inv s1).
  { split; [|done]. apply (session_ok_frame s); try done; [|by left].
    apply (base_ok_frame s); try done; apply H. }
  assert (K : forall e, peer_inv (BGP_EVENT_ADD s1 e)).
  { intros e. destruct (event_add_frame s1 e) as [l ->]. by apply inv_events. }
  destruct err as [e|]; [|apply K]. destruct (e =? 0); apply K.
Qed.

(** A run of the clearing queue. *)
Lemma clear_run_ok k s : base_ok s -> cq_thread (the_queue s) = true ->
  exists s', clear_queue_run k s = Ret s' /\ base_ok s' /\ conf s' = conf s
    /\ status s' = status s /\ fd s' = fd s /\ timers s' = timers s /\ sflags s' = sflags s.
Proof.
  intros Hs Hth. destruct (so_queue _ Hs) as [Hq Hb]. assert (Hr := so_refs _ Hs).
  unfold refs_ok in Hr. rewrite Hth in Hr. simpl in Hr. pose proof (zlen_nonneg (refs s)).
  unfold clear_queue_run. set (items := cq_items (the_queue s)) in *.
  set (s0 := set_clear_node_queue s _).
  rewrite <- (take_drop k items) in Hq.
  destruct (clear_work_ok (take k items) (drop k items) s0 Hq) as (tb & cs & -> & Hok & _ & Hd & _).
  cbn [mbind res_bind].
  assert (Hbuild : forall q ev lk, queue_ok (clear_set s tb q ev lk) ->
            1 + zlen (refs s) + Z.b2z (cq_thread q) <= lk ->
            base_ok (set_calls (clear_set s tb q ev lk) (calls s0 ++ cs))).
  { intros q ev lk Hqo Hlk. destruct Hs as [? ? _ _ Htb ? ?]. split; try done.
    intros af Haf. simpl. by apply Hd, Htb. }
  destruct (drop k items) as [|j rest] eqn:Ed.
  - unfold s0. rewrite complete_eq by lia. eexists. split; [done|]. split; [|done].
    apply Hbuild; [by split|]. simpl. lia.
  - eexists. split; [done|]. split; [|done].
    apply (Hbuild (ClearQueue (j :: rest) true) (events s) (lock s)); [by split|]. simpl. lia.
Qed.

Lemma inv_clear k s : peer_inv s -> cq_thread (the_queue s) = true ->
  exists s', clear_queue_run k s = Ret s' /\ peer_inv s'.
Proof.
  intros [H A] Hth. destruct (clear_run_ok k s (so_base _ H) Hth) as (s' & E & B & C & S & F & T & G).
  exists s'. split; [done|]. split; [|unfold sflag in *; by rewrite G].
  apply (session_ok_frame s); try done. intros t. rewrite T. by left.
Qed.

Lemma step_inv s s' : step s s' -> peer_inv s -> peer_inv s'.
Proof.
  assert (Hev : forall s0 i e ret s1, peer_inv s0 -> bgp_event i s0 e = Ret (ret, s1) -> peer_inv s1).
  { intros s0 i e ret s1 H E. destruct (inv_event i s0 e H) as (r & s2 & E2 & H2).
    rewrite E in E2. by injection E2 as <- <-. }
  destruct 1 as [s e|s i e r ret s' _ E|s i ret s' _ E|s i ret s' _ E|s i ret s' _ E
    |s i ret s' _ E|s i Ht|s i s' _ E|s s' _ E|s err _|s k s' Hth E|s g Hg]; intros H.
  - destruct (event_add_frame s e) as [l ->]. by apply inv_events.
  - eapply Hev; [|exact E]. by apply inv_events.
  - eapply Hev; [|exact E]. by apply inv_timer_off.
  - eapply Hev; [|exact E]. by apply inv_timer_off.
  - eapply Hev; [|exact E]. by apply inv_timer_off.
  - eapply Hev; [|exact E]. by apply inv_timer_off.
  - by apply inv_routeadv.
  - destruct (inv_gr_restart i s H) as (s2 & E2 & H2). rewrite E in E2. by injection E2 as <-.
  - destruct (inv_stale s H) as (s2 & E2 & H2). rewrite E in E2. by injection E2 as <-.
  - by apply inv_connect_check.
  - destruct (inv_clear (S k) s H Hth) as (s2 & E2 & H2). rewrite E in E2. by injection E2 as <-.
  - destruct H as [H A]. split; [|done]. apply (session_ok_frame s); try done; [|by left].
    apply (base_ok_frame s); try done; apply H.
Qed.

Lemma reachable_inv s s' : rtc step s s' -> peer_inv s -> peer_inv s'.
Proof. induction 1 as [|s1 s2 s3 H _ IH]; intros Hi; [done|]. by eapply IH, step_inv. Qed.

(** ** A new peer *)

(** Tables of an instance that has just been set up for this peer: every node has
    its references, and no clearing is under way. *)
Definition tables_ok (tb : tid -> option rib_table) : Prop :=
  clear_ok tb [] /\ forall af, af ∈ nsf_families -> is_Some (tb (TMain af)).

Lemma peer_lock_eq s : 0 <= lock s -> peer_lock s = Ret (set_lock s (lock s + 1)).
Proof.
  intros H. unfold peer_lock. by replace (0 <=? lock s) with true by (symmetry; by apply Z.leb_le).
Qed.

Lemma peer_create_inv rand now c mem tb g s :
  peer_create rand now c mem tb g = Ret s -> conf_ok c -> Forall is_u8 mem -> tables_ok tb ->
  globals_ok g -> peer_inv s.
Proof.
  intros E Hc Hm [Htb1 Htb2] Hg. unfold peer_create, peer_new, stream_new in E.
  change (0 <? BGP_MAX_PACKET) with true in E. cbn [cassert mbind res_bind] in E.
  destruct (Z.eqb_spec (zlen mem) BGP_MAX_PACKET) as [Hl|]; [|done].
  cbn [negb mbind res_bind] in E.
  set (b := {| getp := 0; endp := 0; size := BGP_MAX_PACKET; data := mem |}) in E.
  assert (Hb : stream_wf b).
  { unfold BGP_MAX_PACKET in *. split_and!; simpl; try done; unfold BGP_MAX_PACKET; lia. }
  rewrite peer_lock_eq in E by done. cbn [mbind res_bind] in E.
  rewrite peer_lock_eq in E by done. cbn [mbind res_bind] in E.
  set (s1 := set_clock _ _ _) in E.
  assert (B1 : base_ok s1).
  { split.
    - exact Hc.
    - exists b, b, []. split_and!; (reflexivity || exact Hb).
    - split; [exact Htb1|reflexivity].
    - unfold refs_ok, s1. simpl. unfold zlen. simpl. lia.
    - exact Htb2.
    - unfold start_ok. change (v s1 v_start) with 5. unfold BGP_INIT_START_TIMER. lia.
    - exact Hg. }
  assert (Hs1 : timers s1 = (fun _ => None)) by done.
  assert (K : forall s0, (exists f, s0 = set_timers s1 f) -> timers_ok s0 -> peer_inv s0).
  { intros s0 [f ->] Ht. split; [|reflexivity].
    split; [by apply stable_timers|discriminate|exact Ht|exact I]. }
  assert (Es : s = if peer_active s1 then bgp_timer_set rand s1 else s1) by congruence.
  destruct (peer_active s1); subst s.
  - apply K; [apply timer_set_shape|apply timer_set_ok].
  - apply K; [by exists (timers s1); destruct s1|]. intros t. by rewrite Hs1.
Qed.

(** ** Properties *)

(** C23. Take a configured peer (one not made for an incoming connection) whose AS
    number is between 1 and 10 and that has no ORF for the VPN family, the files of
    the trust and voting messages present and in their form, and a compiler that
    pads the arrays fscanf overruns.  From [peer_create], through any sequence of
    events, timer expiries, connection checks, runs of the clearing queue and
    rewrites of the shared files by other peers: whatever event comes next,
    [bgp_event], with everything a keepalive sends, returns (no assertion fails, no
    freed or missing object is touched); only the timers that belong to the state
    are running; OPEN has been sent only over an open connection, a clearing session
    has none; the clearing queue and the peer hold the references they need; the
    files keep their form; and the start timer stays between 5 and 120 seconds. *)
Theorem session_invariant rand now c mem tb g s0 s :
  peer_create rand now c mem tb g = Ret s0 -> conf_ok c -> Forall is_u8 mem -> tables_ok tb ->
  globals_ok g -> rtc step s0 s ->
  timers_ok s /\ conn_ok s /\ status s <> Deleted /\ queue_ok s /\ refs_ok s
  /\ globals_ok (shared s) /\ 5 <= v s v_start <= 120
  /\ forall i e, exists ret s', bgp_event i s e = Ret (ret, s').
Proof using Hpad.
  intros E Hc Hm Htb Hg Hr.
  assert (Hi := reachable_inv _ _ Hr (peer_create_inv _ _ _ _ _ _ _ E Hc Hm Htb Hg)).
  destruct (Hi) as [[B ? T C] A]. assert (Hst := so_start _ B).
  do 3 (split; [done|]). do 3 (split; [apply B|]). split; [exact Hst|].
  intros i e. destruct (inv_event i s e Hi) as (r & s' & ? & _). eauto.
Qed.

(** ** Stopping an established session *)

Lemma all_items_same s s' : conf s' = conf s -> tables s' = tables s ->
  all_items s' = all_items s.
Proof.
  intros Hc Ht. unfold all_items. apply list_fmap_ext. intros k af _.
  apply family_items_same; [done|]. by rewrite Ht.
Qed.

Lemma event_eq i s e f next s1 : fsm_entry (status s) e = Ret (f, next) ->
  run_func f i s = Ret (0, s1) ->
  bgp_event i s e
  = (s2 ← (if bool_decide (next <> status s1) then bgp_fsm_change_status s1 next else Ret s1);
     Ret (0, bgp_timer_set (in_rand i) s2)).
Proof.
  intros Ef Er. unfold bgp_event. rewrite Ef. cbn [mbind res_bind]. by rewrite Er.
Qed.

(** The two halves of an event that stops the session: [bgp_stop], then the new
    state with its timers. *)
Lemma stop_event_eq i s e st next : session_ok s -> status s = st ->
  fsm_entry st e = Ret (F_stop, next) -> st <> next ->
  exists s1 s2, is_stopped i s s1 /\ entered s1 s2 next /\ base_ok s2
    /\ bgp_event i s e = Ret (0, bgp_timer_set (in_rand i) s2).
Proof.
  intros H Est Ef Hne. destruct (stop_eq i s (so_buffers _ (so_base _ H))) as (s1 & E1 & H1).
  assert (B1 := stopped_base _ _ _ (so_base _ H) H1).
  destruct (change_status_ok s1 next B1) as (s2 & E2 & B2 & En).
  exists s1, s2. split; [done|]. split; [done|]. split; [done|].
  destruct (st_status _ _ _ H1) as [S1 _].
  rewrite <- Est in Ef. rewrite (event_eq i s e F_stop next s1 Ef E1).
  rewrite bool_decide_true by congruence. by rewrite E2.
Qed.

Lemma timer_set_clearing r s t : status s = Clearing -> gr_timer t = false ->
  timers (bgp_timer_set r s) t = None.
Proof.
  intros Hs Ht. apply eq_None_ne_Some. intros d Hd.
  assert (Ha := timer_set_ok r s t). rewrite Hd in Ha. specialize (Ha ltac:(done)).
  rewrite timer_set_status, Hs in Ha. by destruct t.
Qed.

(** What a session looks like after it was stopped and entered Clearing. *)
Record cleared_down (s s' : session) : Prop := {
  cd_status : status s' = Clearing;
  cd_fd : fd s' < 0;
  cd_threads : t_read s' = false /\ t_write s' = false;
  cd_obuf : obuf s' = Some [];
  cd_timers : forall t, gr_timer t = false -> timers s' t = None;
  cd_dropped : counters s' dropped = u32 (counters s dropped + 1);
  cd_queue : the_queue s' = clear_queue_add (the_queue s) (concat (all_items s));
  cd_events : events s' = early s (cq_thread (the_queue s)) (all_items s);
}.

Lemma cleared_down_ok i s s1 s2 r : status s = Established ->
  is_stopped i s s1 -> entered s1 s2 Clearing -> cleared_down s (bgp_timer_set r s2).
Proof.
  intros Est H1 En. assert (Htm := timer_set_clearing r s2).
  destruct (en_status _ _ _ En) as [S2 _].
  destruct (st_status _ _ _ H1) as [S1 _], (st_clear _ _ _ H1) as (T1 & Q1 & _).
  assert (Hq : the_queue s1 = the_queue s) by (unfold the_queue; by rewrite Q1).
  assert (Hai : all_items s1 = all_items s) by (apply all_items_same; [apply H1|done]).
  pose proof (en_queue _ _ _ En) as Hen. 
  change (status_code Clearing <=? status_code Clearing) with true in Hen. cbv iota in Hen.
  destruct Hen as (Eq & Ee & _).
  rewrite Hq, Hai in Eq, Ee.
  rewrite (st_events _ _ _ H1), bool_decide_false in Ee by congruence.
  assert (Hearly : early s1 (cq_thread (the_queue s)) (all_items s)
                   = early s (cq_thread (the_queue s)) (all_items s)).
  { unfold early, completion. by rewrite S1. }
  rewrite Hearly in Ee.
  destruct (en_threads _ _ _ En) as [Er Ew], (st_threads _ _ _ H1) as [Sr Sw].
  destruct (en_bufs _ _ _ En) as (_ & _ & Eo), (st_buffers _ _ _ H1) as (_ & So & _).
  destruct (en_counters _ _ _ En) as [Ec _].
  assert (Hst := timer_set_status r s2). destruct (timer_set_shape r s2) as [f Ef].
  rewrite Ef in *. split.
  - exact S2.
  - simpl. rewrite (en_fd _ _ _ En). apply H1.
  - simpl. split; congruence.
  - simpl. congruence.
  - intros t. by apply Htm.
  - simpl. by rewrite Ec, (st_dropped _ _ _ H1), bool_decide_true.
  - exact Eq.
  - exact Ee.
Qed.

Lemma established_stop_ok i s e : session_ok s -> status s = Established ->
  fsm_entry Established e = Ret (F_stop, Clearing) ->
  exists s', bgp_event i s e = Ret (0, s') /\ cleared_down s s' /\ session_ok s'.
Proof.
  intros H Est Ef. destruct (stop_event_eq i s e Established Clearing H Est Ef)
    as (s1 & s2 & H1 & En & B2 & E); [done|].
  assert (Hd := cleared_down_ok i s s1 s2 (in_rand i) Est H1 En).
  eexists. split; [exact E|]. split; [exact Hd|].
  split; [by apply timer_set_base|by rewrite (cd_status _ _ Hd)|apply timer_set_ok|].
  unfold conn_ok. rewrite (cd_status _ _ Hd). apply Hd.
Qed.

(** C25. Losing or stopping an established session: the machine is in Clearing,
    the connection is closed, nothing is read, written or queued, no session
    timer runs, the drop is counted, and every node with a path of the peer is in
    the clearing queue. *)
Theorem established_stop i s e :
  session_ok s -> status s = Established -> fsm_entry Established e = Ret (F_stop, Clearing) ->
  exists s', bgp_event i s e = Ret (0, s') /\ status s' = Clearing
    /\ fd s' < 0 /\ t_read s' = false /\ t_write s' = false /\ obuf s' = Some []
    /\ (forall t, gr_timer t = false -> timers s' t = None)
    /\ counters s' dropped = u32 (counters s dropped + 1)
    /\ cq_items (the_queue s') = cq_items (the_queue s) ++ concat (all_items s).
Proof.
  intros H Est Ef. destruct (established_stop_ok i s e H Est Ef)
    as (s' & E & [S F [R W] O T C Q _] & _).
  exists s'. rewrite Q. by split_and!.
Qed.

(** ** Completion in the wrong state *)

Lemma completed_clearing i s : session_ok s -> status s = Clearing ->
  exists s', bgp_event i s Clearing_Completed = Ret (0, s') /\ status s' = Idle
    /\ the_queue s' = the_queue s.
Proof.
  intros H Est. destruct (stop_eq i s (so_buffers _ (so_base _ H))) as (s1 & E1 & H1).
  assert (B1 := stopped_base _ _ _ (so_base _ H) H1).
  assert (Er : run_func F_clearing_completed i s = Ret (0, BGP_EVENT_FLUSH s1)).
  { cbn [run_func]. unfold bgp_clearing_completed. by rewrite E1. }
  assert (Ef : fsm_entry (status s) Clearing_Completed = Ret (F_clearing_completed, Idle))
    by (by rewrite Est).
  rewrite (event_eq _ _ _ _ _ _ Ef Er). destruct (st_status _ _ _ H1) as [S1 _].
  change (status (BGP_EVENT_FLUSH s1)) with (status s1).
  rewrite bool_decide_true by congruence.
  destruct (change_status_ok (BGP_EVENT_FLUSH s1) Idle) as (s2 & -> & B2 & En);
    [by apply base_ok_events|]. cbn [mbind res_bind].
  eexists. split; [done|]. rewrite timer_set_status. destruct (en_status _ _ _ En) as [S2 _].
  split; [done|]. destruct (timer_set_shape (in_rand i) s2) as [f ->].
  destruct (en_queue _ _ _ En) as (Q2 & _), (st_clear _ _ _ H1) as (_ & Q1 & _).
  unfold the_queue. simpl. rewrite Q2. simpl. by rewrite Q1.
Qed.

(** C26. Clearing can be left too early: if an established session that has no
    path in IPv4 unicast but has some in another family is lost, the first
    completion is already waiting when the machine enters Clearing; handling it
    takes the session to Idle, ready to start again, while nodes are still in the
    clearing queue. *)
Theorem clearing_left_early i s e :
  session_ok s -> status s = Established -> fsm_entry Established e = Ret (F_stop, Clearing) ->
  cq_thread (the_queue s) = false ->
  family_items s BGP_CLEAR_ROUTE_NORMAL (1, 1) = [] -> concat (all_items s) <> [] ->
  exists s1 r s2, bgp_event i s e = Ret (0, s1) /\ status s1 = Clearing
    /\ events s1 = Clearing_Completed :: r
    /\ bgp_event i (set_events s1 r) Clearing_Completed = Ret (0, s2)
    /\ status s2 = Idle /\ cq_items (the_queue s2) <> [].
Proof.
  intros H Est Ef Hth Hf Hne. destruct (established_stop_ok i s e H Est Ef)
    as (s1 & E & [S _ _ _ _ _ Q Ev] & H1).
  assert (Hev : exists r, events s1 = Clearing_Completed :: r).
  { rewrite Ev, Hth. unfold early, all_items, families. csimpl. rewrite Hf.
    cbn [leading_empty replicate concat]. unfold completion. rewrite Est.
    rewrite bool_decide_true by done. by eexists. }
  destruct Hev as [r Hr].
  assert (Hi : session_ok (set_events s1 r)).
  { apply (session_ok_frame s1); try done; [|by left]. by apply base_ok_events, H1. }
  destruct (completed_clearing i (set_events s1 r) Hi S) as (s2 & E2 & S2 & Q2).
  exists s1, r, s2. split_and!; try done. rewrite Q2.
  change (the_queue (set_events s1 r)) with (the_queue s1). rewrite Q. simpl.
  by intros [_ ?]%app_nil.
Qed.

(** Completion while a session is being set up or is up: the machine only moves
    to Idle. *)
Lemma stray_completion i s : session_ok s ->
  match status s with Connect | Active | OpenSent | OpenConfirm | Established => True | _ => False end ->
  exists s', bgp_event i s Clearing_Completed = Ret (0, s') /\ status s' = Idle
    /\ fd s' = fd s /\ t_read s' = t_read s /\ tables s' = tables s /\ the_queue s' = the_queue s.
Proof.
  intros H Hst.
  assert (Ef : fsm_entry (status s) Clearing_Completed = Ret (F_ignore, Idle))
    by (by destruct (status s)).
  assert (Er : run_func F_ignore i s = Ret (0, s)) by done.
  rewrite (event_eq _ _ _ _ _ _ Ef Er).
  rewrite bool_decide_true by (intros E; by rewrite <- E in Hst).
  destruct (change_status_ok s Idle (so_base _ H)) as (s2 & -> & _ & En). cbn [mbind res_bind].
  eexists. split; [done|]. rewrite timer_set_status.
  destruct (timer_set_shape (in_rand i) s2) as [f ->].
  destruct (en_status _ _ _ En) as [S2 _], (en_queue _ _ _ En) as (Q2 & _ & _ & T2).
  destruct (en_threads _ _ _ En) as [R2 _].
  split; [done|]. split; [apply En|]. split; [done|]. split; [exact T2|].
  unfold the_queue. simpl. by rewrite Q2.
Qed.

(** C27. Clearing one family of an established session takes the session down
    without stopping it: when a family with nothing to clear is withdrawn (a
    CAPABILITY message, or a neighbour deactivated in one family),
    [bgp_clear_route] reports completion, and the machine, in Established, answers
    with Idle; the connection stays open and is still read. *)
Theorem family_clear_idles_session i s af :
  session_ok s -> status s = Established -> events s = [] ->
  cq_thread (the_queue s) = false -> family_items s BGP_CLEAR_ROUTE_NORMAL af = [] ->
  exists s1 s2, bgp_clear_route s af BGP_CLEAR_ROUTE_NORMAL = Ret s1
    /\ status s1 = Established /\ events s1 = [Clearing_Completed]
    /\ bgp_event i (set_events s1 []) Clearing_Completed = Ret (0, s2)
    /\ status s2 = Idle /\ 0 <= fd s2 /\ t_read s2 = t_read s.
Proof.
  intros H Est Hev Hth Hf. destruct (so_queue _ (so_base _ H)) as [Hq Hb].
  assert (Hr := so_refs _ (so_base _ H)). unfold refs_ok in Hr. rewrite Hth in Hr. simpl in Hr.
  pose proof (zlen_nonneg (refs s)).
  destruct (clear_route_ok BGP_CLEAR_ROUTE_NORMAL af s Hq) as (tb & E & Hok & Hp & _); [lia|].
  rewrite Hf, Hth in E. rewrite Hf, app_nil_r in Hok.
  unfold completes, takes_ref, completion in E. rewrite Hev, Est in E.
  rewrite clear_queue_add_nil in E. set (s1 := clear_set _ _ _ _ _) in E.
  assert (B1 : base_ok (set_events s1 [])).
  { destruct H as [[? ? _ _ Htb ? ?] _ _ _]. split; try done.
    - change (1 + zlen (refs s) + Z.b2z (cq_thread (the_queue s)) <= lock s + 0).
      rewrite Hth. simpl. lia.
    - intros af' Haf. destruct (Htb af' Haf) as [T HT]. specialize (Hp (TMain af')).
      unfold paths in Hp. rewrite HT in Hp. simpl in Hp |- *.
      destruct (tb (TMain af')); [by eexists|done]. }
  assert (H1 : session_ok (set_events s1 [])) by (apply (session_ok_frame s); try done; by left).
  destruct (stray_completion i (set_events s1 []) H1) as (s2 & E2 & S2 & F2 & R2 & _).
  { change (status (set_events s1 [])) with (status s). by rewrite Est. }
  exists s1, s2. split; [exact E|]. split; [exact Est|]. split; [done|]. split; [exact E2|].
  split; [exact S2|]. split; [|exact R2]. rewrite F2. change (0 <= fd s).
  assert (Hc := so_conn _ H). unfold conn_ok in Hc. by rewrite Est in Hc.
Qed.

(** ** The start timer *)

Lemma jitter_bounds r t : 0 <= r -> 0 <= t ->
  - (t / 2) <= bgp_start_jitter r t <= t - t / 2.
Proof.
  intros Hr Ht. unfold bgp_start_jitter. rewrite Z.rem_mod_nonneg by lia.
  rewrite Z.quot_div_nonneg by lia. pose proof (Z.mod_pos_bound r (t + 1) ltac:(lia)). lia.
Qed.

(** C28. The delay before an idle peer starts again: with [v_start] seconds it is
    [v_start] shifted by a jitter, between half of it and one and a half times it
    (rounded), so never zero and never more than three minutes. *)
Theorem start_delay_bounds rand s :
  start_ok s -> status s = Idle -> BGP_PEER_START_SUPPRESSED s = false -> peer_active s = true ->
  timers s t_start = None -> 0 <= rand ->
  exists d, timers (bgp_timer_set rand s) t_start = Some d
    /\ v s v_start - v s v_start / 2 <= d <= 2 * v s v_start - v s v_start / 2
    /\ 3 <= d <= 180.
Proof.
  unfold start_ok, BGP_INIT_START_TIMER. intros Hv Hst Hsup Hact Ht Hr.
  unfold bgp_timer_set. rewrite Hst, Hsup, Hact. cbn [orb negb].
  rewrite timers_off_timers, decide_False.
  2: { rewrite !elem_of_cons, elem_of_nil. naive_solver. }
  rewrite timer_on_timers, decide_True by (by rewrite Hst).
  assert (Hi : i32 (v s v_start) = v s v_start).
  { unfold i32. rewrite Z.mod_small by lia. lia. }
  rewrite Hi. pose proof (jitter_bounds rand (v s v_start) Hr ltac:(lia)) as Hj.
  eexists. split; [done|]. unfold u32.
  assert (v s v_start / 2 <= 60) by (apply Z.div_le_upper_bound; lia).
  assert (0 <= v s v_start / 2) by (apply Z.div_pos; lia).
  pose proof (Z.mul_div_le (v s v_start) 2 ltac:(lia)).
  rewrite Z.mod_small by lia. split; [lia|].
  assert (2 * (v s v_start / 2) <= v s v_start) by lia.
  assert (v s v_start < 2 * (v s v_start / 2) + 2).
  { pose proof (Z.mod_pos_bound (v s v_start) 2 ltac:(lia)).
    rewrite (Z.div_mod (v s v_start) 2) at 1 by lia. lia. }
  lia.
Qed.

(** The cause recorded for a reset looks at the subcode of the NOTIFICATION
    alone: an OPEN rejected for a bad peer AS is reported as an administrative
    shutdown. *)
Lemma bad_peer_as_reset_cause i s q : obuf s = Some q ->
  exists s', bgp_notify_send i s 2 2 = Ret s' /\ last_reset s' = PEER_DOWN_USER_SHUTDOWN.
Proof.
  intros E. unfold bgp_notify_send, bgp_notify_send_with_data. rewrite E. cbn [mbind res_bind].
  eexists. split; [done|]. unfold bgp_write_notify. simpl.
  destruct (in_writen i <=? 0); unfold BGP_EVENT_ADD; by case_bool_decide.
Qed.

(** ** Deleting a peer *)

Lemma filter_ne_zlen (h : holder) l : h ∈ l -> zlen (filter (fun x => x <> h) l) + 1 <= zlen l.
Proof.
  unfold zlen. induction l as [|x l IH]; [by intros ?%elem_of_nil|].
  pose proof (length_filter (fun x => x <> h) l). rewrite filter_cons.
  intros [<-|Hin]%elem_of_cons; [rewrite decide_False by auto; simpl; lia|].
  specialize (IH Hin). destruct (decide _); simpl; lia.
Qed.

(** The state after a reference of a list was dropped, or none was held. *)
Definition left_list (s s' : session) : Prop :=
  exists r lk, s' = set_refs (set_lock s lk) r /\ base_ok s'.

Lemma leave_ok s h : base_ok s -> exists s', leave s h = Ret s' /\ left_list s s'.
Proof.
  intros Hs. unfold leave. case_bool_decide as Hin.
  - assert (Hr := so_refs _ Hs). unfold refs_ok in Hr. pose proof (filter_ne_zlen h _ Hin) as Hf.
    pose proof (zlen_nonneg (filter (fun x => x <> h) (refs s))).
    pose proof (b2z_nonneg (cq_thread (the_queue s))).
    unfold peer_unlock. destruct (Z.ltb_spec 0 (lock s)); [|lia]. cbn [cassert mbind res_bind].
    change (lock (set_lock s (lock s - 1))) with (lock s - 1).
    destruct (Z.eqb_spec (lock s - 1) 0); [lia|]. cbn [mbind res_bind].
    eexists. split; [done|]. eexists _, _. split; [done|].
    destruct Hs as [? ? ? _ ? ? ?]. split; try done.
    change (1 + zlen (filter (fun x => x <> h) (refs s)) + Z.b2z (cq_thread (the_queue s))
            <= lock s - 1). lia.
  - exists s. split; [done|]. exists (refs s), (lock s). split; [by destruct s|done].
Qed.

Lemma finish_tables_none afs s :
  (forall af, tables s (TClient (my_id (conf s)) af) = None) -> finish_tables s afs = Ret s.
Proof.
  intros H. induction afs as [|af afs IH]; [done|]. cbn [finish_tables].
  unfold finish_table. rewrite H. cbn [mbind res_bind]. exact IH.
Qed.

Lemma nsf_stop_ok s : base_ok s ->
  exists s', peer_nsf_stop s = Ret s' /\ base_ok s' /\ conf s' = conf s /\ status s' = status s
    /\ (forall t, paths (tables s') t = paths (tables s) t).
Proof.
  intros Hs. unfold peer_nsf_stop. set (s1 := timers_off _ _).
  assert (B1 : base_ok s1) by (apply (base_ok_frame s); try done; apply Hs).
  destruct (so_queue _ B1) as [Hq _]. assert (Hr := so_refs _ B1). unfold refs_ok in Hr.
  pose proof (zlen_nonneg (refs s1)).
  pose proof (b2z_nonneg (cq_thread (the_queue s1))).
  destruct (clear_all_ok s1 Hq) as (tb & E & _ & Hp & _); [lia|].
  destruct (clear_all_base s1 B1) as (tb' & E' & B'). rewrite E in E'.
  eexists. split; [exact E|]. split; [by injection E' as ->|]. by split_and!.
Qed.

(** A deleted session: nothing runs, nothing is open. *)
Record shut (s : session) : Prop := {
  sh_status : status s = Deleted;
  sh_fd : fd s < 0;
  sh_threads : t_read s = false /\ t_write s = false;
  sh_timers : forall t, timers s t = None;
}.

Lemma last_unlock_ok s : base_ok s -> shut s ->
  exists s', peer_unlock (set_obuf (set_work (set_ibuf s None) None) None) = Ret s' /\ shut s'
    /\ ibuf s' = None /\ obuf s' = None /\ 0 <= lock s'
    /\ (lock s' = 0 -> events s' = [] /\ clear_node_queue s' = None).
Proof.
  intros Hs [S F [R W] T]. set (s1 := set_obuf _ _).
  assert (Hr := so_refs _ Hs). unfold refs_ok in Hr. pose proof (zlen_nonneg (refs s)).
  pose proof (b2z_nonneg (cq_thread (the_queue s))).
  unfold peer_unlock. change (lock s1) with (lock s).
  destruct (Z.ltb_spec 0 (lock s)); [|lia]. cbn [cassert mbind res_bind].
  set (s2 := set_lock s1 (lock s - 1)). change (lock s2) with (lock s - 1).
  destruct (Z.eqb_spec (lock s - 1) 0) as [E|E].
  - unfold peer_free. change (status s2) with (status s). rewrite bool_decide_true by done.
    cbn [cassert mbind res_bind]. destruct (timer_set_shape 0 s2) as [f Ef].
    assert (Ht := timer_set_ok 0 s2). rewrite Ef in *.
    eexists. split; [done|]. split.
    + split; try done. intros t. apply eq_None_ne_Some. intros d Hd.
      specialize (Ht t). change (status (set_timers s2 f)) with (status s) in Ht.
      simpl in Ht, Hd. rewrite Hd, S in Ht. specialize (Ht ltac:(done)). by destruct t.
    + do 2 (split; [done|]). split; [simpl; lia|done].
  - eexists. split; [done|]. split; [by split|]. do 2 (split; [done|]). split; [simpl; lia|].
    simpl. lia.
Qed.

Lemma left_list_shut s s' : left_list s s' -> shut s -> shut s'.
Proof. intros (r & lk & -> & _) [? ? ? ?]. by split. Qed.

Lemma no_client_tables s s' : conf s' = conf s ->
  (forall t, paths (tables s') t = paths (tables s) t) ->
  (forall af, tables s (TClient (my_id (conf s)) af) = None) ->
  forall af, tables s' (TClient (my_id (conf s')) af) = None.
Proof.
  intros Hc Hp H af. specialize (Hp (TClient (my_id (conf s)) af)). rewrite Hc.
  unfold paths in Hp. rewrite H in Hp. by destruct (tables s' _).
Qed.

(** From the stop to the timers: the session is shut. *)
Lemma delete_core_ok i s : base_ok s ->
  exists s1 s2, bgp_stop i s = Ret (0, s1) /\ bgp_fsm_change_status s1 Deleted = Ret s2
    /\ base_ok s2 /\ conf s2 = conf s /\ sflag s2 PEER_STATUS_GROUP = sflag s1 PEER_STATUS_GROUP
    /\ (forall t, paths (tables s2) t = paths (tables s) t)
    /\ forall r, shut (bgp_timer_set r s2).
Proof.
  intros Hs. destruct (stop_eq i s (so_buffers _ Hs)) as (s1 & E1 & H1).
  assert (B1 := stopped_base _ _ _ Hs H1).
  destruct (change_status_ok s1 Deleted B1) as (s2 & E2 & B2 & En).
  assert (Hp : forall t, paths (tables s2) t = paths (tables s1) t).
  { destruct (so_queue _ B1) as [Hq _]. assert (Hr := so_refs _ B1). unfold refs_ok in Hr.
    pose proof (zlen_nonneg (refs s1)). pose proof (b2z_nonneg (cq_thread (the_queue s1))).
    unfold bgp_fsm_change_status in E2.
    change (status_code Clearing <=? status_code Deleted) with true in E2. cbv iota in E2.
    destruct (clear_all_ok (log s1 (CDumpState (status s1) Deleted)) Hq) as (tb & E & _ & Hp & _);
      [simpl; lia|].
    rewrite E in E2. cbn [mbind res_bind] in E2. injection E2 as <-. exact Hp. }
  destruct (st_clear _ _ _ H1) as (T1 & _).
  exists s1, s2. split; [done|]. split; [done|]. split; [done|].
  split; [by rewrite (en_conf _ _ _ En), (st_conf _ _ _ H1)|].
  destruct (en_flags _ _ _ En) as [G _]. split; [unfold sflag; by rewrite G|].
  split; [intros t; by rewrite Hp, T1|]. intros r.
  destruct (en_status _ _ _ En) as [S _], (en_threads _ _ _ En) as [R W],
    (st_threads _ _ _ H1) as [R1 W1].
  assert (Ht := timer_set_ok r s2). rewrite <- (timer_set_status r s2) in S.
  assert (Hnone : forall t, timers (bgp_timer_set r s2) t = None).
  { intros t. apply eq_None_ne_Some. intros d Hd. specialize (Ht t). rewrite Hd, S in Ht.
    specialize (Ht ltac:(done)). by destruct t. }
  destruct (timer_set_shape r s2) as [f Ef]. rewrite Ef in *.
  split; [exact S| |split; simpl; congruence|exact Hnone].
  simpl. rewrite (en_fd _ _ _ En). apply H1.
Qed.

Lemma shut_log r s c : shut (bgp_timer_set r s) -> shut (bgp_timer_set r (log s c)).
Proof.
  intros [S F T N]. rewrite timer_set_status in S.
  assert (E : bgp_timer_set r (log s c) = log (bgp_timer_set r s) c).
  { unfold bgp_timer_set. simpl. by rewrite S. }
  rewrite E. split; try done. cbn [log set_calls status]. by rewrite timer_set_status.
Qed.

Lemma bind_ex {A B} (m : res A) a (k : A -> res B) (P : B -> Prop) :
  m = Ret a -> (exists b, k a = Ret b /\ P b) -> exists b, (m ≫= k) = Ret b /\ P b.
Proof. by intros ->. Qed.

(** The first steps of [peer_delete]: routes kept for a restart are cleared, and
    the peer leaves its group. *)
Lemma delete_front_ok (k : session -> res session) (P : session -> Prop) s :
  base_ok s ->
  (forall s1, base_ok s1 -> conf s1 = conf s ->
     (forall t, paths (tables s1) t = paths (tables s) t) -> exists b, k s1 = Ret b /\ P b) ->
  exists b, (s0 ← (if sflag s PEER_STATUS_NSF_WAIT then peer_nsf_stop s else Ret s);
             leave s0 HGroup ≫= k) = Ret b /\ P b.
Proof.
  intros H Hk.
  assert (exists s0, (if sflag s PEER_STATUS_NSF_WAIT then peer_nsf_stop s else Ret s) = Ret s0
            /\ base_ok s0 /\ conf s0 = conf s
            /\ forall t, paths (tables s0) t = paths (tables s) t) as (s0 & E0 & B0 & C0 & P0).
  { destruct (sflag s PEER_STATUS_NSF_WAIT); [|by exists s].
    destruct (nsf_stop_ok s H) as (s0 & E & B & C & _ & Q). by exists s0. }
  eapply bind_ex; [exact E0|].
  destruct (leave_ok s0 HGroup B0) as (s1 & El1 & r1 & l1 & E1 & B1). eapply bind_ex; [exact El1|].
  apply Hk; [exact B1| |]; rewrite E1; [exact C0|exact P0].
Qed.

Lemma peer_delete_ok i s :
  base_ok s -> status s <> Deleted -> rsclient_active s = false ->
  (forall af, tables s (TClient (my_id (conf s)) af) = None) ->
  exists s', peer_delete i s = Ret s' /\ shut s' /\ ibuf s' = None /\ obuf s' = None
    /\ 0 <= lock s' /\ (lock s' = 0 -> events s' = [] /\ clear_node_queue s' = None).
Proof.
  intros H Hd Hrs Hct. unfold peer_delete.
  eapply bind_ex; [by rewrite bool_decide_true|].
  apply delete_front_ok; [done|]. intros s1 B1 C1 P1. set (s2 := set_last_reset s1 _).
  assert (B2 : base_ok s2) by (apply (base_ok_frame s1); try done; apply B1).
  change (conf s2 = conf s) in C1. change (forall t, paths (tables s2) t = paths (tables s) t) in P1.
  clearbody s2. rename C1 into C2, P1 into P2.
  destruct (delete_core_ok i s2 B2) as (s3 & s4 & E3 & E4 & B4 & C4 & _ & P4 & Hsh).
  eapply bind_ex; [exact E3|]. eapply bind_ex; [exact E4|].
  set (s5 := if password (conf s4) && negb (sflag s4 PEER_STATUS_GROUP)
             then log s4 CMd5Set else s4).
  assert (H5 : base_ok s5 /\ conf s5 = conf s /\ tables s5 = tables s4
               /\ shut (bgp_timer_set (in_rand i) s5)).
  { assert (C5 : conf s4 = conf s) by congruence. subst s5.
    destruct (password (conf s4) && negb (sflag s4 PEER_STATUS_GROUP)); [|by split_and!].
    split; [by apply base_ok_log|]. split; [done|]. split; [done|]. by apply shut_log. }
  clearbody s5. destruct H5 as (B5 & C5 & T5 & Hsh5).
  assert (B6 := timer_set_base (in_rand i) s5 B5).
  destruct (timer_set_shape (in_rand i) s5) as [f6 E6].
  set (s6 := bgp_timer_set (in_rand i) s5) in *. clearbody s6.
  assert (exists s7, (if negb (sflag s6 PEER_STATUS_GROUP) then leave s6 HPeerList else Ret s6) = Ret s7
            /\ left_list s6 s7) as (s7 & El7 & L7).
  { destruct (negb (sflag s6 PEER_STATUS_GROUP)); [by apply leave_ok|]. exists s6. split; [done|].
    exists (refs s6), (lock s6). split; [by destruct s6|done]. }
  eapply bind_ex; [exact El7|]. assert (Hsh7 := left_list_shut _ _ L7 Hsh5).
  destruct L7 as (r7 & l7 & E7 & B7).
  assert (C7 : conf s7 = conf s) by (rewrite E7, E6; simpl; exact C5).
  assert (T7 : tables s7 = tables s4) by (rewrite E7, E6; exact T5).
  assert (Hrs7 : rsclient_active s7 = false) by (unfold rsclient_active in *; by rewrite C7).
  eapply bind_ex; [by rewrite Hrs7|]. eapply bind_ex.
  { apply finish_tables_none. apply (no_client_tables s); [done| |done].
    intros t. by rewrite T7, P4. }
  by apply last_unlock_ok.
Qed.

(** C29. Deleting a peer that is not a route server client never fails: the
    session ends in Deleted with its connection closed, its threads and all its
    timers stopped and its buffers released; and if that was the last reference,
    so that the peer is freed, no event and no clearing is left that could
    still reach it. *)
Theorem peer_delete_shuts i s :
  session_ok s -> rsclient_active s = false ->
  (forall af, tables s (TClient (my_id (conf s)) af) = None) ->
  exists s', peer_delete i s = Ret s' /\ shut s' /\ ibuf s' = None /\ obuf s' = None
    /\ 0 <= lock s' /\ (lock s' = 0 -> events s' = [] /\ clear_node_queue s' = None).
Proof. intros [H Hd _ _] Hrs Hct. by apply peer_delete_ok. Qed.

(** Events that reach a deleted peer change nothing. *)
Lemma deleted_ignores i s e : shut s -> exists f, bgp_event i s e = Ret (0, set_timers s f)
  /\ shut (set_timers s f).
Proof.
  intros Hs. destruct (timer_set_shape (in_rand i) s) as [f Ef]. exists f.
  assert (En : fsm_entry (status s) e = Ret (F_ignore, Deleted)).
  { rewrite (sh_status _ Hs). by destruct e. }
  rewrite (event_eq i s e F_ignore Deleted s En eq_refl).
  rewrite bool_decide_false by (rewrite (sh_status _ Hs); auto). cbn [mbind res_bind].
  rewrite Ef. split; [done|]. assert (Ht := timer_set_ok (in_rand i) s). rewrite Ef in Ht.
  destruct Hs as [S F T N]. split; try done. intros t. apply eq_None_ne_Some. intros d Hd.
  specialize (Ht t). simpl in Ht, Hd. rewrite Hd, S in Ht. specialize (Ht ltac:(done)). by destruct t.
Qed.

(** ** The hold timer of an accepted connection *)

Lemma notify_tables i s code sub data s' :
  bgp_notify_send_with_data i s code sub data = Ret s' -> tables s' = tables s.
Proof.
  unfold bgp_notify_send_with_data. destruct (obuf s); [|done]. cbn [mbind res_bind].
  intros [= <-]. unfold bgp_write_notify, BGP_EVENT_ADD, BGP_WRITE_OFF. by repeat case_match.
Qed.

Lemma accepted_expires i s e f next : session_ok s -> fsm_entry (status s) e = Ret (f, next) ->
  deletes s f = true -> rsclient_active s = false ->
  (forall af, tables s (TClient (my_id (conf s)) af) = None) ->
  exists s', bgp_event i s e = Ret (-1, s') /\ shut s'.
Proof using.
  unfold deletes. intros [B Hd _ _] Ef [Hf Ha]%andb_true_iff Hrs Hct.
  apply bool_decide_eq_true in Hf as ->.
  unfold bgp_event. rewrite Ef. cbn [mbind res_bind run_func].
  unfold bgp_fsm_holdtime_expire, bgp_notify_send.
  destruct (notify_send_ok i s BGP_NOTIFY_HOLD_ERR 0 [] B) as (s1 & E1 & B1 & C1 & S1 & _ & A1).
  assert (T1 := notify_tables _ _ _ _ _ _ E1). rewrite E1. cbn [mbind res_bind].
  rewrite A1, Ha. destruct (peer_delete_ok i s1) as (s2 & -> & Hs & _).
  - done.
  - by rewrite S1.
  - unfold rsclient_active in *. by rewrite C1.
  - intros af. by rewrite T1, C1.
  - exists s2. by split.
Qed.

(** C24. The machine follows its table: for every state and event there is an
    entry; the new state is the entry's, or the old one when starting or finishing
    a connection failed.  The exception is the expiry of the hold timer of a peer
    made for an incoming connection (and so no route server client): that peer is
    deleted.  So a session is established only by a KEEPALIVE in OpenConfirm, and
    leaves Established only for Clearing, on Clearing_Completed for Idle, or as
    such an exception for Deleted.  The conditions on the files, the AS number and
    the frames are those of [session_ok] and [padded]. *)
Theorem session_transitions i s e :
  session_ok s ->
  (sflag s PEER_STATUS_ACCEPT_PEER = true -> rsclient_active s = false /\
     forall af, tables s (TClient (my_id (conf s)) af) = None) ->
  exists f next ret s', fsm_entry (status s) e = Ret (f, next)
    /\ bgp_event i s e = Ret (ret, s')
    /\ (if deletes s f then ret = -1 /\ shut s' else moves (status s) f next (status s') ret)
    /\ (status s <> Established -> status s' = Established ->
          status s = OpenConfirm /\ e = Receive_KEEPALIVE_message)
    /\ (status s = Established -> status s' <> Established ->
          status s' = Clearing \/ status s' = Idle /\ e = Clearing_Completed
          \/ status s' = Deleted /\ e = Hold_Timer_expired
             /\ sflag s PEER_STATUS_ACCEPT_PEER = true).
Proof using Hpad.
  intros H Hr. destruct (fsm_entry_ok (status s) e) as (f & n & Ef). exists f, n.
  destruct (deletes s f) eqn:Ed.
  - assert (Hd := Ed). unfold deletes in Hd. apply andb_true_iff in Hd as [Hf Ha].
    apply bool_decide_eq_true in Hf. destruct (Hr Ha) as [Hrs Hct].
    destruct (accepted_expires i s e f n H Ef Ed Hrs Hct) as (s' & E & Hs).
    exists (-1), s'. rewrite (sh_status _ Hs). split_and!; try done.
    intros Est _. right; right. split; [done|]. split; [|done].
    subst f. rewrite Est in Ef. by destruct e.
  - destruct (event_ok Hpad i s e f n H Ef Ed) as (ret & s' & E & _ & _ & _ & Hm).
    exists ret, s'. split; [done|]. split; [done|]. split; [done|].
    destruct Hm as [[_ Hs]|(_ & Hs & _)]; [|split; congruence].
    rewrite Hs. revert Ef. destruct (status s), e; intros [= <- <-]; split; auto; congruence.
Qed.
End Runs.
