(* ===== verification/FsmSample.v ===== *)
(** * A session to evaluate the clearing and the state machine on

    A peer with IPv4 and IPv6 unicast configured that has one path, an IPv6 one;
    the theorems of ClearSpec.v and FsmProps.v are applied to it. *)
From stdpp Require Import base option list gmap relations.
From Stdlib Require Import ZArith Lia.
From S2P Require Import Prelude Stream Files Trust Session Clear ClearSpec Fsm FsmSpec FsmProps.

Definition two_families (af : Z * Z) : bool := bool_decide (af = (1, 1)) || bool_decide (af = (2, 1)).

Definition sample_config : config :=
  Config false false false 60 180 60 180 120 30 0 360 false false false two_families
    (fun _ => false) (fun _ => false) (fun _ => false) false (fun _ => false) (fun _ => false)
    7 [] (fun _ => []) 3 50.

Definition sample_node : rib_node := RibNode 1 [(8, 16); (7, 16)] [7] [] 3.
Definition sample_tables (t : tid) : option rib_table :=
  match t with
  | TMain (2, 1) => Some (RibTable 1 [sample_node])
  | TMain _ => Some (RibTable 1 [])
  | _ => None
  end.

(** The files of the board of Trust.v; no link is dropped. *)
Definition sample_globals : globals := Globals demo_files None.

Definition sample_buffer : stream := {| getp := 0; endp := 0; size := 2; data := [0; 0] |}.

Definition sample_session (st : bgp_status) (f : Z) : session :=
  Session sample_config st Idle f true false (fun _ => None)
    (fun i => match i with v_start => 5 | v_holdtime => 180 | v_keepalive => 60 end) 4 0
    (fun _ => 0) (fun _ => 0) (fun _ => no_family) 0 (Some sample_buffer) (Some sample_buffer)
    (Some []) 0 0 [] 2 sample_tables None [HPeerList] [] sample_globals.

Definition sample_inputs : inputs := 
  Inputs 1234 77 1000 9 connect_in_progress 21 (fun _ _ => 0).

Lemma sample_clear_ok : clear_ok sample_tables [].
Proof.
  split; [|by intros i ?%elem_of_nil].
  assert (Hempty : forall t, NoDup (rn_id <$> tbl_nodes (RibTable 1 [])) /\
    pending_in [] t < 1 /\
    forall n, n ∈ tbl_nodes (RibTable 1 []) -> pending [] t (rn_id n) <= slack n).
  { intros t. split; [apply NoDup_nil_2|]. split; [by vm_compute|]. by intros n ?%elem_of_nil. }
  intros t T HT. destruct t as [[a b]|? ?|? ?]; try done. simpl in HT.
  destruct (decide (a = 2 /\ b = 1)) as [[-> ->]|Hne].
  - injection HT as <-. split; [apply NoDup_singleton|]. split; [by vm_compute|].
    intros n ->%list_elem_of_singleton. by vm_compute.
  - assert (T = RibTable 1 []) as ->; [|apply Hempty].
    destruct a as [|[p|[]|]|], b as [|[]|]; try (injection HT as <-; done); by destruct Hne.
Qed.

Lemma sample_tables_ok : tables_ok sample_tables.
Proof.
  split; [apply sample_clear_ok|]. intros af Haf. unfold nsf_families in Haf.
  repeat (apply elem_of_cons in Haf as [->|Haf]; [by eexists|]). by apply elem_of_nil in Haf.
Qed.

Lemma sample_buffer_wf : stream_wf sample_buffer.
Proof. split_and!; simpl; try lia; [done|]. repeat constructor; lia. Qed.

Lemma sample_globals_ok : globals_ok sample_globals.
Proof. exists demo_board. split; [exact demo_board_ok|exact demo_files_rep]. Qed.

Lemma sample_conf_ok : conf_ok sample_config.
Proof. split; [simpl; lia|]. by intros a. Qed.

Lemma sample_base_ok st f : base_ok (sample_session st f).
Proof.
  destruct sample_tables_ok as [H1 H2]. split.
  - exact sample_conf_ok.
  - exists sample_buffer, sample_buffer, []. split_and!; (reflexivity || apply sample_buffer_wf).
  - split; [exact H1|reflexivity].
  - by vm_compute.
  - exact H2.
  - by vm_compute.
  - exact sample_globals_ok.
Qed.

(** The same for a peer made for an incoming connection. *)
Definition sample_accepted : session := set_sflags (sample_session Established 9) 5.

Lemma sample_session_ok st f : st <> Deleted ->
  match st with OpenSent | OpenConfirm | Established => 0 <= f | Clearing => f < 0 | _ => True end ->
  session_ok (sample_session st f).
Proof. intros Hd Hf. split; [apply sample_base_ok|done| |exact Hf]. intros t. by simpl. Qed.

Lemma sample_up_ok : session_ok (sample_session Established 9).
Proof. by apply sample_session_ok. Qed.

Lemma sample_accepted_ok : session_ok sample_accepted.
Proof.
  apply (session_ok_frame (sample_session Established 9) sample_accepted sample_up_ok); try done.
  apply (base_ok_frame (sample_session Established 9)); try done; apply sample_base_ok.
Qed.

Lemma sample_no_clients s : tables s = sample_tables ->
  forall c af, tables s (TClient c af) = None.
Proof. by intros -> c [a b]. Qed.

Section Sample.
Existing Instance demo_layout.

(** ** The theorems at this session *)

Lemma clear_route_all_spec_witness :
  exists s', bgp_clear_route_all (sample_session Established 9) = Ret s'
    /\ the_queue s' = ClearQueue [ClearItem (TMain (2, 1)) 1 BGP_CLEAR_ROUTE_NORMAL] true
    /\ events s' = replicate 4 Clearing_Completed /\ lock s' = 3.
Proof.
  destruct (clear_route_all_spec (sample_session Established 9) sample_clear_ok ltac:(by vm_compute))
    as (s' & E & Q & _ & _ & Ev & L & _).
  exists s'. split; [exact E|]. split; [rewrite Q; reflexivity|].
  split; [rewrite Ev; reflexivity|rewrite L; reflexivity].
Defined.

Lemma sample_one_path st f t T n :
  tables (sample_session st f) t = Some T -> n ∈ tbl_nodes T -> one_path 7 (rn_info n).
Proof.
  intros HT Hn. simpl in HT.
  assert (n = sample_node) as ->; [|by vm_compute; lia].
  destruct t as [[a b]|? ?|? ?]; try done. simpl in HT.
  destruct a as [|[p|[]|]|], b as [|[]|]; injection HT as <-; simpl in Hn;
    first [by apply elem_of_nil in Hn | by apply list_elem_of_singleton in Hn].
Qed.


Definition sample_mem : list Z := replicate 4096 0.

Definition sample_new : session :=
  match peer_create 77 5 sample_config sample_mem sample_tables sample_globals with
  | Ret s => s | _ => sample_session Idle (-1) end.

Lemma session_invariant_witness :
  let s := BGP_EVENT_ADD sample_new TCP_fatal_error in
  status s <> Deleted /\ timers_ok s /\ globals_ok (shared s)
  /\ forall e, exists ret s', bgp_event sample_inputs s e = Ret (ret, s').
Proof.
  destruct (session_invariant demo_padded 77 5 sample_config sample_mem sample_tables
              sample_globals sample_new (BGP_EVENT_ADD sample_new TCP_fatal_error))
    as (T & _ & S & _ & _ & G & _ & E).
  - vm_compute. reflexivity.
  - exact sample_conf_ok.
  - apply Forall_replicate. by vm_compute.
  - exact sample_tables_ok.
  - exact sample_globals_ok.
  - apply rtc_once. apply step_queue.
  - split; [exact S|]. split; [exact T|]. split; [exact G|exact (E sample_inputs)].
Defined.

(** A KEEPALIVE establishes the session; the expiry of the hold timer of an
    accepted connection deletes its peer. *)
Lemma session_transitions_witness :
  (exists ret s', bgp_event sample_inputs (sample_session OpenConfirm 9) Receive_KEEPALIVE_message
    = Ret (ret, s') /\ moves OpenConfirm F_establish Established (status s') ret)
  /\ exists s', bgp_event sample_inputs sample_accepted Hold_Timer_expired = Ret (-1, s')
       /\ shut s'.
Proof.
  split.
  - destruct (session_transitions demo_padded sample_inputs (sample_session OpenConfirm 9)
                Receive_KEEPALIVE_message) as (f & n & ret & s' & Ef & E & M & _).
    + apply sample_session_ok; done.
    + intros H. discriminate H.
    + exists ret, s'. split; [exact E|]. assert (f = F_establish /\ n = Established) as [-> ->]
        by (clear -Ef; vm_compute in Ef; injection Ef as <- <-; split; reflexivity).
      exact M.
  - destruct (session_transitions demo_padded sample_inputs sample_accepted Hold_Timer_expired)
      as (f & n & ret & s' & Ef & E & M & _).
    + exact sample_accepted_ok.
    + intros _. split; [reflexivity|]. intros af. by apply sample_no_clients.
    + assert (f = F_holdtime_expire) as -> by (clear -Ef; vm_compute in Ef; injection Ef as <- <-; reflexivity).
      destruct M as [-> M]. exists s'. split; [exact E|exact M].
Defined.

Lemma established_stop_witness :
  exists s', bgp_event sample_inputs (sample_session Established 9) TCP_connection_closed = Ret (0, s')
    /\ status s' = Clearing /\ fd s' < 0
    /\ cq_items (the_queue s') = [ClearItem (TMain (2, 1)) 1 BGP_CLEAR_ROUTE_NORMAL].
Proof.
  destruct (established_stop sample_inputs (sample_session Established 9) TCP_connection_closed
              sample_up_ok eq_refl eq_refl) as (s' & E & S & F & _ & _ & _ & _ & _ & Q).
  exists s'. split; [exact E|]. split; [exact S|]. split; [exact F|]. rewrite Q. reflexivity.
Defined.

Lemma clearing_left_early_witness :
  exists s1 r s2, bgp_event sample_inputs (sample_session Established 9) TCP_connection_closed = Ret (0, s1)
    /\ events s1 = Clearing_Completed :: r
    /\ bgp_event sample_inputs (set_events s1 r) Clearing_Completed = Ret (0, s2)
    /\ status s2 = Idle /\ cq_items (the_queue s2) <> [].
Proof.
  destruct (clearing_left_early sample_inputs (sample_session Established 9) TCP_connection_closed
              sample_up_ok eq_refl eq_refl eq_refl eq_refl ltac:(by vm_compute))
    as (s1 & r & s2 & E1 & _ & Ev & E2 & S2 & Q).
  exists s1, r, s2. split; [exact E1|]. split; [exact Ev|]. split; [exact E2|].
  split; [exact S2|exact Q].
Defined.

Lemma family_clear_idles_session_witness :
  exists s1 s2, bgp_clear_route (sample_session Established 9) (1, 1) BGP_CLEAR_ROUTE_NORMAL = Ret s1
    /\ bgp_event sample_inputs (set_events s1 []) Clearing_Completed = Ret (0, s2)
    /\ status s2 = Idle /\ 0 <= fd s2 /\ t_read s2 = true.
Proof.
  destruct (family_clear_idles_session sample_inputs (sample_session Established 9) (1, 1)
              sample_up_ok eq_refl eq_refl eq_refl eq_refl)
    as (s1 & s2 & E1 & _ & _ & E2 & S2 & F2 & R2).
  exists s1, s2. split; [exact E1|]. split; [exact E2|]. split; [exact S2|].
  split; [exact F2|exact R2].
Defined.

Lemma start_delay_bounds_witness :
  exists d, timers (bgp_timer_set 1234 (sample_session Idle (-1))) t_start = Some d /\ 3 <= d <= 180.
Proof.
  destruct (start_delay_bounds 1234 (sample_session Idle (-1))) as (d & E & _ & B).
  - by vm_compute.
  - reflexivity.
  - reflexivity.
  - reflexivity.
  - reflexivity.
  - lia.
  - exists d. split; [exact E|exact B].
Defined.

Lemma peer_delete_shuts_witness :
  exists s', peer_delete sample_inputs (sample_session Established 9) = Ret s' /\ shut s'.
Proof.
  destruct (peer_delete_shuts sample_inputs (sample_session Established 9) sample_up_ok
              ltac:(by vm_compute) ltac:(by intros [a b])) as (s' & E & S & _).
  exists s'. split; [exact E|exact S].
Defined.
End Sample.
