(* ===== verification/Linklist.v ===== *)
(** * lib/linklist.c: the generic doubly linked list

    Nodes live on a heap; a list header keeps its first and last node and a
    count.  The data of a node is a pointer, compared and never followed here;
    0 is NULL.  Touching a node that is not allocated is a [Fault].  Each list
    that is well formed stands for the sequence of its data, and every operation
    does to that sequence what its name says, except the pair of macros that
    detaches a node and attaches it again. *)
From stdpp Require Import base option list gmap fin_maps.
From Stdlib Require Import ZArith Lia.
From S2P Require Import Prelude.

Abbreviation addr := positive.

Record listnode := LNode { ln_next : option addr; ln_prev : option addr; ln_data : Z }.
Abbreviation lheap := (gmap addr listnode).

(** [struct list]; [count] is an [unsigned int]. *)
Record llist := LList { l_head : option addr; l_tail : option addr; l_count : Z }.

(** ** Reading and writing fields *)
Definition node_at (h : lheap) (p : addr) : res listnode :=
  match h !! p with Some n => Ret n | None => Fault end.
Definition put_next (h : lheap) (p : addr) (x : option addr) : res lheap :=
  n ← node_at h p; Ret (<[p := LNode x (ln_prev n) (ln_data n)]> h).
Definition put_prev (h : lheap) (p : addr) (x : option addr) : res lheap :=
  n ← node_at h p; Ret (<[p := LNode (ln_next n) x (ln_data n)]> h).

(** The same when the pointer may be NULL and is tested first. *)
Definition opt_put_next (h : lheap) (p x : option addr) : res lheap :=
  match p with Some p => put_next h p x | None => Ret h end.
Definition opt_put_prev (h : lheap) (p x : option addr) : res lheap :=
  match p with Some p => put_prev h p x | None => Ret h end.

Definition with_head (l : llist) (x : option addr) := LList x (l_tail l) (l_count l).
Definition with_tail (l : llist) (x : option addr) := LList (l_head l) x (l_count l).
Definition more (l : llist) : llist := LList (l_head l) (l_tail l) (u32 (l_count l + 1)).
Definition less (l : llist) : llist := LList (l_head l) (l_tail l) (u32 (l_count l - 1)).

(** ** Operations *)

Definition list_new : llist := LList None None 0.

Definition listnode_add (h : lheap) (l : llist) (val : Z) : res (lheap * llist) :=
  _ ← cassert (negb (val =? 0));
  let n := fresh (dom h) in
  let h := <[n := LNode None (l_tail l) val]> h in
  match l_head l with
  | None => Ret (h, more (with_tail (with_head l (Some n)) (Some n)))
  | Some _ =>
      match l_tail l with
      | Some t => h ← put_next h t (Some n); Ret (h, more (with_tail l (Some n)))
      | None => Fault
      end
  end.

(** The loop of [listnode_add_sort]: the first node whose data is greater. *)
Fixpoint sort_place (fuel : nat) (cmp : Z -> Z -> Z) (h : lheap) (val : Z) (n : option addr)
    : res (option addr) :=
  match n with
  | None => Ret None
  | Some p =>
      match fuel with
      | O => Fault
      | S fuel =>
          x ← node_at h p;
          if cmp val (ln_data x) <? 0 then Ret (Some p)
          else sort_place fuel cmp h val (ln_next x)
      end
  end.

Definition listnode_add_sort (cmp : option (Z -> Z -> Z)) (h : lheap) (l : llist) (val : Z)
    : res (lheap * llist) :=
  _ ← cassert (negb (val =? 0));
  let new := fresh (dom h) in
  place ← match cmp with
          | Some f => sort_place (base.size h) f h val (l_head l)
          | None => Ret None
          end;
  match place with
  | Some n =>
      x ← node_at h n;
      let h := <[new := LNode (Some n) (ln_prev x) val]> h in
      h ← opt_put_next h (ln_prev x) (Some new);
      let l := match ln_prev x with Some _ => l | None => with_head l (Some new) end in
      h ← put_prev h n (Some new);
      Ret (h, more l)
  | None =>
      let h := <[new := LNode None (l_tail l) val]> h in
      h ← opt_put_next h (l_tail l) (Some new);
      let l := match l_tail l with Some _ => l | None => with_head l (Some new) end in
      Ret (h, more (with_tail l (Some new)))
  end.

Definition listnode_add_after (h : lheap) (l : llist) (pp : option addr) (val : Z)
    : res (lheap * llist) :=
  _ ← cassert (negb (val =? 0));
  let nn := fresh (dom h) in
  match pp with
  | None =>
      h ← opt_put_prev h (l_head l) (Some nn);
      let l' := match l_head l with Some _ => l | None => with_tail l (Some nn) end in
      Ret (<[nn := LNode (l_head l) None val]> h, more (with_head l' (Some nn)))
  | Some p =>
      x ← node_at h p;
      h ← opt_put_prev h (ln_next x) (Some nn);
      let l := match ln_next x with Some _ => l | None => with_tail l (Some nn) end in
      let h := <[nn := LNode (ln_next x) (Some p) val]> h in
      h ← put_next h p (Some nn);
      Ret (h, more l)
  end.

(** [LISTNODE_DETACH]: the node keeps its own pointers. *)
Definition LISTNODE_DETACH (h : lheap) (l : llist) (n : addr) : res (lheap * llist) :=
  x ← node_at h n;
  h ← opt_put_next h (ln_prev x) (ln_next x);
  let l := match ln_prev x with Some _ => l | None => with_head l (ln_next x) end in
  h ← opt_put_prev h (ln_next x) (ln_prev x);
  let l := match ln_next x with Some _ => l | None => with_tail l (ln_prev x) end in
  Ret (h, less l).

(** [LISTNODE_ATTACH]: only the [prev] of the node is written. *)
Definition LISTNODE_ATTACH (h : lheap) (l : llist) (n : addr) : res (lheap * llist) :=
  h ← put_prev h n (l_tail l);
  match l_head l with
  | None => Ret (h, more (with_tail (with_head l (Some n)) (Some n)))
  | Some _ =>
      match l_tail l with
      | Some t => h ← put_next h t (Some n); Ret (h, more (with_tail l (Some n)))
      | None => Fault
      end
  end.

(** [list_delete_node] unlinks the same way and frees the node. *)
Definition list_delete_node (h : lheap) (l : llist) (n : addr) : res (lheap * llist) :=
  '(h, l) ← LISTNODE_DETACH h l n;
  match h !! n with Some _ => Ret (delete n h, l) | None => Fault end.

(** The loop of [listnode_delete]: the first node with this data. *)
Fixpoint lookup_from (fuel : nat) (h : lheap) (val : Z) (n : option addr) : res (option addr) :=
  match n with
  | None => Ret None
  | Some p =>
      match fuel with
      | O => Fault
      | S fuel =>
          x ← node_at h p;
          if ln_data x =? val then Ret (Some p) else lookup_from fuel h val (ln_next x)
      end
  end.

(** [listnode_lookup] reads the data through [listgetdata], which asserts that
    it is not NULL. *)
Fixpoint getdata_from (fuel : nat) (h : lheap) (val : Z) (n : option addr)
    : res (option addr) :=
  match n with
  | None => Ret None
  | Some p =>
      match fuel with
      | O => Fault
      | S fuel =>
          x ← node_at h p;
          _ ← cassert (negb (ln_data x =? 0));
          if ln_data x =? val then Ret (Some p) else getdata_from fuel h val (ln_next x)
      end
  end.

Definition listnode_lookup (h : lheap) (l : llist) (val : Z) : res (option addr) :=
  getdata_from (base.size h) h val (l_head l).

Definition listnode_delete (h : lheap) (l : llist) (val : Z) : res (lheap * llist) :=
  o ← lookup_from (base.size h) h val (l_head l);
  match o with Some n => list_delete_node h l n | None => Ret (h, l) end.

Definition listnode_head (h : lheap) (l : llist) : res Z :=
  match l_head l with Some n => x ← node_at h n; Ret (ln_data x) | None => Ret 0 end.

Definition list_add_node_prev (h : lheap) (l : llist) (current : addr) (val : Z)
    : res (lheap * llist) :=
  _ ← cassert (negb (val =? 0));
  let n := fresh (dom h) in
  c ← node_at h current;
  h ← opt_put_next h (ln_prev c) (Some n);
  let l := match ln_prev c with Some _ => l | None => with_head l (Some n) end in
  let h := <[n := LNode (Some current) (ln_prev c) val]> h in
  h ← put_prev h current (Some n);
  Ret (h, more l).

Definition list_add_node_next (h : lheap) (l : llist) (current : addr) (val : Z)
    : res (lheap * llist) :=
  _ ← cassert (negb (val =? 0));
  let n := fresh (dom h) in
  c ← node_at h current;
  h ← opt_put_prev h (ln_next c) (Some n);
  let l := match ln_next c with Some _ => l | None => with_tail l (Some n) end in
  let h := <[n := LNode (ln_next c) (Some current) val]> h in
  h ← put_next h current (Some n);
  Ret (h, more l).

(** The loop of [list_delete_all_node]: every node's data is handed to the
    list's [del] function, then the node is freed. *)
Fixpoint free_nodes (fuel : nat) (h : lheap) (n : option addr) : res (list Z * lheap) :=
  match n with
  | None => Ret ([], h)
  | Some p =>
      match fuel with
      | O => Fault
      | S fuel =>
          x ← node_at h p;
          '(ds, h) ← free_nodes fuel (delete p h) (ln_next x);
          Ret (ln_data x :: ds, h)
      end
  end.

Definition list_delete_all_node (h : lheap) (l : llist) : res (list Z * lheap * llist) :=
  '(ds, h) ← free_nodes (base.size h) h (l_head l);
  Ret (ds, h, LList None None 0).

(** [list_add_list]: append the data of [m] to [l], two different lists. *)
Fixpoint add_from (fuel : nat) (h : lheap) (l : llist) (n : option addr) : res (lheap * llist) :=
  match n with
  | None => Ret (h, l)
  | Some p =>
      match fuel with
      | O => Fault
      | S fuel =>
          x ← node_at h p;
          '(h, l) ← listnode_add h l (ln_data x);
          x ← node_at h p;
          add_from fuel h l (ln_next x)
      end
  end.

Definition list_add_list (h : lheap) (l m : llist) : res (lheap * llist) :=
  add_from (base.size h) h l (l_head m).

(** workqueue.c: put an item back at the end of its queue. *)
Definition work_queue_item_requeue (h : lheap) (l : llist) (n : addr) : res (lheap * llist) :=
  '(h, l) ← LISTNODE_DETACH h l n;
  LISTNODE_ATTACH h l n.
