(* ===== verification/LinklistSpec.v ===== *)
(** * Linked lists refine sequences

    [rep h l ns] says that the header [l] and the heap [h] hold a well-formed
    list whose nodes, with their data, are [ns] in order.  Every operation of
    lib/linklist.c is then a function on [ns] ([after_op]), touches no node of
    another list, and never faults.  The sorted insertion keeps a list sorted.
    Detaching and attaching again a node that is not the last one, as
    [work_queue_item_requeue] does, leaves a list whose traversal never ends. *)
From stdpp Require Import base option list gmap fin_maps sorting.
From Stdlib Require Import ZArith Lia.
From S2P Require Import Prelude Linklist.

(** ** Segments *)
Definition first_of (ns : list (addr * Z)) (nxt : option addr) : option addr :=
  match ns with [] => nxt | x :: _ => Some x.1 end.

Fixpoint last_of (prv : option addr) (ns : list (addr * Z)) : option addr :=
  match ns with [] => prv | x :: r => last_of (Some x.1) r end.

Fixpoint dseg (h : lheap) (prv : option addr) (ns : list (addr * Z)) (nxt : option addr) : Prop :=
  match ns with
  | [] => True
  | x :: r => h !! x.1 = Some (LNode (first_of r nxt) prv x.2) /\ dseg h (Some x.1) r nxt
  end.

Definition rep (h : lheap) (l : llist) (ns : list (addr * Z)) : Prop :=
  NoDup ns.*1 /\ dseg h None ns None /\
  l = LList (first_of ns None) (last_of None ns) (u32 (zlen ns)).

(** Nothing outside [A] changed. *)
Definition only (A : list addr) (h h' : lheap) : Prop := forall b, b ∉ A -> h' !! b = h !! b.

Lemma first_of_app xs ys n : first_of (xs ++ ys) n = first_of xs (first_of ys n).
Proof. by destruct xs. Qed.

Lemma last_of_app p xs ys : last_of p (xs ++ ys) = last_of (last_of p xs) ys.
Proof. revert p. induction xs; simpl; auto. Qed.

Lemma last_of_cons_ne p xs x : last_of p (x :: xs) = last_of None (x :: xs).
Proof. done. Qed.

Lemma dseg_app h p xs ys n :
  dseg h p (xs ++ ys) n <-> dseg h p xs (first_of ys n) /\ dseg h (last_of p xs) ys n.
Proof.
  revert p. induction xs as [|x xs IH]; intros p; simpl; [tauto|].
  rewrite IH, first_of_app. tauto.
Qed.

Lemma dseg_frame h h' p xs n :
  (forall a, a ∈ xs.*1 -> h' !! a = h !! a) -> dseg h p xs n -> dseg h' p xs n.
Proof.
  revert p. induction xs as [|x xs IH]; intros p E; simpl; [done|]. intros [Hx Hr].
  split; [by rewrite E by (simpl; left)|].
  apply IH; [|done]. intros a Ha. apply E. simpl. by right.
Qed.

Lemma dseg_dom h p xs n a : dseg h p xs n -> a ∈ xs.*1 -> is_Some (h !! a).
Proof.
  revert p. induction xs as [|x xs IH]; intros p; simpl; [by intros _ ?%elem_of_nil|].
  intros [Hx Hr] [->|Ha]%elem_of_cons; eauto.
Qed.

Lemma dseg_size h p xs n : NoDup xs.*1 -> dseg h p xs n -> (length xs <= base.size h)%nat.
Proof.
  intros ND D. rewrite <- size_dom, <- (length_fmap fst xs).
  rewrite <- (size_list_to_set (C := gset addr)) by done. apply subseteq_size.
  intros a Ha%elem_of_list_to_set. apply elem_of_dom. eauto using dseg_dom.
Qed.

(** ** Writing at the ends of a segment *)
Lemma put_next_last h p xs n v :
  NoDup xs.*1 -> dseg h p xs n ->
  exists h', opt_put_next h (last_of None xs) v = Ret h' /\ dseg h' p xs v /\ only xs.*1 h h'.
Proof.
  destruct xs as [|x xs _] using rev_ind; [simpl; intros; by exists h|].
  rewrite fmap_app, NoDup_app, last_of_app, dseg_app. simpl. intros (ND & Hd & _) [Dx [Hx _]].
  assert (x.1 ∉ xs.*1) as Hn by (intros ?%Hd; set_solver).
  eexists. unfold put_next, node_at. rewrite Hx. cbn [mbind res_bind].
  split; [reflexivity|]. rewrite dseg_app. split.
  - simpl. rewrite lookup_insert_eq. repeat split.
    eapply dseg_frame; [|exact Dx]. intros a Ha. rewrite lookup_insert_ne; [done|]. by intros <-.
  - intros b Hb. rewrite lookup_insert_ne; [done|]. intros <-. apply Hb. set_solver.
Qed.

Lemma put_prev_first h p ys n v :
  NoDup ys.*1 -> dseg h p ys n ->
  exists h', opt_put_prev h (first_of ys None) v = Ret h' /\ dseg h' v ys n /\ only ys.*1 h h'.
Proof.
  destruct ys as [|y ys]; simpl; [intros; by exists h|].
  intros [Hy ND]%NoDup_cons [Hx D]. eexists. unfold put_prev, node_at. rewrite Hx.
  cbn [mbind res_bind]. split; [reflexivity|]. split; [split|].
  - by rewrite lookup_insert_eq.
  - eapply dseg_frame; [|exact D]. intros a Ha. rewrite lookup_insert_ne; [done|]. by intros <-.
  - intros b Hb. rewrite lookup_insert_ne; [done|]. intros <-. apply Hb. by left.
Qed.

(** The two tests of a node's neighbours, in terms of the list header. *)
Lemma tail_test {A} (xs : list (addr * Z)) (a b : A) :
  match last_of None xs with Some _ => a | None => b end = match xs with [] => b | _ => a end.
Proof.
  destruct xs as [|x xs]; [done|]. simpl. revert x.
  induction xs as [|y xs IH]; intros x; simpl; auto.
Qed.

Lemma head_test {A} (ys : list (addr * Z)) (a b : A) :
  match first_of ys None with Some _ => a | None => b end = match ys with [] => b | _ => a end.
Proof. by destruct ys. Qed.

(** ** Linking a new node in *)
Definition linked (h h' : lheap) (xs ys : list (addr * Z)) (n : addr) (v : Z) : Prop :=
  dseg h' None xs (Some n) /\ h' !! n = Some (LNode (first_of ys None) (last_of None xs) v) /\
  dseg h' (Some n) ys None /\ only (n :: (xs ++ ys).*1) h h'.

Lemma only_insert n x A h : only (n :: A) h (<[n := x]> h).
Proof. intros b Hb. rewrite lookup_insert_ne; [done|]. intros <-. apply Hb. by left. Qed.

Lemma only_weaken A B h h' : A ⊆ B -> only A h h' -> only B h h'.
Proof. intros S O b Hb. apply O. auto. Qed.

Lemma only_trans A h1 h2 h3 : only A h1 h2 -> only A h2 h3 -> only A h1 h3.
Proof. intros O1 O2 b Hb. rewrite O2 by done. auto. Qed.

Lemma dseg_only h h' A p xs n :
  only A h h' -> (forall a, a ∈ xs.*1 -> a ∉ A) -> dseg h p xs n -> dseg h' p xs n.
Proof. intros O D. apply dseg_frame. auto. Qed.

Section Link.
Context (h : lheap) (xs ys : list (addr * Z)) (n : addr) (v : Z).
Context (ND : NoDup (xs ++ ys).*1) (Hn : n ∉ (xs ++ ys).*1).
Context (D : dseg h None (xs ++ ys) None).

Lemma link_facts :
  NoDup xs.*1 /\ NoDup ys.*1 /\ n ∉ xs.*1 /\ n ∉ ys.*1 /\
  (forall a, a ∈ xs.*1 -> a ∉ ys.*1) /\ (forall a, a ∈ ys.*1 -> a ∉ xs.*1) /\
  dseg h None xs (first_of ys None) /\ dseg h (last_of None xs) ys None.
Proof.
  rewrite fmap_app, NoDup_app in ND. rewrite fmap_app, elem_of_app in Hn.
  apply dseg_app in D. destruct ND as (? & Hd & ?), D as [? ?].
  repeat split; auto; intros a Ha Hb; eapply Hd; eauto.
Qed.

Let new := LNode (first_of ys None) (last_of None xs) v.
Let A := n :: (xs ++ ys).*1.

Lemma only_xs h1 h2 : only xs.*1 h1 h2 -> only A h1 h2.
Proof. apply only_weaken. unfold A. rewrite fmap_app. set_solver. Qed.

Lemma only_ys h1 h2 : only ys.*1 h1 h2 -> only A h1 h2.
Proof. apply only_weaken. unfold A. rewrite fmap_app. set_solver. Qed.

Lemma insert_off p zs m h1 : n ∉ zs.*1 -> dseg h1 p zs m -> dseg (<[n := new]> h1) p zs m.
Proof.
  intros Hz. apply dseg_frame. intros a Ha. rewrite lookup_insert_ne; [done|]. by intros <-.
Qed.

Lemma link_nip :
  exists h', (h1 ← opt_put_next h (last_of None xs) (Some n);
              opt_put_prev (<[n := new]> h1) (first_of ys None) (Some n)) = Ret h' /\
             linked h h' xs ys n v.
Proof.
  destruct link_facts as (NX & NY & nX & nY & XY & YX & DX & DY).
  destruct (put_next_last h None xs _ (Some n) NX DX) as (h1 & -> & D1 & O1).
  cbn [mbind res_bind].
  assert (dseg h1 (last_of None xs) ys None) as D1y by (eapply dseg_only; eauto).
  destruct (put_prev_first _ _ ys None (Some n) NY (insert_off _ _ _ _ nY D1y))
    as (h2 & -> & D2 & O2).
  exists h2. split; [done|]. split_and!; auto.
  - eapply dseg_only; [exact O2|auto|]. by apply insert_off.
  - rewrite O2 by done. apply lookup_insert_eq.
  - eapply only_trans; [apply only_xs, O1|]. eapply only_trans; [apply only_insert|].
    by apply only_ys.
Qed.

Lemma link_inp :
  exists h', (h1 ← opt_put_next (<[n := new]> h) (last_of None xs) (Some n);
              opt_put_prev h1 (first_of ys None) (Some n)) = Ret h' /\
             linked h h' xs ys n v.
Proof.
  destruct link_facts as (NX & NY & nX & nY & XY & YX & DX & DY).
  destruct (put_next_last _ None xs _ (Some n) NX (insert_off _ _ _ _ nX DX)) as (h1 & -> & D1 & O1).
  cbn [mbind res_bind].
  assert (dseg h1 (last_of None xs) ys None) as D1y
    by (eapply dseg_only; [exact O1|auto|by apply insert_off]).
  destruct (put_prev_first _ _ ys None (Some n) NY D1y) as (h2 & -> & D2 & O2).
  exists h2. split; [done|]. split_and!; auto.
  - eapply dseg_only; eauto.
  - rewrite O2, O1 by done. apply lookup_insert_eq.
  - eapply only_trans; [apply only_insert|]. eapply only_trans; [apply only_xs, O1|].
    by apply only_ys.
Qed.

Lemma link_pin :
  exists h', (h1 ← opt_put_prev h (first_of ys None) (Some n);
              opt_put_next (<[n := new]> h1) (last_of None xs) (Some n)) = Ret h' /\
             linked h h' xs ys n v.
Proof.
  destruct link_facts as (NX & NY & nX & nY & XY & YX & DX & DY).
  destruct (put_prev_first h _ ys None (Some n) NY DY) as (h1 & -> & D1 & O1).
  cbn [mbind res_bind].
  assert (dseg h1 None xs (first_of ys None)) as D1x by (eapply dseg_only; eauto).
  destruct (put_next_last _ None xs _ (Some n) NX (insert_off _ _ _ _ nX D1x))
    as (h2 & -> & D2 & O2).
  exists h2. split; [done|]. split_and!; auto.
  - rewrite O2 by done. apply lookup_insert_eq.
  - eapply dseg_only; [exact O2|auto|]. by apply insert_off.
  - eapply only_trans; [apply only_ys, O1|]. eapply only_trans; [apply only_insert|].
    by apply only_xs.
Qed.

Lemma linked_rep h' :
  linked h h' xs ys n v ->
  rep h' (LList (first_of xs (Some n)) (last_of (Some n) ys) (u32 (u32 (zlen (xs ++ ys)) + 1)))
    (xs ++ (n, v) :: ys).
Proof.
  intros (DX & E & DY & _). split; [|split].
  - rewrite fmap_app in *. simpl. rewrite <- Permutation_middle. by constructor.
  - rewrite dseg_app. simpl. by rewrite E.
  - rewrite first_of_app, last_of_app. simpl. f_equal.
    unfold u32, zlen. rewrite Zplus_mod_idemp_l. f_equal. rewrite !length_app. simpl. lia.
Qed.
End Link.

(** ** Each insertion puts one node at its place *)
Definition new_in (h : lheap) (xs ys : list (addr * Z)) (v : Z) (r : res (lheap * llist)) : Prop :=
  exists h' l', r = Ret (h', l') /\ rep h' l' (xs ++ (fresh (dom h), v) :: ys) /\
    only (fresh (dom h) :: (xs ++ ys).*1) h h'.

Lemma fresh_off h l ns : rep h l ns -> fresh (dom h) ∉ ns.*1.
Proof.
  intros (_ & D & _) Hin. apply (is_fresh (dom h)), elem_of_dom. eauto using dseg_dom.
Qed.

Lemma last_some p x xs : exists t, last_of p (x :: xs) = Some t.
Proof. revert x. induction xs as [|y xs IH]; intros x; simpl; [eauto|]. apply IH. Qed.

Lemma nonnull v : v <> 0 -> cassert (negb (v =? 0)) = Ret tt.
Proof. intros Hv. by rewrite (proj2 (Z.eqb_neq v 0) Hv). Qed.

(** Finish an insertion from the heap that [linked] describes. *)
Lemma linked_new_in h l xs ys v h' :
  rep h l (xs ++ ys) -> linked h h' xs ys (fresh (dom h)) v ->
  new_in h xs ys v (Ret (h', LList (first_of xs (Some (fresh (dom h))))
    (last_of (Some (fresh (dom h))) ys) (u32 (l_count l + 1)))).
Proof.
  intros R L. pose proof (fresh_off _ _ _ R) as F. destruct R as (ND & D & ->).
  eexists _, _. split; [done|]. split; [by eapply linked_rep|]. by destruct L as (_ & _ & _ & O).
Qed.

Lemma listnode_add_ok h l ns v :
  rep h l ns -> v <> 0 -> new_in h ns [] v (listnode_add h l v).
Proof.
  intros R Hv. unfold listnode_add. rewrite nonnull by done. cbn [mbind res_bind].
  pose proof (fresh_off _ _ _ R) as F. pose proof R as (ND & D & El).
  rewrite <- (app_nil_r ns) in ND, F, D, R.
  destruct (link_inp h ns [] _ v ND F D) as (h' & E & L).
  pose proof (linked_new_in _ _ _ _ _ _ R L) as G. subst l. simpl in *.
  destruct ns as [|x xs]; [simpl in *; injection E as ->; exact G|].
  destruct (last_some None x xs) as [t Ht]. rewrite Ht in *. simpl in *.
  destruct (put_next _ t _) as [h1| |]; cbn [mbind res_bind] in *; simplify_eq. exact G.
Qed.

Lemma add_before_ok h l xs y ys v :
  rep h l (xs ++ y :: ys) -> v <> 0 ->
  new_in h xs (y :: ys) v (list_add_node_prev h l y.1 v).
Proof.
  intros R Hv. unfold list_add_node_prev. rewrite nonnull by done. cbn [mbind res_bind].
  pose proof (fresh_off _ _ _ R) as F. pose proof R as (ND & D & El).
  destruct (link_nip h xs (y :: ys) _ v ND F D) as (h' & E & L).
  pose proof (linked_new_in _ _ _ _ _ _ R L) as G.
  apply dseg_app in D as [_ [Hy _]]. unfold node_at at 1. rewrite Hy. cbn [mbind res_bind ln_prev].
  destruct (opt_put_next h _ _) as [h1| |] eqn:E1; cbn [mbind res_bind] in *; try discriminate.
  simpl in E. rewrite E. cbn [mbind res_bind].
  replace (more _) with (LList (first_of xs (Some (fresh (dom h))))
    (last_of (Some (fresh (dom h))) (y :: ys)) (u32 (l_count l + 1))); [exact G|].
  rewrite tail_test. subst l. destruct xs; unfold more, with_head; simpl; f_equal.
  by rewrite last_of_app.
Qed.

Lemma add_behind_ok h l xs x ys v :
  rep h l ((xs ++ [x]) ++ ys) -> v <> 0 ->
  new_in h (xs ++ [x]) ys v (list_add_node_next h l x.1 v).
Proof.
  intros R Hv. unfold list_add_node_next. rewrite nonnull by done. cbn [mbind res_bind].
  pose proof (fresh_off _ _ _ R) as F. pose proof R as (ND & D & El).
  destruct (link_pin h (xs ++ [x]) ys _ v ND F D) as (h' & E & L).
  pose proof (linked_new_in _ _ _ _ _ _ R L) as G.
  apply dseg_app in D as [[_ [Hx _]]%dseg_app _]. unfold node_at at 1. rewrite Hx.
  simpl first_of. cbn [mbind res_bind ln_next].
  destruct (opt_put_prev h _ _) as [h1| |] eqn:E1; cbn [mbind res_bind] in *; try discriminate.
  rewrite last_of_app in E. simpl in E. rewrite E. cbn [mbind res_bind].
  replace (more _) with (LList (first_of (xs ++ [x]) (Some (fresh (dom h))))
    (last_of (Some (fresh (dom h))) ys) (u32 (l_count l + 1))); [exact G|].
  rewrite head_test. subst l. destruct ys; unfold more, with_tail; simpl.
  - f_equal. by rewrite app_nil_r, !first_of_app.
  - f_equal; [by rewrite !first_of_app|]. by rewrite last_of_app.
Qed.

(** [listnode_add_after] with a node is the same insertion. *)
Lemma add_after_same h l p v : listnode_add_after h l (Some p) v = list_add_node_next h l p v.
Proof. done. Qed.

Lemma add_front_ok h l ns v :
  rep h l ns -> v <> 0 -> new_in h [] ns v (listnode_add_after h l None v).
Proof.
  intros R Hv. unfold listnode_add_after. rewrite nonnull by done. cbn [mbind res_bind].
  pose proof (fresh_off _ _ _ R) as F. pose proof R as (ND & D & El).
  destruct (link_pin h [] ns _ v ND F D) as (h' & E & L).
  pose proof (linked_new_in _ _ [] ns _ _ R L) as G. subst l. simpl in *.
  destruct (opt_put_prev h _ _) as [h1| |] eqn:E1; cbn [mbind res_bind] in *; try discriminate.
  rewrite head_test. destruct ns; simpl in *; simplify_eq; exact G.
Qed.

(** ** Sorted insertion *)
Definition before (cmp : Z -> Z -> Z) (v : Z) (x : addr * Z) : Prop := 0 <= cmp v x.2.

Lemma sort_place_ok cmp h v p ns nxt fuel :
  dseg h p ns nxt -> nxt = None -> (length ns <= fuel)%nat ->
  exists xs ys, ns = xs ++ ys /\ Forall (before cmp v) xs /\
    match ys with y :: _ => cmp v y.2 < 0 | [] => True end /\
    sort_place fuel cmp h v (first_of ns None) = Ret (first_of ys None).
Proof.
  revert p fuel. induction ns as [|x ns IH]; intros p fuel D -> Hf.
  - exists [], []. by destruct fuel.
  - destruct fuel as [|fuel]; [simpl in Hf; lia|]. destruct D as [Hx D]. simpl.
    unfold node_at. rewrite Hx. cbn [mbind res_bind ln_data ln_next].
    destruct (_ <? 0) eqn:E; zify_bool.
    + exists [], (x :: ns). by repeat split.
    + destruct (IH _ fuel D eq_refl) as (xs & ys & -> & Fx & Fy & ->); [simpl in Hf; lia|].
      exists (x :: xs), ys. repeat split; auto.
Qed.

(** The reference: put [x] before the first element greater than it. *)
Fixpoint add_sorted (cmp : Z -> Z -> Z) (x : addr * Z) (ns : list (addr * Z)) : list (addr * Z) :=
  match ns with
  | [] => [x]
  | y :: r => if cmp x.2 y.2 <? 0 then x :: y :: r else y :: add_sorted cmp x r
  end.

Lemma add_sorted_split cmp n v xs ys :
  Forall (before cmp v) xs -> match ys with y :: _ => cmp v y.2 < 0 | [] => True end ->
  add_sorted cmp (n, v) (xs ++ ys) = xs ++ (n, v) :: ys.
Proof.
  intros F Hy. induction F as [|x xs Hx F IH]; simpl.
  - destruct ys as [|y ys]; [done|]. simpl. by apply Z.ltb_lt in Hy as ->.
  - unfold before in Hx. apply Z.ltb_ge in Hx as ->. by rewrite IH.
Qed.

Lemma add_last_ok h l ns v :
  rep h l ns -> v <> 0 -> new_in h ns [] v (listnode_add_sort None h l v).
Proof.
  intros R Hv. unfold listnode_add_sort. rewrite nonnull by done. cbn [mbind res_bind].
  pose proof (fresh_off _ _ _ R) as F. pose proof R as (ND & D & El).
  rewrite <- (app_nil_r ns) in ND, F, D, R.
  destruct (link_inp h ns [] _ v ND F D) as (h' & E & L).
  pose proof (linked_new_in _ _ _ _ _ _ R L) as G. subst l. simpl in *.
  destruct (opt_put_next _ _ _) as [h1| |]; cbn [mbind res_bind] in *; simplify_eq.
  rewrite tail_test. destruct ns; exact G.
Qed.

Lemma add_sort_ok cmp h l ns v :
  rep h l ns -> v <> 0 ->
  exists xs ys, ns = xs ++ ys /\ add_sorted cmp (fresh (dom h), v) ns = xs ++ (fresh (dom h), v) :: ys /\
    new_in h xs ys v (listnode_add_sort (Some cmp) h l v).
Proof.
  intros R Hv. pose proof R as (ND & D & El).
  destruct (sort_place_ok cmp h v None ns None _ D eq_refl (dseg_size _ _ _ _ ND D))
    as (xs & ys & -> & Fx & Fy & E).
  exists xs, ys. split; [done|]. split; [by apply add_sorted_split|].
  destruct ys as [|y ys].
  { rewrite app_nil_r in *. pose proof (add_last_ok h l xs v R Hv) as G.
    unfold listnode_add_sort in *. rewrite El in *. cbn [l_head]. rewrite E. exact G. }
  assert (l_head l = first_of (xs ++ y :: ys) None) as Eh by (by rewrite El).
  unfold listnode_add_sort. rewrite nonnull, Eh by done. cbn [mbind res_bind]. rewrite E. cbn [mbind res_bind first_of].
  pose proof (fresh_off _ _ _ R) as F.
  destruct (link_inp h xs (y :: ys) _ v ND F D) as (h' & E' & L).
  pose proof (linked_new_in _ _ _ _ _ _ R L) as G.
  apply dseg_app in D as [_ [Hy _]]. unfold node_at. rewrite Hy. cbn [mbind res_bind ln_prev].
  cbn [first_of] in E'.
  destruct (opt_put_next _ _ _) as [h1| |] eqn:E1; cbn [mbind res_bind] in *; try discriminate.
  simpl in E'. rewrite E'. cbn [mbind res_bind].
  replace (more _) with (LList (first_of xs (Some (fresh (dom h))))
    (last_of (Some (fresh (dom h))) (y :: ys)) (u32 (l_count l + 1))); [exact G|].
  rewrite tail_test. subst l. destruct xs; unfold more, with_head; simpl; f_equal.
  by rewrite last_of_app.
Qed.

(** ** Taking a node out *)
Lemma detach_ok h l xs x ys :
  rep h l (xs ++ x :: ys) ->
  exists h' l', LISTNODE_DETACH h l x.1 = Ret (h', l') /\ rep h' l' (xs ++ ys) /\
    h' !! x.1 = h !! x.1 /\ only (xs ++ ys).*1 h h'.
Proof.
  intros (ND & D & El). apply dseg_app in D as [DX [Hx DY]].
  rewrite fmap_app in ND. simpl in ND. rewrite <- Permutation_middle in ND.
  apply NoDup_cons in ND as [Hn ND]. rewrite elem_of_app in Hn.
  pose proof ND as (NX & Hd & NY)%NoDup_app.
  unfold LISTNODE_DETACH, node_at. rewrite Hx. cbn [mbind res_bind ln_prev ln_next].
  destruct (put_next_last h None xs _ (first_of ys None) NX DX) as (h1 & -> & D1 & O1).
  assert (dseg h1 (Some x.1) ys None) as D1y
    by (eapply dseg_only; [exact O1| |exact DY]; intros a Ha Hb; exact (Hd a Hb Ha)).
  cbn [mbind res_bind].
  destruct (put_prev_first h1 _ ys None (last_of None xs) NY D1y) as (h2 & -> & D2 & O2).
  cbn [mbind res_bind]. eexists h2, _. split; [done|].
  assert (dseg h2 None xs (first_of ys None)) as D2x
    by (eapply dseg_only; [exact O2| |exact D1]; auto).
  split_and!; [split_and!| |].
  - by rewrite fmap_app.
  - by rewrite dseg_app.
  - rewrite tail_test, head_test, first_of_app, last_of_app. subst l.
    assert (u32 (u32 (zlen (xs ++ x :: ys)) - 1) = u32 (zlen (xs ++ ys))) as Ec.
    { unfold u32, zlen. rewrite Zminus_mod_idemp_l. f_equal. rewrite !length_app. simpl. lia. }
    destruct xs, ys; unfold less, with_head, with_tail; simpl; f_equal; try exact Ec;
      by rewrite ?last_of_app.
  - rewrite O2, O1 by tauto. done.
  - eapply only_trans; [eapply only_weaken, O1|eapply only_weaken, O2];
      rewrite fmap_app; set_solver.
Qed.

Lemma delete_node_ok h l xs x ys :
  rep h l (xs ++ x :: ys) ->
  exists h' l', list_delete_node h l x.1 = Ret (h', l') /\ rep h' l' (xs ++ ys) /\
    h' !! x.1 = None /\ only (x.1 :: (xs ++ ys).*1) h h'.
Proof.
  intros R. pose proof R as (ND & D & _). apply dseg_app in D as [_ [Hx _]].
  rewrite fmap_app in ND. simpl in ND. rewrite <- Permutation_middle, <- fmap_app in ND.
  apply NoDup_cons in ND as [Hn _].
  destruct (detach_ok h l xs x ys R) as (h' & l' & E & (ND' & D' & El') & Ex & O).
  unfold list_delete_node. rewrite E. cbn [mbind res_bind]. rewrite Ex, Hx.
  exists (delete x.1 h'), l'. split; [done|]. split_and!; [split_and!; [done| |done]| |].
  - eapply dseg_frame; [|exact D']. intros a Ha. apply lookup_delete_ne. by intros <-.
  - apply lookup_delete_eq.
  - intros b Hb. rewrite lookup_delete_ne by (intros <-; apply Hb; by left).
    apply O. intros Hb'. apply Hb. by right.
Qed.

(** ** Searching and freeing *)
Lemma lookup_from_ok h v p ns fuel :
  dseg h p ns None -> (length ns <= fuel)%nat ->
  (exists xs x ys, ns = xs ++ x :: ys /\ x.2 = v /\ v ∉ xs.*2 /\
     lookup_from fuel h v (first_of ns None) = Ret (Some x.1)) \/
  v ∉ ns.*2 /\ lookup_from fuel h v (first_of ns None) = Ret None.
Proof.
  revert p fuel. induction ns as [|x ns IH]; intros p fuel D Hf.
  - right. split; [set_solver|]. by destruct fuel.
  - destruct fuel as [|fuel]; [simpl in Hf; lia|]. destruct D as [Hx D]. simpl.
    unfold node_at. rewrite Hx. cbn [mbind res_bind ln_data ln_next].
    destruct (_ =? v) eqn:E; zify_bool.
    + left. exists [], x, ns. split_and!; try done. set_solver.
    + destruct (IH _ fuel D) as [(xs & y & ys & -> & Hy & Hv & ->)|[Hv ->]]; [simpl in Hf; lia| |].
      * left. exists (x :: xs), y, ys. split_and!; try done. set_solver.
      * right. split; [set_solver|done].
Qed.

Lemma getdata_lookup h v p ns fuel :
  dseg h p ns None -> Forall (fun x => x.2 <> 0) ns ->
  getdata_from fuel h v (first_of ns None) = lookup_from fuel h v (first_of ns None).
Proof.
  revert p fuel. induction ns as [|x ns IH]; intros p fuel D F; destruct fuel as [|fuel]; try done.
  destruct D as [Hx D]. inversion F as [|? ? H0 F']; subst. simpl.
  unfold node_at. rewrite Hx. cbn [mbind res_bind ln_data ln_next].
  rewrite nonnull by done. cbn [mbind res_bind]. by erewrite IH.
Qed.

Lemma listnode_lookup_ok h l ns v :
  rep h l ns -> Forall (fun x => x.2 <> 0) ns ->
  (exists xs x ys, ns = xs ++ x :: ys /\ x.2 = v /\ v ∉ xs.*2 /\
     listnode_lookup h l v = Ret (Some x.1)) \/
  v ∉ ns.*2 /\ listnode_lookup h l v = Ret None.
Proof.
  intros (ND & D & ->) F. unfold listnode_lookup. cbn [l_head].
  rewrite (getdata_lookup h v None ns _ D F).
  apply (lookup_from_ok h v None ns _ D). by eapply dseg_size.
Qed.

Lemma free_nodes_ok h p ns fuel :
  NoDup ns.*1 -> dseg h p ns None -> (length ns <= fuel)%nat ->
  exists h', free_nodes fuel h (first_of ns None) = Ret (ns.*2, h') /\
    (forall a, a ∈ ns.*1 -> h' !! a = None) /\ only ns.*1 h h'.
Proof.
  revert h p fuel. induction ns as [|x ns IH]; intros h p fuel ND D Hf.
  - exists h. destruct fuel; (split; [done|split; [by intros a ?%elem_of_nil|done]]).
  - destruct fuel as [|fuel]; [simpl in Hf; lia|]. destruct D as [Hx D].
    apply NoDup_cons in ND as [Hn ND]. simpl. unfold node_at. rewrite Hx.
    cbn [mbind res_bind ln_data ln_next].
    destruct (IH (delete x.1 h) (Some x.1) fuel) as (h' & -> & Hf' & O); [done| |simpl in Hf; lia|].
    { eapply dseg_frame; [|exact D]. intros a Ha. apply lookup_delete_ne. by intros <-. }
    exists h'. cbn [mbind res_bind]. split; [done|]. split.
    + intros a [->|Ha]%elem_of_cons; [|auto]. rewrite O by done. apply lookup_delete_eq.
    + intros b Hb. rewrite O by set_solver. apply lookup_delete_ne. set_solver.
Qed.

(** ** The abstract operations *)
Inductive lop :=
| Add (v : Z) | AddSort (cmp : option (Z -> Z -> Z)) (v : Z) | AddAfter (pp : option addr) (v : Z)
| AddPrev (current : addr) (v : Z) | AddNext (current : addr) (v : Z)
| DeleteNode (n : addr) | Delete (v : Z) | DeleteAll.

Definition run_op (op : lop) (h : lheap) (l : llist) : res (lheap * llist) :=
  match op with
  | Add v => listnode_add h l v
  | AddSort cmp v => listnode_add_sort cmp h l v
  | AddAfter pp v => listnode_add_after h l pp v
  | AddPrev c v => list_add_node_prev h l c v
  | AddNext c v => list_add_node_next h l c v
  | DeleteNode n => list_delete_node h l n
  | Delete v => listnode_delete h l v
  | DeleteAll => '(_, h, l) ← list_delete_all_node h l; Ret (h, l)
  end.

Fixpoint add_before (a : addr) (x : addr * Z) (ns : list (addr * Z)) : list (addr * Z) :=
  match ns with
  | [] => []
  | y :: r => if decide (y.1 = a) then x :: y :: r else y :: add_before a x r
  end.

Fixpoint add_behind (a : addr) (x : addr * Z) (ns : list (addr * Z)) : list (addr * Z) :=
  match ns with
  | [] => []
  | y :: r => if decide (y.1 = a) then y :: x :: r else y :: add_behind a x r
  end.

Fixpoint remove_data (v : Z) (ns : list (addr * Z)) : list (addr * Z) :=
  match ns with
  | [] => []
  | y :: r => if decide (y.2 = v) then r else y :: remove_data v r
  end.

(** What an operation does to the sequence; [n] is the node a new element gets. *)
Definition after_op (op : lop) (n : addr) (ns : list (addr * Z)) : list (addr * Z) :=
  match op with
  | Add v | AddSort None v => ns ++ [(n, v)]
  | AddSort (Some cmp) v => add_sorted cmp (n, v) ns
  | AddAfter None v => (n, v) :: ns
  | AddAfter (Some p) v | AddNext p v => add_behind p (n, v) ns
  | AddPrev p v => add_before p (n, v) ns
  | DeleteNode p => filter (fun x => x.1 <> p) ns
  | Delete v => remove_data v ns
  | DeleteAll => []
  end.

(** What a caller must give: data that is not NULL, and nodes of this list. *)
Definition op_valid (op : lop) (ns : list (addr * Z)) : Prop :=
  match op with
  | Add v | AddSort _ v | AddAfter None v => v <> 0
  | AddAfter (Some p) v | AddNext p v | AddPrev p v => v <> 0 /\ p ∈ ns.*1
  | DeleteNode p => p ∈ ns.*1
  | Delete _ | DeleteAll => True
  end.

#[export] Instance op_valid_dec op ns : Decision (op_valid op ns).
Proof. destruct op as [| |[] | | | | |]; simpl; apply _. Defined.

Lemma add_before_split a d x xs ys :
  a ∉ xs.*1 -> add_before a x (xs ++ (a, d) :: ys) = xs ++ x :: (a, d) :: ys.
Proof.
  induction xs as [|y xs IH]; simpl; intros Ha; [by rewrite decide_True|].
  rewrite decide_False, IH; set_solver.
Qed.

Lemma add_behind_split a d x xs ys :
  a ∉ xs.*1 -> add_behind a x (xs ++ (a, d) :: ys) = (xs ++ [(a, d)]) ++ x :: ys.
Proof.
  induction xs as [|y xs IH]; simpl; intros Ha; [by rewrite decide_True|].
  rewrite decide_False, IH; set_solver.
Qed.

Lemma remove_data_split v x xs ys :
  v ∉ xs.*2 -> x.2 = v -> remove_data v (xs ++ x :: ys) = xs ++ ys.
Proof.
  induction xs as [|y xs IH]; simpl; intros Ha Hx; [by rewrite decide_True|].
  rewrite decide_False, IH; set_solver.
Qed.

Lemma remove_data_absent v ns : v ∉ ns.*2 -> remove_data v ns = ns.
Proof.
  induction ns as [|y ns IH]; simpl; intros Ha; [done|].
  rewrite decide_False, IH; set_solver.
Qed.

Lemma filter_split (x : addr * Z) xs ys :
  NoDup (xs ++ x :: ys).*1 -> filter (fun y => y.1 <> x.1) (xs ++ x :: ys) = xs ++ ys.
Proof.
  rewrite fmap_app. simpl. rewrite <- Permutation_middle, NoDup_cons, elem_of_app. intros [Hn _].
  assert (forall zs : list (addr * Z), x.1 ∉ zs.*1 -> filter (fun y => y.1 <> x.1) zs = zs) as K.
  { intros zs Hz. induction zs as [|z zs IH]; [done|]. simpl in Hz.
    rewrite filter_cons_True, IH; set_solver. }
  rewrite filter_app, filter_cons_False by auto. rewrite !K by tauto. done.
Qed.

Lemma node_split (ns : list (addr * Z)) a :
  NoDup ns.*1 -> a ∈ ns.*1 -> exists xs d ys, ns = xs ++ (a, d) :: ys /\ a ∉ xs.*1.
Proof.
  intros ND ([a' d] & -> & Hin)%list_elem_of_fmap.
  apply list_elem_of_split in Hin as (xs & ys & ->). exists xs, d, ys. split; [done|].
  rewrite fmap_app in ND. simpl in ND. rewrite <- Permutation_middle in ND.
  apply NoDup_cons in ND as [Hn _]. rewrite elem_of_app in Hn. simpl. tauto.
Qed.

(** ** The refinement *)

(** What an operation promises of its result: the sequence [ms], no other node
    touched than those of the list and the new one, and no removed node left
    allocated. *)
Definition gives (h : lheap) (ns ms : list (addr * Z)) (r : res (lheap * llist)) : Prop :=
  exists h' l', r = Ret (h', l') /\ rep h' l' ms /\ only (fresh (dom h) :: ns.*1) h h' /\
    (forall a, a ∈ ns.*1 -> a ∉ ms.*1 -> h' !! a = None).

Lemma new_in_gives h xs ys ns ms v r :
  new_in h xs ys v r -> ns = xs ++ ys -> ms = xs ++ (fresh (dom h), v) :: ys -> gives h ns ms r.
Proof.
  intros (h' & l' & E & R & O) -> ->. exists h', l'. split_and!; auto.
  intros a Ha Hb. destruct Hb. rewrite fmap_app in *. simpl. set_solver.
Qed.

Lemma delete_gives h l xs x ys :
  rep h l (xs ++ x :: ys) -> gives h (xs ++ x :: ys) (xs ++ ys) (list_delete_node h l x.1).
Proof.
  intros (h' & l' & E & R' & N & O)%delete_node_ok. exists h', l'. split_and!; auto.
  - eapply only_weaken, O. rewrite !fmap_app. set_solver.
  - rewrite !fmap_app. simpl. intros a Ha Hb. replace a with x.1; [done|]. set_solver.
Qed.

Lemma run_op_ok h l ns op :
  rep h l ns -> op_valid op ns -> gives h ns (after_op op (fresh (dom h)) ns) (run_op op h l).
Proof.
  intros R V. pose proof R as (ND & D & El).
  destruct op as [v|[cmp|] v|[p|] v|p v|p v|p|v|]; simpl in *.
  - eapply new_in_gives; [by apply listnode_add_ok|by rewrite app_nil_r|done].
  - destruct (add_sort_ok cmp h l ns v R V) as (xs & ys & -> & -> & G). by eapply new_in_gives.
  - eapply new_in_gives; [by apply add_last_ok|by rewrite app_nil_r|done].
  - destruct V as [V (xs & d & ys & -> & Hp)%node_split]; [|done]. rewrite add_behind_split by done.
    rewrite add_after_same. rewrite cons_middle, app_assoc in *.
    eapply new_in_gives; [by eapply (add_behind_ok h l xs (p, d) ys v)|done|done].
  - eapply new_in_gives; [by apply add_front_ok|done|done].
  - destruct V as [V (xs & d & ys & -> & Hp)%node_split]; [|done]. rewrite add_before_split by done.
    eapply new_in_gives; [by eapply (add_before_ok h l xs (p, d) ys v)|done|done].
  - destruct V as [V (xs & d & ys & -> & Hp)%node_split]; [|done]. rewrite add_behind_split by done.
    rewrite cons_middle, app_assoc in *.
    eapply new_in_gives; [by eapply (add_behind_ok h l xs (p, d) ys v)|done|done].
  - apply node_split in V as (xs & d & ys & -> & Hp); [|done].
    rewrite (filter_split (p, d)) by done. by apply (delete_gives h l xs (p, d) ys).
  - unfold listnode_delete. rewrite El at 1. cbn [l_head].
    destruct (lookup_from_ok h v None ns _ D (dseg_size _ _ _ _ ND D))
      as [(xs & x & ys & -> & Hx & Hv & ->)|[Hv ->]]; cbn [mbind res_bind].
    + rewrite (remove_data_split v x) by done. by apply delete_gives.
    + rewrite remove_data_absent by done. exists h, l. by split_and!.
  - unfold list_delete_all_node. rewrite El at 1. cbn [l_head].
    destruct (free_nodes_ok h None ns _ ND D (dseg_size _ _ _ _ ND D)) as (h' & -> & N & O).
    cbn [mbind res_bind]. exists h', (LList None None 0). split_and!; [done| | |].
    + split_and!; [constructor|done|done].
    + eapply only_weaken, O. set_solver.
    + auto.
Qed.

(** ** Building a sorted list *)
Section Sort.
Context (cmp : Z -> Z -> Z).

(** [a] may stand before [b]: [cmp] does not put [b] first. *)
Definition in_order (a b : Z) : Prop := 0 <= cmp b a.

Fixpoint add_sort_all (h : lheap) (l : llist) (vs : list Z) : res (lheap * llist) :=
  match vs with
  | [] => Ret (h, l)
  | v :: vs => '(h, l) ← listnode_add_sort (Some cmp) h l v; add_sort_all h l vs
  end.

Lemma add_sorted_perm x ns : add_sorted cmp x ns ≡ₚ x :: ns.
Proof.
  induction ns as [|y ns IH]; simpl; [done|]. destruct (_ <? 0); [done|]. rewrite IH. constructor.
Qed.

Context (asym : forall a b, cmp a b < 0 -> 0 <= cmp b a).
Context (trans : forall a b c, in_order a b -> in_order b c -> in_order a c).

Lemma add_sorted_sorted x ns :
  StronglySorted in_order ns.*2 -> StronglySorted in_order (add_sorted cmp x ns).*2.
Proof.
  induction ns as [|y ns IH]; simpl; [repeat constructor|].
  intros [S F]%StronglySorted_inv. destruct (_ <? 0) eqn:E; zify_bool; simpl.
  - assert (in_order x.2 y.2) as Hxy by (by apply asym).
    constructor; [by constructor|]. constructor; [done|].
    eapply Forall_impl; [exact F|]. eauto.
  - constructor; [auto|]. rewrite add_sorted_perm. simpl. by constructor.
Qed.

Lemma add_sort_all_ok vs : forall h l ns,
  rep h l ns -> Forall (fun v => v <> 0) vs -> StronglySorted in_order ns.*2 ->
  exists h' l' ms, add_sort_all h l vs = Ret (h', l') /\ rep h' l' ms /\
    StronglySorted in_order ms.*2 /\ ms.*2 ≡ₚ ns.*2 ++ vs.
Proof.
  induction vs as [|v vs IH]; intros h l ns R F S; simpl.
  { exists h, l, ns. rewrite app_nil_r. by split_and!. }
  inversion F as [|? ? Hv F']; subst.
  destruct (run_op_ok h l ns (AddSort (Some cmp) v) R Hv) as (h1 & l1 & E & R1 & _). simpl in E, R1.
  rewrite E. cbn [mbind res_bind].
  destruct (IH h1 l1 _ R1 F') as (h2 & l2 & ms & E2 & R2 & S2 & P); [by apply add_sorted_sorted|].
  exists h2, l2, ms. split_and!; auto. rewrite P, add_sorted_perm. simpl.
  by rewrite Permutation_middle.
Qed.
End Sort.

(** ** Putting a node back at the end *)

(** The node reached after [k] steps along [next]. *)
Fixpoint go (k : nat) (h : lheap) (n : option addr) : option addr :=
  match k, n with
  | S k, Some p => match h !! p with Some x => go k h (ln_next x) | None => None end
  | _, _ => n
  end.

Lemma go_closed (A : list addr) h :
  (forall p, p ∈ A -> exists x q, h !! p = Some x /\ ln_next x = Some q /\ q ∈ A) ->
  forall k p, p ∈ A -> is_Some (go k h (Some p)).
Proof.
  intros C k. induction k as [|k IH]; intros p Hp; [simpl; eauto|].
  destruct (C p Hp) as (x & q & Hx & Hq & HqA). simpl. rewrite Hx, Hq. auto.
Qed.

Lemma dseg_next h p ns n a :
  dseg h p ns (Some n) -> a ∈ ns.*1 ->
  exists x q, h !! a = Some x /\ ln_next x = Some q /\ q ∈ n :: ns.*1.
Proof.
  revert p. induction ns as [|x ns IH]; intros p; simpl; [by intros _ ?%elem_of_nil|].
  intros [Hx D] [->|Ha]%elem_of_cons.
  - destruct ns as [|y ns]; eexists _, _; (split; [exact Hx|]); (split; [reflexivity|]);
      simpl; rewrite !elem_of_cons; tauto.
  - destruct (IH _ D Ha) as (y & q & Hy & Hq & Hin). exists y, q. split_and!; auto. set_solver.
Qed.

Lemma attach_ok h l ns a d nx pv :
  rep h l ns -> a ∉ ns.*1 -> h !! a = Some (LNode nx pv d) ->
  exists h' l', LISTNODE_ATTACH h l a = Ret (h', l') /\ dseg h' None ns (Some a) /\
    h' !! a = Some (LNode nx (last_of None ns) d) /\
    l' = LList (first_of ns (Some a)) (Some a) (u32 (u32 (zlen ns) + 1)).
Proof.
  intros (ND & D & ->) Ha E. unfold LISTNODE_ATTACH, put_prev, node_at. rewrite E.
  cbn [mbind res_bind ln_next ln_data l_tail l_head].
  assert (dseg (<[a := LNode nx (last_of None ns) d]> h) None ns None) as D1.
  { eapply dseg_frame; [|exact D]. intros b Hb. apply lookup_insert_ne. by intros <-. }
  destruct (put_next_last _ None ns None (Some a) ND D1) as (h' & E1 & D2 & O).
  exists h', (LList (first_of ns (Some a)) (Some a) (u32 (u32 (zlen ns) + 1))).
  split; [|split_and!; auto; rewrite O by done; apply lookup_insert_eq].
  destruct ns as [|x ns]; [simpl in *; by simplify_eq|].
  destruct (last_some None x ns) as [t Ht]. simpl in *. rewrite Ht in *. simpl in E1. by rewrite E1.
Qed.

(** Putting back the last node changes nothing of the sequence. *)
Lemma requeue_last_ok h l xs x :
  rep h l (xs ++ [x]) ->
  exists h' l', work_queue_item_requeue h l x.1 = Ret (h', l') /\ rep h' l' (xs ++ [x]).
Proof.
  intros R. pose proof R as (ND & D & El). apply dseg_app in D as [_ [Hx _]].
  destruct (detach_ok h l xs x [] R) as (h1 & l1 & E1 & R1 & Ex & _).
  rewrite app_nil_r in *. unfold work_queue_item_requeue. rewrite E1. cbn [mbind res_bind].
  rewrite fmap_app in ND. pose proof ND as (NX & Hd & _)%NoDup_app.
  destruct (attach_ok h1 l1 xs x.1 x.2 None (last_of None xs)) as (h2 & l2 & E2 & D2 & Ex2 & ->).
  - done.
  - intros ?%Hd. set_solver.
  - by rewrite Ex, Hx.
  - eexists h2, _. split; [exact E2|]. split_and!.
    + by rewrite fmap_app.
    + rewrite dseg_app. simpl. by rewrite Ex2.
    + rewrite first_of_app, last_of_app. simpl. f_equal. unfold u32, zlen.
      rewrite Zplus_mod_idemp_l. f_equal. rewrite length_app. simpl. lia.
Qed.

(** Putting back any other node closes a cycle. *)
Lemma requeue_cycles h l xs x y ys :
  rep h l (xs ++ x :: y :: ys) ->
  exists h' l', work_queue_item_requeue h l x.1 = Ret (h', l') /\
    l_count l' = u32 (zlen (xs ++ x :: y :: ys)) /\ forall k, is_Some (go k h' (l_head l')).
Proof.
  intros R. pose proof R as (ND & D & El). apply dseg_app in D as [_ [Hx _]].
  destruct (detach_ok h l xs x (y :: ys) R) as (h1 & l1 & E1 & R1 & Ex & _).
  unfold work_queue_item_requeue. rewrite E1. cbn [mbind res_bind].
  rewrite fmap_app in ND. simpl in ND. rewrite <- Permutation_middle in ND.
  apply NoDup_cons in ND as [Hn ND].
  destruct (attach_ok h1 l1 (xs ++ y :: ys) x.1 x.2 (Some y.1) (last_of None xs))
    as (h2 & l2 & E2 & D2 & Ex2 & ->).
  - done.
  - by rewrite fmap_app.
  - by rewrite Ex, Hx.
  - eexists h2, _. split; [exact E2|]. split.
    + simpl. unfold u32, zlen. rewrite Zplus_mod_idemp_l. f_equal. rewrite !length_app. simpl. lia.
    + intros k. simpl. rewrite first_of_app. simpl.
      assert (exists q, first_of xs (Some y.1) = Some q /\ q ∈ x.1 :: (xs ++ y :: ys).*1)
        as (q & -> & Hq).
      { rewrite fmap_app. destruct xs as [|z xs]; simpl; eexists; (split; [reflexivity|]); set_solver. }
      apply (go_closed (x.1 :: (xs ++ y :: ys).*1)); [|done].
      intros p [->|Hp]%elem_of_cons; [|by eapply dseg_next].
      eexists _, _. split; [exact Ex2|]. split; [reflexivity|]. rewrite fmap_app. set_solver.
Qed.

(** ** Appending one list to another *)
Lemma rep_only h h' A l ns :
  only A h h' -> (forall a, a ∈ ns.*1 -> a ∉ A) -> rep h l ns -> rep h' l ns.
Proof. intros O Hd (ND & D & ->). split_and!; auto. by eapply dseg_only. Qed.

(** The walk over [m] goes on in a heap in which [l] grows. *)
Lemma add_from_ok ms : forall fuel h l ns p,
  rep h l ns -> dseg h p ms None -> (forall a, a ∈ ms.*1 -> a ∉ ns.*1) ->
  Forall (fun x => x.2 <> 0) ms -> (length ms <= fuel)%nat ->
  exists h' l' ns', add_from fuel h l (first_of ms None) = Ret (h', l') /\
    rep h' l' ns' /\ ns'.*2 = ns.*2 ++ ms.*2 /\
    (forall b, b ∈ dom h -> b ∉ ns.*1 -> h' !! b = h !! b).
Proof.
  induction ms as [|x ms IH]; intros fuel h l ns p R D Hd F Hf.
  { exists h, l, ns. rewrite app_nil_r. by destruct fuel. }
  destruct fuel as [|fuel]; [simpl in Hf; lia|]. destruct D as [Hx D].
  inversion F as [|? ? H0 F']; subst. simpl. unfold node_at. rewrite Hx.
  cbn [mbind res_bind ln_data ln_next].
  destruct (listnode_add_ok h l ns x.2 R H0) as (h1 & l1 & -> & R1 & O). cbn [mbind res_bind].
  rewrite app_nil_r in O. pose proof (is_fresh (dom h)) as Fr.
  assert (forall b, b ∈ dom h -> b ∉ ns.*1 -> h1 !! b = h !! b) as K.
  { intros b Hb Hn. apply O. intros [->|?]%elem_of_cons; auto. }
  assert (forall a, a ∈ (x :: ms).*1 -> a ∈ dom h) as Hdom.
  { intros a Ha. apply elem_of_dom, (dseg_dom h p (x :: ms) None); [by split|done]. }
  rewrite (K x.1), Hx; [|apply Hdom; by left|apply Hd; by left]. cbn [mbind res_bind ln_next].
  destruct (IH fuel h1 l1 _ (Some x.1) R1) as (h2 & l2 & ns' & -> & R2 & E2 & O2).
  - eapply dseg_frame; [|exact D]. intros a Ha. apply K; [apply Hdom|apply Hd]; by right.
  - intros a Ha. rewrite fmap_app, elem_of_app. simpl. rewrite list_elem_of_singleton.
    intros [Hb| ->]; [by eapply Hd; [right|]|]. apply Fr, Hdom. by right.
  - done.
  - simpl in Hf. lia.
  - exists h2, l2, ns'. split_and!; [done|done| |].
    + by rewrite E2, fmap_app, <- app_assoc.
    + intros b Hb Hn. rewrite O2.
      * by apply K.
      * apply elem_of_dom. rewrite K by done. by apply elem_of_dom.
      * rewrite fmap_app, elem_of_app. simpl. rewrite list_elem_of_singleton.
        intros [?| ->]; auto.
Qed.

Lemma list_add_list_ok h l m ns ms :
  rep h l ns -> rep h m ms -> (forall a, a ∈ ms.*1 -> a ∉ ns.*1) -> Forall (fun x => x.2 <> 0) ms ->
  exists h' l' ns', list_add_list h l m = Ret (h', l') /\ rep h' l' ns' /\ rep h' m ms /\
    ns'.*2 = ns.*2 ++ ms.*2.
Proof.
  intros R (NM & DM & ->) Hd F. unfold list_add_list. cbn [l_head].
  destruct (add_from_ok ms (base.size h) h l ns None R DM Hd F) as (h' & l' & ns' & -> & R' & E & O).
  { by eapply dseg_size. }
  exists h', l', ns'. split_and!; [done|done| |done]. split_and!; [done| |done].
  eapply dseg_frame; [|exact DM]. intros a Ha. apply O; [|by apply Hd].
  apply elem_of_dom. by eapply dseg_dom.
Qed.

(** ** Properties *)


(** Filling an empty list through [listnode_add_sort] gives a permutation of
    the data in the order of [cmp], for any comparison that is transitive and
    never puts each of two elements before the other. *)
Theorem listnode_add_sort_sorts cmp h vs :
  (forall a b, cmp a b < 0 -> 0 <= cmp b a) ->
  (forall a b c, in_order cmp a b -> in_order cmp b c -> in_order cmp a c) ->
  Forall (fun v => v <> 0) vs ->
  exists h' l' ms, add_sort_all cmp h list_new vs = Ret (h', l') /\ rep h' l' ms /\
    StronglySorted (in_order cmp) ms.*2 /\ ms.*2 ≡ₚ vs.
Proof.
  intros As Tr F. apply (add_sort_all_ok cmp As Tr vs h list_new [] ); [|done|constructor].
  split_and!; [constructor|done|done].
Qed.

(** [work_queue_item_requeue] is right for the last item of a queue and for
    no other: a node with a successor keeps its [next] when it is attached again
    at the end, so the queue becomes a cycle that a walk from its head never
    leaves, while its count says otherwise. *)
Theorem work_queue_requeue_only_last h l xs x ys :
  rep h l (xs ++ x :: ys) ->
  exists h' l', work_queue_item_requeue h l x.1 = Ret (h', l') /\
    match ys with
    | [] => rep h' l' (xs ++ [x])
    | _ => l_count l' = u32 (zlen (xs ++ x :: ys)) /\ forall k, is_Some (go k h' (l_head l'))
    end.
Proof.
  intros R. destruct ys as [|y ys]; [by apply requeue_last_ok|by apply requeue_cycles].
Qed.

(** ** Concrete lists *)
Definition sample_heap : lheap :=
  {[ 1%positive := LNode (Some 2%positive) None 30; 2%positive := LNode None (Some 1%positive) 10 ]}.
Definition sample_list : llist := LList (Some 1%positive) (Some 2%positive) 2.

Lemma sample_rep : rep sample_heap sample_list [(1%positive, 30); (2%positive, 10)].
Proof.
  split_and!; [|by vm_compute|reflexivity]. apply (bool_decide_unpack _). by vm_compute.
Qed.


Lemma listnode_add_sort_sorts_witness :
  exists h' l' ms, add_sort_all Z.sub ∅ list_new [30; 10; 20] = Ret (h', l') /\ rep h' l' ms /\
    StronglySorted (in_order Z.sub) ms.*2 /\ ms.*2 ≡ₚ [30; 10; 20].
Proof.
  apply listnode_add_sort_sorts; [intros; lia|unfold in_order; intros; lia|by_eval].
Defined.

Lemma work_queue_requeue_only_last_witness :
  exists h' l', work_queue_item_requeue sample_heap sample_list 1%positive = Ret (h', l') /\
    l_count l' = 2 /\ forall k, is_Some (go k h' (l_head l')).
Proof.
  exact (work_queue_requeue_only_last sample_heap sample_list [] (1%positive, 30)
           [(2%positive, 10)] sample_rep).
Defined.
